(* ===== verification/_CoqProject ===== *)
-Q . S2P
Prelude.v
Endian.v
Monitor.v
MonitorWake.v
Latch.v
LoopThread.v
StringPiece.v
Buffer.v
BufferProps.v
Codec.v
CodecProps.v
BlockingQueue.v
BoundedQueue.v
ThreadPool.v
RWLock.v
RWLockQueueProps.v
DoubleGuard.v
Atomic.v
Dispatcher.v
Process.v
MuduoBuffer.v
MuduoBufferSafe.v
CodecLite.v
CodecLiteProps.v
Rpc.v
RpcSystem.v
RpcProps.v
RpcSteps.v
RpcTheorems.v
RpcWire.v
Channel.v
TcpConnection.v
TcpSafety.v
TcpProps.v
TcpTheorems.v
EndToEnd.v
Session.v
SessionProps.v
EventLoop.v
Poller.v
PollerProps.v
Date.v
TimeZone.v
TimeZoneProps.v
TimeZoneFile.v
TimerQueue.v
TimerProps.v
Connector.v
LogStream.v
LogStreamProps.v
TimeFormat.v
LogFile.v
LogFileProps.v
AsyncLogging.v
AsyncLoggingProps.v
Logging.v
LoggingProps.v
LogEndToEnd.v
Http.v
HttpProps.v
HttpServerProps.v
TcpServer.v
TcpClient.v
TcpClientProps.v
TcpClientSafe.v
TcpServerProps.v
TcpServerLife.v
