(* ===== verification/Prelude.v ===== *)
(** * airnet: a verification library

    airnet is a C++ network server in the making: a protobuf codec and
    dispatcher, sessions over TCP connections, the queues that connect the
    network threads with the logic threads, and the locks beneath them
    ([src/]). It runs on a vendored copy of the muduo network library
    ([3rd_party/muduo/muduo/], "muduo" below): event loop, pollers, channels,
    connections, timers, logging, and the clients and servers (HTTP, RPC) built
    on them. The library models the code of airnet with the part of
    muduo it stands on, and proves what makes each part correct. All of it is
    executable: pure code is functions, stateful code passes its state, code
    that can fail returns a [res], loops have fuel, threads are instruction
    lists under an interleaving semantics.

    ** How the parts fit together

    A connection ([TcpConnection]) reads bytes into a buffer, the codec cuts
    frames out of it and parses messages, the dispatcher routes them to
    handlers, or a session queues them for the logic thread; answers are encoded
    and sent through the connection. Back pressure couples the two directions:
    a session stops reading while its peer does not take the output. The loop
    runs everything of a connection in one thread; other threads reach it
    through its functor queue, and time reaches it through the timer queue.

    ** Files

    Foundations
    - [Prelude]: faults and the error monad [res], machine integers, byte
      vectors and pointers, [Z]-indexed lists, tactics.
    - [Endian] ([common/base/endian_ex.h]), [StringPiece]
      ([common/base/stringpiece.h]).
    - [Monitor] ([common/base/mutex.h], [condition.h], [current_thread.h]):
      mutex, guards and conditions as instruction lists, an interleaving
      semantics, and a program logic for classes protected by one mutex;
      [MonitorWake]: a discipline under which no thread waits for ever.

    The codec path
    - [Buffer], [BufferProps] ([common/net/buffer.h]): the byte buffer, and its
      refinement of a byte queue with room to prepend.
    - [Codec], [CodecProps] ([common/net/codec_proto.{h,cpp}],
      [google-inl.h]): frames. Serialisation, the checksum and message creation
      are an interface with the laws protobuf and zlib document.
    - [Dispatcher] ([common/net/dispatcher_proto.h]): callbacks by type.

    Queues and shared state
    - [BlockingQueue] ([common/base/blocking_queue.h], [queue_msg_type.h]),
      [BoundedQueue] (muduo [base/BoundedBlockingQueue.h]), [ThreadPool]
      (muduo [base/ThreadPool.{h,cc}]).
    - [RWLock], [RWLockQueueProps] ([common/base/rwlock.h], [rwlock_queue.h]).
    - [Latch] (muduo [base/CountDownLatch.{h,cc}]), [LoopThread] (muduo
      [base/Thread.cc], [net/EventLoopThread.{h,cc}]).
    - [DoubleGuard] ([MutexLockTimedDoubleGuard] of [mutex.h]), [Atomic]
      ([common/base/atomic.h]).
    - [Process] ([main.cpp], [global_init.cc], [singleton.h]).

    The connection
    - [MuduoBuffer], [MuduoBufferSafe] (muduo [net/Buffer.{h,cc}]), [Channel]
      (muduo [net/Channel.{h,cc}]).
    - [TcpConnection], with [TcpSafety] (step lemmas), [TcpProps] (invariants
      of runs) and [TcpTheorems] (muduo [net/TcpConnection.{h,cc}]): the world
      holds the connection, its channel and buffers, the functors queued for it,
      what the socket accepts, and a trace of the callbacks.
    - [Session], [SessionProps] ([common/net/session.cpp],
      [protobuf_session.cpp]) on top of it.
    - [Connector] (muduo [net/Connector.{h,cc}]): outgoing connections.
    - [EndToEnd]: the codec, a connection and the receiver's decoder composed.

    Remote calls
    - [CodecLite], [CodecLiteProps] (muduo
      [net/protobuf/ProtobufCodecLite.{h,cc}]): the codec for one message type,
      with callbacks that may fail.
    - [Rpc] (muduo [net/protorpc/RpcChannel.{h,cc}], [RpcServer.cc]): a channel
      with its heap of response objects and closures; [RpcSystem]: two channels whose threads,
      messages and services interleave; [RpcProps], [RpcSteps], [RpcTheorems]:
      the invariant, its steps, the theorems; [RpcWire]: the same over bytes.

    Clients and servers
    - [TcpServer], [TcpServerProps] (muduo [net/TcpServer.{h,cc}],
      [Acceptor.{h,cc}], [EventLoopThreadPool.{h,cc}]): loops as interleaved
      threads with queues of functors, the map of connections, the objects. Of
      a connection it keeps its life; [TcpServerLife] shows that the full
      [TcpConnection] model makes the moves of that life.
    - [TcpClient], [TcpClientProps], [TcpClientSafe] (muduo
      [net/TcpClient.{h,cc}]): the client with its connector and connections.
    - [Http], [HttpProps], [HttpServerProps] (muduo [net/http/]): requests,
      responses, the parser over a connection's buffer, the server.

    The loop
    - [EventLoop] (muduo [net/EventLoop.{h,cc}]), [Poller], [PollerProps]
      (muduo [net/Poller.cc], [poller/EPollPoller.cc], [poller/PollPoller.cc]),
      [TimerQueue], [TimerProps] (muduo [net/TimerQueue.{h,cc}], [Timer.h],
      [base/Timestamp.h]).

    Time and logging
    - [Date] (muduo [base/Date.{h,cc}]), [TimeZone], [TimeZoneProps],
      [TimeZoneFile] (muduo [base/TimeZone.{h,cc}]), [TimeFormat] (the texts
      of [Timestamp.cc] and [Date.cc]).
    - [LogStream], [LogStreamProps] (muduo [base/LogStream.{h,cc}]): insertion
      operators over a fixed array, integer conversion in place.
    - [Logging], [LoggingProps] (muduo [base/Logging.{h,cc}]): a log statement,
      with the thread's cached second. [LogFile], [LogFileProps] (muduo
      [base/LogFile.{h,cc}], [FileUtil.cc]): files, rolling, short writes.
      [AsyncLogging], [AsyncLoggingProps] (muduo [base/AsyncLogging.{h,cc}]): the
      double buffering between threads and the worker. [LogEndToEnd]: the three
      composed.

    ** What the theorems show

    - Codec: any messages within the size limit, encoded one after the other,
      arrive as exactly those messages however the stream is cut
      ([codec_stream_roundtrip]); on arbitrary input the parser terminates and
      reads nothing outside the buffer, except that a frame with a certain type
      name length makes it hand protobuf a negative size ([ParseMessages_total],
      [Parse_negative_size]); it reports the first bad frame
      ([ParseMessages_error]). Composed
      with the connection, messages sent by any threads over a kernel that
      takes any number of bytes at a time arrive in order ([end_to_end]).
    - Buffers: both refine the same queue ([buffer_refines_queue],
      [muduo_buffer_same_queue]); integers round trip; under any calls whose
      sizes do not wrap around, muduo's stays well-formed or asserts, and never
      leaves its vector ([muduo_buffer_typed]).
    - Queues: under every interleaving of every program of calls, no assertion
      fails and elements leave in the order they came ([BlockingQueue_fifo],
      [BoundedBlockingQueue_bounded], [ThreadPool_fifo]); the reader-writer queue has this, and
      no data race, when one thread does all that takes the read lock
      ([RWLockQueue_one_consumer], with counterexamples beyond).
    - Connections: with any user callbacks that respect the documented
      protocol and other threads that only send, their test of the state and
      their queueing apart, no assertion fails ([TcpConnection_safe]), what the peer gets is
      a prefix of what was sent, in order ([TcpConnection_stream]), a shutdown
      waits for the output ([TcpConnection_graceful]), callbacks follow the
      life cycle ([TcpConnection_callback_protocol]).
    - Sessions: no session can be constructed ([Session_ctor_throws]); the
      handlers, taken for themselves, stop reading above the high water mark and
      resume it when the output has drained ([Session_backpressure]).
    - Loop: no functor queued while the loop runs is forgotten in its sleep
      ([queued_before_loop_waits] shows the exception) and functors run in order ([EventLoop_no_lost_wakeup], [EventLoop_fifo]); both pollers
      implement one interface and agree ([pollers_agree]); timers are safe even
      with reused addresses, but for one read at the end of [addTimer], run when
      due, stay cancelled, and the alarm is always set ([TimerQueue_safe] and the
      theorems beside it).
    - [Connector_safe]: retries, back-off and ownership of sockets.
    - Servers: with any number of loops and users that leave closed connections
      alone, no assertion fails, names are unique, connections are dealt to the loops in turn ([TcpServer_safe]) and none
      leaks ([TcpServer_no_leak]); what the server assumes of a connection is
      what the connection does ([life_abstracts]).
    - Clients: one that is used and destroyed as documented never asserts, and
      its connections outlive it safely ([TcpClient_safe]).
    - Remote calls: whatever interleaves, no step faults, every call is answered
      at most once and by the service it asked ([Rpc_exactly_once]), all calls
      complete when the system runs on ([Rpc_drains]), the destructor frees the
      responses and closures that are left ([RpcChannel_dtor_frees]); frames carry the messages
      ([CodecLite_stream]), so runs over bytes are runs over messages
      ([RpcChannel_over_bytes]).
    - HTTP: requests in any segments are parsed ([HttpContext_segments],
      [HttpRequest_roundtrip]) and answered in order ([HttpServer_conversation],
      [HttpResponse_roundtrip]); a malformed line can bring the server down
      ([HttpServer_malformed_line_aborts]).
    - Latches and loop threads: waiters are released ([CountDownLatch_opens]); a
      loop is handed over, stopped and joined ([EventLoopThread_life]), with the
      runs where that fails.
    - Time: local times and time zone files round trip ([LocalTime_roundtrip],
      [readTimeZoneFile_roundtrip]), and so do times as text
      ([UtcTime_roundtrip], [time_text_roundtrip]).
    - Logging: every statement prints its line ([Logger_lines]). On a system whose
      disk has no errors ([OsHealthy]; what a full disk does is shown, too) the back end
      keeps every line it does not announce as dropped ([AsyncLogging_exact],
      [AsyncLogging_drains]), files are complete ([LogFile_complete]), and so
      lines reach the disk ([logged_lines_reach_the_disk]). A stream holds whole insertions, in order, and never leaves its
      array ([LogStream_holds_text]); numerals read back as the integer they
      were written from ([convert_roundtrip]).
    - Smaller parts: dispatch, deadlock freedom of the double guard, atomics,
      start-up and shutdown of the process, singletons, dates.
    - Defects of the code are theorems too, each with the run that shows it.

    ** Bounds and fuel

    [ParseMessages] runs its loop with one unit of fuel per byte of the buffer
    and one more; [ParseMessages_total] proves that this is always enough, since
    a pass that continues consumes at least a header. The same holds for
    [onMessage] of the lite codec ([CodecLite_total]) and, with the readable bytes
    and one more, for the lines of an HTTP request. [append_loop] of the log file
    has the length of the line and one more, the search in the transitions of a
    time zone their number; the theorems about them state the results, so the
    fuel is enough. The wait loop of [main]
    has the number of observed seconds as fuel and [main_lifecycle] states both
    outcomes. The digit loops have fuel 20, the most digits a 64-bit integer has;
    [convert_roundtrip] and [LogStream_holds_text] prove that they end. Integers keep their width: [size_t], [int] and [int64_t]
    arithmetic wraps or faults as the language says. Vectors hold less than
    2^63 bytes, beyond which [resize] throws.

    ** What is not modelled

    Protobuf, zlib, the kernel and the C++ runtime are parameters or appear as
    the behaviour their documentation gives ([write] accepts a prefix, [epoll]
    keeps an interest list, an eventfd counts). Intervals of timers are binary64
    numbers of the standard specification of floating point; the texts of
    floating point numbers are parameters. Logging, addresses and socket options have no effect in the
    model, beyond what [Logging] says of a statement itself. Files of airnet that
    only declare ([session_manager.h], [netio_if.h], [net_server.h]) have nothing
    to model: their classes have no definitions. Of muduo, the wrappers of socket
    calls and addresses, process information and the inspection pages are left
    out: they pass arguments to the system and print what it answers. Of the RPC
    server only what it adds to [TcpServer] is modelled. The vendored protobuf
    and googletest are other projects, which the program only calls. *)

From stdpp Require Export prelude list gmap relations.
From Stdlib Require Export ZArith.
From Stdlib Require Strings.String.
From coqutil Require Export Byte Word.LittleEndianList.

#[global] Open Scope Z_scope.

(** ** Faults and the error monad

    C++ code fails in ways that are not return values: an [assert] that does
    not hold, an access outside an object (undefined behaviour), an exception.
    Every operation that can fail this way returns a [res]; the theorems of the
    components say under which conditions no fault happens. *)
Inductive fault :=
  | FAssert      (** a failed [assert(...)] *)
  | FBounds      (** a read or write outside the object a pointer points into *)
  | FLength      (** [std::length_error] of [std::vector::resize] *)
  | FOverflow    (** signed integer overflow *)
  | FThrow       (** an exception that leaves the function *)
  | FFatal       (** [GOOGLE_CHECK_*] / [GOOGLE_LOG(FATAL)], which aborts *)
  | FFuel.       (** not of the code: a loop of the model used up its fuel *)

#[global] Instance fault_eq_dec : EqDecision fault.
Proof. solve_decision. Defined.

Inductive res (A : Type) :=
  | Ok (a : A)
  | Fail (f : fault).
Arguments Ok {A} a.
Arguments Fail {A} f.

#[global] Instance res_ret : MRet res := fun A a => Ok a.
#[global] Instance res_bind : MBind res := fun A B k m =>
  match m with Ok a => k a | Fail f => Fail f end.
#[global] Instance res_fmap : FMap res := fun A B f m =>
  match m with Ok a => Ok (f a) | Fail e => Fail e end.

Definition check (b : bool) (f : fault) : res unit :=
  if b then Ok tt else Fail f.
Definition assert_ (b : bool) : res unit := check b FAssert.

Definition is_ok {A} (m : res A) : Prop := exists a, m = Ok a.

Lemma bind_ok {A B} (m : res A) (k : A -> res B) a :
  m = Ok a -> (m ≫= k) = k a.
Proof. by intros ->. Qed.

Lemma bind_inv {A B} (m : res A) (k : A -> res B) b :
  (m ≫= k) = Ok b -> exists a, m = Ok a /\ k a = Ok b.
Proof. destruct m; [by eauto | done]. Qed.

Lemma assert_true b : b = true -> assert_ b = Ok tt.
Proof. by intros ->. Qed.

Lemma assert_bind_true {A} b (k : unit -> res A) :
  b = true -> (assert_ b ≫= k) = k tt.
Proof. by intros ->. Qed.

Lemma assert_bind_false {A} b (k : unit -> res A) :
  b = false -> (assert_ b ≫= k) = Fail FAssert.
Proof. by intros ->. Qed.

(** ** Machine integers

    A [w]-bit integer is a [Z]; [wrap w] is the conversion to the unsigned and
    [swrap w] the conversion to the signed two's complement type of width [w]. *)
Definition wrap (w : Z) (x : Z) : Z := x mod 2 ^ w.
Definition swrap (w : Z) (x : Z) : Z := (x + 2 ^ (w - 1)) mod 2 ^ w - 2 ^ (w - 1).

Definition uint16 := wrap 16.
Definition uint32 := wrap 32.
Definition size_t := wrap 64.
Definition int8 := swrap 8.
Definition int16 := swrap 16.
Definition int32 := swrap 32.

Definition in_u (w x : Z) : Prop := 0 <= x < 2 ^ w.
Definition in_s (w x : Z) : Prop := - 2 ^ (w - 1) <= x < 2 ^ (w - 1).

Lemma wrap_id w x : in_u w x -> wrap w x = x.
Proof. intros H. by apply Z.mod_small. Qed.

Lemma wrap_range w x : 0 <= w -> in_u w (wrap w x).
Proof. intros Hw. apply Z.mod_pos_bound. lia. Qed.

Lemma half_double w : 0 < w -> 2 ^ w = 2 ^ (w - 1) + 2 ^ (w - 1).
Proof. intros Hw. replace w with (Z.succ (w - 1)) at 1 by lia. rewrite Z.pow_succ_r; lia. Qed.

Lemma swrap_id w x : 0 < w -> in_s w x -> swrap w x = x.
Proof.
  intros Hw [Hl Hu]. unfold swrap. rewrite Z.mod_small; [lia|].
  rewrite (half_double w Hw). lia.
Qed.

Lemma swrap_range w x : 0 < w -> in_s w (swrap w x).
Proof.
  intros Hw. unfold in_s, swrap.
  pose proof (Z.mod_pos_bound (x + 2 ^ (w - 1)) (2 ^ w) ltac:(lia)) as H.
  rewrite (half_double w Hw) in *. lia.
Qed.

Lemma swrap_wrap w x : 0 < w -> swrap w (wrap w x) = swrap w x.
Proof. intros Hw. unfold swrap, wrap. by rewrite Zplus_mod_idemp_l. Qed.

Lemma wrap_swrap w x : 0 < w -> wrap w (swrap w x) = wrap w x.
Proof.
  intros Hw. unfold swrap, wrap. rewrite Zminus_mod_idemp_l. f_equal. lia.
Qed.

Lemma size_t_id x : 0 <= x < 2 ^ 64 -> size_t x = x.
Proof. apply (wrap_id 64). Qed.

Lemma uint32_id x : 0 <= x < 2 ^ 32 -> uint32 x = x.
Proof. apply (wrap_id 32). Qed.

Lemma int32_id x : - 2 ^ 31 <= x < 2 ^ 31 -> int32 x = x.
Proof. apply (swrap_id 32); lia. Qed.

Lemma uint32_int32 x : uint32 (int32 x) = uint32 x.
Proof. by apply wrap_swrap. Qed.

Lemma int32_uint32 x : int32 (uint32 x) = int32 x.
Proof. by apply swrap_wrap. Qed.

(** ** Lists indexed by [Z]

    [zlen], [ztake] and [zdrop] are the list operations at C index types; they
    carry the arithmetic side conditions as linear facts on [Z]. *)
Definition zlen {A} (l : list A) : Z := Z.of_nat (length l).
Definition ztake {A} (n : Z) (l : list A) : list A := take (Z.to_nat n) l.
Definition zdrop {A} (n : Z) (l : list A) : list A := drop (Z.to_nat n) l.

Section zlist.
Context {A : Type}.
Implicit Types (l k : list A) (m n : Z).

Lemma zlen_nonneg l : 0 <= zlen l.
Proof. unfold zlen. lia. Qed.

Lemma zlen_nil : zlen (@nil A) = 0.
Proof. done. Qed.

Lemma zlen_cons x l : zlen (x :: l) = 1 + zlen l.
Proof. unfold zlen. cbn [length]. lia. Qed.

Lemma zlen_app l k : zlen (l ++ k) = zlen l + zlen k.
Proof. unfold zlen. rewrite length_app. lia. Qed.

Lemma zlen_take n l : 0 <= n <= zlen l -> zlen (ztake n l) = n.
Proof. unfold zlen, ztake. rewrite length_take. lia. Qed.

Lemma zlen_drop n l : 0 <= n <= zlen l -> zlen (zdrop n l) = zlen l - n.
Proof. unfold zlen, zdrop. rewrite length_drop. lia. Qed.

Lemma zlen_0_nil l : zlen l = 0 -> l = [].
Proof. destruct l; [done|]. rewrite zlen_cons. pose proof (zlen_nonneg l). lia. Qed.

Lemma ztake_0 l : ztake 0 l = [].
Proof. done. Qed.

Lemma zdrop_0 l : zdrop 0 l = l.
Proof. done. Qed.

Lemma ztake_all n l : zlen l <= n -> ztake n l = l.
Proof. unfold zlen, ztake. intros. apply take_ge. lia. Qed.

Lemma zdrop_all n l : zlen l <= n -> zdrop n l = [].
Proof. unfold zlen, zdrop. intros. apply drop_ge. lia. Qed.

Lemma ztake_zdrop n l : ztake n l ++ zdrop n l = l.
Proof. apply take_drop. Qed.

Lemma ztake_app_l n l k : n <= zlen l -> ztake n (l ++ k) = ztake n l.
Proof. unfold zlen, ztake. intros. apply take_app_le. lia. Qed.

Lemma ztake_app_r n l k : zlen l <= n -> ztake n (l ++ k) = l ++ ztake (n - zlen l) k.
Proof.
  unfold zlen, ztake. intros. rewrite take_app_ge by lia. do 2 f_equal. lia.
Qed.

Lemma zdrop_app_l n l k : n <= zlen l -> zdrop n (l ++ k) = zdrop n l ++ k.
Proof. unfold zlen, zdrop. intros. apply drop_app_le. lia. Qed.

Lemma zdrop_app_r n l k : zlen l <= n -> zdrop n (l ++ k) = zdrop (n - zlen l) k.
Proof. unfold zlen, zdrop. intros. rewrite drop_app_ge by lia. f_equal. lia. Qed.

Lemma zdrop_zdrop m n l : 0 <= m -> 0 <= n -> zdrop m (zdrop n l) = zdrop (n + m) l.
Proof. unfold zdrop. intros. rewrite drop_drop. f_equal. lia. Qed.

Lemma ztake_ztake m n l : m <= n -> ztake m (ztake n l) = ztake m l.
Proof. unfold ztake. intros. rewrite take_take. f_equal. lia. Qed.

Lemma zdrop_ztake m n l : 0 <= m <= n -> zdrop m (ztake n l) = ztake (n - m) (zdrop m l).
Proof.
  unfold zdrop, ztake. intros. rewrite skipn_firstn_comm. f_equal. lia.
Qed.

Lemma ztake_zdrop_split m n l :
  0 <= m -> 0 <= n -> ztake (m + n) l = ztake m l ++ ztake n (zdrop m l).
Proof.
  intros. unfold ztake, zdrop. rewrite Z2Nat.inj_add by lia. by rewrite take_take_drop.
Qed.
End zlist.

(** Rewriting database for lengths of slices, and the tactic that decides
    linear facts about lengths after normalising them. *)
Ltac zlen_side :=
  repeat first
    [ rewrite zlen_app | rewrite zlen_cons | rewrite @zlen_nil
    | rewrite zlen_drop by zlen_side | rewrite zlen_take by zlen_side ];
  lia.

Create Rewrite HintDb zlen.
#[export] Hint Rewrite @zlen_nil @zlen_cons @zlen_app : zlen.
#[export] Hint Rewrite @zlen_take @zlen_drop using zlen_side : zlen.

Ltac zlen_pos :=
  repeat match goal with
  | _ : context [zlen ?l] |- _ =>
      lazymatch goal with _ : 0 <= zlen l |- _ => fail | _ => pose proof (zlen_nonneg l) end
  | |- context [zlen ?l] =>
      lazymatch goal with _ : 0 <= zlen l |- _ => fail | _ => pose proof (zlen_nonneg l) end
  end.
Ltac zlen_lia := zlen_pos; autorewrite with zlen in *; zlen_pos; lia.

(** ** Objects in memory

    [std::vector<char>] and every other byte object is a [list byte]; a
    [const char*] is a block with an offset, or null. Reading or writing
    outside the block is a fault. *)
Abbreviation bytes := (list byte).

(** A string literal as bytes. *)
Definition lit (s : String.string) : bytes := String.list_byte_of_string s.

#[global] Instance byte_eq_dec : EqDecision byte := Byte.byte_eq_dec.
#[global] Instance byte_countable : Countable byte :=
  inj_countable Byte.to_N Byte.of_N Byte.of_to_N.

Inductive ptr :=
  | NullPtr
  | Ptr (blk : bytes) (off : Z).

(** [p + n] *)
Definition ptr_add (p : ptr) (n : Z) : ptr :=
  match p with
  | NullPtr => NullPtr
  | Ptr blk off => Ptr blk (off + n)
  end.

(** [vector<char>::max_size()] on a 64-bit target ([PTRDIFF_MAX]). *)
Definition max_size : Z := 2 ^ 63 - 1.

(** The bytes [v[off .. off+len)]. *)
Definition vec_read (v : bytes) (off len : Z) : res bytes :=
  check ((0 <=? off) && (0 <=? len) && (off + len <=? zlen v)) FBounds;;
  Ok (ztake len (zdrop off v)).

(** [std::copy] of [data] to [v.begin()+off]. *)
Definition vec_write (v : bytes) (off : Z) (data : bytes) : res bytes :=
  check ((0 <=? off) && (off + zlen data <=? zlen v)) FBounds;;
  Ok (ztake off v ++ data ++ zdrop (off + zlen data) v).

(** [v.resize(n)]: value-initialises the new elements. *)
Definition vec_resize (v : bytes) (n : Z) : res bytes :=
  check (n <=? max_size) FLength;;
  Ok (if n <=? zlen v then ztake n v
      else v ++ repeat Byte.x00 (Z.to_nat (n - zlen v))).

(** Reading [len] bytes at [p]; no byte is touched when [len] is zero. *)
Definition ptr_read (p : ptr) (len : Z) : res bytes :=
  if len =? 0 then Ok [] else
  match p with
  | NullPtr => Fail FBounds
  | Ptr blk off => vec_read blk off len
  end.

Lemma vec_read_ok v off len :
  0 <= off -> 0 <= len -> off + len <= zlen v ->
  vec_read v off len = Ok (ztake len (zdrop off v)).
Proof.
  intros. unfold vec_read, check.
  rewrite (proj2 (Z.leb_le 0 off)), (proj2 (Z.leb_le 0 len)) by lia.
  by rewrite (proj2 (Z.leb_le _ _)).
Qed.

Lemma vec_read_inv v off len d :
  vec_read v off len = Ok d ->
  0 <= off /\ 0 <= len /\ off + len <= zlen v /\ d = ztake len (zdrop off v).
Proof.
  unfold vec_read, check. case_match eqn:E; [|done]. intros [= <-].
  apply andb_true_iff in E as [E ?%Z.leb_le].
  apply andb_true_iff in E as [?%Z.leb_le ?%Z.leb_le]. done.
Qed.

Lemma vec_write_ok v off d :
  0 <= off -> off + zlen d <= zlen v ->
  vec_write v off d = Ok (ztake off v ++ d ++ zdrop (off + zlen d) v).
Proof.
  intros. unfold vec_write, check.
  rewrite (proj2 (Z.leb_le 0 off)) by lia. by rewrite (proj2 (Z.leb_le _ _)).
Qed.

Lemma vec_write_len v off d v' :
  vec_write v off d = Ok v' -> zlen v' = zlen v.
Proof.
  unfold vec_write, check. case_match eqn:E; [|done]. intros [= <-].
  apply andb_true_iff in E as [?%Z.leb_le ?%Z.leb_le]. zlen_lia.
Qed.

(** Writing a string is writing its parts one after the other. *)
Lemma vec_write_app v off a b : 0 <= off ->
  vec_write v off (a ++ b) = (d ← vec_write v off a; vec_write d (off + zlen a) b).
Proof.
  intros Ho. pose proof (zlen_nonneg a). pose proof (zlen_nonneg b).
  destruct (decide (off + zlen a <= zlen v)) as [Ha|Ha].
  - rewrite (vec_write_ok v off a) by done. cbn [mbind res_bind].
    set (w := ztake off v ++ a ++ zdrop (off + zlen a) v).
    assert (Hw : zlen w = zlen v) by (subst w; zlen_side).
    unfold vec_write, check. rewrite Hw, zlen_app, Z.add_assoc.
    rewrite !(proj2 (Z.leb_le 0 _)) by lia. cbn [andb]. case_match eqn:E; [|done].
    apply Z.leb_le in E. cbn. subst w.
    rewrite (app_assoc (ztake off v) a (zdrop (off + zlen a) v)), ztake_app_l, (ztake_all (off + zlen a)) by zlen_side.
    rewrite zdrop_app_r by zlen_side. rewrite zlen_app, zlen_take, zdrop_zdrop by lia.
    rewrite <- !app_assoc. do 5 f_equal. lia.
  - unfold vec_write, check. rewrite !zlen_app.
    rewrite !(proj2 (Z.leb_gt _ (zlen v))) by lia. by rewrite !andb_false_r.
Qed.

Lemma vec_write_cons v off c s : 0 <= off ->
  vec_write v off (c :: s) = (d ← vec_write v off [c]; vec_write d (off + 1) s).
Proof. intros. by apply (vec_write_app v off [c]). Qed.

Lemma vec_write_inv v off d v' : vec_write v off d = Ok v' ->
  0 <= off /\ off + zlen d <= zlen v /\ v' = ztake off v ++ d ++ zdrop (off + zlen d) v.
Proof.
  unfold vec_write, check. case_match eqn:E; [|done]. intros [= <-].
  by apply andb_true_iff in E as [?%Z.leb_le ?%Z.leb_le].
Qed.

Lemma vec_write_read v off a b v' :
  vec_write v off (a ++ b) = Ok v' -> vec_read v' off (zlen a) = Ok a.
Proof.
  intros (?&?&->)%vec_write_inv. rewrite zlen_app in *. zlen_pos.
  rewrite vec_read_ok by zlen_side. rewrite zdrop_app_r by zlen_side.
  rewrite zlen_take, Z.sub_diag, zdrop_0 by lia.
  by rewrite <- app_assoc, ztake_app_l, ztake_all by lia.
Qed.

Lemma vec_write_over v off a a' b v' : zlen a = zlen a' ->
  vec_write v off (a ++ b) = Ok v' -> vec_write v' off a' = vec_write v off (a' ++ b).
Proof.
  intros Hl (?&?&->)%vec_write_inv. rewrite zlen_app in *. zlen_pos.
  rewrite !vec_write_ok by zlen_side. f_equal.
  rewrite ztake_app_l, (ztake_all off) by zlen_side. f_equal. rewrite <- !app_assoc. f_equal.
  rewrite zdrop_app_r, zdrop_app_r by zlen_side. rewrite zlen_take by lia.
  replace (_ - _ - _) with 0 by lia. rewrite zdrop_0, !zlen_app. do 2 f_equal. lia.
Qed.

Lemma vec_resize_grow v n :
  zlen v <= n <= max_size ->
  exists pad, vec_resize v n = Ok (v ++ pad) /\ zlen (v ++ pad) = n.
Proof.
  intros [Hl Hm]. unfold vec_resize, check. rewrite (proj2 (Z.leb_le n max_size)) by done.
  destruct (Z.leb_spec n (zlen v)).
  - exists []. rewrite app_nil_r, ztake_all by lia. split; [done | lia].
  - eexists; split; [done|]. rewrite zlen_app. unfold zlen at 2.
    rewrite repeat_length. lia.
Qed.

Lemma ptr_read_ok blk off len :
  0 <= off -> 0 <= len -> off + len <= zlen blk ->
  ptr_read (Ptr blk off) len = Ok (ztake len (zdrop off blk)).
Proof.
  intros. unfold ptr_read. destruct (Z.eqb_spec len 0) as [->|]; [by rewrite ztake_0|].
  by apply vec_read_ok.
Qed.

Lemma ptr_read_all d : ptr_read (Ptr d 0) (zlen d) = Ok d.
Proof. zlen_pos. rewrite ptr_read_ok by lia. by rewrite zdrop_0, ztake_all. Qed.

Lemma ptr_read_exact d n : zlen d = n -> ptr_read (Ptr d 0) n = Ok d.
Proof. intros <-. apply ptr_read_all. Qed.

Lemma ptr_read_len p len d : ptr_read p len = Ok d -> zlen d = len /\ 0 <= len.
Proof.
  unfold ptr_read. destruct (Z.eqb_spec len 0) as [->|]; [by intros [= <-]|].
  destruct p as [|blk off]; [done|]. intros (?&?&?&->)%vec_read_inv. zlen_lia.
Qed.

(** ** Proof automation shared by the components *)

(** Boolean tests of the model as linear facts. *)
Ltac unbool :=
  repeat match goal with
  | H : (_ && _)%bool = true |- _ => apply andb_true_iff in H as [? ?]
  | H : (_ <=? _) = true |- _ => apply Z.leb_le in H
  | H : (_ <=? _) = false |- _ => apply Z.leb_gt in H
  | H : (_ <? _) = true |- _ => apply Z.ltb_lt in H
  | H : (_ <? _) = false |- _ => apply Z.ltb_ge in H
  | H : (_ =? _) = true |- _ => apply Z.eqb_eq in H
  | H : (_ =? _) = false |- _ => apply Z.eqb_neq in H
  end.

(** Case analysis on the first comparison of the goal. *)
Ltac case_cmp :=
  match goal with
  | |- context [?a <=? ?b] => destruct (Z.leb_spec a b)
  | |- context [?a <? ?b] => destruct (Z.ltb_spec a b)
  | |- context [?a =? ?b] => destruct (Z.eqb_spec a b)
  end.

(** Inverts a successful [res] computation in a hypothesis, step by step. *)
Ltac inv_res :=
  repeat match goal with
  | H : Ok _ = Ok _ |- _ => injection H as H; subst
  | H : Fail _ = Ok _ |- _ => discriminate H
  | H : Ok _ = Fail _ |- _ => discriminate H
  | H : (_ ≫= _) = Ok _ |- _ => apply bind_inv in H as (? & ? & H)
  | H : check ?b _ = Ok _ |- _ =>
      let E := fresh "E" in destruct b eqn:E; [cbn in H | discriminate H]
  | H : assert_ ?b = Ok _ |- _ =>
      let E := fresh "E" in destruct b eqn:E; [cbn in H | discriminate H]
  | x : unit |- _ => destruct x
  end.

(** ** Partial correctness up to memory

    [sat Q m]: the computation [m] either succeeds with a result in [Q] or
    stops because the address space is exhausted ([std::length_error]); no
    assertion fails and nothing is undefined. *)
Definition sat {A} (Q : A -> Prop) (m : res A) : Prop :=
  match m with
  | Ok a => Q a
  | Fail FLength => True
  | Fail _ => False
  end.

Lemma sat_bind {A B} (Q : B -> Prop) (m : res A) (k : A -> res B) :
  sat (fun a => sat Q (k a)) m -> sat Q (m ≫= k).
Proof. destruct m as [a|[]]; done. Qed.

Lemma sat_mono {A} (P Q : A -> Prop) m : (forall a, P a -> Q a) -> sat P m -> sat Q m.
Proof. intros H. destruct m as [a|[]]; cbn; auto. Qed.

Lemma sat_assert {A} (Q : A -> Prop) b (k : unit -> res A) :
  b = true -> sat Q (k tt) -> sat Q (assert_ b ≫= k).
Proof. by intros ->. Qed.

(** ** Transition systems

    Invariants of a step relation hold in every reachable state. *)
Lemma rtc_invariant {S} (step : relation S) (I : S -> Prop) s s' :
  (forall a b, I a -> step a b -> I b) -> rtc step s s' -> I s -> I s'.
Proof. intros Hstep. induction 1; eauto. Qed.

(** ** Counting

    How often an element occurs in a list. *)
Section count.
Context {A : Type} `{EqDecision A}.

Definition cnt (x : A) (l : list A) : nat := length (filter (fun y => y = x) l).

Lemma cnt_nil x : cnt x [] = 0%nat.
Proof. done. Qed.
Lemma cnt_cons x y l : cnt x (y :: l) = ((if decide (y = x) then 1 else 0) + cnt x l)%nat.
Proof. unfold cnt. rewrite filter_cons. by destruct (decide _). Qed.
Lemma cnt_app x l k : cnt x (l ++ k) = (cnt x l + cnt x k)%nat.
Proof. unfold cnt. by rewrite filter_app, length_app. Qed.
Lemma cnt_perm x l k : l ≡ₚ k -> cnt x l = cnt x k.
Proof. unfold cnt. by intros ->. Qed.
Lemma cnt_elem x l : x ∈ l <-> (0 < cnt x l)%nat.
Proof.
  induction l as [|y l IH]; [rewrite cnt_nil; split; [by intros ?%elem_of_nil | lia]|].
  rewrite cnt_cons, elem_of_cons, IH. destruct (decide (y = x)) as [->|]; intuition (lia || congruence).
Qed.
Lemma cnt_NoDup l : (forall x, (cnt x l <= 1)%nat) -> NoDup l.
Proof.
  induction l as [|y l IH]; intros H; constructor.
  - rewrite cnt_elem. specialize (H y). rewrite cnt_cons, decide_True in H by done. lia.
  - apply IH. intros x. specialize (H x). rewrite cnt_cons in H. lia.
Qed.
End count.
Arguments cnt : simpl never.

(** Counting through a projection, after an element was removed or replaced. *)
Section count_map.
Context {A B : Type} `{EqDecision B}.
Lemma cnt_delete (f : A -> B) x l i a : l !! i = Some a -> cnt x (f <$> l) = ((if decide (f a = x) then 1 else 0) + cnt x (f <$> delete i l))%nat.
Proof. intros H. rewrite <- cnt_cons, <- fmap_cons. apply cnt_perm, fmap_Permutation, (delete_Permutation l i a H). Qed.

Lemma cnt_insert (f : A -> B) x l i a a' : l !! i = Some a -> f a' = f a -> cnt x (f <$> <[i := a']> l) = cnt x (f <$> l).
Proof. intros H Hf. f_equal. rewrite list_fmap_insert, Hf. by rewrite list_insert_id by (by rewrite list_lookup_fmap, H). Qed.

Lemma cnt_omap_delete (f : A -> option B) x l i a : l !! i = Some a ->
  cnt x (omap f l) = ((if decide (f a = Some x) then 1 else 0) + cnt x (omap f (delete i l)))%nat.
Proof.
  intros H. rewrite (cnt_perm x _ _ (omap_Permutation f _ _ (delete_Permutation l i a H))). cbn [omap list_omap].
  destruct (f a) as [y|]; [rewrite cnt_cons|]; repeat destruct (decide _); simplify_eq; done.
Qed.

Lemma cnt_omap_insert (f : A -> option B) x l i a a' : l !! i = Some a ->
  cnt x (omap f (<[i := a']> l)) = ((if decide (f a' = Some x) then 1 else 0) + cnt x (omap f (delete i l)))%nat.
Proof.
  intros H. rewrite insert_take_drop by (by eapply lookup_lt_Some). rewrite delete_take_drop, !omap_app, !cnt_app. cbn [omap list_omap].
  destruct (f a') as [y|]; [rewrite cnt_cons|]; repeat destruct (decide _); simplify_eq; lia.
Qed.
End count_map.

Lemma list_insert_inv {A} (l : list A) i a x : x ∈ <[i := a]> l -> x = a \/ x ∈ l.
Proof.
  intros [j Hj]%list_elem_of_lookup. apply list_lookup_insert_Some in Hj as [(_ & -> & _)|[_ Hj]]; [by left | right].
  by eapply list_elem_of_lookup_2.
Qed.

(** ** Runs

    The end of a run that returns, and whether it does. *)
Definition ended {A} (r : option (res A)) (d : A) : A := match r with Some (Ok s) => s | _ => d end.
Definition ends {A} (r : option (res A)) : bool := match r with Some (Ok _) => true | _ => false end.
Lemma ends_ended {A} (r : option (res A)) d : ends r = true -> r = Some (Ok (ended r d)).
Proof. by destruct r as [[]|]. Qed.
