(* ===== verification/Endian.v ===== *)
(** * Byte order ([src/common/base/endian_ex.h])

    The object representation of an integer depends on the host; the
    functions of [sockets] convert between host values and network values.
    [Host] is the byte order of the machine the code runs on, so every theorem
    holds on little- and on big-endian hosts, and some relate two hosts. *)
From S2P Require Import Prelude.

Inductive endianness := LittleEndian | BigEndian.

Class Host := host : endianness.

(** ** Object representation: what [memcpy] from and to an [n]-byte integer moves *)
Section representation.
Context {h : Host}.

Definition store_int (n : nat) (x : Z) : bytes :=
  match host with
  | LittleEndian => le_split n x
  | BigEndian => rev (le_split n x)
  end.

Definition load_int (l : bytes) : Z :=
  match host with
  | LittleEndian => le_combine l
  | BigEndian => le_combine (rev l)
  end.

(** glibc's [htobe<w>] / [be<w>toh] macros on an [8*n]-bit value. *)
Definition bswap (n : nat) (x : Z) : Z := le_combine (rev (le_split n x)).

Definition htobe (n : nat) (x : Z) : Z :=
  match host with LittleEndian => bswap n x | BigEndian => x end.
Definition betoh (n : nat) (x : Z) : Z :=
  match host with LittleEndian => bswap n x | BigEndian => x end.

(** ** The conversion functions *)
Definition HostToNetwork64 (host64 : Z) : Z := htobe 8 host64.
Definition HostToNetwork32 (host32 : Z) : Z := htobe 4 host32.
Definition HostToNetwork16 (host16 : Z) : Z := htobe 2 host16.
Definition NetworkToHost64 (net64 : Z) : Z := betoh 8 net64.
Definition NetworkToHost32 (net32 : Z) : Z := betoh 4 net32.
Definition NetworkToHost16 (net16 : Z) : Z := betoh 2 net16.
End representation.

(** ** Big-endian reference representation *)
Definition be_bytes (n : nat) (x : Z) : bytes := rev (le_split n x).
Definition be_value (l : bytes) : Z := le_combine (rev l).

Lemma length_be_bytes n x : length (be_bytes n x) = n.
Proof. unfold be_bytes. by rewrite length_rev, length_le_split. Qed.

Lemma zlen_be_bytes n x : zlen (be_bytes n x) = Z.of_nat n.
Proof. unfold zlen. by rewrite length_be_bytes. Qed.
#[export] Hint Rewrite zlen_be_bytes : zlen.

Lemma be_value_bytes n x : be_value (be_bytes n x) = x mod 2 ^ (Z.of_nat n * 8).
Proof. unfold be_value, be_bytes. by rewrite rev_involutive, le_combine_split. Qed.

Lemma be_bytes_mod n x : be_bytes n (x mod 2 ^ (Z.of_nat n * 8)) = be_bytes n x.
Proof. unfold be_bytes. by rewrite <- le_split_mod. Qed.

Lemma be_value_range l : 0 <= be_value l < 2 ^ (8 * zlen l).
Proof.
  unfold be_value, zlen. pose proof (le_combine_bound (rev l)). by rewrite length_rev in *.
Qed.

Lemma be_bytes_value l : be_bytes (length l) (be_value l) = l.
Proof.
  unfold be_bytes, be_value. rewrite split_le_combine'; [by rewrite rev_involutive|].
  by rewrite length_rev.
Qed.

(** ** Every host writes and reads the reference representation *)
Lemma store_htobe {h : Host} n x : store_int n (htobe n x) = be_bytes n x.
Proof.
  unfold store_int, htobe, bswap, be_bytes. destruct host; [|done].
  apply split_le_combine'. by rewrite length_rev, length_le_split.
Qed.

Lemma betoh_load {h : Host} l : betoh (length l) (load_int l) = be_value l.
Proof.
  unfold betoh, load_int, bswap, be_value. destruct host; [|done].
  by rewrite split_le_combine.
Qed.

Lemma zlen_store_int {h : Host} n x : zlen (store_int n x) = Z.of_nat n.
Proof.
  unfold store_int, zlen. destruct host; rewrite ?length_rev, length_le_split; done.
Qed.
#[export] Hint Rewrite @zlen_store_int : zlen.

(** ** Signed integers on the wire

    [int32_t be32 = HostToNetwork32(x)] passes through [uint32_t] twice; the
    stored bytes are those of [x] all the same. *)
Lemma store_signed {h : Host} n w x : w = Z.of_nat n * 8 -> 0 < w ->
  store_int n (swrap w (htobe n (wrap w x))) = be_bytes n x.
Proof.
  intros -> Hw.
  assert (Hmod : forall y, store_int n (swrap (Z.of_nat n * 8) y) = store_int n y).
  { intros y. unfold store_int.
    rewrite (le_split_mod (swrap _ y)), (le_split_mod y).
    by rewrite (wrap_swrap _ y Hw : swrap _ y mod _ = y mod _). }
  rewrite Hmod, store_htobe. apply be_bytes_mod.
Qed.

Lemma load_signed {h : Host} w l : w = zlen l * 8 -> 0 < w ->
  swrap w (betoh (length l) (wrap w (swrap w (load_int l)))) = swrap w (be_value l).
Proof.
  intros -> Hw. rewrite wrap_swrap by done. f_equal. rewrite <- betoh_load.
  f_equal. apply Z.mod_small. unfold load_int, zlen. rewrite (Z.mul_comm _ 8).
  destruct host; [apply le_combine_bound|].
  pose proof (le_combine_bound (rev l)). by rewrite length_rev in *.
Qed.

(** The wire format does not depend on the host. Whatever 32-bit value
    host [h1] converts with [HostToNetwork32] and copies byte-wise to the wire,
    host [h2] reads back with [NetworkToHost32] unchanged, whatever the byte
    orders of the two machines are. *)
Theorem endian32_interoperable (h1 h2 : Host) x : in_u 32 x ->
  @NetworkToHost32 h2 (@load_int h2 (@store_int h1 4 (@HostToNetwork32 h1 x))) = x.
Proof.
  intros Hx. unfold HostToNetwork32, NetworkToHost32. rewrite (@store_htobe h1).
  rewrite <- (length_be_bytes 4 x) at 1. rewrite (@betoh_load h2), be_value_bytes.
  by apply Z.mod_small.
Qed.

Lemma endian32_interoperable_witness :
  in_u 32 0x01020304 /\
  @NetworkToHost32 BigEndian (@load_int BigEndian
    (@store_int LittleEndian 4 (@HostToNetwork32 LittleEndian 0x01020304))) = 0x01020304.
Proof.
  split; [split; [discriminate | reflexivity]|].
  apply (endian32_interoperable LittleEndian BigEndian). split; [discriminate | reflexivity].
Defined.
