(* ===== verification/Monitor.v ===== *)
(** * Mutexes and conditions ([src/common/base/mutex.h], [condition.h], [current_thread.h])

    Threads interleave at the granularity of the pthread calls, the writes of
    [holder_] and the accesses to the protected data. A method of a class that
    owns a [MutexLock] is a list of such instructions; the constructor and
    destructor of a guard are the lists [MutexLockGuard_ctor] and
    [MutexLockGuard_dtor] around the body.

    The second half is a program logic for such classes: a step-indexed safety
    predicate on the code of one thread, sound for every interleaving. *)
From S2P Require Import Prelude.

Definition tid_t := Z.

(** [CurrentThread::tid()]: [t_cachedTid] is filled by [CacheTid()] on first use. *)
Definition CurrentThread_tid (t_cachedTid gettid : Z) : Z :=
  if t_cachedTid =? 0 then gettid else t_cachedTid.

(** ** Instructions

    [D] is the data a mutex protects, [L] the locals of a thread. *)
#[warnings="-register-all"]
Inductive instr (D L : Type) :=
  | PMutexLock                    (** [MCHECK(pthread_mutex_lock(&mutex_))] *)
  | PMutexTimedLock               (** [MCHECK(pthread_mutex_timedlock(...))] *)
  | PMutexUnlock                  (** [MCHECK(pthread_mutex_unlock(&mutex_))] *)
  | AssignHolder                  (** [holder_ = CurrentThread::tid()] *)
  | UnassignHolder                (** [holder_ = 0] *)
  | PCondWait (c : nat)           (** [MCHECK(pthread_cond_wait(&pcond_, mutex))] *)
  | PCondAsleep (c : nat)         (** inside the wait, blocked *)
  | PCondSignal (c : nat)         (** [MCHECK(pthread_cond_signal(&pcond_))] *)
  | PCondBroadcast (c : nat)      (** [MCHECK(pthread_cond_broadcast(&pcond_))] *)
  | Act (f : D -> L -> res (D * L))   (** an access to the protected data *)
  | Local (g : L -> L)            (** code of the calling thread on its own variables *)
  | While (b : D -> bool) (body : list (instr D L))
  | If (b : D -> bool) (body : list (instr D L)).
Arguments PMutexLock {D L}.
Arguments PMutexTimedLock {D L}.
Arguments PMutexUnlock {D L}.
Arguments AssignHolder {D L}.
Arguments UnassignHolder {D L}.
Arguments PCondWait {D L} c.
Arguments PCondAsleep {D L} c.
Arguments PCondSignal {D L} c.
Arguments PCondBroadcast {D L} c.
Arguments Act {D L} f.
Arguments Local {D L} g.
Arguments While {D L} b body.
Arguments If {D L} b body.

(** ** The methods of [MutexLock], the guards and [Condition] *)
Section methods.
Context {D L : Type}.
Abbreviation code_t := (list (instr D L)).

Definition MutexLock_lock : code_t := [PMutexLock; AssignHolder].
Definition MutexLock_unlock : code_t := [UnassignHolder; PMutexUnlock].
Definition MutexLock_timed_lock : code_t := [PMutexTimedLock; AssignHolder].
Definition MutexLockGuard_ctor : code_t := MutexLock_lock.
Definition MutexLockGuard_dtor : code_t := MutexLock_unlock.
Definition MutexLockTimedGuard_ctor : code_t := MutexLock_timed_lock.
Definition MutexLockTimedGuard_dtor : code_t := MutexLock_unlock.

(** [UnassignGuard ug(mutex_)] around the wait. *)
Definition UnassignGuard_ctor : code_t := [UnassignHolder].
Definition UnassignGuard_dtor : code_t := [AssignHolder].
Definition Condition_Wait (c : nat) : code_t :=
  UnassignGuard_ctor ++ [PCondWait c] ++ UnassignGuard_dtor.
Definition Condition_Notify (c : nat) : code_t := [PCondSignal c].
Definition Condition_NotifyAll (c : nat) : code_t := [PCondBroadcast c].
End methods.

(** ** States and steps *)
Record thread D L := mkThread { code : list (instr D L); local : L }.
Arguments mkThread {D L} code local.
Arguments code {D L} t.
Arguments local {D L} t.

Record system D L := mkSystem {
  owner : option tid_t;              (** [mutex_], as pthread keeps it *)
  holder_ : tid_t;
  data : D;
  threads : gmap tid_t (thread D L);
  crashed : option fault;
}.
Arguments mkSystem {D L} owner holder_ data threads crashed.
Arguments owner {D L} s.
Arguments holder_ {D L} s.
Arguments data {D L} s.
Arguments threads {D L} s.
Arguments crashed {D L} s.

(** What the scheduler decides: the thread a signal wakes, a timeout. *)
Inductive choice := NoChoice | Wake (t : tid_t) | TimeOut.

Section semantics.
Context {D L : Type}.
Abbreviation system := (system D L).
Abbreviation thread := (thread D L).

Definition IsLockedByThisThread (s : system) (t : tid_t) : bool := holder_ s =? t.

Definition asleep_on (c : nat) (th : thread) : bool :=
  match code th with PCondAsleep c' :: _ => Nat.eqb c c' | _ => false end.

(** A woken thread leaves the wait by acquiring the mutex again. *)
Definition awaken (th : thread) : thread :=
  match code th with
  | PCondAsleep _ :: k => mkThread (PMutexLock :: k) (local th)
  | _ => th
  end.

Definition crash (s : system) (f : fault) : system :=
  mkSystem (owner s) (holder_ s) (data s) (threads s) (Some f).

(** One step of thread [t], [None] when it is blocked or finished. *)
Definition exec (s : system) (t : tid_t) (ch : choice) : option system :=
  match crashed s, threads s !! t with
  | None, Some (mkThread (i :: k) l) =>
      let go o h d l' k' := Some (mkSystem o h d (<[t := mkThread k' l']> (threads s)) None) in
      match i with
      | PMutexLock =>
          match owner s with
          | None => go (Some t) (holder_ s) (data s) l k
          | Some _ => None
          end
      | PMutexTimedLock =>
          match owner s, ch with
          | None, _ => go (Some t) (holder_ s) (data s) l k
          | Some _, TimeOut => Some (crash s FAssert)
          | Some _, _ => None
          end
      | PMutexUnlock =>
          if decide (owner s = Some t) then go None (holder_ s) (data s) l k
          else Some (crash s FBounds)
      | AssignHolder => go (owner s) t (data s) l k
      | UnassignHolder => go (owner s) 0 (data s) l k
      | PCondWait c =>
          if decide (owner s = Some t) then go None (holder_ s) (data s) l (PCondAsleep c :: k)
          else Some (crash s FBounds)
      | PCondAsleep c => go (owner s) (holder_ s) (data s) l (PMutexLock :: k)
      | PCondSignal c =>
          match ch with
          | Wake t' =>
              match threads s !! t' with
              | Some th' =>
                  if asleep_on c th' then
                    Some (mkSystem (owner s) (holder_ s) (data s)
                      (<[t := mkThread k l]> (<[t' := awaken th']> (threads s))) None)
                  else None
              | None => None
              end
          | _ =>
              if decide (map_Forall (fun _ th' => asleep_on c th' = false) (threads s))
              then go (owner s) (holder_ s) (data s) l k else None
          end
      | PCondBroadcast c =>
          Some (mkSystem (owner s) (holder_ s) (data s)
            (<[t := mkThread k l]> ((fun th' => if asleep_on c th' then awaken th' else th')
              <$> threads s)) None)
      | Act f =>
          match f (data s) l with
          | Ok (d, l') => go (owner s) (holder_ s) d l' k
          | Fail e => Some (crash s e)
          end
      | Local g => go (owner s) (holder_ s) (data s) (g l) k
      | While b body =>
          if b (data s) then go (owner s) (holder_ s) (data s) l (body ++ While b body :: k)
          else go (owner s) (holder_ s) (data s) l k
      | If b body =>
          if b (data s) then go (owner s) (holder_ s) (data s) l (body ++ k)
          else go (owner s) (holder_ s) (data s) l k
      end
  | _, _ => None
  end.

Definition step (s s' : system) : Prop := exists t ch, exec s t ch = Some s'.

(** Run a schedule. *)
Fixpoint run (s : system) (sched : list (tid_t * choice)) : option system :=
  match sched with
  | [] => Some s
  | (t, ch) :: sched => s' ← exec s t ch; run s' sched
  end.

Lemma run_rtc s sched s' : run s sched = Some s' -> rtc step s s'.
Proof.
  revert s. induction sched as [|[t ch] sched IH]; cbn; intros s H; [by simplify_eq|].
  apply bind_Some in H as (s1 & H1 & H2). eapply rtc_l; [by exists t, ch | by apply IH].
Qed.
End semantics.

(** ** A logic for monitors

    [I] is the invariant of the protected data, which holds whenever the mutex
    is free. [safe n st c d l] says that the code [c] of one thread, in lock
    state [st], with the data [d] (if it owns the mutex) and its locals [l],
    does nothing wrong in [n] of its own steps: it touches [holder_] and the
    data only as the owner, releases the mutex only with [I] re-established,
    and no assertion fails. A loop whose condition is read without the mutex
    must be safe whatever the condition is. *)
Inductive lock_state := Free | Acquired | Held.

Section logic.
Context {D L : Type} (I : D -> Prop).

Fixpoint safe (n : nat) (st : lock_state) (c : list (instr D L)) (d : D) (l : L) : Prop :=
  match n with
  | O => True
  | S n =>
    match c with
    | [] => st = Free
    | i :: k =>
      match i, st with
      | PMutexLock, Free => forall d', I d' -> safe n Acquired k d' l
      | AssignHolder, Acquired => safe n Held k d l
      | UnassignHolder, Held => safe n Acquired k d l
      | PMutexUnlock, Acquired => I d /\ safe n Free k d l
      | PCondWait c, Acquired => I d /\ safe n Free (PCondAsleep c :: k) d l
      | PCondAsleep _, Free => safe n Free (PMutexLock :: k) d l
      | PCondSignal _, _ => safe n st k d l
      | PCondBroadcast _, _ => safe n st k d l
      | Act f, Held => exists d' l', f d l = Ok (d', l') /\ safe n Held k d' l'
      | Local g, _ => safe n st k d (g l)
      | While b body, Held =>
          if b d then safe n Held (body ++ While b body :: k) d l else safe n Held k d l
      | While b body, Free =>
          safe n Free (body ++ While b body :: k) d l /\ safe n Free k d l
      | If b body, Held =>
          if b d then safe n Held (body ++ k) d l else safe n Held k d l
      | _, _ => False
      end
    end
  end.

Definition safe_code (st : lock_state) (c : list (instr D L)) (d : D) (l : L) : Prop :=
  forall n, safe n st c d l.

Lemma safe_free_data n c d d' l : safe n Free c d l -> safe n Free c d' l.
Proof.
  revert c l. induction n as [|n IH]; intros c l; [done|]. destruct c as [|i k]; [done|].
  destruct i; cbn; try done; try apply IH. intros [H1 H2]. split; by apply IH.
Qed.

Definition ok_thread (o : option tid_t) (h : tid_t) (d : D) (t : tid_t) (th : thread D L) : Prop :=
  exists st, safe_code st (Monitor.code th) d (local th) /\
    (o = Some t <-> st <> Free) /\ (st = Acquired -> h = 0) /\ (st = Held -> h = t).

Record good (s : system D L) : Prop := {
  good_live : crashed s = None;
  good_threads : map_Forall (ok_thread (owner s) (holder_ s) (data s)) (threads s);
  good_free : owner s = None -> I (data s) /\ holder_ s = 0;
  good_owner : forall t, owner s = Some t -> is_Some (threads s !! t);
}.

(** A thread that does not own the mutex is safe whatever the owner does. *)
Lemma ok_thread_other o h d o' h' d' t th :
  ok_thread o h d t th -> o <> Some t -> o' <> Some t -> ok_thread o' h' d' t th.
Proof.
  intros (st & Hs & Ho & _ & _) Hn Hn'.
  assert (st = Free) as -> by (destruct st; [done | exfalso; by apply Hn, Ho ..]).
  exists Free. split_and!; [|by split|done|done]. intros n. eapply safe_free_data, Hs.
Qed.

Lemma good_update s t th o h d :
  good s -> is_Some (threads s !! t) -> ok_thread o h d t th ->
  (o = owner s /\ h = holder_ s /\ d = data s \/
   (owner s = Some t \/ owner s = None) /\ (o = Some t \/ o = None)) ->
  (o = None -> I d /\ h = 0) ->
  good (mkSystem o h d (<[t := th]> (threads s)) None).
Proof.
  intros [_ Hth _ Hown] Hin Hok Hframe Hfree. split; cbn; [done| |done|].
  - intros t' th'. rewrite lookup_insert. case_decide as Hne; [by intros; simplify_eq|].
    intros Ht'. specialize (Hth t' th' Ht').
    destruct Hframe as [(-> & -> & ->)|[Hs Ho]]; [done|].
    eapply ok_thread_other; [exact Hth | destruct Hs as [->| ->]; congruence
      | destruct Ho as [->| ->]; congruence].
  - intros t'. rewrite lookup_insert. case_decide as Hne; [done|]. intros Ho.
    destruct Hframe as [(-> & _)|[_ [->| ->]]]; [by apply Hown | congruence | done].
Qed.

(** Replacing threads by threads that are as good. *)
Lemma good_threads_map s m :
  good s -> map_Forall (ok_thread (owner s) (holder_ s) (data s)) m ->
  (forall t, is_Some (threads s !! t) -> is_Some (m !! t)) ->
  good (mkSystem (owner s) (holder_ s) (data s) m None).
Proof. intros [_ _ Hf Ho] Hm Hdom. split; cbn; auto. Qed.

Lemma ok_awaken o h d t th : ok_thread o h d t th -> ok_thread o h d t (awaken th).
Proof.
  intros (st & Hs & Hst). unfold awaken. destruct th as [[|[] k] l]; cbn in *; try by exists st.
  exists st. cbn. split; [|done]. intros n. specialize (Hs (S n)). cbn in Hs. by destruct st.
Qed.

(** Continue with the rest of the code in the same lock state. *)
Lemma ok_tail o h d t l i k :
  (forall n st, safe (S n) st (i :: k) d l -> safe n st k d l) ->
  ok_thread o h d t (mkThread (i :: k) l) -> ok_thread o h d t (mkThread k l).
Proof.
  intros Hi (st & Hs & Hst). exists st. split; [|done]. intros n. apply Hi, Hs.
Qed.

(** The owner's step to lock state [st']. *)
Lemma good_owner_step s t c l st' h d :
  good s -> owner s = Some t -> st' <> Free -> safe_code st' c d l ->
  (st' = Acquired -> h = 0) -> (st' = Held -> h = t) ->
  good (mkSystem (Some t) h d (<[t := mkThread c l]> (threads s)) None).
Proof.
  intros Hg Ho Hst Hs Ha Hh. apply good_update; [done | by apply (good_owner _ Hg) | | by auto | done].
  by exists st'.
Qed.

(** The owner releases the mutex. *)
Lemma good_release s t c l :
  good s -> owner s = Some t -> holder_ s = 0 -> I (data s) -> safe_code Free c (data s) l ->
  good (mkSystem None (holder_ s) (data s) (<[t := mkThread c l]> (threads s)) None).
Proof.
  intros Hg Ho Hh HI Hs. apply good_update; [done | by apply (good_owner _ Hg) | | by auto | done].
  exists Free. split_and!; [done | by split | done | done].
Qed.

(** A step that only moves the thread on. *)
Lemma good_local_step s t c l st :
  good s -> is_Some (threads s !! t) -> safe_code st c (data s) l ->
  (owner s = Some t <-> st <> Free) -> (st = Acquired -> holder_ s = 0) -> (st = Held -> holder_ s = t) ->
  good (mkSystem (owner s) (holder_ s) (data s) (<[t := mkThread c l]> (threads s)) None).
Proof.
  intros Hg Hin Hs Ho Ha Hh. apply good_update; [done | done | by exists st | by left |].
  apply (good_free _ Hg).
Qed.

(** [pthread_cond_signal] wakes a sleeper, if there is one. *)
Lemma good_signal_step s s' t ch c k l :
  good s -> threads s !! t = Some (mkThread (PCondSignal c :: k) l) ->
  exec s t ch = Some s' -> good s'.
Proof.
  intros Hg Ht He. unfold exec in He. rewrite (good_live _ Hg), Ht in He. cbn in He.
  assert (Hok : ok_thread (owner s) (holder_ s) (data s) t (mkThread k l)).
  { eapply ok_tail, (good_threads _ Hg t _ Ht). intros n st. by destruct st. }
  destruct ch as [|t'|].
  1, 3: case_decide; simplify_eq; apply good_update; [done | by eexists | done | by left
    | apply (good_free _ Hg)].
  destruct (threads s !! t') as [th'|] eqn:Ht'; [|done].
  destruct (asleep_on c th'); simplify_eq. apply good_threads_map; [done | |].
  - apply map_Forall_insert_2; [done|]. apply map_Forall_insert_2; [|apply (good_threads _ Hg)].
    apply ok_awaken, (good_threads _ Hg t' _ Ht').
  - intros t1 ?. rewrite !lookup_insert. repeat case_decide; by eauto.
Qed.

Lemma good_broadcast_step s s' t ch c k l :
  good s -> threads s !! t = Some (mkThread (PCondBroadcast c :: k) l) ->
  exec s t ch = Some s' -> good s'.
Proof.
  intros Hg Ht He. unfold exec in He. rewrite (good_live _ Hg), Ht in He. simplify_eq.
  apply good_threads_map; [done | |].
  - apply map_Forall_insert_2.
    { eapply ok_tail, (good_threads _ Hg t _ Ht). intros n st. by destruct st. }
    intros t1 th1. rewrite lookup_fmap, fmap_Some. intros (th0 & Hth0 & ->).
    pose proof (good_threads _ Hg t1 _ Hth0). case_match; [by apply ok_awaken | done].
  - intros t1 ?. rewrite lookup_insert. case_decide; [by eauto|]. by rewrite lookup_fmap, fmap_is_Some.
Qed.

Lemma good_step s s' : good s -> step s s' -> good s'.
Proof.
  intros Hg (t & ch & He).
  destruct (threads s !! t) as [[[|i k] l]|] eqn:Ht;
    [unfold exec in He; rewrite (good_live _ Hg), Ht in He; done | |
     unfold exec in He; rewrite (good_live _ Hg), Ht in He; done].
  assert (Hin : is_Some (threads s !! t)) by (by eexists).
  pose proof (good_threads _ Hg t _ Ht) as (st & Hs & Ho & Ha & Hh). cbn in Hs.
  assert (Hown : st <> Free -> owner s = Some t) by apply Ho.
  assert (Hn : forall n, safe (S n) st (i :: k) (data s) l) by (intros; apply Hs).
  pose proof (Hn 0%nat) as H1. cbn in H1, Hn.
  destruct i.
  8: by eapply good_signal_step.
  8: by eapply good_broadcast_step.
  all: unfold exec in He; rewrite (good_live _ Hg), Ht in He.
  9: by injection He as <-; eapply (good_local_step s t _ _ st).
  all: destruct st; cbn in H1, Hn; try done; try rewrite (Hown ltac:(done)) in He.
  - (* PMutexLock *)
    destruct (owner s) eqn:Eo; [done|]. injection He as <-.
    destruct (good_free _ Hg Eo) as [HI Hh0].
    apply good_update; [done | done | | rewrite Eo; by auto | done].
    exists Acquired. split_and!; [intros n; by apply Hn | by split | done | done].
  - (* PMutexUnlock *)
    rewrite decide_True in He by done. injection He as <-.
    apply good_release; [done | by auto | by auto | apply H1 | intros n; apply Hn].
  - (* AssignHolder *)
    injection He as <-. by eapply (good_owner_step s t k l Held); [| by auto | | | |].
  - (* UnassignHolder *)
    injection He as <-. by eapply (good_owner_step s t k l Acquired); [| by auto | | | |].
  - (* PCondWait *)
    rewrite decide_True in He by done. injection He as <-.
    apply good_release; [done | by auto | by auto | apply H1 | intros n; apply Hn].
  - (* PCondAsleep: woken spuriously *)
    injection He as <-. by eapply (good_local_step s t _ l Free).
  - (* Act *)
    destruct H1 as (d' & l' & Hf & _). rewrite Hf in He. injection He as <-.
    eapply (good_owner_step s t k l' Held); [done | by auto | done | | done | by auto].
    intros n. destruct (Hn n) as (d2 & l2 & Hf2 & ?). rewrite Hf in Hf2. by simplify_eq.
  - (* While, condition read without the mutex *)
    destruct (b (data s)); injection He as <-; by eapply (good_local_step s t _ l Free); try done; intros n; apply Hn.
  - (* While *)
    destruct (b (data s)); injection He as <-;
      (eapply (good_owner_step s t _ l Held); [done | by auto | done | exact Hn | done | by auto]).
  - (* If *)
    destruct (b (data s)); injection He as <-;
      (eapply (good_owner_step s t _ l Held); [done | by auto | done | exact Hn | done | by auto]).
Qed.

(** Soundness: from a start where the mutex is free, the data satisfies [I]
    and every thread's code is safe, every reachable state is good. *)
Lemma monitor_sound (s s' : system D L) :
  crashed s = None -> owner s = None -> holder_ s = 0 -> I (data s) ->
  map_Forall (fun _ th => forall d, safe_code Free (Monitor.code th) d (local th)) (threads s) ->
  rtc step s s' -> good s'.
Proof.
  intros Hc Ho Hh HI Hth Hr. eapply rtc_invariant; [apply good_step | exact Hr|].
  split; [done| | done | congruence]. intros t th Ht. exists Free. rewrite Ho.
  split_and!; [by eapply Hth | by split | done | done].
Qed.

(** Mutual exclusion: of two threads, at most one is past its acquisition. *)
Lemma good_holder s t th :
  good s -> threads s !! t = Some th -> t <> 0 ->
  IsLockedByThisThread s t = true -> owner s = Some t.
Proof.
  intros Hg Ht Hne Hh%Z.eqb_eq. destruct (owner s) as [o|] eqn:Eo.
  - destruct (good_owner _ Hg o Eo) as [tho Htho].
    destruct (good_threads _ Hg o _ Htho) as (st & _ & Ho & Ha & Hhd).
    destruct st; [by destruct (proj1 Ho Eo) | by rewrite Ha in Hh | by rewrite Hhd in Hh; simplify_eq].
  - destruct (good_free _ Hg Eo) as [_ H0]. congruence.
Qed.
End logic.

(** Composition rules for the methods. *)
Create HintDb monitor.
Section rules.
Context {D L : Type} {I : D -> Prop}.
Implicit Types (k : list (instr D L)) (d : D) (l : L).

Lemma safe_nil d l : safe_code I Free (@nil (instr D L)) d l.
Proof. intros [|n]; done. Qed.

(** Safety of [S n] steps from the safety of the rest in [n] steps. *)
Lemma safe_ctor n k d l :
  (forall d' m, (m <= n)%nat -> I d' -> safe I m Held k d' l) ->
  safe I n Free (MutexLockGuard_ctor ++ k) d l.
Proof.
  intros Hk. destruct n as [|[|n]]; cbn; [done | done|]. intros d' HI. apply Hk; [lia | done].
Qed.

Lemma safe_dtor n k d l :
  I d -> (forall m, (m <= n)%nat -> safe I m Free k d l) ->
  safe I n Held (MutexLockGuard_dtor ++ k) d l.
Proof. intros HI Hk. destruct n as [|[|n]]; cbn; [done | done|]. split; [done | apply Hk; lia]. Qed.

Lemma safe_wait n c k d l :
  I d -> (forall d' m, (m < n)%nat -> I d' -> safe I m Held k d' l) ->
  safe I n Held (Condition_Wait c ++ k) d l.
Proof.
  intros HI Hk. destruct n as [|[|[|[|[|n]]]]]; cbn; try done.
  split; [done|]. intros d' HI'. apply Hk; [lia | done].
Qed.

(** The wait loop [while (b) wait();]: the code behind it starts with [b] false. *)
Lemma safe_wait_loop n b c k d l :
  I d -> (forall d' m, (m <= n)%nat -> I d' -> b d' = false -> safe I m Held k d' l) ->
  safe I n Held (While b (Condition_Wait c) :: k) d l.
Proof.
  revert d. induction n as [n IH] using lt_wf_ind. intros d HI Hk.
  destruct n as [|n]; [done|]. cbn [safe]. destruct (b d) eqn:Eb; [|apply Hk; [lia | done | done]].
  apply safe_wait; [done|]. intros d' m Hm HI'. apply IH; [lia | done|].
  intros d2 m2 Hm2 HI2 Hb2. apply Hk; [lia | done | done].
Qed.

Lemma safe_act n f d l d' l' k :
  f d l = Ok (d', l') -> (forall m, (m <= n)%nat -> safe I m Held k d' l') ->
  safe I n Held (Act f :: k) d l.
Proof. intros Hf Hk. destruct n as [|n]; [done|]. exists d', l'. split; [done | apply Hk; lia]. Qed.

Lemma safe_notify n c d l k :
  (forall m, (m <= n)%nat -> safe I m Held k d l) -> safe I n Held (Condition_Notify c ++ k) d l.
Proof. intros Hk. destruct n as [|n]; [done|]. apply Hk. lia. Qed.

Lemma safe_if n b body k d l :
  (b d = true -> forall m, (m <= n)%nat -> safe I m Held (body ++ k) d l) ->
  (b d = false -> forall m, (m <= n)%nat -> safe I m Held k d l) ->
  safe I n Held (If b body :: k) d l.
Proof. intros Ht Hf. destruct n as [|n]; [done|]. cbn. destruct (b d); [apply Ht | apply Hf]; done || lia. Qed.

Lemma safe_notify_all n c d l k :
  (forall m, (m <= n)%nat -> safe I m Held k d l) -> safe I n Held (Condition_NotifyAll c ++ k) d l.
Proof. intros Hk. destruct n as [|n]; [done|]. apply Hk. lia. Qed.

(** A loop outside the critical section, whose body may change the locals:
    the body must be safe in front of any code that is. *)
Lemma safe_free_loop b body k :
  (forall n k' d l, (forall m l' d', (m < n)%nat -> safe I m Free k' d' l') -> safe I n Free (body ++ k') d l) ->
  (forall n d l, safe I n Free k d l) -> forall n d l, safe I n Free (While b body :: k) d l.
Proof.
  intros Hb Hk n. induction n as [n IH] using lt_wf_ind. intros d l. destruct n as [|n]; [done|].
  cbn [safe]. split; [|apply Hk]. apply Hb. intros m l' d' Hm. apply IH. lia.
Qed.

Lemma safe_local g k l :
  (forall n d, safe I n Free k d (g l)) -> forall n d, safe I n Free (Local g :: k) d l.
Proof. intros Hk [|n] d; [done|]. apply Hk. Qed.
End rules.
