(* ===== verification/MonitorWake.v ===== *)
(** * Conditions that are never forgotten

    A second program logic for the monitors of [Monitor], for a condition
    variable that is broadcast: a thread waits only while the condition [B]
    tells it to, and a thread that makes [B] false owes a broadcast until it
    gives up the mutex. Code that keeps this discipline is safe, and no thread
    sleeps on the condition while [B] is false and the mutex is free. *)
From S2P Require Import Prelude Monitor.

Section wake.
Context {D L : Type} (I : D -> Prop) (c0 : nat) (B : D -> bool).

(** [disc n st owe c d l]: as [safe], with the debt [owe] of the thread. *)
Fixpoint disc (n : nat) (st : lock_state) (owe : bool) (c : list (instr D L)) (d : D) (l : L) : Prop :=
  match n with
  | O => True
  | S n =>
    match c with
    | [] => st = Free
    | i :: k =>
      match i, st with
      | PMutexLock, Free => forall d', I d' -> disc n Acquired false k d' l
      | AssignHolder, Acquired => disc n Held owe k d l
      | UnassignHolder, Held => disc n Acquired owe k d l
      | PMutexUnlock, Acquired => I d /\ owe = false /\ disc n Free false k d l
      | PCondWait c, Acquired => c = c0 /\ I d /\ owe = false /\ B d = true /\ disc n Free false (PMutexLock :: k) d l
      | PCondBroadcast c, _ => disc n st (if Nat.eqb c0 c then false else owe) k d l
      | Act f, Held => exists d' l', f d l = Ok (d', l') /\ disc n Held (owe || (B d && negb (B d'))) k d' l'
      | Local g, _ => disc n st owe k d (g l)
      | While b body, Held =>
          if b d then disc n Held owe (body ++ While b body :: k) d l else disc n Held owe k d l
      | If b body, Held =>
          if b d then disc n Held owe (body ++ k) d l else disc n Held owe k d l
      | _, _ => False
      end
    end
  end.

(** Two step counts of [safe] for one of [disc] at a wait. *)
Lemma disc_safe n st owe c d l : (forall m, disc m st owe c d l) -> safe I n st c d l.
Proof.
  revert st owe c d l. induction n as [n IH] using lt_wf_ind. intros st owe c d l Hd. destruct n as [|n]; [done|].
  pose proof (Hd 1%nat) as H1. assert (Hs : forall m, disc (S m) st owe c d l) by (intros; apply Hd). clear Hd.
  destruct c as [|i k]; cbn [safe]; [done|].
  destruct i, st; cbn [disc] in *; try done; try (eapply IH; [lia | exact Hs]).
  - intros d' HI. eapply IH; [lia|]. intros m. by apply Hs.
  - split; [apply H1|]. eapply IH; [lia|]. intros m. apply Hs.
  - split; [apply H1|]. destruct n as [|n]; [done|]. cbn [safe]. eapply (IH n); [lia|]. intros m. apply Hs.
  - destruct H1 as (d' & l' & Hf & _). exists d', l'. split; [done|]. eapply IH; [lia|]. intros m.
    destruct (Hs m) as (d2 & l2 & Hf2 & H2). rewrite Hf in Hf2. injection Hf2 as <- <-. exact H2.
  - destruct (b d); (eapply IH; [lia | exact Hs]).
  - destruct (b d); (eapply IH; [lia | exact Hs]).
Qed.

(** The code of a thread: asleep in a wait, or disciplined. *)
Definition thread_disc (st : lock_state) (owe : bool) (th : thread D L) (d : D) : Prop :=
  match code th with
  | PCondAsleep c :: k => st = Free /\ c = c0 /\ forall m, disc m Free false (PMutexLock :: k) d (local th)
  | c => forall m, disc m st owe c d (local th)
  end.

Lemma disc_free_data n owe c d d' l : disc n Free owe c d l -> disc n Free owe c d' l.
Proof. revert owe c l. induction n as [|n IH]; intros owe c l; [done|]. destruct c as [|[] k]; cbn; try done; apply IH. Qed.

Lemma disc_not_asleep st owe c d l : (forall m, disc m st owe c d l) -> thread_disc st owe (mkThread c l) d.
Proof. intros H. unfold thread_disc. cbn. destruct c as [|[] k]; try done. specialize (H 1%nat). by destruct st. Qed.

Definition ok_wake (o : option tid_t) (d : D) (owing : bool) (t : tid_t) (th : thread D L) : Prop :=
  exists st, thread_disc st (if decide (o = Some t) then owing else false) th d /\ (o = Some t <-> st <> Free).

(** The owner's debt covers every sleeper the condition does not. *)
Record wakeful (s : system D L) (owing : bool) : Prop := {
  wk_threads : map_Forall (ok_wake (owner s) (data s) owing) (threads s);
  wk_sleepers : map_Forall (fun _ th => asleep_on c0 th = true -> B (data s) = true \/ owing = true) (threads s);
  wk_free : owner s = None -> owing = false /\ I (data s);
}.

Lemma ok_wake_other o d owing o' d' owing' t th : o <> Some t -> o' <> Some t -> ok_wake o d owing t th -> ok_wake o' d' owing' t th.
Proof.
  intros Ho Ho' (st & Hs & Hst). assert (st = Free) as -> by (destruct st; [done | exfalso; by apply Ho, Hst ..]).
  exists Free. split; [|by split]. rewrite decide_False in Hs by done. rewrite decide_False by done.
  unfold thread_disc in *. destruct (code th) as [|i k]; [intros m; by eapply disc_free_data|].
  destruct i; try (intros m; by eapply disc_free_data, Hs). destruct Hs as (_ & -> & Hs). split_and!; [done | done|]. intros m. by eapply disc_free_data, Hs.
Qed.

Lemma wakeful_update s owing t th o h d owing' cr :
  wakeful s owing -> is_Some (threads s !! t) -> ok_wake o d owing' t th ->
  (o = owner s /\ d = data s /\ owing' = owing \/ (owner s = Some t \/ owner s = None) /\ (o = Some t \/ o = None)) ->
  (asleep_on c0 th = true -> B d = true \/ owing' = true) ->
  (B (data s) = true \/ owing = true -> B d = true \/ owing' = true) ->
  (o = None -> owing' = false /\ I d) ->
  wakeful (mkSystem o h d (<[t := th]> (threads s)) cr) owing'.
Proof.
  intros [Ht Hsl _] Hin Hok Hframe Hth Hmono Hfree. split; cbn; [| |done].
  - intros t' th'. rewrite lookup_insert. case_decide as Hne; [by intros; simplify_eq|]. intros Ht'. specialize (Ht t' th' Ht').
    destruct Hframe as [(-> & -> & ->)|[Hs Ho]]; [done|].
    apply (ok_wake_other (owner s) (data s) owing); [intros E; destruct Hs; congruence | intros ->; destruct Ho; congruence | exact Ht].
  - intros t' th'. rewrite lookup_insert. case_decide as Hne; [intros [= <-] Ha; by apply Hth|]. intros Ht' Ha. by apply Hmono, (Hsl t' th').
Qed.

(** The step of a thread that holds the mutex before and after, or never. *)
Lemma ok_wake_disc o d owing t st c l : (forall m, disc m st (if decide (o = Some t) then owing else false) c d l) ->
  (o = Some t <-> st <> Free) -> ok_wake o d owing t (mkThread c l).
Proof. intros Hd Ho. exists st. split; [by apply disc_not_asleep | done]. Qed.

Lemma not_asleep st owe c d l : (forall m, disc m st owe c d l) -> asleep_on c0 (mkThread c l) = false.
Proof. intros H. unfold asleep_on. cbn. destruct c as [|[] k]; try done. specialize (H 1%nat). by destruct st. Qed.

Lemma wakeful_broadcast s owing t k l st c :
  wakeful s owing -> threads s !! t = Some (mkThread (PCondBroadcast c :: k) l) ->
  (owner s = Some t <-> st <> Free) ->
  (forall m, disc m st (if Nat.eqb c0 c then false else if decide (owner s = Some t) then owing else false) k (data s) l) ->
  exists owing', wakeful (mkSystem (owner s) (holder_ s) (data s)
    (<[t := mkThread k l]> ((fun th' => if asleep_on c th' then awaken th' else th') <$> threads s)) None) owing'.
Proof.
  intros [Ht Hsl Hfr] Hth Ho Hd.
  assert (Hwake : forall t1 th1, threads s !! t1 = Some th1 -> ok_wake (owner s) (data s) owing t1 (if asleep_on c th1 then awaken th1 else th1)).
  { intros t1 th1 H1. pose proof (Ht t1 th1 H1) as (st1 & Hd1 & Hst1).
    destruct (asleep_on c th1) eqn:Ea; [|exists st1; exact (conj Hd1 Hst1)]. exists st1. split; [|exact Hst1]. destruct th1 as [[|[] k1] l1]; cbn in *; try done. destruct Hd1 as (-> & _ & Hd1). intros m.
    destruct (decide (owner s = Some t1)) as [E|E]; [|apply Hd1]. by apply Hst1 in E. }
  destruct (Nat.eqb_spec c0 c) as [<-|Hc].
  - (* this condition: everyone is awake *)
    exists (if decide (owner s = Some t) then false else owing). split; cbn.
    + intros t' th'. rewrite lookup_insert. case_decide as Hne; [intros; simplify_eq|].
      * apply (ok_wake_disc _ _ _ _ st); [|done]. by destruct (decide (owner s = Some t')).
      * rewrite lookup_fmap, fmap_Some. intros (th1 & H1 & ->). specialize (Hwake t' th1 H1).
        destruct (decide (owner s = Some t)) as [E|E]; [|done]. eapply ok_wake_other; [| |exact Hwake]; congruence.
    + intros t' th'. rewrite lookup_insert. case_decide as Hne; [intros [= <-]; rewrite (not_asleep st _ k _ l Hd); done|].
      rewrite lookup_fmap, fmap_Some. intros (th1 & H1 & ->). destruct (asleep_on c0 th1) eqn:Ea; [|by rewrite Ea].
      unfold awaken, asleep_on in *. destruct th1 as [[|[] k1] l1]; cbn in *; done.
    + intros E. split; [case_decide; [done|] |]; by apply Hfr.
  - exists owing. split; cbn; [| |done].
    + intros t' th'. rewrite lookup_insert. destruct (decide (t = t')) as [<-|Hne]; [intros Hk; simplify_eq; exact (ok_wake_disc _ _ _ _ st _ _ Hd Ho)|].
      rewrite lookup_fmap, fmap_Some. intros (th1 & H1 & ->). by apply Hwake.
    + intros t' th'. rewrite lookup_insert. destruct (decide (t = t')) as [<-|Hne]; [intros [= <-]; rewrite (not_asleep st _ k _ l Hd); done|].
      rewrite lookup_fmap, fmap_Some. intros (th1 & H1 & ->) Ha. apply (Hsl t' th1 H1).
      destruct (asleep_on c th1) eqn:Ea; [|done]. unfold awaken, asleep_on in *. destruct th1 as [[|[] k1] l1]; cbn in *; done.
Qed.

(** A step of [t] that leaves the mutex, the data and the debt as they are. *)
Lemma wakeful_keep s owing t h st k l :
  wakeful s owing -> is_Some (threads s !! t) -> (owner s = Some t <-> st <> Free) ->
  (forall m, disc m st (if decide (owner s = Some t) then owing else false) k (data s) l) ->
  wakeful (mkSystem (owner s) h (data s) (<[t := mkThread k l]> (threads s)) None) owing.
Proof.
  intros Hw Hin Ho Hd. apply wakeful_update with (owing := owing); try done; [|by left| |apply Hw].
  - by apply (ok_wake_disc _ _ _ _ st).
  - by rewrite (not_asleep _ _ _ _ _ Hd).
Qed.

(** A step of [t] between owning the mutex and not, or on the data it owns. *)
Lemma wakeful_own s owing t o h d st k l owing' :
  wakeful s owing -> is_Some (threads s !! t) -> owner s = Some t \/ owner s = None -> o = Some t \/ o = None ->
  (o = Some t <-> st <> Free) -> (forall m, disc m st owing' k d l) ->
  (B (data s) = true \/ owing = true -> B d = true \/ owing' = true) -> (o = None -> owing' = false /\ I d) ->
  wakeful (mkSystem o h d (<[t := mkThread k l]> (threads s)) None) owing'.
Proof.
  intros Hw Hin Hs Ho Hst Hd HB Hfree. apply wakeful_update with (owing := owing); try done; [|by right|].
  - apply (ok_wake_disc _ _ _ _ st); [|done]. case_decide; [done|]. destruct Ho as [|Ho]; [done|]. by destruct (Hfree Ho) as [-> _].
  - by rewrite (not_asleep _ _ _ _ _ Hd).
Qed.

Lemma wakeful_step s s' owing : wakeful s owing -> step s s' -> exists owing', wakeful s' owing'.
Proof.
  intros Hw (t & ch & He). unfold exec in He. destruct (crashed s) eqn:Ec; [done|].
  destruct (threads s !! t) as [[[|i k] l]|] eqn:Ht; [done| |done].
  assert (Hin : is_Some (threads s !! t)) by (by eexists). pose proof (wk_threads _ _ Hw t _ Ht) as (st & Hd & Ho).
  unfold thread_disc in Hd. cbn [code local] in Hd.
  assert (Hcase : (exists c, i = PCondAsleep c) \/ forall m, disc (S m) st (if decide (owner s = Some t) then owing else false) (i :: k) (data s) l)
    by (destruct i; try (right; intros m; apply Hd); left; by eexists).
  destruct Hcase as [[c ->]|Hs].
  { destruct Hd as (-> & -> & Hd). injection He as <-. exists owing. apply (wakeful_keep _ _ _ _ Free); try done.
    case_decide as E; [by apply Ho in E | exact Hd]. }
  clear Hd. pose proof (Hs 0%nat) as H1.
  destruct i, st; cbn [disc] in H1, Hs; try done; simplify_eq/=;
    try (exists owing; eapply wakeful_keep; [exact Hw | exact Hin | | exact Hs]; rewrite Ho; by split);
    try (eapply wakeful_broadcast; [exact Hw | exact Ht | exact Ho | exact Hs]).
  all: try (assert (owner s = Some t) as Eo by (by apply Ho); try rewrite decide_True in H1 by done; rewrite decide_True in Hs by done).
  - (* lock *) destruct (owner s) eqn:Eo; [done|]. destruct (wk_free _ _ Hw Eo) as [Hf HI]. injection He as <-. exists false.
    apply (wakeful_own s owing t _ _ _ Acquired); [done | done | auto | auto | done | intros m; by apply Hs | by rewrite Hf | done].
  - (* unlock *) rewrite decide_True in He by done. injection He as <-. destruct H1 as (HI & -> & _). exists false.
    apply (wakeful_own s false t _ _ _ Free); [done | done | auto | auto | done | intros m; apply Hs | done | done].
  - (* wait *) rewrite decide_True in He by done. injection He as <-. destruct H1 as (-> & HI & -> & HB & _). exists false.
    apply wakeful_update with (owing := false); auto. exists Free. split; [|done].
    split_and!; [done | done|]. intros m. apply Hs.
  - (* act *) destruct H1 as (d' & l' & Hf & _). rewrite Hf in He. injection He as <-. exists (owing || (B (data s) && negb (B d'))).
    apply (wakeful_own s owing t _ _ _ Held); [done | done | auto | auto | by rewrite Eo | | | by rewrite Eo].
    + intros m. destruct (Hs m) as (d2 & l2 & Hf2 & H2). rewrite Hf in Hf2. by injection Hf2 as <- <-.
    + destruct owing, (B (data s)), (B d'); cbn; naive_solver.
  - (* while *) destruct (b (data s)); injection He as <-; exists owing; (eapply wakeful_keep; [exact Hw | exact Hin | exact Ho |]); rewrite decide_True by done; exact Hs.
  - (* if *) destruct (b (data s)); injection He as <-; exists owing; (eapply wakeful_keep; [exact Hw | exact Hin | exact Ho |]); rewrite decide_True by done; exact Hs.
Qed.

Lemma wakeful_rtc s s' owing : wakeful s owing -> rtc step s s' -> exists owing', wakeful s' owing'.
Proof. intros Hw Hr. revert owing Hw. induction Hr as [|s1 s2 s3 H1 _ IH]; [eauto|]. intros owing Hw. destruct (wakeful_step _ _ _ Hw H1) as [o2 H2]. eauto. Qed.

(** With the mutex free, every thread that sleeps on the condition has a
    reason to. *)
Theorem wakeful_sleepers s owing t th : wakeful s owing -> owner s = None -> threads s !! t = Some th -> asleep_on c0 th = true -> B (data s) = true.
Proof. intros [_ Hs Hf] Ho Ht Ha. destruct (Hs t th Ht Ha) as [|E]; [done|]. by destruct (Hf Ho) as [-> _]. Qed.

Lemma wakeful_init h d ths : I d -> map_Forall (fun _ th => forall m, disc m Free false (code th) d (local th)) ths -> wakeful (mkSystem None h d ths None) false.
Proof.
  intros HI Ht. split; cbn; [| |done].
  - intros t [c l] Hth. specialize (Ht t _ Hth). cbn in Ht. by apply (ok_wake_disc _ _ _ _ Free).
  - intros t [c l] Hth. specialize (Ht t _ Hth). cbn in Ht. by rewrite (not_asleep _ _ _ _ _ Ht).
Qed.

(** ** Rest

    A state is at rest when nothing but a spurious wakeup can happen. *)
Definition at_rest (s : system D L) : Prop :=
  forall t th ch s', threads s !! t = Some th -> exec s t ch = Some s' -> exists c, asleep_on c th = true.

Lemma disc_enabled s t i k l st owe :
  crashed s = None -> threads s !! t = Some (mkThread (i :: k) l) -> (owner s = Some t /\ st <> Free \/ owner s = None /\ st = Free) ->
  disc 1 st owe (i :: k) (data s) l -> exists s', exec s t NoChoice = Some s'.
Proof.
  intros Hc Ht Ho Hd. unfold exec. rewrite Hc, Ht.
  destruct i, st; cbn in Hd; try done; try (by eexists); try (by case_match; eexists).
  - destruct Ho as [[_ ?]|[-> _]]; [done | by eexists].
  - destruct Hd as (d' & l' & -> & _). by eexists.
Qed.

(** At rest every thread has finished, or sleeps with the condition true. *)
Theorem wakeful_at_rest s owing :
  wakeful s owing -> crashed s = None -> (forall t, owner s = Some t -> is_Some (threads s !! t)) -> at_rest s ->
  owner s = None /\
  map_Forall (fun _ th => code th = [] \/ asleep_on c0 th = true /\ B (data s) = true) (threads s).
Proof.
  intros Hw Hc Hdom Hrest.
  assert (Hcase : forall t th, threads s !! t = Some th -> code th = [] /\ owner s <> Some t \/ asleep_on c0 th = true /\ owner s <> Some t \/ owner s <> None /\ owner s <> Some t).
  { intros t [[|i k] l] Ht; pose proof (wk_threads _ _ Hw t _ Ht) as (st & Hd & Ho); unfold thread_disc in Hd; cbn [code local] in Hd.
    - left. split; [done|]. rewrite Ho. specialize (Hd 1%nat). by intros [].
    - destruct (asleep_on c0 (mkThread (i :: k) l)) eqn:Ea.
      { right. left. split; [done|]. unfold asleep_on in Ea. destruct i; try done. destruct Hd as (-> & _). rewrite Ho. by intros []. }
      destruct (decide (owner s = None)) as [E|E].
      + exfalso. assert (st = Free) as -> by (destruct st; [done | by rewrite (proj2 Ho) in E ..]).
        destruct (disc_enabled s t i k l Free false) as [s' Hs']; [done | done | by right| |].
        * rewrite decide_False in Hd by congruence. unfold asleep_on in Ea. cbn in Ea.
          destruct i; try exact (Hd 1%nat). destruct Hd as (_ & -> & _). by rewrite Nat.eqb_refl in Ea.
        * destruct (Hrest t _ _ _ Ht Hs') as [c Hc']. unfold asleep_on in Hc', Ea. cbn in Hc', Ea. destruct i; try done.
          destruct Hd as (_ & -> & _). by rewrite Nat.eqb_refl in Ea.
      + right. right. split; [done|]. intros Eo. pose proof (proj1 Ho Eo) as Hst.
        destruct (disc_enabled s t i k l st owing) as [s' Hs']; [done | done | by left| |].
        * rewrite decide_True in Hd by done. destruct i; try exact (Hd 1%nat). by destruct Hd as (-> & _).
        * destruct (Hrest t _ _ _ Ht Hs') as [c Hc']. unfold asleep_on in Hc'. cbn in Hc'. destruct i; try done. by destruct Hd as (-> & _). }
  assert (Eo : owner s = None).
  { destruct (owner s) as [t|] eqn:Eo; [|done]. destruct (Hdom t eq_refl) as [th Ht]. destruct (Hcase t th Ht) as [[_ ?]|[[_ ?]|[_ ?]]]; done. }
  split; [done|]. intros t th Ht. destruct (Hcase t th Ht) as [[? _]|[[Ha _]|[? _]]]; [by left | right | done].
  split; [done|]. by eapply wakeful_sleepers.
Qed.

(** ** Rules *)
Lemma disc_nil d l : forall n, disc n Free false [] d l.
Proof. by intros [|n]. Qed.

Lemma disc_ctor n k d l :
  (forall d' m, (m <= n)%nat -> I d' -> disc m Held false k d' l) -> disc n Free false (MutexLockGuard_ctor ++ k) d l.
Proof. intros Hk. destruct n as [|[|n]]; cbn; [done | done|]. intros d' HI. apply Hk; [lia | done]. Qed.

Lemma disc_dtor n k d l :
  I d -> (forall m, (m <= n)%nat -> disc m Free false k d l) -> disc n Held false (MutexLockGuard_dtor ++ k) d l.
Proof. intros HI Hk. destruct n as [|[|n]]; cbn; [done | done|]. split_and!; [done | done | apply Hk; lia]. Qed.

Lemma disc_wait_loop n k d l :
  I d -> (forall d' m, (m <= n)%nat -> I d' -> B d' = false -> disc m Held false k d' l) ->
  disc n Held false (While B (Condition_Wait c0) :: k) d l.
Proof.
  revert d. induction n as [n IH] using lt_wf_ind. intros d HI Hk.
  destruct n as [|n]; [done|]. cbn [disc]. destruct (B d) eqn:Eb; [|apply Hk; [lia | done | done]].
  destruct n as [|[|[|[|n]]]]; cbn; try done; split_and!; try done; intros d' HI'.
  apply IH; [lia | done|]. intros d2 m2 Hm2 HI2 Hb2. apply Hk; [lia | done | done].
Qed.

Lemma disc_act n f d l d' l' k owe :
  f d l = Ok (d', l') -> (forall m, (m <= n)%nat -> disc m Held (owe || (B d && negb (B d'))) k d' l') ->
  disc n Held owe (Act f :: k) d l.
Proof. intros Hf Hk. destruct n as [|n]; [done|]. exists d', l'. split; [done | apply Hk; lia]. Qed.

Lemma disc_if n b body k d l owe :
  (b d = true -> forall m, (m <= n)%nat -> disc m Held owe (body ++ k) d l) ->
  (b d = false -> forall m, (m <= n)%nat -> disc m Held owe k d l) -> disc n Held owe (If b body :: k) d l.
Proof. intros Ht Hf. destruct n as [|n]; [done|]. cbn. destruct (b d); [apply Ht | apply Hf]; done || lia. Qed.

(** Notifying everyone pays the debt. *)
Lemma disc_notify_all n k d l owe :
  (forall m, (m <= n)%nat -> disc m Held false k d l) -> disc n Held owe (Condition_NotifyAll c0 ++ k) d l.
Proof. intros Hk. destruct n as [|n]; [done|]. cbn. rewrite Nat.eqb_refl. apply Hk. lia. Qed.

Lemma disc_local n g k d l : (forall m, (m <= n)%nat -> disc m Free false k d (g l)) -> disc n Free false (Local g :: k) d l.
Proof. intros Hk. destruct n as [|n]; [done|]. apply Hk. lia. Qed.
End wake.
