(* ===== verification/Latch.v ===== *)
(** * [muduo::CountDownLatch] ([3rd_party/muduo/muduo/base/CountDownLatch.{h,cc}])

    A counter behind a mutex and a condition, over the interleaving semantics
    of [Monitor]. [downs] counts the calls of [countDown] that have been made;
    [overflowed] records that [--count_] went below the range of [int]. Both
    are ghost state, and so is the assertion behind the loop of [wait], which
    says what [wait] promises its caller. *)
From S2P Require Import Prelude Monitor MonitorWake.

Record latch := mkLatch { count_ : Z; downs : Z; overflowed : bool }.
Record llocals := mkLLocals { lresult : Z }.
Abbreviation linstr := (instr latch llocals).

Definition condition_ : nat := 0.
Definition positive (d : latch) : bool := 0 <? count_ d.
Definition CountDownLatch_ctor (count : Z) : latch := mkLatch count 0 false.

Definition count_one (d : latch) : latch :=
  if count_ d =? - 2 ^ 31 then mkLatch (2 ^ 31 - 1) (downs d + 1) true
  else mkLatch (count_ d - 1) (downs d + 1) (overflowed d).
Definition decrement : linstr := Act (fun d l => Ok (count_one d, l)).
Definition read_count : linstr := Act (fun d _ => Ok (d, mkLLocals (count_ d))).
Definition opened : linstr := Act (fun d l => assert_ (count_ d <=? 0);; Ok (d, l)).

Definition wait : list linstr :=
  MutexLockGuard_ctor ++ [While positive (Condition_Wait condition_); opened] ++ MutexLockGuard_dtor.
Definition countDown : list linstr :=
  MutexLockGuard_ctor ++
  [decrement; If (fun d => count_ d =? 0) (Condition_NotifyAll condition_)] ++ MutexLockGuard_dtor.
Definition getCount : list linstr := MutexLockGuard_ctor ++ [read_count] ++ MutexLockGuard_dtor.

(** ** Programs *)
Inductive lcall := LWait | LCountDown | LGetCount.
Definition lcall_code (c : lcall) : list linstr :=
  match c with LWait => wait | LCountDown => countDown | LGetCount => getCount end.
Definition lprogram (cs : list lcall) : list linstr := concat (lcall_code <$> cs).
Definition lstart (count : Z) (progs : gmap tid_t (list lcall)) : system latch llocals :=
  mkSystem None 0 (CountDownLatch_ctor count) ((fun cs => mkThread (lprogram cs) (mkLLocals 0)) <$> progs) None.

(** The calls of [countDown] in a program. *)
Definition count_downs (cs : list lcall) : Z := foldr (fun c z => match c with LCountDown => 1 + z | _ => z end) 0 cs.
Definition msum (m : gmap tid_t Z) : Z := map_fold (fun _ n z => n + z) 0 m.
Definition total_downs (progs : gmap tid_t (list lcall)) : Z := msum (count_downs <$> progs).

(** ** The discipline of the condition *)
Abbreviation ldisc := (disc (fun _ : latch => True) condition_ positive).

Lemma disc_lcall c k d l n :
  (forall m d' l', (m <= n)%nat -> ldisc m Free false k d' l') -> ldisc n Free false (lcall_code c ++ k) d l.
Proof.
  intros Hk. destruct c; cbn [lcall_code]; unfold wait, countDown, getCount; rewrite <- !app_assoc; apply disc_ctor; intros d1 m1 ? _.
  - apply disc_wait_loop; [done|]. intros d2 m2 ? _ Hp. unfold positive in Hp.
    eapply disc_act; [rewrite (proj2 (Z.leb_le _ _)) by (unbool; lia); done|]. intros m3 ?. rewrite andb_negb_r.
    apply disc_dtor; [done|]. intros. apply Hk. lia.
  - destruct (count_ d1 =? - 2 ^ 31) eqn:E1.
    + eapply disc_act; [unfold count_one; by rewrite E1|]. intros m2 ?. assert (positive d1 = false) as -> by (unfold positive; unbool; lia).
      cbn [andb orb]. apply disc_if; [done|]. intros _ m3 ?. apply disc_dtor; [done|]. intros. apply Hk. lia.
    + eapply disc_act; [unfold count_one; by rewrite E1|]. intros m2 ?. apply disc_if; cbn [count_].
      * intros _ m3 ?. apply disc_notify_all. intros m4 ?. apply disc_dtor; [done|]. intros. apply Hk. lia.
      * intros Hne m3 ?. replace (positive d1 && _) with false; [apply disc_dtor; [done|]; intros; apply Hk; lia|].
        unfold positive. cbn [count_]. unbool. destruct (Z.ltb_spec 0 (count_ d1)); [|done]. cbn. symmetry. apply negb_false_iff. unbool. lia.
  - eapply disc_act; [done|]. intros m2 ?. rewrite andb_negb_r. apply disc_dtor; [done|]. intros. apply Hk. lia.
Qed.

Lemma disc_lprogram cs n d l : ldisc n Free false (lprogram cs) d l.
Proof. revert n d l. induction cs as [|c cs IH]; intros n d l; [apply disc_nil|]. apply (disc_lcall c). intros. apply IH. Qed.

(** ** The count

    [pend c n]: the code [c] has [n] calls of [countDown] before it. *)
Definition plain (i : linstr) : Prop := match i with Act _ | While _ _ | If _ _ => False | _ => True end.
Definition quiet (i : linstr) : Prop :=
  match i with
  | Act f => forall d l d' l', f d l = Ok (d', l') -> d' = d
  | While _ body | If _ body => Forall plain body
  | _ => True
  end.

Inductive pend : list linstr -> Z -> Prop :=
  | pend_nil : pend [] 0
  | pend_dec k n : pend k n -> pend (decrement :: k) (1 + n)
  | pend_quiet i k n : quiet i -> pend k n -> pend (i :: k) n.

Lemma pend_nonneg c n : pend c n -> 0 <= n.
Proof. induction 1; lia. Qed.

Lemma pend_tail i k n : (forall f, i <> Act f) -> pend (i :: k) n -> quiet i /\ pend k n.
Proof. intros Hi Hp. inversion Hp as [|k' n' Hk E|]; subst; [by destruct (Hi _ eq_refl) | done]. Qed.

Lemma plain_quiet i : plain i -> quiet i.
Proof. by destruct i. Qed.
Lemma pend_plain_app body k n : Forall plain body -> pend k n -> pend (body ++ k) n.
Proof. induction 1; intros; cbn; [done|]. apply pend_quiet; [by apply plain_quiet | auto]. Qed.

Lemma pend_quiet_app body k n : Forall quiet body -> pend k n -> pend (body ++ k) n.
Proof. induction 1; intros; cbn; [done|]. apply pend_quiet; auto. Qed.

Lemma pend_lprogram cs : pend (lprogram cs) (count_downs cs).
Proof.
  induction cs as [|c cs IH]; [constructor|]. change (lprogram (c :: cs)) with (lcall_code c ++ lprogram cs).
  destruct c; cbn [lcall_code count_downs foldr].
  - apply pend_quiet_app; [|done]. repeat constructor. intros d l d' l' H. unfold assert_ in H. destruct (count_ d <=? 0); by simplify_eq/=.
  - do 2 (apply pend_quiet; [done|]). apply pend_dec. apply (pend_quiet_app [_; _; _] (lprogram cs)); [|exact IH]. by repeat constructor.
  - apply pend_quiet_app; [|done]. repeat constructor. intros d l d' l' H. by injection H as <- _.
Qed.

Lemma msum_insert m t n n' : m !! t = Some n -> msum (<[t := n']> m) = msum m - n + n'.
Proof.
  intros Ht. unfold msum. rewrite <- (insert_id m t n Ht) at 2. rewrite <- !(insert_delete_eq m t).
  rewrite !map_fold_insert_L by (try apply lookup_delete_eq; intros; lia). lia.
Qed.
Lemma msum_nonneg m : map_Forall (fun _ n => 0 <= n) m -> 0 <= msum m.
Proof.
  unfold msum. induction m as [|t n m Ht IH] using map_ind; [done|]. rewrite map_Forall_insert by done. intros [? ?].
  rewrite map_fold_insert_L by (done || intros; lia). apply Z.add_nonneg_nonneg; auto.
Qed.

(** The counter has counted the calls that were made. *)
Record counted (count total : Z) (ns : gmap tid_t Z) (s : system latch llocals) : Prop := {
  ct_pend : forall t th, threads s !! t = Some th -> exists n, ns !! t = Some n /\ pend (code th) n;
  ct_nonneg : map_Forall (fun _ n => 0 <= n) ns;
  ct_sum : downs (data s) + msum ns = total;
  ct_count : count_ (data s) = count - downs (data s);
  ct_range : overflowed (data s) = false;
}.

Lemma counted_quiet count total ns s o h ths cr :
  counted count total ns s ->
  (forall t th, ths !! t = Some th -> exists th0, threads s !! t = Some th0 /\ forall n, pend (code th0) n -> pend (code th) n) ->
  counted count total ns (mkSystem o h (data s) ths cr).
Proof.
  intros [Hp Hn Hs Hc Hr] Hths. split; cbn; [|done..]. intros t th Ht. destruct (Hths t th Ht) as (th0 & H0 & Hth).
  destruct (Hp t th0 H0) as (n & ? & ?). eauto.
Qed.

Lemma counted_one count total ns s t th th0 o h cr :
  counted count total ns s -> threads s !! t = Some th0 -> (forall n, pend (code th0) n -> pend (code th) n) ->
  counted count total ns (mkSystem o h (data s) (<[t := th]> (threads s)) cr).
Proof.
  intros Hc Ht Hth. apply counted_quiet; [done|]. intros t' th'. rewrite lookup_insert. case_decide as E; [|eauto].
  intros [= <-]. subst. eauto.
Qed.

Lemma pend_awaken (th : thread latch llocals) n : pend (code th) n -> pend (code (awaken th)) n.
Proof.
  unfold awaken. destruct th as [[|[] k] l]; cbn; try done. intros [_ Hk]%pend_tail; [|done]. by apply pend_quiet.
Qed.

Lemma counted_decrement count total ns s t k l d' l' f o h cr :
  counted count total ns s -> threads s !! t = Some (mkThread (Act f :: k) l) -> - 2 ^ 31 <= count - total ->
  f (data s) l = Ok (d', l') ->
  exists ns', counted count total ns' (mkSystem o h d' (<[t := mkThread k l']> (threads s)) cr).
Proof.
  intros Hcs Ht Hrange Hf. pose proof Hcs as [Hp Hn Hs Hc Hr]. destruct (Hp t _ Ht) as (n & Hnt & Hpend).
  pose proof (msum_insert ns t n (n - 1) Hnt) as Hm. pose proof (msum_nonneg ns Hn) as H0.
  cbn in Hpend. inversion Hpend as [|k' n' Hk E|i k' n' Hq Hk]; subst.
  - exists (<[t := n']> ns). pose proof (pend_nonneg _ _ Hk). replace (1 + n' - 1) with n' in Hm by lia.
    assert (Hn' : map_Forall (fun _ n => 0 <= n) (<[t := n']> ns)) by (by apply map_Forall_insert_2).
    pose proof (msum_nonneg _ Hn'). injection Hf as <- <-. unfold count_one. destruct (Z.eqb_spec (count_ (data s)) (- 2 ^ 31)); [lia|].
    split; cbn; [|done|lia|lia|done]. intros t' th'. rewrite !lookup_insert. case_decide; [|apply Hp]. intros [= <-]. eauto.
  - cbn in Hq. apply Hq in Hf as ->. exists ns.
    split; cbn; [|done..]. intros t' th'. rewrite lookup_insert. case_decide; [|apply Hp]. intros [= <-]. subst. eauto.
Qed.

Lemma counted_step count total ns s s' :
  - 2 ^ 31 <= count - total -> counted count total ns s -> step s s' -> exists ns', counted count total ns' s'.
Proof.
  intros Hrange Hc (t & ch & He). unfold exec in He. destruct (crashed s); [done|].
  destruct (threads s !! t) as [[[|i k] l]|] eqn:Ht; [done| |done].
  assert (Hskip : (forall f, i <> Act f) -> forall o h l', counted count total ns (mkSystem o h (data s) (<[t := mkThread k l']> (threads s)) None)).
  { intros Hi o h l'. eapply counted_one; [done | exact Ht|]. cbn. by intros n [_ ?]%pend_tail. }
  assert (Hcrash : forall f, counted count total ns (crash s f)) by (intros f; apply counted_quiet; [done|]; eauto).
  destruct i; simplify_eq/=; try (repeat case_match; simplify_eq; exists ns; solve [by apply Hskip | by apply Hcrash]).
  - (* wait *) case_decide; simplify_eq; exists ns; [|by apply Hcrash]. eapply counted_one; [done | exact Ht|]. cbn.
    intros n [_ ?]%pend_tail; [|done]. by apply pend_quiet.
  - (* woken *) exists ns. eapply counted_one; [done | exact Ht|]. cbn. intros n [_ ?]%pend_tail; [|done]. by apply pend_quiet.
  - (* signal *) exists ns. destruct ch as [|t'|]; [by case_decide; simplify_eq; apply Hskip| |by case_decide; simplify_eq; apply Hskip].
    destruct (threads s !! t') as [th'|] eqn:Ht'; [|done]. destruct (asleep_on c th'); simplify_eq.
    apply counted_quiet; [done|]. intros t1 th1. rewrite !lookup_insert. case_decide; [|case_decide].
    + intros [= <-]. subst. eexists. split; [exact Ht|]. cbn. by intros n [_ ?]%pend_tail.
    + intros [= <-]. subst. eexists. split; [exact Ht'|]. apply pend_awaken.
    + eauto.
  - (* broadcast *) exists ns. apply counted_quiet; [done|]. intros t1 th1. rewrite lookup_insert. case_decide.
    + intros [= <-]. subst. eexists. split; [exact Ht|]. cbn. by intros n [_ ?]%pend_tail.
    + rewrite lookup_fmap, fmap_Some. intros (th0 & H0 & ->). eexists. split; [exact H0|]. intros n. case_match; [apply pend_awaken | done].
  - (* act *) destruct (f (data s) l) as [[d' l']|e] eqn:Ef; simplify_eq; [|exists ns; by apply Hcrash]. by eapply counted_decrement.
  - (* while *) exists ns. destruct (b (data s)); simplify_eq; [|by apply Hskip]. eapply counted_one; [done | exact Ht|]. cbn.
    intros n Hp. pose proof Hp as [Hb _]%pend_tail; [|done]. by apply pend_plain_app.
  - (* if *) exists ns. destruct (b (data s)); simplify_eq; [|by apply Hskip]. eapply counted_one; [done | exact Ht|]. cbn.
    intros n [Hb ?]%pend_tail; [|done]. by apply pend_plain_app.
Qed.

Lemma counted_start count progs : counted count (total_downs progs) (count_downs <$> progs) (lstart count progs).
Proof.
  split; cbn; [| |unfold total_downs; lia|lia|done].
  - intros t th. rewrite lookup_fmap, fmap_Some. intros (cs & Ht & ->). exists (count_downs cs). rewrite lookup_fmap, Ht. split; [done|]. apply pend_lprogram.
  - intros t n. rewrite lookup_fmap, fmap_Some. intros (cs & _ & ->). apply (pend_nonneg (lprogram cs)), pend_lprogram.
Qed.

Lemma counted_rtc count progs s :
  - 2 ^ 31 <= count - total_downs progs -> rtc step (lstart count progs) s ->
  exists ns, counted count (total_downs progs) ns s.
Proof.
  intros Hrange Hr. apply (rtc_invariant step (fun s => exists ns, counted count (total_downs progs) ns s) (lstart count progs)); [|done|].
  - intros s1 s2 [ns Hns] Hst. by eapply counted_step.
  - exists (count_downs <$> progs). apply counted_start.
Qed.

Lemma latch_wakeful count progs s :
  rtc step (lstart count progs) s -> exists owing, wakeful (fun _ => True) condition_ positive s owing.
Proof.
  apply wakeful_rtc with (owing := false), wakeful_init; [done|]. intros t th. rewrite lookup_fmap, fmap_Some.
  intros (cs & _ & ->) m. apply disc_lprogram.
Qed.

Lemma latch_good count progs s : rtc step (lstart count progs) s -> good (fun _ => True) s.
Proof.
  apply monitor_sound; [done..|]. intros t th. cbn. rewrite lookup_fmap, fmap_Some. intros (cs & _ & ->) d n.
  apply (disc_safe _ condition_ positive _ _ false). intros m. apply disc_lprogram.
Qed.

(** C17: a latch of [count] under any interleaving of any number of threads
    that call [wait], [countDown] and [getCount], with spurious wakeups: no
    assertion fails, in particular [wait] returns only once [count_] is not
    positive, and [count_] is [count] less the calls of [countDown] made, which
    does not leave the range of [int]. Once [count] calls have been made nobody
    is left behind: with the mutex free no thread sleeps in [wait], and when
    nothing but a spurious wakeup can happen any more, every thread has
    finished. *)
Theorem CountDownLatch_opens count progs s :
  - 2 ^ 31 <= count - total_downs progs -> rtc step (lstart count progs) s ->
  crashed s = None /\ overflowed (data s) = false /\
  count_ (data s) = count - downs (data s) /\ 0 <= total_downs progs - downs (data s) /\
  (count <= downs (data s) ->
     (owner s = None -> map_Forall (fun _ th => asleep_on condition_ th = false) (threads s)) /\
     (at_rest s -> map_Forall (fun _ th => code th = []) (threads s))).
Proof.
  intros Hrange Hr. pose proof (latch_good _ _ _ Hr) as Hg. destruct (latch_wakeful _ _ _ Hr) as [owing Hw].
  destruct (counted_rtc _ _ _ Hrange Hr) as (ns & [_ Hn Hs Hc Hov]). pose proof (msum_nonneg _ Hn).
  split_and!; [apply (good_live _ _ Hg) | done | done | lia|]. intros Hdone.
  assert (Hp : positive (data s) = false) by (unfold positive; unbool; lia). split.
  - intros Ho t th Ht. apply not_true_is_false. intros Ha. pose proof (wakeful_sleepers _ _ _ _ _ _ _ Hw Ho Ht Ha). congruence.
  - intros Hrest t th Ht. destruct (wakeful_at_rest _ _ _ _ _ Hw (good_live _ _ Hg) (good_owner _ _ Hg) Hrest) as [_ Hall].
    destruct (Hall t th Ht) as [|[_ ?]]; [done | congruence].
Qed.

(** Two waiters and two threads that count down; the latch opens with the
    second [countDown], which wakes both waiters. *)
Definition ldemo : gmap tid_t (list lcall) := {[1 := [LWait]; 2 := [LWait]; 3 := [LCountDown]; 4 := [LCountDown; LGetCount]]}.
Definition ldemo_schedule : list (tid_t * choice) :=
  replicate 5 (1, NoChoice) ++ replicate 5 (2, NoChoice) ++ replicate 6 (3, NoChoice) ++ replicate 12 (4, NoChoice) ++
  replicate 6 (1, NoChoice) ++ replicate 6 (2, NoChoice).
Definition ldemo_end : system latch llocals :=
  match run (lstart 2 ldemo) ldemo_schedule with Some s => s | None => lstart 2 ldemo end.
Lemma ldemo_reachable : rtc step (lstart 2 ldemo) ldemo_end.
Proof. apply (run_rtc _ ldemo_schedule). vm_compute. reflexivity. Qed.

Lemma CountDownLatch_opens_witness :
  downs (data ldemo_end) = 2 /\ count_ (data ldemo_end) = 2 - downs (data ldemo_end) /\
  map_Forall (fun _ th => asleep_on condition_ th = false) (threads ldemo_end).
Proof.
  destruct (CountDownLatch_opens 2 ldemo ldemo_end) as (_ & _ & Hc & _ & Hopen); [vm_compute; discriminate | exact ldemo_reachable|].
  split_and!; [vm_compute; reflexivity | exact Hc |]. apply Hopen; vm_compute; [discriminate | reflexivity].
Defined.
