(* ===== verification/LoopThread.v ===== *)
(** * Threads and loop threads ([3rd_party/muduo/muduo/base/Thread.{h,cc}],
      [3rd_party/muduo/muduo/net/EventLoopThread.{h,cc}])

    [Thread::start] creates a thread and waits on a latch until it runs;
    [EventLoopThread] runs an [EventLoop] in such a thread, hands its address to
    the thread that calls [startLoop], and stops it in its destructor. Two
    threads interleave: the owner, which calls [startLoop] and later destroys
    the object, and the loop's thread. A step is an access to a shared variable
    or a call that blocks. The latch is that of [Latch], whose [wait] passes
    once the count is not positive; of the loop only the flags [looping_] and
    [quit_] are kept. Thread names, exceptions of the thread function and a
    [pthread_create] that fails, which aborts, are left out. *)
From S2P Require Import Prelude Monitor MonitorWake Latch.

(** Where the loop's thread is: [runInThread] with [threadFunc] as [func_]. *)
Inductive npc :=
  | NNone      (** not created *)
  | NTid       (** [*tid_ = muduo::CurrentThread::tid()] *)
  | NCountDown (** [latch_->countDown()] *)
  | NCtor      (** [EventLoop loop] *)
  | NCallback  (** [if (callback_) callback_(&loop)] *)
  | NLock      (** [MutexLockGuard lock(mutex_)] *)
  | NSet       (** [loop_ = &loop] *)
  | NNotify    (** [cond_.notify()] *)
  | NUnlock
  | NLoop      (** [loop.loop()]: [looping_ = true; quit_ = false] *)
  | NIn        (** in the loop, up to a test of [quit_] that ends it *)
  | NNull      (** [loop_ = NULL] *)
  | NDtor      (** the end of the scope of [loop] *)
  | NDone.

(** Where the owner is: in [startLoop] up to [SReturn], in the destructor from
    [SExiting]. *)
Inductive spc :=
  | SStart     (** [assert(!started_)], [started_ = true], [pthread_create] *)
  | SLatch     (** [latch_.wait()] *)
  | SAssert    (** [assert(tid_ > 0)] *)
  | SLock      (** [MutexLockGuard lock(mutex_)] *)
  | STest      (** [while (loop_ == NULL)], and the call of [cond_.wait()] *)
  | SAsleep    (** in the wait *)
  | SRelock    (** leaving the wait *)
  | SUnlock
  | SReturn    (** [return loop_] *)
  | SUser      (** the owner's own code *)
  | SExiting   (** [exiting_ = true] *)
  | SIfLoop    (** [if (loop_ != NULL)] *)
  | SQuit      (** [loop_->quit()]: [quit_ = true] *)
  | SWakeup    (** ... [wakeup()] *)
  | SJoin      (** [thread_.join()]: its assertions and [joined_ = true] *)
  | SPJoin     (** ... [pthread_join] *)
  | SThreadDtor (** [~Thread()] and the end of the object *)
  | SGone.

(** The loop, on the stack of its thread. *)
Inductive loop_obj := NoLoop | Alive (looping quit : bool) | Dead.
Inductive who := Owner | LoopThread.

Record state := mkState {
  started_ : bool; joined_ : bool; detached : bool; tid_ : Z; latch_ : latch;
  loop_ : bool;                (** the pointer is not [NULL] *)
  exiting_ : bool;
  mutex_ : option who;
  loop : loop_obj;
  at_n : npc; at_s : spc;
  returned : option bool;      (** [startLoop] returned; the pointer was not [NULL] *)
  failed : option fault;
}.

#[global] Instance npc_eq_dec : EqDecision npc.
Proof. solve_decision. Defined.
#[global] Instance spc_eq_dec : EqDecision spc.
Proof. solve_decision. Defined.

Definition goN (s : state) (p : npc) : state :=
  mkState (started_ s) (joined_ s) (detached s) (tid_ s) (latch_ s) (loop_ s) (exiting_ s) (mutex_ s) (loop s) p (at_s s) (returned s) (failed s).
Definition goS (s : state) (p : spc) : state :=
  mkState (started_ s) (joined_ s) (detached s) (tid_ s) (latch_ s) (loop_ s) (exiting_ s) (mutex_ s) (loop s) (at_n s) p (returned s) (failed s).
Definition set_loop_ (s : state) (b : bool) : state :=
  mkState (started_ s) (joined_ s) (detached s) (tid_ s) (latch_ s) b (exiting_ s) (mutex_ s) (loop s) (at_n s) (at_s s) (returned s) (failed s).
Definition set_mutex (s : state) (m : option who) : state :=
  mkState (started_ s) (joined_ s) (detached s) (tid_ s) (latch_ s) (loop_ s) (exiting_ s) m (loop s) (at_n s) (at_s s) (returned s) (failed s).
Definition set_obj (s : state) (o : loop_obj) : state :=
  mkState (started_ s) (joined_ s) (detached s) (tid_ s) (latch_ s) (loop_ s) (exiting_ s) (mutex_ s) o (at_n s) (at_s s) (returned s) (failed s).
Definition fail (s : state) (f : fault) : state :=
  mkState (started_ s) (joined_ s) (detached s) (tid_ s) (latch_ s) (loop_ s) (exiting_ s) (mutex_ s) (loop s) (at_n s) (at_s s) (returned s) (Some f).

(** [EventLoopThread::EventLoopThread], with its [Thread] and latch of one. *)
Definition EventLoopThread_ctor : state :=
  mkState false false false 0 (CountDownLatch_ctor 1) false false None NoLoop NNone SStart None None.

Section loopthread.
(** [tid]: what [gettid] returns in the new thread. [quits]: the code that runs
    in the loop may call [quit]. [hasty]: the owner may destroy the object
    before the loop runs. *)
Context (tid : Z) (quits hasty : bool).

Definition set_quit (s : state) : state :=
  match loop s with Alive lp _ => set_obj s (Alive lp true) | _ => fail s FBounds end.

(** What code in the loop's thread that has the loop may do. *)
Definition self_quit (s : state) : option state :=
  match at_n s with
  | NCallback | NIn => if quits then Some (set_quit s) else None
  | _ => None
  end.

(** [runInThread] and [threadFunc]. The members of the object are gone once the
    owner has destroyed it. *)
Definition threadFunc (s : state) : option state :=
  let member (s' : state) := Some (if bool_decide (at_s s = SGone) then fail s FBounds else s') in
  match at_n s with
  | NNone | NDone => None
  | NTid => member (goN (mkState (started_ s) (joined_ s) (detached s) tid (latch_ s) (loop_ s) (exiting_ s) (mutex_ s) (loop s) (at_n s) (at_s s) (returned s) (failed s)) NCountDown)
  | NCountDown => member (goN (mkState (started_ s) (joined_ s) (detached s) (tid_ s) (count_one (latch_ s)) (loop_ s) (exiting_ s) (mutex_ s) (loop s) (at_n s) (at_s s) (returned s) (failed s)) NCtor)
  | NCtor => Some (goN (set_obj s (Alive false false)) NCallback)
  | NCallback => member (goN s NLock)
  | NLock => match mutex_ s with None => member (goN (set_mutex s (Some LoopThread)) NSet) | Some _ => None end
  | NSet => member (goN (set_loop_ s true) NNotify)
  | NNotify => member (goN (if bool_decide (at_s s = SAsleep) then goS s SRelock else s) NUnlock)
  | NUnlock => member (goN (set_mutex s None) NLoop)
  | NLoop => match loop s with
             | Alive lp _ => Some (if lp then fail s FAssert else goN (set_obj s (Alive true false)) NIn)
             | _ => Some (fail s FBounds)
             end
  | NIn => match loop s with
           | Alive _ true => Some (goN (set_obj s (Alive false true)) NNull)
           | Alive _ false => None
           | _ => Some (fail s FBounds)
           end
  | NNull => member (goN (set_loop_ s false) NDtor)
  | NDtor => Some (goN (set_obj s Dead) NDone)
  end.

Definition Thread_start (s : state) : state :=
  if started_ s then fail s FAssert
  else goN (goS (mkState true (joined_ s) (detached s) (tid_ s) (latch_ s) (loop_ s) (exiting_ s) (mutex_ s) (loop s) (at_n s) (at_s s) (returned s) (failed s)) SLatch) NTid.
Definition Thread_join (s : state) : state :=
  if negb (started_ s) || joined_ s then fail s FAssert
  else goS (mkState (started_ s) true (detached s) (tid_ s) (latch_ s) (loop_ s) (exiting_ s) (mutex_ s) (loop s) (at_n s) (at_s s) (returned s) (failed s)) SPJoin.
Definition pthread_join (s : state) : option state :=
  if bool_decide (at_n s = NDone) then Some (goS s SThreadDtor) else None.
Definition Thread_dtor (s : state) : state :=
  mkState (started_ s) (joined_ s) (started_ s && negb (joined_ s)) (tid_ s) (latch_ s) (loop_ s) (exiting_ s) (mutex_ s) (loop s) (at_n s) SGone (returned s) (failed s).

(** [startLoop]. *)
Definition startLoop (s : state) : option state :=
  match at_s s with
  | SStart => Some (Thread_start s)
  | SLatch => if positive (latch_ s) then None else Some (goS s SAssert)
  | SAssert => Some (if 0 <? tid_ s then goS s SLock else fail s FAssert)
  | SLock | SRelock => match mutex_ s with None => Some (goS (set_mutex s (Some Owner)) STest) | Some _ => None end
  | STest => Some (if loop_ s then goS s SUnlock else goS (set_mutex s None) SAsleep)
  | SUnlock => Some (goS (set_mutex s None) SReturn)
  | SReturn => Some (mkState (started_ s) (joined_ s) (detached s) (tid_ s) (latch_ s) (loop_ s) (exiting_ s) (mutex_ s) (loop s) (at_n s) SUser (Some (loop_ s)) (failed s))
  | _ => None
  end.

(** [~EventLoopThread]; [loop_] is read again for the call. *)
Definition EventLoopThread_dtor (s : state) : option state :=
  match at_s s with
  | SUser => if hasty || bool_decide (at_n s ∈ [NIn; NNull; NDtor; NDone]) then Some (goS s SExiting) else None
  | SExiting => Some (goS (mkState (started_ s) (joined_ s) (detached s) (tid_ s) (latch_ s) (loop_ s) true (mutex_ s) (loop s) (at_n s) (at_s s) (returned s) (failed s)) SIfLoop)
  | SIfLoop => Some (goS s (if loop_ s then SQuit else SThreadDtor))
  | SQuit => Some (if loop_ s then goS (set_quit s) SWakeup else fail s FBounds)
  | SWakeup => Some (match loop s with Alive _ _ => goS s SJoin | _ => fail s FBounds end)
  | SJoin => Some (Thread_join s)
  | SPJoin => pthread_join s
  | SThreadDtor => Some (Thread_dtor s)
  | _ => None
  end.

Inductive agent := AOwner | AThread | ASelfQuit | ASpurious.
Definition exec (s : state) (a : agent) : option state :=
  match failed s with
  | Some _ => None
  | None =>
    match a with
    | AOwner => match startLoop s with Some s' => Some s' | None => EventLoopThread_dtor s end
    | AThread => threadFunc s
    | ASelfQuit => self_quit s
    | ASpurious => if bool_decide (at_s s = SAsleep) then Some (goS s SRelock) else None
    end
  end.
Definition step (s s' : state) : Prop := exists a, exec s a = Some s'.
Definition run (s : state) (l : list agent) : option state := foldl (fun o a => o ≫= fun s => exec s a) (Some s) l.

(** Neither thread can go on by itself. *)
Definition resting (s : state) : Prop := exec s AOwner = None /\ exec s AThread = None /\ exec s ASelfQuit = None.
End loopthread.

(** ** The invariant when only the owner stops the loop *)
Definition nrank (p : npc) : Z :=
  match p with
  | NNone => 0 | NTid => 1 | NCountDown => 2 | NCtor => 3 | NCallback => 4 | NLock => 5 | NSet => 6 | NNotify => 7
  | NUnlock => 8 | NLoop => 9 | NIn => 10 | NNull => 11 | NDtor => 12 | NDone => 13
  end.
Definition srank (p : spc) : Z :=
  match p with
  | SStart => 0 | SLatch => 1 | SAssert => 2 | SLock => 3 | STest => 4 | SAsleep => 5 | SRelock => 6 | SUnlock => 7
  | SReturn => 8 | SUser => 9 | SExiting => 10 | SIfLoop => 11 | SQuit => 12 | SWakeup => 13 | SJoin => 14
  | SPJoin => 15 | SThreadDtor => 16 | SGone => 17
  end.
Definition quit_flag (o : loop_obj) : bool := match o with Alive _ q => q | _ => false end.
Definition looping_flag (o : loop_obj) : bool := match o with Alive l _ => l | _ => false end.
Definition alive (o : loop_obj) : bool := match o with Alive _ _ => true | _ => false end.

Record orderly (tid : Z) (hasty : bool) (s : state) : Prop := {
  o_created : started_ s = bool_decide (1 <= srank (at_s s));
  o_none : nrank (at_n s) = 0 <-> srank (at_s s) = 0;
  o_joined : joined_ s = bool_decide (15 <= srank (at_s s));
  o_latch : count_ (latch_ s) = if bool_decide (nrank (at_n s) <= 2) then 1 else 0;
  o_past_latch : 2 <= srank (at_s s) -> 3 <= nrank (at_n s);
  o_tid : 2 <= nrank (at_n s) -> tid_ s = tid;
  o_ptr : loop_ s = bool_decide (7 <= nrank (at_n s) <= 11);
  o_alive : alive (loop s) = bool_decide (4 <= nrank (at_n s) <= 12);
  o_dead : nrank (at_n s) = 13 -> loop s = Dead;
  o_looping : looping_flag (loop s) = bool_decide (nrank (at_n s) = 10);
  o_mutex : mutex_ s = if bool_decide (srank (at_s s) = 4 \/ srank (at_s s) = 7) then Some Owner
                       else if bool_decide (6 <= nrank (at_n s) <= 8) then Some LoopThread else None;
  o_exclusive : srank (at_s s) = 4 \/ srank (at_s s) = 7 -> ~ 6 <= nrank (at_n s) <= 8;
  o_asleep : srank (at_s s) = 5 -> nrank (at_n s) <= 7;
  o_handed : 7 <= srank (at_s s) -> 9 <= nrank (at_n s);
  o_quit : quit_flag (loop s) = true -> 13 <= srank (at_s s);
  o_over : 11 <= nrank (at_n s) -> 13 <= srank (at_s s);
  o_over_quit : 11 <= nrank (at_n s) -> alive (loop s) = true -> quit_flag (loop s) = true;
  o_patient : hasty = false -> 10 <= srank (at_s s) -> 10 <= nrank (at_n s);
  o_stopping : hasty = false -> 13 <= srank (at_s s) -> alive (loop s) = true -> quit_flag (loop s) = true;
  o_done : 16 <= srank (at_s s) -> nrank (at_n s) = 13;
  o_returned : returned s = if bool_decide (9 <= srank (at_s s)) then Some true else None;
}.

(** Each clause of the invariant in a step: ranks and flags. *)
Ltac orderly_split :=
  split; cbn in *; intros; try done; try lia; try congruence; try tauto;
  try (match goal with H : ?P -> ?G |- ?G => apply H; lia end);
  try (repeat case_bool_decide; (done || lia || congruence || tauto)).

Lemma orderly_init tid hasty : orderly tid hasty EventLoopThread_ctor.
Proof. orderly_split. Qed.

Lemma orderly_thread tid hasty s s' :
  orderly tid hasty s -> failed s = None -> threadFunc tid s = Some s' -> orderly tid hasty s' /\ failed s' = None.
Proof.
  intros Ho Hf He. destruct s as [st jo de ti la lp ex mu ob n p re fa]. cbn in Hf; subst fa. destruct Ho; cbn in *.
  destruct (decide (p = SGone)) as [->|Hg]; [specialize (o_done0 ltac:(done)); destruct n; done|]. unfold threadFunc in He. cbn in He.
  rewrite (bool_decide_eq_false_2 (p = SGone)) in He by done.
  destruct n; cbn in *; simplify_eq/=; try (split; [|done]); try (orderly_split; fail).
  - (* countDown *) orderly_split. unfold count_one. by rewrite o_latch0.
  - (* lock *) case_bool_decide; cbn in He; simplify_eq/=. split; [|done]. orderly_split.
  - (* notify *) destruct (decide (p = SAsleep)) as [->|Ha]; [rewrite bool_decide_eq_true_2 by done | rewrite bool_decide_eq_false_2 by done]; (split; [|done]); orderly_split.
    destruct p; done.
  - (* loop *) destruct ob as [|lo q|]; simplify_eq/=. split; [|done]. orderly_split. specialize (o_patient0 H ltac:(lia)). lia.
  - (* in the loop *) destruct ob as [|lo []|]; simplify_eq/=. split; [|done]. orderly_split.
  - orderly_split. by apply o_over_quit0.
Qed.

Lemma orderly_owner tid hasty s s' :
  0 < tid -> orderly tid hasty s -> failed s = None -> exec tid false hasty s AOwner = Some s' ->
  orderly tid hasty s' /\ failed s' = None \/ s' = fail s FBounds /\ at_s s = SWakeup /\ loop s = Dead.
Proof.
  intros Htid Ho Hf He. destruct s as [st jo de ti la lp ex mu ob n p re fa]. cbn in Hf; subst fa. unfold exec in He. cbn [failed] in He.
  destruct Ho; cbn in *.
  destruct p; cbn in *; simplify_eq/=; try (left; split; [|done]; orderly_split; fail).
  all: destruct n; cbn in *; try lia; destruct ob as [|lo q|]; cbn in *; simplify_eq/=; try lia; try congruence.
  all: unfold positive, pthread_join in *; rewrite ?o_latch0 in *; cbn in *; simplify_eq/=; try done.
  all: rewrite ?(o_tid0 ltac:(lia)) in *; rewrite ?(proj2 (Z.ltb_lt 0 tid)) in * by done.
  all: try (destruct hasty; cbn in He; simplify_eq/=).
  all: try (left; split; [|done]; orderly_split; fail).
  all: try (right; split_and!; done).
  all: try (left; split; [|done]; destruct q; [try (specialize (o_quit0 eq_refl); lia)|]; orderly_split; fail).
  all: by specialize (o_dead0 eq_refl).
Qed.

(** Either the state is orderly, or the owner has called [wakeup] on a loop that is gone. *)
Definition life_inv (tid : Z) (hasty : bool) (s : state) : Prop :=
  orderly tid hasty s /\ failed s = None \/ failed s = Some FBounds /\ at_s s = SWakeup /\ loop s = Dead /\ returned s = Some true.

Lemma life_step tid hasty s s' : 0 < tid -> life_inv tid hasty s -> step tid false hasty s s' -> life_inv tid hasty s'.
Proof.
  intros Htid [[Ho Hf]|[Hf _]] [a He]; [|by unfold exec in He; rewrite Hf in He].
  destruct a; [|unfold exec in He; rewrite Hf in He ..].
  - destruct (orderly_owner _ _ _ _ Htid Ho Hf He) as [[? ?]|(-> & Hp & Hd)]; [by left | right]. split_and!; try done.
    cbn. by rewrite (o_returned _ _ _ Ho), Hp.
  - left. by eapply orderly_thread.
  - unfold self_quit in He. by destruct (at_n s).
  - left. case_bool_decide as Hp; simplify_eq. split; [|done]. destruct s as [st jo de ti la lp ex mu ob n p re fa]. cbn in Hp. subst p.
    destruct Ho; cbn in *. orderly_split.
Qed.

Lemma life_rest tid hasty s :
  0 < tid -> orderly tid hasty s -> failed s = None -> resting tid false hasty s ->
  at_s s = SGone /\ at_n s = NDone \/ hasty = true /\ at_s s = SPJoin /\ at_n s = NIn /\ quit_flag (loop s) = false.
Proof.
  intros Htid Ho Hf (Hr1 & Hr2 & _). destruct s as [st jo de ti la lp ex mu ob n p re fa]. cbn in Hf; subst fa. unfold exec in *. cbn [failed] in *.
  destruct Ho; cbn in *.
  destruct p, n; cbn in *; try lia; try done; destruct ob as [|lo q|]; cbn in *; simplify_eq/=; try lia; try done.
  all: unfold positive, pthread_join in *; rewrite ?o_latch0 in *; cbn in *; simplify_eq/=; try done.
  all: try (destruct hasty; cbn in *; simplify_eq/=; try done).
  all: try (by left).
  - right. by destruct q.
  - exfalso. destruct q; [done|]. by specialize (o_stopping0 eq_refl ltac:(lia) eq_refl).
Qed.

(** C18: a loop thread that only its owner stops, under every interleaving of
    the two threads and with spurious wakeups. No assertion fails, and
    [startLoop] returns the address of a loop that is alive. The one access to
    something that is gone is that of [quit], which wakes up a loop that has
    already seen [quit_]. The two threads come to rest only with the loop's
    thread joined and the object destroyed, or, when the owner does not wait
    until the loop runs, in [join] on a loop that has lost the [quit]. *)
Theorem EventLoopThread_life tid hasty s :
  0 < tid -> rtc (step tid false hasty) EventLoopThread_ctor s ->
  (failed s = None \/ failed s = Some FBounds /\ at_s s = SWakeup /\ loop s = Dead) /\
  (returned s = None \/ returned s = Some true) /\
  (at_s s = SUser -> returned s = Some true /\ alive (loop s) = true /\ loop_ s = true) /\
  (failed s = None -> resting tid false hasty s ->
     at_s s = SGone /\ at_n s = NDone /\ joined_ s = true \/
     hasty = true /\ at_s s = SPJoin /\ at_n s = NIn /\ quit_flag (loop s) = false).
Proof.
  intros Htid Hr. assert (Hi : life_inv tid hasty s).
  { eapply rtc_invariant; [intros; by eapply life_step | exact Hr |]. left. split; [apply orderly_init | done]. }
  destruct Hi as [[Ho Hf]|(Hf & Hp & Hd & Hret)].
  - split_and!; [by left | rewrite (o_returned _ _ _ Ho); case_bool_decide; auto | |].
    + intros Hp. rewrite (o_returned _ _ _ Ho), (o_alive _ _ _ Ho), (o_ptr _ _ _ Ho), Hp. pose proof (o_handed _ _ _ Ho) as H1.
      pose proof (o_over _ _ _ Ho) as H2. rewrite Hp in H1, H2. cbn in H1, H2. split_and!; [done | apply bool_decide_eq_true_2; lia ..].
    + intros _ Hrest. destruct (life_rest _ _ _ Htid Ho Hf Hrest) as [[Hs Hn]|?]; [left | by right].
      split_and!; [done | done|]. by rewrite (o_joined _ _ _ Ho), Hs.
  - split_and!; [by right | by right | by rewrite Hp | by rewrite Hf].
Qed.

Lemma agents_rtc tid quits hasty l s s' : run tid quits hasty s l = Some s' -> rtc (step tid quits hasty) s s'.
Proof.
  unfold run. revert s. induction l as [|a l IH]; cbn; intros s H; [by simplify_eq|]. destruct (exec tid quits hasty s a) as [s1|] eqn:E.
  - eapply rtc_l; [by exists a | by apply IH].
  - exfalso. clear IH E. induction l; [done | auto].
Qed.

Definition whole_life : list agent :=
  AOwner :: replicate 9 AThread ++ replicate 12 AOwner ++ replicate 3 AThread ++ replicate 2 AOwner.
Definition after (quits hasty : bool) (l : list agent) : state :=
  match run 7 quits hasty EventLoopThread_ctor l with Some s => s | None => EventLoopThread_ctor end.

Lemma EventLoopThread_life_witness : at_s (after false false whole_life) = SGone /\ joined_ (after false false whole_life) = true.
Proof.
  destruct (EventLoopThread_life 7 false (after false false whole_life)) as (_ & _ & _ & Hrest);
    [reflexivity | apply (agents_rtc _ _ _ whole_life); vm_compute; reflexivity|].
  destruct Hrest as [(Hs & _ & Hj)|(Hh & _)]; [reflexivity | vm_compute; auto | exact (conj Hs Hj) | discriminate Hh].
Defined.

(** ** What goes wrong otherwise *)

(** An owner that destroys the object before the loop runs: [loop()] resets
    [quit_], and the owner waits in [join] for a loop that runs on. *)
Example quit_before_loop :
  let s := after false true (AOwner :: replicate 8 AThread ++ replicate 12 AOwner ++ [AThread]) in
  at_s s = SPJoin /\ at_n s = NIn /\ quit_flag (loop s) = false /\ resting 7 false true s.
Proof. vm_compute. by split_and!. Qed.

(** A loop that quits before the owner looks: [loop_] is [NULL] again, nobody
    will notify, and [startLoop] never returns. *)
Example quit_before_startLoop :
  let s := after true false (AOwner :: replicate 9 AThread ++ [ASelfQuit] ++ replicate 3 AThread ++ replicate 4 AOwner) in
  at_s s = SAsleep /\ at_n s = NDone /\ resting 7 true false s.
Proof. vm_compute. by split_and!. Qed.

(** A loop that quits between the unlock and the return: [startLoop], which
    reads [loop_] outside the lock, returns [NULL]. *)
Example startLoop_returns_null :
  returned (after true false (AOwner :: replicate 9 AThread ++ replicate 5 AOwner ++ [ASelfQuit] ++ replicate 2 AThread ++ [AOwner])) = Some false.
Proof. vm_compute. reflexivity. Qed.

(** The loop ends between the two statements of [quit]. *)
Example wakeup_after_loop :
  let s := after false false (AOwner :: replicate 9 AThread ++ replicate 10 AOwner ++ replicate 3 AThread ++ [AOwner]) in
  failed s = Some FBounds /\ at_s s = SWakeup.
Proof. vm_compute. by split_and!. Qed.
