(* ===== verification/StringPiece.v ===== *)
(** * [common::StringPiece] ([src/common/base/stringpiece.h])

    A pointer with an [int] length. The comparison operators call [memcmp],
    whose length argument is the [int] converted to [size_t]; the model keeps
    the conversion, so a piece of negative length faults as soon as its bytes
    are compared or copied. *)
From S2P Require Import Prelude.

Record StringPiece := mkStringPiece { ptr_ : ptr; length_ : Z }.

(** ** Standard library: [memcmp], [strlen] *)
Fixpoint memcmp_bytes (a b : bytes) : Z :=
  match a, b with
  | x :: a', y :: b' =>
      match byte.unsigned x ?= byte.unsigned y with
      | Lt => -1
      | Gt => 1
      | Eq => memcmp_bytes a' b'
      end
  | _, _ => 0
  end.

(** Only the sign of [memcmp]'s result is specified; the model returns it. *)
Definition memcmp (p q : ptr) (n : Z) : res Z :=
  a ← ptr_read p n; b ← ptr_read q n; Ok (memcmp_bytes a b).

Fixpoint strlen_bytes (l : bytes) : res Z :=
  match l with
  | [] => Fail FBounds
  | Byte.x00 :: _ => Ok 0
  | _ :: l' => n ← strlen_bytes l'; Ok (1 + n)
  end.

Definition strlen (p : ptr) : res Z :=
  match p with
  | NullPtr => Fail FBounds
  | Ptr blk off => check (0 <=? off) FBounds;; strlen_bytes (zdrop off blk)
  end.

(** ** Constructors *)
Definition StringPiece_default : StringPiece := mkStringPiece NullPtr 0.
Definition StringPiece_cstr (str : ptr) : res StringPiece :=
  n ← strlen str; Ok (mkStringPiece str (int32 n)).
Definition StringPiece_ustr (str : ptr) : res StringPiece :=
  n ← strlen str; Ok (mkStringPiece str (int32 n)).
Definition StringPiece_string (str : bytes) : StringPiece :=
  mkStringPiece (Ptr str 0) (int32 (zlen str)).
Definition StringPiece_range (offset : ptr) (len : Z) : StringPiece :=
  mkStringPiece offset len.

(** ** Accessors and mutators *)
Definition data (s : StringPiece) : ptr := ptr_ s.
Definition size (s : StringPiece) : Z := length_ s.
Definition empty (s : StringPiece) : bool := length_ s =? 0.
Definition begin_ (s : StringPiece) : ptr := ptr_ s.
Definition end_ (s : StringPiece) : ptr := ptr_add (ptr_ s) (length_ s).
Definition clear (s : StringPiece) : StringPiece := mkStringPiece NullPtr 0.
Definition set_buffer (s : StringPiece) (buffer : ptr) (len : Z) : StringPiece :=
  mkStringPiece buffer len.
Definition set_cstr (s : StringPiece) (str : ptr) : res StringPiece :=
  n ← strlen str; Ok (mkStringPiece str (int32 n)).
Definition index (s : StringPiece) (i : Z) : res bytes := ptr_read (ptr_add (ptr_ s) i) 1.
Definition remove_prefix (s : StringPiece) (n : Z) : StringPiece :=
  mkStringPiece (ptr_add (ptr_ s) n) (length_ s - n).
Definition remove_suffix (s : StringPiece) (n : Z) : StringPiece :=
  mkStringPiece (ptr_ s) (length_ s - n).

(** ** Comparison *)
Definition min_len (s x : StringPiece) : Z :=
  if length_ s <? length_ x then length_ s else length_ x.

Definition op_eq (s x : StringPiece) : res bool :=
  if length_ s =? length_ x then
    r ← memcmp (ptr_ s) (ptr_ x) (size_t (length_ s)); Ok (r =? 0)
  else Ok false.
Definition op_ne (s x : StringPiece) : res bool := b ← op_eq s x; Ok (negb b).

(** [STRINGPIECE_BINARY_PREDICATE(cmp,auxcmp)] *)
Definition binary_predicate (cmp auxcmp : Z -> Z -> bool) (s x : StringPiece) : res bool :=
  r ← memcmp (ptr_ s) (ptr_ x) (size_t (min_len s x));
  Ok (auxcmp r 0 || ((r =? 0) && cmp (length_ s) (length_ x)))%bool.

Definition op_lt := binary_predicate Z.ltb Z.ltb.
Definition op_le := binary_predicate Z.leb Z.ltb.
Definition op_ge := binary_predicate Z.geb Z.gtb.
Definition op_gt := binary_predicate Z.gtb Z.gtb.

Definition compare (s x : StringPiece) : res Z :=
  r ← memcmp (ptr_ s) (ptr_ x) (size_t (min_len s x));
  Ok (if r =? 0 then
        if length_ s <? length_ x then -1
        else if length_ x <? length_ s then 1 else r
      else r).

(** [std::string(data(), size())] *)
Definition as_string (s : StringPiece) : res bytes :=
  ptr_read (data s) (size_t (size s)).
Definition CopyToStdString (s : StringPiece) : res bytes :=
  ptr_read (ptr_ s) (size_t (length_ s)).

Definition starts_with (s x : StringPiece) : res bool :=
  if length_ s >=? length_ x then
    r ← memcmp (ptr_ s) (ptr_ x) (size_t (length_ x)); Ok (r =? 0)
  else Ok false.

(** ** Specification: the piece denotes a byte string *)

(** [denotes s d]: the piece is valid and its bytes are [d]. *)
Definition denotes (s : StringPiece) (d : bytes) : Prop :=
  ptr_read (ptr_ s) (length_ s) = Ok d /\ length_ s < 2 ^ 31.

(** Lexicographic comparison of byte strings, bytes compared unsigned. *)
Fixpoint lex (a b : bytes) : comparison :=
  match a, b with
  | [], [] => Eq
  | [], _ :: _ => Lt
  | _ :: _, [] => Gt
  | x :: a', y :: b' =>
      match byte.unsigned x ?= byte.unsigned y with
      | Eq => lex a' b'
      | c => c
      end
  end.

Definition sign (c : comparison) : Z := match c with Lt => -1 | Eq => 0 | Gt => 1 end.

Lemma lex_eq_iff a b : lex a b = Eq <-> a = b.
Proof.
  revert b. induction a as [|x a IH]; intros [|y b]; try done. cbn.
  destruct (Z.compare_spec (byte.unsigned x) (byte.unsigned y)) as [E| |].
  - apply byte.unsigned_inj in E as ->. rewrite IH. split; congruence.
  - split; [done|]. intros [= -> ->]. lia.
  - split; [done|]. intros [= -> ->]. lia.
Qed.

(** [memcmp] on the common prefix, then the lengths, is [lex]. *)
Lemma memcmp_lex a b :
  sign (lex a b) =
    let r := memcmp_bytes (ztake (zlen b `min` zlen a) a) (ztake (zlen b `min` zlen a) b) in
    if r =? 0 then sign (zlen a ?= zlen b) else r.
Proof.
  revert b. induction a as [|x a IH]; intros [|y b]; try done.
  rewrite !zlen_cons, Z.add_min_distr_l.
  assert (Hs : forall (z : byte) l, ztake (1 + zlen b `min` zlen a) (z :: l)
                           = z :: ztake (zlen b `min` zlen a) l).
  { intros. unfold ztake. rewrite Z2Nat.inj_add by zlen_lia. done. }
  rewrite !Hs. cbn -[Z.compare zlen]. rewrite Zcompare_plus_compat.
  destruct (byte.unsigned x ?= byte.unsigned y); [apply IH | done | done].
Qed.

Lemma memcmp_bytes_sign a b : memcmp_bytes a b = -1 \/ memcmp_bytes a b = 0 \/ memcmp_bytes a b = 1.
Proof.
  revert b. induction a as [|x a IH]; intros [|y b]; cbn; auto.
  destruct (_ ?= _); auto.
Qed.

Section denotations.
Context (s x : StringPiece) (d e : bytes).
Context (Hs : denotes s d) (Hx : denotes x e).

Lemma denotes_len t f : denotes t f -> length_ t = zlen f /\ 0 <= length_ t < 2 ^ 31.
Proof. intros [H ?]. apply ptr_read_len in H as [? ?]. lia. Qed.

Lemma size_t_len t f n : denotes t f -> 0 <= n <= length_ t -> size_t n = n.
Proof. intros ?%denotes_len ?. apply size_t_id. lia. Qed.

Lemma ptr_read_prefix p n m f :
  ptr_read p n = Ok f -> 0 <= m <= n -> ptr_read p m = Ok (ztake m f).
Proof.
  intros Hf Hm. unfold ptr_read in *.
  destruct (Z.eqb_spec m 0) as [->|]; [done|].
  destruct (Z.eqb_spec n 0); [lia|]. destruct p as [|blk off]; [done|].
  apply vec_read_inv in Hf as (?&?&?&->). rewrite vec_read_ok by lia.
  by rewrite ztake_ztake by lia.
Qed.

Lemma min_len_denotes : min_len s x = zlen e `min` zlen d.
Proof.
  unfold min_len. pose proof (denotes_len _ _ Hs). pose proof (denotes_len _ _ Hx).
  destruct (Z.ltb_spec (length_ s) (length_ x)); lia.
Qed.

Lemma memcmp_min : exists r,
  memcmp (ptr_ s) (ptr_ x) (size_t (min_len s x)) = Ok r /\ (r = -1 \/ r = 0 \/ r = 1) /\
  sign (lex d e) = if r =? 0 then sign (length_ s ?= length_ x) else r.
Proof.
  pose proof (denotes_len _ _ Hs) as [Es ?]. pose proof (denotes_len _ _ Hx) as [Ex ?].
  destruct Hs as [Rs _], Hx as [Rx _].
  rewrite size_t_id by (rewrite min_len_denotes; lia). unfold memcmp. rewrite min_len_denotes.
  rewrite (ptr_read_prefix _ _ (zlen e `min` zlen d) d Rs) by lia.
  rewrite (ptr_read_prefix _ _ (zlen e `min` zlen d) e Rx) by lia.
  eexists; split; [reflexivity|]. split; [apply memcmp_bytes_sign|].
  rewrite memcmp_lex, Es, Ex. reflexivity.
Qed.
End denotations.

(** On valid pieces, [compare] and the operators [<], [<=], [>=], [>] all
    decide the lexicographic order of the bytes the pieces denote: they return
    (no read leaves the pieces' memory), they agree with each other, and
    [compare] is zero exactly for equal strings. *)
Theorem comparison_is_lexicographic s x d e :
  denotes s d -> denotes x e ->
  compare s x = Ok (sign (lex d e)) /\
  op_lt s x = Ok (bool_decide (lex d e = Lt)) /\
  op_le s x = Ok (bool_decide (lex d e <> Gt)) /\
  op_ge s x = Ok (bool_decide (lex d e <> Lt)) /\
  op_gt s x = Ok (bool_decide (lex d e = Gt)) /\
  (compare s x = Ok 0 <-> d = e).
Proof.
  intros Hs Hx. destruct (memcmp_min s x d e Hs Hx) as (r & Hr & Hsign & Hlex).
  assert (Hc : compare s x = Ok (sign (lex d e))).
  { unfold compare. rewrite Hr. cbn. f_equal. rewrite Hlex.
    destruct (Z.eqb_spec r 0) as [->|]; [|done].
    destruct (Z.compare_spec (length_ s) (length_ x)); repeat case_cmp; cbn; lia. }
  split; [done|]. unfold op_lt, op_le, op_ge, op_gt, binary_predicate. rewrite Hr. cbn.
  split_and!; try (f_equal; rewrite Z.geb_leb, Z.gtb_ltb || rewrite ?Z.geb_leb, ?Z.gtb_ltb).
  all: try (destruct (lex d e) eqn:El; cbn in Hlex;
    destruct (Z.compare_spec (length_ s) (length_ x)); cbn in Hlex;
    destruct (Z.eqb_spec r 0) as [->|]; cbn in Hlex; repeat case_cmp; cbn; try done; lia).
  rewrite Hc. split.
  - intros [= H]. apply lex_eq_iff. by destruct (lex d e).
  - intros ->. by rewrite (proj2 (lex_eq_iff e e) eq_refl).
Qed.

Lemma comparison_is_lexicographic_witness :
  denotes (StringPiece_string [Byte.x61]) [Byte.x61] /\
  denotes (StringPiece_string [Byte.x61; Byte.xff]) [Byte.x61; Byte.xff] /\
  compare (StringPiece_string [Byte.x61]) (StringPiece_string [Byte.x61; Byte.xff]) = Ok (-1).
Proof.
  assert (H1 : denotes (StringPiece_string [Byte.x61]) [Byte.x61]) by (split; reflexivity).
  assert (H2 : denotes (StringPiece_string [Byte.x61; Byte.xff]) [Byte.x61; Byte.xff])
    by (split; reflexivity).
  split; [exact H1 | split; [exact H2|]].
  exact (proj1 (comparison_is_lexicographic _ _ _ _ H1 H2)).
Defined.
