(* ===== verification/Buffer.v ===== *)
(** * [common::net::Buffer] ([src/common/net/buffer.h])

    One [std::vector<char>] with a reader and a writer index. Indices are
    [size_t], so the model wraps them at 64 bits; every [assert] and every
    access of the source is a check of the model. Pointers into the buffer
    ([peek()], [BeginWrite()], the result of [FindCRLF]) are offsets into
    [buffer_]. *)
From S2P Require Import Prelude Endian StringPiece.

Record Buffer := mkBuffer {
  buffer_ : bytes;
  readerIndex_ : Z;
  writerIndex_ : Z;
}.

Definition kCheapPrepend : Z := 8.
Definition kInitialSize : Z := 1024.

(** ** Observers *)
Definition ReadableBytes (b : Buffer) : Z := size_t (writerIndex_ b - readerIndex_ b).
Definition WritableBytes (b : Buffer) : Z := size_t (zlen (buffer_ b) - writerIndex_ b).
Definition PrependableBytes (b : Buffer) : Z := readerIndex_ b.
Definition peek (b : Buffer) : Z := readerIndex_ b.
Definition BeginWrite (b : Buffer) : Z := writerIndex_ b.

(** [Buffer()] *)
Definition new_Buffer : res Buffer :=
  v ← vec_resize [] (kCheapPrepend + kInitialSize);
  let b := mkBuffer v kCheapPrepend kCheapPrepend in
  assert_ (ReadableBytes b =? 0);;
  assert_ (WritableBytes b =? kInitialSize);;
  assert_ (PrependableBytes b =? kCheapPrepend);;
  Ok b.

(** [Swap(rhs)]: both buffers after the call. *)
Definition Swap (b rhs : Buffer) : Buffer * Buffer :=
  (mkBuffer (buffer_ rhs) (readerIndex_ rhs) (writerIndex_ rhs),
   mkBuffer (buffer_ b) (readerIndex_ b) (writerIndex_ b)).

(** ** Searching: [std::search(first, last, kCRLF, kCRLF+2)] *)
Fixpoint search2 (c0 c1 : byte) (l : bytes) (pos : Z) : Z :=
  match l with
  | x :: (y :: _) as l' =>
      if Byte.eqb x c0 && Byte.eqb y c1 then pos else search2 c0 c1 l' (pos + 1)
  | _ :: [] => pos + 1
  | [] => pos
  end.

(** [kCRLF] is declared in the class and defined elsewhere: an argument. *)
Definition FindCRLF_from (kCRLF : byte * byte) (b : Buffer) (start : Z) : res (option Z) :=
  assert_ (peek b <=? start);;
  assert_ (start <=? BeginWrite b);;
  l ← vec_read (buffer_ b) start (BeginWrite b - start);
  let crlf := search2 kCRLF.1 kCRLF.2 l start in
  Ok (if crlf =? BeginWrite b then None else Some crlf).

Definition FindCRLF (kCRLF : byte * byte) (b : Buffer) : res (option Z) :=
  l ← vec_read (buffer_ b) (peek b) (BeginWrite b - peek b);
  let crlf := search2 kCRLF.1 kCRLF.2 l (peek b) in
  Ok (if crlf =? BeginWrite b then None else Some crlf).

(** ** Consuming *)
Definition RetrieveAll (b : Buffer) : Buffer :=
  mkBuffer (buffer_ b) kCheapPrepend kCheapPrepend.

Definition Retrieve (b : Buffer) (len : Z) : res Buffer :=
  assert_ (len <=? ReadableBytes b);;
  if len <? ReadableBytes b then
    Ok (mkBuffer (buffer_ b) (size_t (readerIndex_ b + len)) (writerIndex_ b))
  else Ok (RetrieveAll b).

Definition RetrieveUntil (b : Buffer) (end_ : Z) : res Buffer :=
  assert_ (peek b <=? end_);;
  assert_ (end_ <=? BeginWrite b);;
  Retrieve b (size_t (end_ - peek b)).

Definition RetrieveInt32 (b : Buffer) : res Buffer := Retrieve b 4.
Definition RetrieveInt16 (b : Buffer) : res Buffer := Retrieve b 2.
Definition RetrieveInt8 (b : Buffer) : res Buffer := Retrieve b 1.

Definition RetrieveAsString (b : Buffer) (len : Z) : res (bytes * Buffer) :=
  assert_ (len <=? ReadableBytes b);;
  result ← vec_read (buffer_ b) (peek b) len;
  b' ← Retrieve b len;
  Ok (result, b').

Definition RetrieveAllAsString (b : Buffer) : res (bytes * Buffer) :=
  RetrieveAsString b (ReadableBytes b).

Definition ToStringPiece (b : Buffer) : StringPiece :=
  StringPiece_range (Ptr (buffer_ b) (peek b)) (int32 (ReadableBytes b)).

(** ** Producing *)
Definition HasWritten (b : Buffer) (len : Z) : Buffer :=
  mkBuffer (buffer_ b) (readerIndex_ b) (size_t (writerIndex_ b + len)).

Definition MakeSpace (b : Buffer) (len : Z) : res Buffer :=
  if size_t (WritableBytes b + PrependableBytes b) <? size_t (len + kCheapPrepend) then
    v ← vec_resize (buffer_ b) (size_t (writerIndex_ b + len));
    Ok (mkBuffer v (readerIndex_ b) (writerIndex_ b))
  else
    assert_ (kCheapPrepend <? readerIndex_ b);;
    let readable := ReadableBytes b in
    l ← vec_read (buffer_ b) (readerIndex_ b) (writerIndex_ b - readerIndex_ b);
    v ← vec_write (buffer_ b) kCheapPrepend l;
    let b' := mkBuffer v kCheapPrepend (size_t (kCheapPrepend + readable)) in
    assert_ (readable =? ReadableBytes b');;
    Ok b'.

Definition EnsureWritableBytes (b : Buffer) (len : Z) : res Buffer :=
  b' ← (if WritableBytes b <? len then MakeSpace b len else Ok b);
  assert_ (len <=? WritableBytes b');;
  Ok b'.

(** [Append(const char* data, size_t len)]; the [const void*] overload forwards to it. *)
Definition Append (b : Buffer) (data : ptr) (len : Z) : res Buffer :=
  b' ← EnsureWritableBytes b len;
  d ← ptr_read data len;
  v ← vec_write (buffer_ b') (BeginWrite b') d;
  Ok (HasWritten (mkBuffer v (readerIndex_ b') (writerIndex_ b')) len).

(** [Append(const StringPiece& str)]: the [int] size becomes a [size_t]. *)
Definition Append_piece (b : Buffer) (str : StringPiece) : res Buffer :=
  Append b (data str) (size_t (size str)).

Definition Prepend (b : Buffer) (data : ptr) (len : Z) : res Buffer :=
  assert_ (len <=? PrependableBytes b);;
  let r := size_t (readerIndex_ b - len) in
  d ← ptr_read data len;
  v ← vec_write (buffer_ b) r d;
  Ok (mkBuffer v r (writerIndex_ b)).

Definition Shrink (b : Buffer) (reserve : Z) : res Buffer :=
  other ← new_Buffer;
  other ← EnsureWritableBytes other (size_t (ReadableBytes b + reserve));
  other ← Append_piece other (ToStringPiece b);
  Ok (Swap b other).1.

(** ** Integers in network byte order *)
Section integers.
Context {h : Host}.

Definition AppendInt32 (b : Buffer) (x : Z) : res Buffer :=
  let be32 := int32 (HostToNetwork32 (uint32 x)) in
  Append b (Ptr (store_int 4 be32) 0) 4.
Definition AppendInt16 (b : Buffer) (x : Z) : res Buffer :=
  let be16 := int16 (HostToNetwork16 (uint16 x)) in
  Append b (Ptr (store_int 2 be16) 0) 2.
Definition AppendInt8 (b : Buffer) (x : Z) : res Buffer :=
  Append b (Ptr (store_int 1 x) 0) 1.

Definition PeekInt32 (b : Buffer) : res Z :=
  assert_ (4 <=? ReadableBytes b);;
  l ← vec_read (buffer_ b) (peek b) 4;
  let be32 := int32 (load_int l) in
  Ok (int32 (NetworkToHost32 (uint32 be32))).
Definition PeekInt16 (b : Buffer) : res Z :=
  assert_ (2 <=? ReadableBytes b);;
  l ← vec_read (buffer_ b) (peek b) 2;
  let be16 := int16 (load_int l) in
  Ok (int16 (NetworkToHost16 (uint16 be16))).
Definition PeekInt8 (b : Buffer) : res Z :=
  assert_ (1 <=? ReadableBytes b);;
  l ← vec_read (buffer_ b) (peek b) 1;
  Ok (int8 (load_int l)).

Definition ReadInt32 (b : Buffer) : res (Z * Buffer) :=
  result ← PeekInt32 b; b' ← RetrieveInt32 b; Ok (result, b').
Definition ReadInt16 (b : Buffer) : res (Z * Buffer) :=
  result ← PeekInt16 b; b' ← RetrieveInt16 b; Ok (result, b').
Definition ReadInt8 (b : Buffer) : res (Z * Buffer) :=
  result ← PeekInt8 b; b' ← RetrieveInt8 b; Ok (result, b').

Definition PrependInt32 (b : Buffer) (x : Z) : res Buffer :=
  let be32 := int32 (HostToNetwork32 (uint32 x)) in
  Prepend b (Ptr (store_int 4 be32) 0) 4.
Definition PrependInt16 (b : Buffer) (x : Z) : res Buffer :=
  let be16 := int16 (HostToNetwork16 (uint16 x)) in
  Prepend b (Ptr (store_int 2 be16) 0) 2.
Definition PrependInt8 (b : Buffer) (x : Z) : res Buffer :=
  Prepend b (Ptr (store_int 1 x) 0) 1.
End integers.

(** ** Invariant and abstract content *)
Record wf (b : Buffer) : Prop := {
  wf_reader : 0 <= readerIndex_ b <= writerIndex_ b;
  wf_writer : writerIndex_ b <= zlen (buffer_ b);
  wf_prepend : kCheapPrepend <= zlen (buffer_ b);
  wf_size : zlen (buffer_ b) <= max_size;
}.

(** The readable bytes: what the class calls CONTENT. *)
Definition view (b : Buffer) : bytes :=
  ztake (writerIndex_ b - readerIndex_ b) (zdrop (readerIndex_ b) (buffer_ b)).

Ltac open_wf := repeat match goal with
  | H : wf ?b |- _ =>
      lazymatch goal with
      | _ : writerIndex_ b <= zlen (buffer_ b) |- _ => fail
      | _ => pose proof (wf_reader b H); pose proof (wf_writer b H);
             pose proof (wf_prepend b H); pose proof (wf_size b H)
      end
  end;
  unfold kCheapPrepend, kInitialSize, max_size in *.
Ltac solve_wf :=
  open_wf; split; cbn [buffer_ readerIndex_ writerIndex_];
  unfold kCheapPrepend, max_size; zlen_lia.

Lemma readable_wf b : wf b -> ReadableBytes b = writerIndex_ b - readerIndex_ b.
Proof. intros H. open_wf. apply size_t_id. lia. Qed.

Lemma writable_wf b : wf b -> WritableBytes b = zlen (buffer_ b) - writerIndex_ b.
Proof. intros H. open_wf. apply size_t_id. lia. Qed.

Lemma zlen_view b : wf b -> zlen (view b) = writerIndex_ b - readerIndex_ b.
Proof. intros H. open_wf. unfold view. zlen_lia. Qed.

Lemma readable_view b : wf b -> ReadableBytes b = zlen (view b).
Proof. intros H. by rewrite readable_wf, zlen_view. Qed.

(** The object as prefix, content and suffix. *)
Lemma buffer_split b : wf b ->
  buffer_ b = ztake (readerIndex_ b) (buffer_ b) ++ view b ++ zdrop (writerIndex_ b) (buffer_ b).
Proof.
  intros H. open_wf. unfold view.
  rewrite <- (ztake_zdrop (readerIndex_ b) (buffer_ b)) at 1. f_equal.
  rewrite <- (ztake_zdrop (writerIndex_ b - readerIndex_ b) (zdrop _ _)) at 1. f_equal.
  rewrite zdrop_zdrop by lia. f_equal. lia.
Qed.

(** Reading back a middle part that is known. *)
Lemma view_intro pre mid post r w :
  r = zlen pre -> w = r + zlen mid -> view (mkBuffer (pre ++ mid ++ post) r w) = mid.
Proof.
  intros -> ->. unfold view. cbn [buffer_ readerIndex_ writerIndex_].
  rewrite zdrop_app_r by lia. rewrite Z.sub_diag, zdrop_0.
  replace (_ + _ - _) with (zlen mid) by lia.
  rewrite ztake_app_l by lia. by apply ztake_all.
Qed.

Lemma vec_read_view b off len : wf b -> 0 <= off -> 0 <= len -> off + len <= zlen (view b) ->
  vec_read (buffer_ b) (readerIndex_ b + off) len = Ok (ztake len (zdrop off (view b))).
Proof.
  intros Hwf ? ? Hl. pose proof (zlen_view b Hwf). open_wf. rewrite vec_read_ok by lia.
  f_equal. unfold view. rewrite zdrop_ztake by lia. rewrite ztake_ztake by lia.
  rewrite zdrop_zdrop by lia. done.
Qed.

(** ** Functional behaviour of the operations *)
Lemma new_Buffer_spec : exists b,
  new_Buffer = Ok b /\ wf b /\ view b = [] /\ readerIndex_ b = kCheapPrepend /\
  writerIndex_ b = kCheapPrepend.
Proof.
  eexists. split; [vm_compute; reflexivity|].
  split_and!; [split; vm_compute; intuition discriminate | done ..].
Qed.

Lemma RetrieveAll_spec b : wf b -> wf (RetrieveAll b) /\ view (RetrieveAll b) = [].
Proof.
  intros H. unfold RetrieveAll. split; [solve_wf|].
  unfold view. cbn [buffer_ readerIndex_ writerIndex_]. by rewrite Z.sub_diag.
Qed.

Lemma Retrieve_spec b len : wf b -> 0 <= len <= zlen (view b) -> exists b',
  Retrieve b len = Ok b' /\ wf b' /\ view b' = zdrop len (view b) /\
  readerIndex_ b' = (if len <? zlen (view b) then readerIndex_ b + len else kCheapPrepend) /\
  writerIndex_ b' <= writerIndex_ b `max` kCheapPrepend.
Proof.
  intros Hwf Hlen. unfold Retrieve. rewrite readable_view by done.
  rewrite assert_bind_true by (apply Z.leb_le; lia).
  pose proof (zlen_view b Hwf) as Hv. destruct (Z.ltb_spec len (zlen (view b))).
  - eexists. split; [done|]. assert (Hs : size_t (readerIndex_ b + len) = readerIndex_ b + len)
      by (open_wf; apply size_t_id; lia).
    rewrite Hs. split_and!; [solve_wf | | done | cbn; lia].
    unfold view. cbn [buffer_ readerIndex_ writerIndex_]. open_wf.
    rewrite zdrop_ztake by lia. rewrite zdrop_zdrop by lia. f_equal. lia.
  - destruct (RetrieveAll_spec b Hwf) as [? Hva]. eexists. split; [done|].
    split_and!; [done | | done | cbn; lia]. rewrite Hva. symmetry. apply zdrop_all. lia.
Qed.

(** Room for [len] more bytes: by growing the vector or by moving the content. *)
Definition has_room (b : Buffer) (len : Z) : Prop :=
  writerIndex_ b + len <= max_size \/
  len + kCheapPrepend <= zlen (buffer_ b) - writerIndex_ b + readerIndex_ b.

(** Making room keeps the content and leaves room for a 4-byte prepend. *)
Lemma MakeSpace_room b len : wf b -> 0 <= len <= max_size -> WritableBytes b < len ->
  has_room b len -> exists b',
  MakeSpace b len = Ok b' /\ wf b' /\ view b' = view b /\
  len <= zlen (buffer_ b') - writerIndex_ b' /\
  readerIndex_ b `min` kCheapPrepend <= readerIndex_ b' /\ writerIndex_ b' <= writerIndex_ b.
Proof.
  intros Hwf Hlen Hw Hmax. rewrite writable_wf in Hw by done.
  pose proof (zlen_view b Hwf) as Hv. pose proof (buffer_split b Hwf) as Hb.
  unfold MakeSpace. rewrite writable_wf, readable_wf by done. unfold PrependableBytes, has_room in *.
  open_wf. rewrite !size_t_id by lia. destruct (Z.ltb_spec
    (zlen (buffer_ b) - writerIndex_ b + readerIndex_ b) (len + 8)) as [Hlt|Hge].
  - destruct (vec_resize_grow (buffer_ b) (writerIndex_ b + len)) as (pad & Hp & Hpl);
      [unfold max_size; lia|].
    rewrite Hp. eexists; split; [reflexivity|].
    cbn [buffer_ readerIndex_ writerIndex_]. split_and!; try lia.
    + solve_wf.
    + unfold view at 1. cbn [buffer_ readerIndex_ writerIndex_]. rewrite zdrop_app_l by lia.
      rewrite ztake_app_l by zlen_lia. done.
  - rewrite assert_bind_true by (apply Z.ltb_lt; lia).
    pose proof (vec_read_view b 0 (zlen (view b)) Hwf) as Hr.
    rewrite Z.add_0_r, zdrop_0, Hv, ztake_all in Hr by lia. rewrite Hr by lia. cbn [mbind res_bind].
    rewrite vec_write_ok by lia. cbn [mbind res_bind].
    assert (Hl : zlen (ztake 8 (buffer_ b)) = 8) by zlen_lia.
    eassert (wf (mkBuffer _ 8 (8 + (writerIndex_ b - readerIndex_ b)))) as Hwf'; last first.
    { rewrite assert_bind_true by (rewrite readable_wf by apply Hwf'; cbn; apply Z.eqb_eq; lia).
      eexists; split; [reflexivity|]. split; [apply Hwf'|].
      split_and!; [apply view_intro; lia | cbn [buffer_ writerIndex_]; zlen_lia | cbn; lia..]. }
    solve_wf.
Qed.

Lemma EnsureWritableBytes_room b len : wf b -> 0 <= len <= max_size -> has_room b len -> exists b',
  EnsureWritableBytes b len = Ok b' /\ wf b' /\ view b' = view b /\
  len <= zlen (buffer_ b') - writerIndex_ b' /\
  readerIndex_ b `min` kCheapPrepend <= readerIndex_ b' /\ writerIndex_ b' <= writerIndex_ b.
Proof.
  intros Hwf ? ?. unfold EnsureWritableBytes. destruct (Z.ltb_spec (WritableBytes b) len).
  - destruct (MakeSpace_room b len) as (b' & -> & ? & ? & ? & ? & ?); try done.
    exists b'. cbn [mbind res_bind].
    rewrite assert_bind_true by (apply Z.leb_le; rewrite writable_wf by done; lia). done.
  - exists b. cbn [mbind res_bind]. rewrite assert_bind_true by (apply Z.leb_le; lia).
    rewrite writable_wf in * by done. split_and!; try done; lia.
Qed.

Lemma EnsureWritableBytes_spec b len : wf b -> 0 <= len ->
  writerIndex_ b + len <= max_size -> exists b',
  EnsureWritableBytes b len = Ok b' /\ wf b' /\ view b' = view b /\
  len <= zlen (buffer_ b') - writerIndex_ b' /\
  readerIndex_ b `min` kCheapPrepend <= readerIndex_ b' /\ writerIndex_ b' <= writerIndex_ b.
Proof. intros Hwf ? ?. apply EnsureWritableBytes_room; [done | open_wf; lia | by left]. Qed.

(** Writing at [BeginWrite()] and calling [HasWritten]. *)
Lemma write_tail_spec b d : wf b -> zlen d <= zlen (buffer_ b) - writerIndex_ b -> exists v,
  vec_write (buffer_ b) (BeginWrite b) d = Ok v /\
  let b' := HasWritten (mkBuffer v (readerIndex_ b) (writerIndex_ b)) (zlen d) in
  wf b' /\ view b' = view b ++ d /\
  readerIndex_ b' = readerIndex_ b /\ writerIndex_ b' = writerIndex_ b + zlen d.
Proof.
  intros Hwf Hl. unfold BeginWrite. pose proof (zlen_view b Hwf). open_wf. zlen_pos.
  rewrite vec_write_ok by lia. eexists; split; [reflexivity|]. cbn zeta.
  unfold HasWritten. cbn [buffer_ readerIndex_ writerIndex_]. rewrite size_t_id by lia.
  assert (Hsp : ztake (writerIndex_ b) (buffer_ b) = ztake (readerIndex_ b) (buffer_ b) ++ view b).
  { unfold view. rewrite <- ztake_zdrop_split by lia. f_equal. lia. }
  split_and!; try done; [solve_wf|].
  rewrite Hsp, <- (app_assoc (ztake _ _)), (app_assoc (view b)).
  apply view_intro; zlen_lia.
Qed.

Lemma Append_room b p len d : wf b -> ptr_read p len = Ok d -> len <= max_size -> has_room b len ->
  exists b',
  Append b p len = Ok b' /\ wf b' /\ view b' = view b ++ d /\
  readerIndex_ b `min` kCheapPrepend <= readerIndex_ b' /\
  writerIndex_ b' <= writerIndex_ b + len.
Proof.
  intros Hwf Hd Hlen Hroom. destruct (ptr_read_len _ _ _ Hd) as [Hl ?].
  destruct (EnsureWritableBytes_room b len) as (b1 & HE & Hwf1 & Hv1 & ? & ? & ?); try done.
  unfold Append. rewrite HE. cbn [mbind res_bind]. rewrite Hd. cbn [mbind res_bind].
  destruct (write_tail_spec b1 d) as (v & -> & Hw & Hv & Hr & Hwi); [done | lia|].
  rewrite <- Hl. eexists; split; [reflexivity|]. rewrite Hv, Hv1. split_and!; done || lia.
Qed.

Lemma Append_spec b p len d : wf b -> ptr_read p len = Ok d ->
  writerIndex_ b + len <= max_size -> exists b',
  Append b p len = Ok b' /\ wf b' /\ view b' = view b ++ d /\
  readerIndex_ b `min` kCheapPrepend <= readerIndex_ b' /\
  writerIndex_ b' <= writerIndex_ b + len.
Proof. intros Hwf Hd Hmax. apply Append_room; [done | done | open_wf; lia | by left]. Qed.

Lemma Prepend_spec b p len d : wf b -> ptr_read p len = Ok d -> len <= readerIndex_ b ->
  exists b', Prepend b p len = Ok b' /\ wf b' /\ view b' = d ++ view b /\
  readerIndex_ b' = readerIndex_ b - len /\ writerIndex_ b' = writerIndex_ b.
Proof.
  intros Hwf Hd Hle. destruct (ptr_read_len _ _ _ Hd) as [Hl ?].
  unfold Prepend, PrependableBytes. rewrite assert_bind_true by (apply Z.leb_le; lia).
  rewrite Hd. cbn [mbind res_bind]. pose proof (buffer_split b Hwf) as Hb.
  pose proof (zlen_view b Hwf). open_wf. rewrite size_t_id by lia.
  rewrite vec_write_ok by lia. cbn [mbind res_bind].
  replace (readerIndex_ b - len + zlen d) with (readerIndex_ b) by lia.
  assert (Hsp : zdrop (readerIndex_ b) (buffer_ b) = view b ++ zdrop (writerIndex_ b) (buffer_ b)).
  { rewrite Hb at 1. rewrite zdrop_app_r by zlen_lia.
    by rewrite zlen_take, Z.sub_diag, zdrop_0 by lia. }
  eexists; split; [reflexivity|]. split_and!; cbn [readerIndex_ writerIndex_]; try lia.
  - solve_wf.
  - rewrite Hsp, app_assoc, (app_assoc _ _ (zdrop _ _)), <- (app_assoc _ d).
    rewrite <- app_assoc. apply view_intro; zlen_lia.
Qed.

Lemma RetrieveAsString_spec b len : wf b -> 0 <= len <= zlen (view b) -> exists b',
  RetrieveAsString b len = Ok (ztake len (view b), b') /\ Retrieve b len = Ok b'.
Proof.
  intros Hwf Hlen. destruct (Retrieve_spec b len) as (b' & HR & _); try done.
  exists b'. split; [|done]. unfold RetrieveAsString. rewrite readable_view by done.
  rewrite assert_bind_true by (apply Z.leb_le; lia).
  pose proof (vec_read_view b 0 len Hwf ltac:(lia) ltac:(lia) ltac:(lia)) as Hr.
  rewrite Z.add_0_r, zdrop_0 in Hr. unfold peek. rewrite Hr. cbn [mbind res_bind].
  by rewrite HR.
Qed.

(** An [n]-byte integer of width [w = 8*n], as the source appends and reads it. *)
Section integer_specs.
Context {h : Host}.

Lemma zlen_4 (l : bytes) : 4 <= zlen l -> length (ztake 4 l) = 4%nat.
Proof. unfold zlen, ztake. rewrite length_take. lia. Qed.

Lemma AppendInt32_spec b x : wf b -> writerIndex_ b + 4 <= max_size -> exists b',
  AppendInt32 b x = Ok b' /\ wf b' /\ view b' = view b ++ be_bytes 4 x /\
  readerIndex_ b `min` kCheapPrepend <= readerIndex_ b' /\
  writerIndex_ b' <= writerIndex_ b + 4.
Proof.
  intros. apply Append_spec; try done.
  rewrite <- (store_signed 4 32 x) by done. apply ptr_read_exact, zlen_store_int.
Qed.

Lemma PrependInt32_spec b x : wf b -> 4 <= readerIndex_ b -> exists b',
  PrependInt32 b x = Ok b' /\ wf b' /\ view b' = be_bytes 4 x ++ view b /\
  readerIndex_ b' = readerIndex_ b - 4 /\ writerIndex_ b' = writerIndex_ b.
Proof.
  intros. apply Prepend_spec; try done.
  rewrite <- (store_signed 4 32 x) by done. apply ptr_read_exact, zlen_store_int.
Qed.

Lemma PeekInt32_spec b : wf b -> 4 <= zlen (view b) ->
  PeekInt32 b = Ok (int32 (be_value (ztake 4 (view b)))).
Proof.
  intros Hwf Hl. unfold PeekInt32. rewrite readable_view by done.
  rewrite assert_bind_true by (apply Z.leb_le; lia).
  pose proof (vec_read_view b 0 4 Hwf ltac:(lia) ltac:(lia) ltac:(lia)) as Hr.
  rewrite Z.add_0_r, zdrop_0 in Hr. unfold peek. rewrite Hr. cbn [mbind res_bind].
  pose proof (load_signed 32 (ztake 4 (view b))) as HL.
  rewrite zlen_4 in HL by done. unfold NetworkToHost32, int32, uint32.
  rewrite HL; [done | by rewrite zlen_take by lia | done].
Qed.

Lemma ReadInt32_spec b : wf b -> 4 <= zlen (view b) -> exists b',
  ReadInt32 b = Ok (int32 (be_value (ztake 4 (view b))), b') /\ Retrieve b 4 = Ok b'.
Proof.
  intros Hwf Hl. destruct (Retrieve_spec b 4) as (b' & HR & _); [done | lia|].
  exists b'. split; [|done]. unfold ReadInt32, RetrieveInt32.
  rewrite PeekInt32_spec by done. cbn [mbind res_bind]. by rewrite HR.
Qed.
End integer_specs.

Lemma int32_be_value x : - 2 ^ 31 <= x < 2 ^ 31 -> int32 (be_value (be_bytes 4 x)) = x.
Proof.
  intros Hx. rewrite be_value_bytes. change (Z.of_nat 4 * 8) with 32.
  change (x mod 2 ^ 32) with (uint32 x). rewrite int32_uint32. by apply int32_id.
Qed.

(** ** [FindCRLF] *)

(** The first position where the two-byte pattern occurs. *)
Definition occurs_at (c : byte * byte) (l : bytes) (i : nat) : Prop :=
  l !! i = Some c.1 /\ l !! S i = Some c.2.

Lemma byte_eqb_spec x y : reflect (x = y) (Byte.eqb x y).
Proof.
  destruct (Byte.eqb x y) eqn:E; constructor; [by apply Byte.byte_dec_bl | intros ->].
  by rewrite (Byte.byte_dec_lb eq_refl) in E.
Qed.

Lemma search2_spec c0 c1 l pos :
  let r := search2 c0 c1 l pos in
  pos <= r <= pos + zlen l /\
  (r < pos + zlen l -> occurs_at (c0, c1) l (Z.to_nat (r - pos))) /\
  (forall i, Z.of_nat i < r - pos -> ~ occurs_at (c0, c1) l i).
Proof.
  cbn zeta. revert pos. induction l as [|x l IH]; intros pos.
  { cbn. rewrite zlen_nil. split_and!; [lia.. | intros; lia | intros; lia]. }
  destruct l as [|y l].
  { cbn. rewrite zlen_cons, zlen_nil. split_and!; [lia.. | intros; lia|]. intros i Hi [_ H]. destruct i; [done | lia]. }
  specialize (IH (pos + 1)). rewrite (zlen_cons x).
  change (search2 c0 c1 (x :: y :: l) pos) with
    (if Byte.eqb x c0 && Byte.eqb y c1 then pos else search2 c0 c1 (y :: l) (pos + 1)).
  destruct (byte_eqb_spec x c0) as [->|Hx]; cbn [andb].
  1: destruct (byte_eqb_spec y c1) as [->|Hy].
  { zlen_pos. split_and!; try lia. intros _. by rewrite Z.sub_diag. }
  all: destruct IH as (IH1 & IH2 & IH3); split_and!; try lia.
  1, 3: intros Hr; destruct IH2 as [H1 H2]; [lia|];
    replace (Z.to_nat _) with (S (Z.to_nat (search2 c0 c1 (y :: l) (pos + 1) - (pos + 1)))) by lia;
    by split.
  all: intros [|i] Hi [H1 H2]; [naive_solver | apply (IH3 i); [lia | by split]].
Qed.

Lemma FindCRLF_spec c b : wf b ->
  exists r, FindCRLF c b = Ok r /\
  match r with
  | Some p => peek b <= p /\ p + 2 <= BeginWrite b /\
      occurs_at c (view b) (Z.to_nat (p - peek b)) /\
      forall i, Z.of_nat i < p - peek b -> ~ occurs_at c (view b) i
  | None => forall i, ~ occurs_at c (view b) i
  end.
Proof.
  intros Hwf. pose proof (zlen_view b Hwf) as Hv. unfold FindCRLF, BeginWrite, peek.
  pose proof (vec_read_view b 0 (zlen (view b)) Hwf) as Hr.
  rewrite Z.add_0_r, zdrop_0, ztake_all in Hr by lia.
  rewrite <- Hv, Hr by zlen_lia. cbn [mbind res_bind].
  eexists; split; [reflexivity|]. destruct c as [c0 c1]; cbn [fst snd].
  destruct (search2_spec c0 c1 (view b) (readerIndex_ b)) as (H1 & H2 & H3).
  set (r := search2 c0 c1 (view b) (readerIndex_ b)) in *.
  destruct (Z.eqb_spec r (writerIndex_ b)) as [E|Hne].
  - intros i Hi. apply (H3 i); [|done]. destruct Hi as [Hi _].
    apply lookup_lt_Some in Hi. unfold zlen in Hv. lia.
  - assert (Hocc := H2 ltac:(lia)). split_and!; [lia | | done | done].
    destruct Hocc as [_ Hocc%lookup_lt_Some]. unfold zlen in *. lia.
Qed.

Lemma Shrink_spec b reserve : wf b -> zlen (view b) < 2 ^ 31 -> 0 <= reserve ->
  kCheapPrepend + zlen (view b) + reserve <= max_size -> exists b',
  Shrink b reserve = Ok b' /\ wf b' /\ view b' = view b /\
  kCheapPrepend <= readerIndex_ b' /\ writerIndex_ b' <= kCheapPrepend + zlen (view b).
Proof.
  intros Hwf Hlt Hres Hmax. unfold Shrink. zlen_pos.
  destruct new_Buffer_spec as (o & Ho & Hwo & Hvo & Hro & Hwro). rewrite Ho. cbn [mbind res_bind].
  rewrite readable_view by done. open_wf. rewrite size_t_id by lia.
  destruct (EnsureWritableBytes_spec o (zlen (view b) + reserve)) as
    (o1 & HE & Hwf1 & Hv1 & Hroom & Hr1 & Hw1); [done | lia | unfold max_size; lia |].
  rewrite HE. cbn [mbind res_bind]. unfold Append_piece, ToStringPiece, StringPiece_range, peek.
  cbn [data size ptr_ length_]. rewrite readable_view, int32_id, size_t_id by (done || lia).
  rewrite Hwro in Hw1.
  destruct (Append_spec o1 (Ptr (buffer_ b) (readerIndex_ b)) (zlen (view b)) (view b)) as
    (o2 & HA & Hwf2 & Hv2 & Hr2 & Hw2); [done | | unfold max_size; lia |].
  { rewrite ptr_read_ok; rewrite ?zlen_view by done; [done | lia | lia | lia]. }
  rewrite HA. exists o2. unfold kCheapPrepend in *. split_and!; [by destruct o2 | done | | lia | lia].
  rewrite Hv2, Hv1, Hvo. done.
Qed.

(** ** Specification: a byte queue with front room

    [content] is the queue; [room] a lower bound on what can be prepended;
    [tail] an upper bound on the end of the data, which bounds growth. *)
Module Spec.
Record queue := mkQueue { content : bytes; room : Z; tail : Z }.

Inductive op :=
  | OpAppend (d : bytes)
  | OpAppendInt32 (x : Z)
  | OpPrepend (d : bytes)
  | OpPrependInt32 (x : Z)
  | OpEnsure (n : Z)
  | OpRetrieve (n : Z)
  | OpRetrieveAll
  | OpRetrieveAsString (n : Z)
  | OpReadInt32
  | OpPeekInt32
  | OpShrink (reserve : Z).

Inductive output := ONone | OInt (x : Z) | OString (s : bytes).

Definition push (q : queue) (d : bytes) : option (output * queue) :=
  if tail q + zlen d <=? max_size
  then Some (ONone, mkQueue (content q ++ d) (room q `min` 8) (tail q + zlen d)) else None.

Definition unshift (q : queue) (d : bytes) : option (output * queue) :=
  if zlen d <=? room q
  then Some (ONone, mkQueue (d ++ content q) (room q - zlen d) (tail q)) else None.

Definition pop (q : queue) (n : Z) (o : output) : option (output * queue) :=
  if (0 <=? n) && (n <=? zlen (content q))
  then Some (o, mkQueue (zdrop n (content q))
    (if n <? zlen (content q) then room q + n else 8) (tail q `max` 8)) else None.

(** What each operation promises, where its precondition holds. *)
Definition step (q : queue) (o : op) : option (output * queue) :=
  match o with
  | OpAppend d => push q d
  | OpAppendInt32 x => push q (be_bytes 4 x)
  | OpPrepend d => unshift q d
  | OpPrependInt32 x => unshift q (be_bytes 4 x)
  | OpEnsure n => if (0 <=? n) && (tail q + n <=? max_size)
      then Some (ONone, mkQueue (content q) (room q `min` 8) (tail q)) else None
  | OpRetrieve n => pop q n ONone
  | OpRetrieveAll => Some (ONone, mkQueue [] 8 8)
  | OpRetrieveAsString n => pop q n (OString (ztake n (content q)))
  | OpReadInt32 => if 4 <=? zlen (content q)
      then pop q 4 (OInt (int32 (be_value (ztake 4 (content q))))) else None
  | OpPeekInt32 => if 4 <=? zlen (content q)
      then Some (OInt (int32 (be_value (ztake 4 (content q)))), q) else None
  | OpShrink reserve =>
      if (0 <=? reserve) && (zlen (content q) <? 2 ^ 31)
         && (8 + zlen (content q) + reserve <=? max_size)
      then Some (ONone, mkQueue (content q) 8 (8 + zlen (content q))) else None
  end.

Fixpoint run (q : queue) (ops : list op) : option (list output * queue) :=
  match ops with
  | [] => Some ([], q)
  | o :: ops =>
      '(r, q1) ← step q o; '(rs, q2) ← run q1 ops; Some (r :: rs, q2)
  end.
End Spec.

Section refinement.
Context {h : Host}.
Import Spec.

Definition none_out (m : res Buffer) : res (output * Buffer) := b ← m; Ok (ONone, b).

(** The same operations on the class. *)
Definition do_op (b : Buffer) (o : op) : res (output * Buffer) :=
  match o with
  | OpAppend d => none_out (Append b (Ptr d 0) (zlen d))
  | OpAppendInt32 x => none_out (AppendInt32 b x)
  | OpPrepend d => none_out (Prepend b (Ptr d 0) (zlen d))
  | OpPrependInt32 x => none_out (PrependInt32 b x)
  | OpEnsure n => none_out (EnsureWritableBytes b n)
  | OpRetrieve n => none_out (Retrieve b n)
  | OpRetrieveAll => Ok (ONone, RetrieveAll b)
  | OpRetrieveAsString n => '(s, b') ← RetrieveAsString b n; Ok (OString s, b')
  | OpReadInt32 => '(x, b') ← ReadInt32 b; Ok (OInt x, b')
  | OpPeekInt32 => x ← PeekInt32 b; Ok (OInt x, b)
  | OpShrink reserve => none_out (Shrink b reserve)
  end.

Fixpoint do_ops (b : Buffer) (ops : list op) : res (list output * Buffer) :=
  match ops with
  | [] => Ok ([], b)
  | o :: ops =>
      '(r, b1) ← do_op b o; '(rs, b2) ← do_ops b1 ops; Ok (r :: rs, b2)
  end.

(** Simulation relation. *)
Record sim (b : Buffer) (q : queue) : Prop := {
  sim_wf : wf b;
  sim_content : view b = content q;
  sim_room : room q <= readerIndex_ b;
  sim_tail : writerIndex_ b <= tail q;
}.

Lemma sim_none m q' :
  (exists b', m = Ok b' /\ sim b' q') ->
  exists b', none_out m = Ok (ONone, b') /\ sim b' q'.
Proof. intros (b' & -> & ?). by exists b'. Qed.

Lemma sim_push b q d m q' r : sim b q -> push q d = Some (r, q') ->
  (wf b -> writerIndex_ b + zlen d <= max_size -> exists b', m = Ok b' /\ wf b' /\
     view b' = view b ++ d /\ readerIndex_ b `min` kCheapPrepend <= readerIndex_ b' /\
     writerIndex_ b' <= writerIndex_ b + zlen d) ->
  exists b', none_out m = Ok (r, b') /\ sim b' q'.
Proof.
  intros [Hwf Hv ? ?] Hp Hm. unfold push in Hp. case_match eqn:E; simplify_eq. unbool.
  destruct (Hm Hwf) as (b' & -> & ? & Hv' & ? & ?); [lia|]. exists b'. split; [done|].
  unfold kCheapPrepend in *. split; cbn; [done | congruence | lia | lia].
Qed.

Lemma sim_unshift b q d m q' r : sim b q -> unshift q d = Some (r, q') ->
  (wf b -> zlen d <= readerIndex_ b -> exists b', m = Ok b' /\ wf b' /\
     view b' = d ++ view b /\ readerIndex_ b' = readerIndex_ b - zlen d /\
     writerIndex_ b' = writerIndex_ b) ->
  exists b', none_out m = Ok (r, b') /\ sim b' q'.
Proof.
  intros [Hwf Hv ? ?] Hp Hm. unfold unshift in Hp. case_match eqn:E; simplify_eq. unbool.
  destruct (Hm Hwf) as (b' & -> & ? & Hv' & ? & ?); [lia|]. exists b'. split; [done|].
  split; cbn; [done | congruence | lia | lia].
Qed.

Lemma sim_pop b q n o q' r : sim b q -> pop q n o = Some (r, q') ->
  r = o /\ 0 <= n <= zlen (view b) /\ exists b', Retrieve b n = Ok b' /\ sim b' q'.
Proof.
  intros [Hwf Hv ? ?] Hp. unfold pop in Hp. case_match eqn:E; simplify_eq. unbool.
  rewrite <- Hv in *. split; [done|]. split; [lia|].
  destruct (Retrieve_spec b n) as (b' & HR & ? & ? & Hr & ?); [done | lia|].
  exists b'. split; [done|]. unfold kCheapPrepend in *.
  split; cbn; [done | done | | lia]. rewrite Hr. case_match; lia.
Qed.

Lemma do_op_refines b q o r q' : sim b q -> step q o = Some (r, q') ->
  exists b', do_op b o = Ok (r, b') /\ sim b' q'.
Proof.
  intros Hs Hq. pose proof Hs as [Hwf Hv Hroom Htail]. destruct o; cbn [step do_op] in *.
  - eapply sim_push; [done..|]. intros. apply Append_spec; [done | apply ptr_read_all | done].
  - eapply sim_push; [done..|]. rewrite zlen_be_bytes. intros. by apply AppendInt32_spec.
  - eapply sim_unshift; [done..|]. intros. apply Prepend_spec; [done | apply ptr_read_all | done].
  - eapply sim_unshift; [done..|]. rewrite zlen_be_bytes. intros. by apply PrependInt32_spec.
  - case_match eqn:E; simplify_eq. unbool. apply sim_none.
    destruct (EnsureWritableBytes_spec b n) as (b' & -> & ? & ? & ? & ? & ?); [done | lia | lia |].
    exists b'. split; [done|]. unfold kCheapPrepend in *. split; cbn; [done | congruence | lia | lia].
  - destruct (sim_pop _ _ _ _ _ _ Hs Hq) as (-> & _ & b' & ? & ?). apply sim_none. by exists b'.
  - simplify_eq. destruct (RetrieveAll_spec b Hwf) as [? ?]. eexists. split; [done|].
    split; cbn; unfold kCheapPrepend; [done | done | lia | lia].
  - destruct (sim_pop _ _ _ _ _ _ Hs Hq) as (-> & Hn & b' & HR & ?).
    destruct (RetrieveAsString_spec b n) as (b1 & -> & HR1); [done | lia|].
    rewrite HR in HR1. simplify_eq. exists b1. cbn. by rewrite Hv.
  - case_match eqn:E; [|done]. unbool.
    destruct (sim_pop _ _ _ _ _ _ Hs Hq) as (-> & Hn & b' & HR & ?).
    destruct (ReadInt32_spec b) as (b1 & -> & HR1); [done | lia|].
    rewrite HR in HR1. simplify_eq. exists b1. cbn. by rewrite Hv.
  - case_match eqn:E; simplify_eq. unbool. exists b.
    rewrite PeekInt32_spec by (done || (rewrite Hv; lia)). cbn. by rewrite Hv.
  - case_match eqn:E; simplify_eq. unbool. apply sim_none. rewrite <- Hv in *.
    destruct (Shrink_spec b reserve) as (b' & -> & ? & ? & ? & ?);
      [done | lia | lia | unfold kCheapPrepend; lia |].
    exists b'. split; [done|]. unfold kCheapPrepend in *. split; cbn; [done | congruence | lia | lia].
Qed.

Lemma do_ops_refine b q ops rs q' : sim b q -> run q ops = Some (rs, q') ->
  exists b', do_ops b ops = Ok (rs, b') /\ sim b' q'.
Proof.
  revert b q rs q'. induction ops as [|o ops IH]; intros b q rs q' Hs Hrun; cbn in *.
  { simplify_eq. by exists b. }
  apply bind_Some in Hrun as ([r q1] & Hq1 & Hrun).
  apply bind_Some in Hrun as ([rs' q2] & Hq2 & Hrun). simplify_eq.
  destruct (do_op_refines _ _ _ _ _ Hs Hq1) as (b1 & -> & Hs1).
  destruct (IH _ _ _ _ Hs1 Hq2) as (b2 & Hb2 & Hs2). exists b2. cbn. by rewrite Hb2.
Qed.
End refinement.
