(* ===== verification/BufferProps.v ===== *)
(** * Properties of [common::net::Buffer] *)
From S2P Require Import Prelude Endian StringPiece Buffer.

(** C5: the buffer is a byte queue with front room. Run any sequence of
    [Append], [AppendInt32], [Prepend], [PrependInt32], [EnsureWritableBytes],
    [Retrieve], [RetrieveAll], [RetrieveAsString], [ReadInt32], [PeekInt32]
    and [Shrink] on a new buffer: as long as the queue specification accepts
    the operations (enough bytes to consume, enough front room to prepend, the
    vector below its maximal size), no assertion of the class fails, no access
    leaves the vector, and the results and the content are the specification's,
    whatever moves and reallocations happen inside, on hosts of either byte
    order. *)
Theorem buffer_refines_queue {h : Host} ops rs q :
  Spec.run (Spec.mkQueue [] kCheapPrepend kCheapPrepend) ops = Some (rs, q) ->
  exists b0 b, new_Buffer = Ok b0 /\ do_ops b0 ops = Ok (rs, b) /\
    wf b /\ view b = Spec.content q /\ Spec.room q <= PrependableBytes b.
Proof.
  intros Hrun. destruct new_Buffer_spec as (b0 & Hb0 & Hwf & Hv & Hr & Hw).
  assert (Hs : sim b0 (Spec.mkQueue [] kCheapPrepend kCheapPrepend))
    by (split; cbn; [done | done | lia | lia]).
  destruct (do_ops_refine b0 _ ops rs q Hs Hrun) as (b & Hb & [? ? ? ?]).
  by exists b0, b.
Qed.

Lemma buffer_refines_queue_witness :
  exists b0 b, new_Buffer = Ok b0 /\
    do_ops (h := LittleEndian) b0
      [Spec.OpAppend [Byte.x61; Byte.x62]; Spec.OpPrependInt32 (-2); Spec.OpReadInt32;
       Spec.OpEnsure 2000; Spec.OpRetrieveAsString 1; Spec.OpShrink 0]
    = Ok ([Spec.ONone; Spec.ONone; Spec.OInt (-2); Spec.ONone; Spec.OString [Byte.x61]; Spec.ONone], b) /\
    wf b /\ view b = [Byte.x62] /\ 8 <= PrependableBytes b.
Proof.
  apply (@buffer_refines_queue LittleEndian _ _ (Spec.mkQueue [Byte.x62] 8 9)).
  vm_compute. reflexivity.
Defined.

(** A 32-bit integer appended on one host is read back on any other. If
    [AppendInt32(x)] is the last write of a buffer, and the reader (of any byte
    order) has consumed what was before, [ReadInt32] returns [x]. *)
Theorem int32_roundtrip (h1 h2 : Host) b b1 x : wf b -> in_s 32 x ->
  @AppendInt32 h1 b x = Ok b1 -> writerIndex_ b + 4 <= max_size ->
  exists b2 b3, Retrieve b1 (zlen (view b)) = Ok b2 /\
    @ReadInt32 h2 b2 = Ok (x, b3) /\ view b3 = [].
Proof.
  intros Hwf Hx Ha Hmax.
  destruct (@AppendInt32_spec h1 b x Hwf Hmax) as (b1' & Ha' & Hw1 & Hv1 & _).
  rewrite Ha in Ha'. simplify_eq. assert (Hl : zlen (view b1') = zlen (view b) + 4).
  { rewrite Hv1. zlen_lia. }
  destruct (Retrieve_spec b1' (zlen (view b))) as (b2 & HR & Hw2 & Hv2 & _); [done | zlen_lia|].
  rewrite Hv1, zdrop_app_r, Z.sub_diag, zdrop_0 in Hv2 by lia.
  destruct (@ReadInt32_spec h2 b2) as (b3 & HRd & HR3); [done | rewrite Hv2; zlen_lia|].
  destruct (Retrieve_spec b2 4) as (b3' & HR3' & _ & Hv3 & _); [done | rewrite Hv2; zlen_lia|].
  rewrite HR3 in HR3'. simplify_eq. exists b2, b3'. split; [done|]. rewrite HRd, Hv3, Hv2.
  rewrite (ztake_all 4), int32_be_value by (zlen_lia || apply Hx). split; [done|].
  apply zdrop_all. zlen_lia.
Qed.

(** An empty buffer of the initial layout with 16 data bytes. *)
Definition small : Buffer := mkBuffer (repeat Byte.x00 24) 8 8.
Lemma small_wf : wf small.
Proof. split; vm_compute; intuition discriminate. Qed.

Lemma int32_roundtrip_witness :
  exists b1, @AppendInt32 BigEndian small (-7) = Ok b1 /\
  exists b2 b3, Retrieve b1 (zlen (view small)) = Ok b2 /\
    @ReadInt32 LittleEndian b2 = Ok (-7, b3) /\ view b3 = [].
Proof.
  eexists. split; [vm_compute; reflexivity|].
  eapply (int32_roundtrip BigEndian LittleEndian small);
    [exact small_wf | vm_compute; intuition discriminate | vm_compute; reflexivity
    | vm_compute; discriminate].
Defined.

(** [FindCRLF] returns the first occurrence of the two-byte pattern inside
    the readable bytes, and null exactly when there is none. *)
Theorem FindCRLF_first kCRLF b : wf b ->
  exists r, FindCRLF kCRLF b = Ok r /\
  match r with
  | Some p => peek b <= p /\ p + 2 <= BeginWrite b /\
      occurs_at kCRLF (view b) (Z.to_nat (p - peek b)) /\
      forall i, Z.of_nat i < p - peek b -> ~ occurs_at kCRLF (view b) i
  | None => forall i, ~ occurs_at kCRLF (view b) i
  end.
Proof. apply FindCRLF_spec. Qed.

Lemma FindCRLF_first_witness :
  wf small /\ exists r, FindCRLF (Byte.x0d, Byte.x0a) small = Ok r /\
  match r with
  | Some p => peek small <= p /\ p + 2 <= BeginWrite small /\
      occurs_at (Byte.x0d, Byte.x0a) (view small) (Z.to_nat (p - peek small)) /\
      forall i, Z.of_nat i < p - peek small -> ~ occurs_at (Byte.x0d, Byte.x0a) (view small) i
  | None => forall i, ~ occurs_at (Byte.x0d, Byte.x0a) (view small) i
  end.
Proof. split; [exact small_wf | exact (FindCRLF_first (Byte.x0d, Byte.x0a) small small_wf)]. Defined.

(** Misuse is caught. Consuming or peeking more than is readable, and
    prepending more than the front room, fails the class's assertion before
    any byte or index changes. *)
Theorem buffer_misuse_asserts {h : Host} b : wf b ->
  (forall len, zlen (view b) < len -> Retrieve b len = Fail FAssert) /\
  (forall len, zlen (view b) < len -> RetrieveAsString b len = Fail FAssert) /\
  (zlen (view b) < 4 -> PeekInt32 b = Fail FAssert /\ ReadInt32 b = Fail FAssert) /\
  (forall p len, PrependableBytes b < len -> Prepend b p len = Fail FAssert).
Proof.
  intros Hwf. split_and!.
  - intros len Hl. unfold Retrieve. rewrite readable_view by done.
    apply assert_bind_false, Z.leb_gt. lia.
  - intros len Hl. unfold RetrieveAsString. rewrite readable_view by done.
    apply assert_bind_false, Z.leb_gt. lia.
  - intros Hl. assert (HP : PeekInt32 b = Fail FAssert); [|split; [done|]; unfold ReadInt32; by rewrite HP].
    unfold PeekInt32. rewrite readable_view by done. apply assert_bind_false, Z.leb_gt. lia.
  - intros p len Hl. apply assert_bind_false, Z.leb_gt. lia.
Qed.

Lemma buffer_misuse_asserts_witness :
  wf small /\ Retrieve small 1 = Fail FAssert.
Proof.
  split; [exact small_wf|].
  apply (proj1 (@buffer_misuse_asserts LittleEndian small small_wf)). vm_compute. reflexivity.
Defined.

(** [Shrink] loses buffers of 2 GiB and more. It copies through
    [ToStringPiece()], whose length is an [int]: for such a content (and no
    reserve) the length turns negative, then into a [size_t] near 2^64, and the
    resize throws [std::length_error] instead of keeping the content. *)
Theorem Shrink_large_throws b : wf b -> 2 ^ 31 <= zlen (view b) < 2 ^ 32 - 8 ->
  Shrink b 0 = Fail FLength.
Proof.
  intros Hwf Hl. unfold Shrink.
  destruct new_Buffer_spec as (o & -> & Hwo & Hvo & Hro & Hwro). cbn [mbind res_bind].
  rewrite readable_view, Z.add_0_r, (size_t_id (zlen (view b))) by (done || lia).
  unfold kCheapPrepend in *.
  destruct (EnsureWritableBytes_spec o (zlen (view b))) as (o1 & -> & Hwf1 & Hv1 & ? & Hr1 & Hw1);
    [done | lia | rewrite Hwro; unfold max_size; lia|].
  cbn [mbind res_bind]. unfold Append_piece, ToStringPiece, StringPiece_range.
  cbn [data size ptr_ length_]. rewrite readable_view by done.
  assert (E : size_t (int32 (zlen (view b))) = 2 ^ 64 - 2 ^ 32 + zlen (view b)).
  { unfold size_t, int32, wrap, swrap. change (32 - 1) with 31.
    replace ((zlen (view b) + 2 ^ 31) mod 2 ^ 32) with (zlen (view b) - 2 ^ 31)
      by (apply (Z.mod_unique _ _ 1); lia).
    symmetry. apply (Z.mod_unique _ _ (-1)); lia. }
  rewrite E. unfold Append, EnsureWritableBytes. rewrite writable_wf by done.
  open_wf. rewrite (proj2 (Z.ltb_lt _ _)) by lia. unfold MakeSpace, PrependableBytes, kCheapPrepend.
  rewrite writable_wf by done. rewrite (size_t_id (_ + 8)) by lia.
  rewrite (proj2 (Z.ltb_lt _ _)) by (rewrite size_t_id; lia).
  rewrite size_t_id by lia. unfold vec_resize. unfold check, max_size.
  destruct (Z.leb_spec (writerIndex_ o1 + (2 ^ 64 - 2 ^ 32 + zlen (view b))) (2 ^ 63 - 1)); [lia | done].
Qed.

Lemma Shrink_large_throws_witness :
  let b := mkBuffer (repeat Byte.x00 (Z.to_nat (2 ^ 31 + 8))) 8 (2 ^ 31 + 8) in
  wf b /\ Shrink b 0 = Fail FLength.
Proof.
  intros b. assert (Hl : zlen (buffer_ b) = 2 ^ 31 + 8).
  { unfold zlen, b. cbn [buffer_]. rewrite repeat_length, Z2Nat.id; [reflexivity | discriminate]. }
  assert (Hw : wf b).
  { split; rewrite ?Hl; unfold b; cbn [readerIndex_ writerIndex_];
      unfold kCheapPrepend, max_size; split || idtac; try discriminate; lia. }
  split; [exact Hw|]. apply (Shrink_large_throws b Hw).
  rewrite zlen_view by exact Hw. unfold b. cbn [readerIndex_ writerIndex_]. lia.
Defined.
