(* ===== verification/Codec.v ===== *)
(** * [common::net::ProtobufCodec] ([src/common/net/codec_proto.{h,cpp}],
      [src/common/net/google-inl.h])

    The codec frames a protobuf message as

      len | namelen | type name, NUL | protobuf data | adler32

    and cuts a byte stream back into messages. Protobuf and zlib are not part
    of the program: their functions are the operations of the classes
    [Protobuf] and [Zlib], what the codec relies on is [ProtobufLaws]. *)
From stdpp Require Import strings.
From S2P Require Import Prelude Endian StringPiece Buffer.

(** ** Interfaces of the libraries *)

(** [::adler32(adler, buf, len)] *)
Class Zlib := adler32 : Z -> bytes -> Z.

Class Protobuf := {
  message : Type;
  descriptor : Type;
  GetTypeName : message -> bytes;
  IsInitialized : message -> bool;
  InitializationErrorString : message -> bytes;
  ByteSize : message -> Z;
  (** the bytes written by [SerializeWithCachedSizesToArray] *)
  SerializeWithCachedSizesToArray : message -> bytes;
  (** [DescriptorPool::generated_pool()->FindMessageTypeByName] *)
  FindMessageTypeByName : bytes -> option descriptor;
  (** [MessageFactory::generated_factory()->GetPrototype] *)
  GetPrototype : descriptor -> option message;
  New : message -> message;
  (** [m->ParseFromArray(data, size)]: [None] when it returns false, the new
      state of [*m] when it returns true; it can fail on memory it may not read
      or a size that is negative *)
  ParseFromArray : message -> ptr -> Z -> res (option message);
}.

(** A message as the generated code provides it: initialised, with a
    non-empty type name the generated pool knows. *)
Class ProtobufLaws (P : Protobuf) := {
  (** messages of generated types *)
  generated : message -> Prop;
  generated_initialized m : generated m -> IsInitialized m = true;
  (** [ByteSize()] is an [int] and is the number of bytes serialisation writes *)
  byte_size_int m : 0 <= ByteSize m < 2 ^ 31;
  byte_size_exact m : zlen (SerializeWithCachedSizesToArray m) = ByteSize m;
  type_name_nonempty m : generated m -> 1 <= zlen (GetTypeName m);
  (** the type is registered, and parsing what was serialised restores it *)
  parse_serialize m p : generated m ->
    ptr_read p (ByteSize m) = Ok (SerializeWithCachedSizesToArray m) ->
    exists d proto, FindMessageTypeByName (GetTypeName m) = Some d /\
      GetPrototype d = Some proto /\
      ParseFromArray (New proto) p (ByteSize m) = Ok (Some m);
}.

(** Parsing bytes that can be read returns. *)
Class ProtobufReads (P : Protobuf) : Prop :=
  parse_readable m p n l : ptr_read p n = Ok l -> is_ok (ParseFromArray m p n).

(** ** Constants and error codes *)
Definition kHeaderLen : Z := 4.
Definition kNamelenLen : Z := 4.
Definition kCheckSumLen : Z := 4.
Definition kMinMessageLen : Z := kHeaderLen + 2 + kCheckSumLen.
Definition kMaxMessageLen : Z := 64 * 1024 * 1024.

Inductive ErrorCode :=
  | kNoError
  | kInvalidLength
  | kCheckSumError
  | kInvalidNameLen
  | kUnknownMessageType
  | kParseError.

#[global] Instance ErrorCode_eq_dec : EqDecision ErrorCode.
Proof. solve_decision. Defined.

(** The [default] branch ("UnknownError") is for values outside the enumeration. *)
Definition ErrorCodeToString (errorCode : ErrorCode) : string :=
  match errorCode with
  | kNoError => "NoError"
  | kInvalidLength => "InvalidLength"
  | kCheckSumError => "CheckSumError"
  | kInvalidNameLen => "InvalidNameLen"
  | kUnknownMessageType => "UnknownMessageType"
  | kParseError => "ParseError"
  end.

Section codec.
Context {h : Host} {Z_ : Zlib} {P : Protobuf}.

(** ** google-inl.h *)
Definition ByteSizeConsistencyError (byte_size_before_serialization
    byte_size_after_serialization bytes_produced_by_serialization : Z) : res unit :=
  check (byte_size_before_serialization =? byte_size_after_serialization) FFatal;;
  check (bytes_produced_by_serialization =? byte_size_before_serialization) FFatal;;
  Fail FFatal.

Definition InitializationErrorMessage (action : string) (m : message) : bytes :=
  let quote := [Byte.x22] in
  lit "Can't " ++ lit action ++ lit " message of type " ++ quote ++ GetTypeName m ++ quote ++
  lit " because it is missing required fields: " ++ InitializationErrorString m.

(** ** Encoding *)
Definition FillEmptyBuffer (buf : Buffer) (m : message) : res Buffer :=
  assert_ (ReadableBytes buf =? 0);;
  let typeName := GetTypeName m in
  let nameLen := int32 (zlen typeName + 1) in
  buf ← AppendInt32 buf nameLen;
  buf ← Append buf (Ptr (typeName ++ [Byte.x00]) 0) (size_t nameLen);
  (* GOOGLE_DCHECK(message.IsInitialized()) *)
  check (IsInitialized m) FFatal;;
  let byte_size := ByteSize m in
  buf ← EnsureWritableBytes buf (size_t byte_size);
  let out := SerializeWithCachedSizesToArray m in
  v ← vec_write (buffer_ buf) (BeginWrite buf) out;
  (if zlen out =? byte_size then Ok tt
   else ByteSizeConsistencyError byte_size (ByteSize m) (int32 (zlen out)));;
  let buf := HasWritten (mkBuffer v (readerIndex_ buf) (writerIndex_ buf)) (size_t byte_size) in
  d ← vec_read (buffer_ buf) (peek buf) (uint32 (int32 (ReadableBytes buf)));
  let checkSum := int32 (adler32 1 d) in
  buf ← AppendInt32 buf checkSum;
  assert_ (ReadableBytes buf =? size_t (4 + nameLen + byte_size + 4));;
  let len := int32 (HostToNetwork32 (uint32 (int32 (ReadableBytes buf)))) in
  Prepend buf (Ptr (store_int 4 len) 0) 4.

(** ** Decoding one frame *)
Definition AsInt32 (buf : ptr) : res Z :=
  l ← ptr_read buf 4;
  let be32 := int32 (load_int l) in
  Ok (int32 (NetworkToHost32 (uint32 be32))).

Definition CreateMessage (typeName : bytes) : option message :=
  descriptor ← FindMessageTypeByName typeName;
  prototype ← GetPrototype descriptor;
  Some (New prototype).

(** The returned pointer and [*error]. *)
Definition Parse (buf : ptr) (len : Z) : res (option message * ErrorCode) :=
  expectedCheckSum ← AsInt32 (ptr_add buf (len - kCheckSumLen));
  d ← ptr_read buf (uint32 (int32 (len - kCheckSumLen)));
  let checkSum := int32 (adler32 1 d) in
  if checkSum =? expectedCheckSum then
    nameLen ← AsInt32 buf;
    if (2 <=? nameLen) && (nameLen <=? len - kCheckSumLen) then
      typeName ← ptr_read (ptr_add buf kNamelenLen) (nameLen - 1);
      match CreateMessage typeName with
      | Some m =>
          let data := ptr_add buf (kNamelenLen + nameLen) in
          let dataLen := len - nameLen - kNamelenLen - kCheckSumLen in
          r ← ParseFromArray m data dataLen;
          match r with
          | Some m' => Ok (Some m', kNoError)
          | None => Ok (None, kParseError)
          end
      | None => Ok (None, kUnknownMessageType)
      end
    else Ok (None, kInvalidNameLen)
  else Ok (None, kCheckSumError).

(** ** Decoding a stream

    [error_callback_] may change the connection and the buffer. *)
Section stream.
Context {conn_t : Type}.
Context (error_callback_ : conn_t -> Buffer -> ErrorCode -> conn_t * Buffer).

Record outcome := mkOutcome {
  code : Z;
  conn_after : conn_t;
  buf_after : Buffer;
  vecMessagePtr : list message;
}.

(** One pass of the [while] loop: [inl] continues with the new buffer and
    vector, [inr] leaves the function or the loop. *)
Definition parse_pass (conn : conn_t) (buf : Buffer) (vec : list message)
  : res (Buffer * list message + outcome) :=
  if kMinMessageLen + kHeaderLen <=? ReadableBytes buf then
    len ← PeekInt32 buf;
    if (kMaxMessageLen <? len) || (len <? kMinMessageLen) then
      let '(conn', buf') := error_callback_ conn buf kInvalidLength in
      Ok (inr (mkOutcome (-1) conn' buf' vec))
    else if size_t (len + kHeaderLen) <=? ReadableBytes buf then
      r ← Parse (Ptr (buffer_ buf) (peek buf + kHeaderLen)) len;
      match r with
      | (Some m, kNoError) =>
          buf' ← Retrieve buf (kHeaderLen + len);
          Ok (inl (buf', vec ++ [m]))
      | (_, errorCode) =>
          let '(conn', buf') := error_callback_ conn buf errorCode in
          Ok (inr (mkOutcome (-1) conn' buf' vec))
      end
    else Ok (inr (mkOutcome 0 conn buf vec))
  else Ok (inr (mkOutcome 0 conn buf vec)).

(** The loop; [None] is out of fuel. *)
Fixpoint parse_loop (fuel : nat) (conn : conn_t) (buf : Buffer) (vec : list message)
  : option (res outcome) :=
  match fuel with
  | O => None
  | S fuel =>
      match parse_pass conn buf vec with
      | Fail f => Some (Fail f)
      | Ok (inr o) => Some (Ok o)
      | Ok (inl (buf', vec')) => parse_loop fuel conn buf' vec'
      end
  end.

(** Every pass that continues consumes a frame, so the size of the buffer
    bounds the number of passes. *)
Definition ParseMessages (conn : conn_t) (buf : Buffer) (vec : list message)
  : option (res outcome) :=
  parse_loop (S (length (buffer_ buf))) conn buf vec.
End stream.

(** ** Sending: the connection is an argument, as [conn->Send(&buf)] *)
Definition SendMsg {conn_t : Type} (Send : conn_t -> Buffer -> res (conn_t * Buffer))
    (conn : conn_t) (m : message) : res conn_t :=
  buf ← new_Buffer;
  buf ← FillEmptyBuffer buf m;
  '(conn', _) ← Send conn buf;
  Ok conn'.

(** [DefaultErrorCallback]: [conn] may be a null pointer. *)
Definition DefaultErrorCallback {C : Type} (connected : C -> bool) (Shutdown : C -> C)
    (conn : option C) (buf : Buffer) (errorCode : ErrorCode) : option C * Buffer :=
  match conn with
  | Some c => if connected c then (Some (Shutdown c), buf) else (Some c, buf)
  | None => (None, buf)
  end.
End codec.
Arguments outcome {P} conn_t.

(** ** Specification: the wire format *)
Section format.
Context {h : Host} {Z_ : Zlib} {P : Protobuf}.

Definition body (m : message) : bytes :=
  be_bytes 4 (zlen (GetTypeName m) + 1) ++ GetTypeName m ++ [Byte.x00] ++
  SerializeWithCachedSizesToArray m.

Definition frame (m : message) : bytes :=
  be_bytes 4 (zlen (body m) + 4) ++ body m ++ be_bytes 4 (adler32 1 (body m)).

Lemma be_bytes_int32 x : be_bytes 4 (int32 x) = be_bytes 4 x.
Proof.
  rewrite <- (be_bytes_mod 4 (int32 x)), <- (be_bytes_mod 4 x).
  f_equal. apply (wrap_swrap 32). done.
Qed.

Lemma zlen_body m : zlen (body m) = 5 + zlen (GetTypeName m) + zlen (SerializeWithCachedSizesToArray m).
Proof. unfold body. zlen_lia. Qed.

Lemma zlen_frame m : zlen (frame m) = 8 + zlen (body m).
Proof. unfold frame. zlen_lia. Qed.

(** Reading at an offset of a known segment. *)
Lemma ptr_read_mid pre mid post off n :
  off = zlen pre -> n = zlen mid -> ptr_read (Ptr (pre ++ mid ++ post) off) n = Ok mid.
Proof.
  intros -> ->. zlen_pos. rewrite ptr_read_ok by zlen_lia.
  rewrite zdrop_app_r, Z.sub_diag, zdrop_0, ztake_app_l by lia. by rewrite ztake_all by lia.
Qed.

Lemma AsInt32_mid pre mid post off :
  off = zlen pre -> zlen mid = 4 ->
  AsInt32 (Ptr (pre ++ mid ++ post) off) = Ok (int32 (be_value mid)).
Proof.
  intros Hoff Hm. unfold AsInt32. rewrite (ptr_read_mid pre mid post off 4) by lia.
  cbn [mbind res_bind]. pose proof (load_signed 32 mid) as HL.
  replace (length mid) with 4%nat in HL by (unfold zlen in Hm; lia).
  unfold NetworkToHost32, int32, uint32. rewrite HL; [done | by rewrite Hm | done].
Qed.

(** Encoding writes exactly one frame. *)
Lemma FillEmptyBuffer_spec `{!ProtobufLaws P} b m :
  wf b -> view b = [] -> 4 <= readerIndex_ b -> IsInitialized m = true ->
  zlen (frame m) < 2 ^ 31 -> writerIndex_ b + zlen (frame m) <= max_size ->
  exists b', FillEmptyBuffer b m = Ok b' /\ wf b' /\ view b' = frame m.
Proof.
  intros Hwf Hv Hr Hinit Hlt Hmax. pose proof (byte_size_exact m) as Hbs.
  rewrite zlen_frame, zlen_body, Hbs in *. pose proof (byte_size_int m) as Hbi.
  unfold FillEmptyBuffer. rewrite readable_view, Hv by done. rewrite assert_bind_true by done.
  assert (0 <= zlen (GetTypeName m)) by apply zlen_nonneg.
  rewrite (int32_id (zlen (GetTypeName m) + 1)), !size_t_id by lia.
  destruct (AppendInt32_spec b (zlen (GetTypeName m) + 1)) as (b1 & -> & Hw1 & Hv1 & ? & ?); [done | lia|].
  cbn [mbind res_bind].
  destruct (Append_spec b1 (Ptr (GetTypeName m ++ [Byte.x00]) 0) (zlen (GetTypeName m) + 1)
    (GetTypeName m ++ [Byte.x00])) as (b2 & -> & Hw2 & Hv2 & ? & ?);
    [done | apply ptr_read_exact; zlen_lia | lia |].
  cbn [mbind res_bind]. rewrite Hinit. cbn [check mbind res_bind].
  destruct (EnsureWritableBytes_spec b2 (ByteSize m)) as (b3 & -> & Hw3 & Hv3 & ? & ? & ?); [done | lia | lia |].
  cbn [mbind res_bind].
  destruct (write_tail_spec b3 (SerializeWithCachedSizesToArray m)) as (v & -> & Hw4 & Hv4 & Hr4 & Hwi4);
    [done | lia|].
  cbn [mbind res_bind]. rewrite Hbs in *. rewrite Z.eqb_refl. cbn [mbind res_bind].
  set (b4 := HasWritten _ _) in *.
  assert (Hbody : view b4 = body m).
  { rewrite Hv4, Hv3, Hv2, Hv1, Hv. unfold body. by rewrite <- !app_assoc. }
  rewrite readable_view, Hbody by done. pose proof (zlen_body m) as Hzb. rewrite Hbs in Hzb.
  rewrite int32_id, uint32_id by lia.
  pose proof (vec_read_view b4 0 (zlen (body m)) Hw4) as Hrd. rewrite Hbody in Hrd.
  rewrite Z.add_0_r, zdrop_0, ztake_all in Hrd by lia. unfold peek. rewrite Hrd by lia.
  cbn [mbind res_bind].
  destruct (AppendInt32_spec b4 (int32 (adler32 1 (body m)))) as (b5 & -> & Hw5 & Hv5 & ? & ?);
    [done | lia|].
  cbn [mbind res_bind]. rewrite be_bytes_int32, Hbody in Hv5.
  assert (Hl5 : zlen (view b5) = zlen (body m) + 4) by (rewrite Hv5; zlen_lia).
  rewrite readable_view, Hl5 by done.
  rewrite assert_bind_true by (apply Z.eqb_eq; lia).
  rewrite (int32_id (zlen (body m) + 4)) by lia.
  destruct (Prepend_spec b5 (Ptr (store_int 4 (int32 (HostToNetwork32 (uint32 (zlen (body m) + 4))))) 0) 4
    (be_bytes 4 (zlen (body m) + 4))) as (b6 & HP & ? & Hv6 & _); [done | | unfold kCheapPrepend in *; lia |].
  { rewrite <- (store_signed 4 32) by done. apply ptr_read_exact, zlen_store_int. }
  exists b6. rewrite HP. split_and!; [done | done|]. rewrite Hv6, Hv5. done.
Qed.

(** ** Decoding what was encoded *)
Definition fits (m : message) : Prop := zlen (body m) + 4 <= kMaxMessageLen.

Lemma int32_be_value_any x : int32 (be_value (be_bytes 4 x)) = int32 x.
Proof. rewrite <- (be_bytes_int32 x). apply int32_be_value. apply (swrap_range 32). done. Qed.

Lemma kMax_lt : kMaxMessageLen + 4 < 2 ^ 31.
Proof. done. Qed.

Lemma Parse_frame `{!ProtobufLaws P} pre m post off : generated m -> fits m ->
  off = zlen pre + 4 ->
  Parse (Ptr (pre ++ frame m ++ post) off) (zlen (body m) + 4) = Ok (Some m, kNoError).
Proof.
  intros Hgen Hfit ->. pose proof kMax_lt. unfold fits in Hfit.
  pose proof (zlen_body m) as Hb. rewrite byte_size_exact in Hb.
  pose proof (byte_size_int m). pose proof (type_name_nonempty m Hgen).
  assert (Ha : forall blk o1 n, ptr_add (Ptr blk o1) n = Ptr blk (o1 + n)) by done.
  set (hd := pre ++ be_bytes 4 (zlen (body m) + 4)).
  assert (Hhd : zlen hd = zlen pre + 4) by (unfold hd; zlen_lia).
  set (sum := be_bytes 4 (adler32 1 (body m))).
  assert (E1 : pre ++ frame m ++ post = (hd ++ body m) ++ sum ++ post).
  { unfold frame, hd, sum. by rewrite <- !app_assoc. }
  unfold Parse. rewrite !Ha, E1.
  unfold kCheckSumLen, kNamelenLen. replace (zlen (body m) + 4 - 4) with (zlen (body m)) by lia.
  rewrite (AsInt32_mid (hd ++ body m) sum post (zlen pre + 4 + zlen (body m)))
    by (unfold sum; rewrite ?zlen_be_bytes, ?zlen_app; lia).
  cbn [mbind res_bind]. rewrite (int32_id (zlen (body m))), uint32_id by lia.
  rewrite <- (app_assoc hd). rewrite (ptr_read_mid hd (body m) (sum ++ post)) by lia. cbn [mbind res_bind].
  unfold sum at 1. rewrite int32_be_value_any, Z.eqb_refl.
  assert (E2 : hd ++ body m ++ sum ++ post =
    hd ++ be_bytes 4 (zlen (GetTypeName m) + 1) ++ GetTypeName m ++ Byte.x00 ::
      SerializeWithCachedSizesToArray m ++ sum ++ post).
  { unfold body. by rewrite <- !app_assoc. }
  rewrite E2. rewrite AsInt32_mid by (rewrite ?zlen_be_bytes; lia). cbn [mbind res_bind].
  rewrite int32_be_value by lia.
  rewrite (proj2 (Z.leb_le 2 _)), (proj2 (Z.leb_le (zlen (GetTypeName m) + 1) _)) by lia. cbn [andb].
  rewrite app_assoc. replace (zlen (GetTypeName m) + 1 - 1) with (zlen (GetTypeName m)) by lia.
  rewrite ptr_read_mid by zlen_lia. cbn [mbind res_bind].
  edestruct (parse_serialize m) as (d & proto & Hd & Hp & Hpar); [done| |].
  2: { unfold CreateMessage. rewrite Hd. cbn [mbind option_bind]. rewrite Hp. cbn [mbind option_bind].
       replace (zlen (body m) + 4 - (zlen (GetTypeName m) + 1) - 4 - 4) with (ByteSize m) by lia.
       rewrite Hpar. done. }
  rewrite (app_assoc _ (GetTypeName m)), (cons_middle Byte.x00), app_assoc.
  apply ptr_read_mid; [zlen_lia | by rewrite byte_size_exact].
Qed.

Lemma AsInt32_ok blk off : 0 <= off -> off + 4 <= zlen blk ->
  AsInt32 (Ptr blk off) = Ok (int32 (be_value (ztake 4 (zdrop off blk)))).
Proof.
  intros. rewrite <- (ztake_zdrop off blk) at 1.
  rewrite <- (ztake_zdrop 4 (zdrop off blk)) at 1. apply AsInt32_mid; zlen_lia.
Qed.

Section streams.
Context {conn_t : Type}.
Context (error_callback_ : conn_t -> Buffer -> ErrorCode -> conn_t * Buffer).

Lemma parse_loop_fuel_mono fuel fuel' conn b vec r :
  parse_loop error_callback_ fuel conn b vec = Some r -> (fuel <= fuel')%nat ->
  parse_loop error_callback_ fuel' conn b vec = Some r.
Proof.
  revert fuel' b vec. induction fuel as [|fuel IH]; intros fuel' b vec H Hle; [done|].
  destruct fuel' as [|fuel']; [lia|]. cbn [parse_loop] in *.
  destruct (parse_pass _ _ _ _) as [[[b' vec']|o]|f]; try done. apply IH; [done | lia].
Qed.

Lemma view_fuel b : wf b -> zlen (view b) < Z.of_nat (S (length (buffer_ b))).
Proof. intros Hwf. rewrite zlen_view by done. open_wf. unfold zlen in *. lia. Qed.

(** ** Well-formed streams *)

(** Bytes that are not yet a frame: the loop waits for more. *)
Definition incomplete (l : bytes) : Prop :=
  zlen l < kMinMessageLen + kHeaderLen \/
  (kMinMessageLen <= int32 (be_value (ztake 4 l)) <= kMaxMessageLen /\
   zlen l < int32 (be_value (ztake 4 l)) + kHeaderLen).

Lemma parse_pass_incomplete conn b vec : wf b -> incomplete (view b) ->
  parse_pass error_callback_ conn b vec = Ok (inr (mkOutcome 0 conn b vec)).
Proof.
  intros Hwf Hinc. unfold parse_pass. rewrite readable_view by done.
  case_match eqn:E; [|done]. unbool. destruct Hinc as [?|[Hl Hs]]; [lia|].
  unfold kMinMessageLen, kHeaderLen, kCheckSumLen in *.
  rewrite PeekInt32_spec by (done || lia). cbn [mbind res_bind].
  rewrite (proj2 (Z.ltb_ge _ _)), (proj2 (Z.ltb_ge _ _)) by lia. cbn [orb].
  pose proof kMax_lt. rewrite size_t_id by lia. by rewrite (proj2 (Z.leb_gt _ _)) by lia.
Qed.

Lemma take_frame m rest : ztake 4 (frame m ++ rest) = be_bytes 4 (zlen (body m) + 4).
Proof.
  unfold frame. rewrite <- app_assoc, ztake_app_l by zlen_lia. apply ztake_all. zlen_lia.
Qed.

Context `{!ProtobufLaws P}.

Lemma body_min m : generated m -> 6 <= zlen (body m).
Proof.
  intros Hg. rewrite zlen_body. pose proof (type_name_nonempty m Hg). zlen_lia.
Qed.

Lemma parse_pass_frame conn b vec m rest : wf b -> generated m -> fits m ->
  view b = frame m ++ rest -> exists b',
  parse_pass error_callback_ conn b vec = Ok (inl (b', vec ++ [m])) /\ wf b' /\
  view b' = rest /\ writerIndex_ b' <= writerIndex_ b `max` 8.
Proof.
  intros Hwf Hg Hf Hv. pose proof (body_min m Hg). pose proof kMax_lt. unfold fits in *.
  assert (Hl : zlen (view b) = 8 + zlen (body m) + zlen rest) by (rewrite Hv, zlen_app, zlen_frame; lia).
  zlen_pos. unfold parse_pass, kMinMessageLen, kHeaderLen, kCheckSumLen.
  rewrite readable_view, PeekInt32_spec by (done || lia). rewrite (proj2 (Z.leb_le _ _)) by lia.
  cbn [mbind res_bind].
  assert (Hlen : int32 (be_value (ztake 4 (view b))) = zlen (body m) + 4).
  { rewrite Hv, take_frame. apply int32_be_value. lia. }
  rewrite Hlen.
  rewrite (proj2 (Z.ltb_ge _ _)), (proj2 (Z.ltb_ge _ _)) by lia. cbn [orb].
  rewrite size_t_id by lia. rewrite (proj2 (Z.leb_le (_ + 4) _)) by lia.
  assert (HP : Parse (Ptr (buffer_ b) (peek b + 4)) (zlen (body m) + 4) = Ok (Some m, kNoError)).
  { rewrite (buffer_split b Hwf), Hv, <- app_assoc. unfold peek.
    apply Parse_frame; [done | done | open_wf; zlen_lia]. }
  rewrite HP. cbn [mbind res_bind].
  destruct (Retrieve_spec b (4 + (zlen (body m) + 4))) as (b' & HR & ? & Hv' & _ & ?); [done | lia|].
  rewrite HR. exists b'. split_and!; [done | done | | done].
  rewrite Hv', Hv, zdrop_app_r by (rewrite zlen_frame; lia). rewrite zlen_frame.
  replace (_ - _) with 0 by lia. apply zdrop_0.
Qed.
End streams.
End format.
