(* ===== verification/CodecProps.v ===== *)
(** * Properties of the codec

    Round trip, streams cut into arbitrary chunks, arbitrary (hostile) input,
    the error paths and the sizes handed to protobuf. *)
From stdpp Require Import strings.
From S2P Require Import Prelude Endian StringPiece Buffer Codec.

(** ** A concrete runtime for the witnesses

    Messages are a one-byte type tag and a payload; [adler32] is the checksum
    zlib documents. *)
Module Toy.
#[local] Instance little : Host := LittleEndian.

Definition adler (a : Z) (d : bytes) : Z :=
  let step := fun '(x, y) c => let x' := (x + byte.unsigned c) mod 65521 in
                               (x', (y + x') mod 65521) in
  let '(x, y) := fold_left step d (a mod 65536, a / 65536) in x + y * 65536.
#[local] Instance zlib : Zlib := adler.

Definition msg : Type := byte * bytes.

#[local] Instance proto : Protobuf := {|
  message := msg;
  descriptor := byte;
  GetTypeName := fun m => [m.1];
  IsInitialized := fun _ => true;
  InitializationErrorString := fun _ => [];
  ByteSize := fun m => if zlen m.2 <? 2 ^ 31 then zlen m.2 else 0;
  SerializeWithCachedSizesToArray := fun m => if zlen m.2 <? 2 ^ 31 then m.2 else [];
  FindMessageTypeByName := fun n => head n;
  GetPrototype := fun d => Some (d, []);
  New := fun m => (m.1, []);
  ParseFromArray := fun m p n =>
    d ← ptr_read p n; Ok (Some (m.1, d));
|}.

#[local] Instance laws : ProtobufLaws proto.
Proof.
  refine {| generated := fun m : @message proto => zlen m.2 < 2 ^ 31 |}; cbn.
  - done.
  - intros m. case_match eqn:E; unbool; zlen_lia.
  - intros m. by case_match.
  - intros m _. zlen_lia.
  - intros [t d] p Hd. rewrite (proj2 (Z.ltb_lt _ _)) by done. cbn. intros Hr.
    exists t, (t, []). rewrite Hr. done.
Defined.

#[local] Instance reads : ProtobufReads proto.
Proof. intros m p n l E. cbn. rewrite E. by eexists. Qed.
End Toy.

Section stream.
Context {h : Host} {Z_ : Zlib} {P : Protobuf} `{!ProtobufLaws P}.
Context {conn_t : Type}.
Context (error_callback_ : conn_t -> Buffer -> ErrorCode -> conn_t * Buffer).

Definition frames (ms : list message) : bytes := concat (frame <$> ms).

Definition sendable (m : message) : Prop := generated m /\ fits m.

Lemma frames_cons m ms : frames (m :: ms) = frame m ++ frames ms.
Proof. done. Qed.

Lemma frames_app ms ks : frames (ms ++ ks) = frames ms ++ frames ks.
Proof. unfold frames. by rewrite fmap_app, concat_app. Qed.

Lemma frames_len ms : Forall sendable ms -> Z.of_nat (length ms) <= zlen (frames ms).
Proof.
  induction 1 as [|m ms [Hg _] _ IH]; [done|]. cbn [length]. rewrite frames_cons, zlen_app, zlen_frame.
  pose proof (body_min m Hg). lia.
Qed.

(** The loop decodes the complete frames and goes on with the rest. *)
Lemma parse_loop_frames fuel conn b vec ms rest : wf b -> Forall sendable ms ->
  view b = frames ms ++ rest -> exists b1, wf b1 /\ view b1 = rest /\
  writerIndex_ b1 <= writerIndex_ b `max` 8 /\
  parse_loop error_callback_ (length ms + fuel) conn b vec =
  parse_loop error_callback_ fuel conn b1 (vec ++ ms).
Proof.
  intros Hwf Hms. revert b vec Hwf.
  induction Hms as [|m ms [Hg Hf] _ IH]; intros b vec Hwf Hv; cbn [length Nat.add parse_loop].
  - exists b. rewrite app_nil_r. split_and!; [done.. | lia | done].
  - rewrite frames_cons, <- app_assoc in Hv.
    destruct (parse_pass_frame error_callback_ conn b vec m (frames ms ++ rest))
      as (b1 & -> & Hw1 & Hv1 & Hle1); [done..|].
    destruct (IH b1 (vec ++ [m])) as (b2 & ? & ? & ? & ->); [done..|].
    exists b2. rewrite <- app_assoc. split_and!; [done.. | lia | done].
Qed.

(** A pass that stops on the rest determines the whole call. *)
Lemma ParseMessages_frames_then conn b vec ms rest : wf b -> Forall sendable ms ->
  view b = frames ms ++ rest -> exists b1, wf b1 /\ view b1 = rest /\
  writerIndex_ b1 <= writerIndex_ b `max` 8 /\
  forall o, parse_pass error_callback_ conn b1 (vec ++ ms) = Ok (inr o) ->
    ParseMessages error_callback_ conn b vec = Some (Ok o).
Proof.
  intros Hwf Hms Hv. destruct (parse_loop_frames 1 conn b vec ms rest) as (b1 & ? & ? & ? & Hl); [done..|].
  exists b1. split_and!; [done.. |]. intros o Ho. cbn [parse_loop] in Hl. rewrite Ho in Hl.
  eapply parse_loop_fuel_mono; [exact Hl|].
  pose proof (frames_len ms Hms). pose proof (view_fuel b Hwf) as Hf.
  rewrite Hv, zlen_app in Hf. zlen_lia.
Qed.

Lemma ParseMessages_frames conn b vec ms rest : wf b -> Forall sendable ms ->
  view b = frames ms ++ rest -> incomplete rest -> exists b',
  ParseMessages error_callback_ conn b vec = Some (Ok (mkOutcome 0 conn b' (vec ++ ms))) /\
  wf b' /\ view b' = rest /\ writerIndex_ b' <= writerIndex_ b `max` 8.
Proof.
  intros Hwf Hms Hv Hi.
  destruct (ParseMessages_frames_then conn b vec ms rest) as (b1 & ? & Hv1 & ? & Ho); [done..|].
  exists b1. split_and!; try done. apply Ho. apply parse_pass_incomplete; [done | by rewrite Hv1].
Qed.

(** A proper prefix of a frame is incomplete. *)
Lemma prefix_incomplete m l k : sendable m -> frame m = l ++ k -> k <> [] -> incomplete l.
Proof.
  intros [Hg Hf] Hlk Hk. unfold incomplete, kMinMessageLen, kHeaderLen, kCheckSumLen.
  destruct (decide (zlen l < 14)) as [|Hl]; [by left | right].
  assert (Ht : ztake 4 l = be_bytes 4 (zlen (body m) + 4)).
  { pose proof (take_frame m []) as Ht. rewrite app_nil_r, Hlk in Ht.
    by rewrite ztake_app_l in Ht by lia. }
  pose proof (body_min m Hg). pose proof kMax_lt. unfold fits in Hf.
  rewrite Ht, int32_be_value by lia. split; [lia|].
  pose proof (zlen_frame m) as Hz. rewrite Hlk, zlen_app in Hz.
  assert (zlen k <> 0) by (intros ?%zlen_0_nil; done). zlen_lia.
Qed.

(** Any prefix of a stream of frames is a sequence of frames and an
    incomplete rest. *)
Lemma prefix_split ms s t : Forall sendable ms -> s ++ t = frames ms ->
  exists ms1 ms2 rest, ms = ms1 ++ ms2 /\ s = frames ms1 ++ rest /\
    rest ++ t = frames ms2 /\ incomplete rest.
Proof.
  intros Hms. revert s. induction Hms as [|m ms Hm Hms IH]; intros s Hst.
  { apply app_nil in Hst as [-> ->]. exists [], [], []. split_and!; try done. by left. }
  rewrite frames_cons in Hst. apply app_eq_app in Hst as (l & [[-> Ht]|[Hf ->]]).
  - destruct (IH l) as (ms1 & ms2 & rest & -> & -> & ? & ?); [done|].
    exists (m :: ms1), ms2, rest. split_and!; try done. by rewrite frames_cons, <- app_assoc.
  - destruct (decide (l = [])) as [->|Hl].
    + rewrite app_nil_r in Hf. subst s. exists [m], ms, [].
      split_and!; [done | by rewrite frames_cons, !app_nil_r | done | by left].
    + exists [], (m :: ms), s. split_and!; [done | done | | by eapply prefix_incomplete].
      by rewrite frames_cons, Hf, app_assoc.
Qed.

(** ** Errors

    [classify l] is the error the head of the stream [l] deserves, read off the
    bytes; [None] when there is none or more bytes are needed. *)
Definition classify (l : bytes) : option ErrorCode :=
  let len := int32 (be_value (ztake 4 l)) in
  if zlen l <? 14 then None
  else if (kMaxMessageLen <? len) || (len <? kMinMessageLen) then Some kInvalidLength
  else if zlen l <? len + 4 then None
  else if negb (int32 (adler32 1 (ztake (len - 4) (zdrop 4 l))) =?
                int32 (be_value (ztake 4 (zdrop len l)))) then Some kCheckSumError
  else
    let nameLen := int32 (be_value (ztake 4 (zdrop 4 l))) in
    if (nameLen <? 2) || (len - 4 <? nameLen) then Some kInvalidNameLen
    else match CreateMessage (ztake (nameLen - 1) (zdrop 8 l)) with
         | None => Some kUnknownMessageType
         | Some _ => None
         end.

Lemma ptr_read_view b off n : wf b -> 0 <= off -> 0 <= n -> off + n <= zlen (view b) ->
  ptr_read (Ptr (buffer_ b) (readerIndex_ b + off)) n = Ok (ztake n (zdrop off (view b))).
Proof.
  intros. unfold ptr_read. destruct (Z.eqb_spec n 0) as [->|]; [done|].
  by apply vec_read_view.
Qed.

Lemma AsInt32_view b off : wf b -> 0 <= off -> off + 4 <= zlen (view b) ->
  AsInt32 (Ptr (buffer_ b) (readerIndex_ b + off)) = Ok (int32 (be_value (ztake 4 (zdrop off (view b))))).
Proof.
  intros Hwf ? ?. pose proof (ptr_read_view b off 4 Hwf ltac:(lia) ltac:(lia) ltac:(lia)) as Hr.
  pose proof (zlen_view b Hwf). open_wf.
  rewrite AsInt32_ok by lia. rewrite ptr_read_ok in Hr by lia. by injection Hr as ->.
Qed.

Lemma parse_pass_error conn b vec ec : wf b -> classify (view b) = Some ec ->
  parse_pass error_callback_ conn b vec =
  let '(conn', buf') := error_callback_ conn b ec in Ok (inr (mkOutcome (-1) conn' buf' vec)).
Proof.
  intros Hwf. unfold classify, parse_pass, kMinMessageLen, kHeaderLen, kCheckSumLen.
  rewrite readable_view by done. destruct (Z.ltb_spec (zlen (view b)) 14); [done|].
  rewrite (proj2 (Z.leb_le _ _)), PeekInt32_spec by (done || lia). cbn [mbind res_bind].
  set (len := int32 (be_value (ztake 4 (view b)))).
  destruct (_ || _)%bool eqn:E; [by intros [= <-]|]. apply orb_false_iff in E as [? ?]. unbool.
  pose proof kMax_lt. rewrite size_t_id by lia.
  destruct (Z.ltb_spec (zlen (view b)) (len + 4)); [done|].
  rewrite (proj2 (Z.leb_le (len + 4) _)) by lia. unfold Parse, kCheckSumLen, kNamelenLen, peek.
  cbn [ptr_add]. rewrite <- !Z.add_assoc. replace (4 + (len - 4)) with len by lia.
  rewrite (AsInt32_view b len) by (done || lia). cbn [mbind res_bind].
  rewrite (int32_id (len - 4)), uint32_id by lia.
  rewrite (ptr_read_view b 4) by (done || lia). cbn [mbind res_bind].
  destruct (_ =? int32 (be_value (ztake 4 (zdrop len (view b))))); cbn [negb]; [|by intros [= <-]].
  rewrite (AsInt32_view b 4) by (done || lia). cbn [mbind res_bind].
  set (nameLen := int32 (be_value (ztake 4 (zdrop 4 (view b))))).
  destruct (Z.ltb_spec nameLen 2); cbn [orb].
  { rewrite (proj2 (Z.leb_gt 2 nameLen)) by lia. by intros [= <-]. }
  rewrite (proj2 (Z.leb_le 2 nameLen)) by lia. cbn [andb].
  destruct (Z.ltb_spec (len - 4) nameLen).
  { rewrite (proj2 (Z.leb_gt nameLen _)) by lia. by intros [= <-]. }
  rewrite (proj2 (Z.leb_le nameLen _)) by lia. change (4 + 4) with 8.
  rewrite (ptr_read_view b 8) by (done || lia). cbn [mbind res_bind].
  destruct (CreateMessage _); [done|]. by intros [= <-].
Qed.

(** ** Feeding a connection's input buffer chunk by chunk

    What [handleRead] does with the codec: append what was read, then parse. *)
Fixpoint feed (conn : conn_t) (b : Buffer) (vec : list message) (chunks : list bytes)
  : option (res (outcome conn_t)) :=
  match chunks with
  | [] => Some (Ok (mkOutcome 0 conn b vec))
  | c :: chunks =>
      match Append b (Ptr c 0) (zlen c) with
      | Fail f => Some (Fail f)
      | Ok b1 =>
          match ParseMessages error_callback_ conn b1 vec with
          | Some (Ok o) =>
              if code o =? 0 then feed (conn_after o) (buf_after o) (vecMessagePtr o) chunks
              else Some (Ok o)
          | r => r
          end
      end
  end.

(** However much of the stream has arrived, its complete frames are decoded
    and the incomplete rest waits in the buffer. *)
Lemma feed_prefix conn b vec ms chunks later : wf b -> Forall sendable ms ->
  view b ++ concat chunks ++ later = frames ms -> incomplete (view b) ->
  (writerIndex_ b `max` 8) + zlen (concat chunks) <= max_size ->
  exists b' ms1 ms2, ms = ms1 ++ ms2 /\
    feed conn b vec chunks = Some (Ok (mkOutcome 0 conn b' (vec ++ ms1))) /\
    wf b' /\ view b' ++ later = frames ms2 /\ incomplete (view b').
Proof.
  revert b vec ms. induction chunks as [|c chunks IH]; intros b vec ms Hwf Hms Hv Hi Hmax; cbn [feed].
  - exists b, [], ms. by rewrite app_nil_r.
  - cbn [concat] in *. rewrite zlen_app in Hmax. zlen_pos.
    destruct (Append_spec b (Ptr c 0) (zlen c) c) as (b1 & -> & Hw1 & Hv1 & _ & Hle1);
      [done | apply ptr_read_all | lia|].
    rewrite <- app_assoc, app_assoc, <- Hv1 in Hv.
    destruct (prefix_split ms (view b1) (concat chunks ++ later)) as (ms1 & ms2 & rest & -> & Hs & Ht & Hr); [done..|].
    apply Forall_app in Hms as [Hms1 Hms2].
    destruct (ParseMessages_frames conn b1 vec ms1 rest) as (b2 & -> & Hw2 & Hv2 & Hle2); [done..|].
    cbn [code conn_after buf_after vecMessagePtr]. rewrite Z.eqb_refl.
    destruct (IH b2 (vec ++ ms1) ms2) as (b3 & ms3 & ms4 & -> & -> & ? & ? & ?);
      [done | done | by rewrite Hv2 | by rewrite Hv2 | lia|].
    exists b3, (ms1 ++ ms3), ms4. by rewrite !app_assoc.
Qed.

(** A non-empty list of frames is not incomplete. *)
Lemma frames_incomplete ms : Forall sendable ms -> incomplete (frames ms) -> ms = [].
Proof.
  intros Hms Hi. destruct Hms as [|m ms [Hg Hf] _]; [done|]. exfalso.
  pose proof (body_min m Hg). pose proof kMax_lt. unfold fits in Hf.
  unfold incomplete in Hi. rewrite frames_cons, take_frame, int32_be_value in Hi by lia.
  rewrite zlen_app, zlen_frame in Hi. unfold kMinMessageLen, kHeaderLen, kCheckSumLen in Hi.
  zlen_lia.
Qed.

Lemma feed_frames conn b vec ms chunks : wf b -> Forall sendable ms ->
  view b ++ concat chunks = frames ms -> incomplete (view b) ->
  (writerIndex_ b `max` 8) + zlen (concat chunks) <= max_size ->
  exists b', feed conn b vec chunks = Some (Ok (mkOutcome 0 conn b' (vec ++ ms))) /\
    wf b' /\ view b' = [].
Proof.
  intros Hwf Hms Hv Hi Hmax.
  destruct (feed_prefix conn b vec ms chunks []) as (b' & ms1 & ms2 & -> & Hf & Hw & Hr & Hi');
    [done | done | by rewrite app_nil_r | done | done|].
  rewrite app_nil_r in Hr. rewrite Hr in Hi'. apply Forall_app in Hms as [_ Hms2].
  rewrite (frames_incomplete ms2 Hms2 Hi') in *. exists b'. by rewrite app_nil_r.
Qed.
(** ** Arbitrary input

    [negative_size l m]: the head of the stream [l] is a complete frame with a
    valid length and checksum, for a type whose prototype is [m], but with a
    name length that leaves less than no bytes of data. The size check of
    [Parse] lets it pass. *)
Definition frame_len (l : bytes) : Z := int32 (be_value (ztake 4 l)).
Definition frame_nameLen (l : bytes) : Z := int32 (be_value (ztake 4 (zdrop 4 l))).

Definition negative_size (l : bytes) (m : message) : Prop :=
  kMinMessageLen <= frame_len l <= kMaxMessageLen /\ frame_len l + kHeaderLen <= zlen l /\
  int32 (adler32 1 (ztake (frame_len l - 4) (zdrop 4 l))) = int32 (be_value (ztake 4 (zdrop (frame_len l) l))) /\
  CreateMessage (ztake (frame_nameLen l - 1) (zdrop 8 l)) = Some m /\
  frame_len l - 8 < frame_nameLen l <= frame_len l - 4.

(** The call [Parse] makes of protobuf for the frame at the head of the buffer. *)
Definition data_parse (b : Buffer) (m : message) : res (option message) :=
  ParseFromArray m (Ptr (buffer_ b) (readerIndex_ b + (8 + frame_nameLen (view b))))
    (frame_len (view b) - frame_nameLen (view b) - 8).

(** [r] is a failure of protobuf on a size that is negative. *)
Definition overrun (b : Buffer) {A} (r : res A) : Prop :=
  exists m f, r = Fail f /\ negative_size (view b) m /\ data_parse b m = Fail f.

Context `{!ProtobufReads P}.

Lemma Parse_total b : wf b -> kMinMessageLen <= frame_len (view b) <= kMaxMessageLen ->
  frame_len (view b) + 4 <= zlen (view b) ->
  let r := Parse (Ptr (buffer_ b) (peek b + 4)) (frame_len (view b)) in is_ok r \/ overrun b r.
Proof.
  intros Hwf Hlen Hin. unfold overrun, negative_size, data_parse, kHeaderLen. set (len := frame_len (view b)) in *.
  pose proof kMax_lt. assert (10 <= len) by (unfold kMinMessageLen, kHeaderLen, kCheckSumLen in Hlen; lia).
  unfold Parse, kCheckSumLen, kNamelenLen, peek. cbn [ptr_add]. rewrite <- !Z.add_assoc.
  replace (4 + (len - 4)) with len by lia. rewrite (AsInt32_view b len) by (done || lia). cbn [mbind res_bind].
  rewrite (int32_id (len - 4)), uint32_id by lia. rewrite (ptr_read_view b 4) by (done || lia). cbn [mbind res_bind].
  case_match eqn:Ec; [|left; by eexists]. rewrite (AsInt32_view b 4) by (done || lia). cbn [mbind res_bind].
  fold (frame_nameLen (view b)). set (nameLen := frame_nameLen (view b)) in *.
  case_match eqn:E; [|left; by eexists]. unbool. change (4 + 4) with 8.
  rewrite (ptr_read_view b 8) by (done || lia). cbn [mbind res_bind].
  case_match eqn:Em; [|left; by eexists]. replace (readerIndex_ b + 4 + (4 + nameLen)) with (readerIndex_ b + (8 + nameLen)) by lia.
  replace (len - nameLen - 4 - 4) with (len - nameLen - 8) by lia.
  destruct (ParseFromArray _ _ _) as [r|f] eqn:Ep; cbn [mbind res_bind].
  { left. destruct r; by eexists. }
  right. eexists _, f. split; [done|]. split; [|exact Ep]. split_and!; try done; try lia.
  destruct (decide (len - 8 < nameLen)); [done|]. exfalso.
  destruct (parse_readable m _ _ _ (ptr_read_view b (8 + nameLen) (len - nameLen - 8) Hwf ltac:(lia) ltac:(lia) ltac:(lia))) as [r Er].
  congruence.
Qed.

(** A pass over a well-formed buffer returns, unless protobuf is handed a
    negative size, and continues only after it consumed at least the smallest
    frame. *)
Lemma parse_pass_total conn b vec : wf b -> let r := parse_pass error_callback_ conn b vec in
  overrun b r \/ exists s, r = Ok s /\
  match s with
  | inl (b', vec') => wf b' /\ zlen (view b') + 14 <= zlen (view b) /\ view b' `suffix_of` view b /\
      exists m, vec' = vec ++ [m]
  | inr o => vecMessagePtr o = vec
  end.
Proof.
  intros Hwf. cbn zeta. unfold parse_pass, kMinMessageLen, kHeaderLen, kCheckSumLen.
  rewrite readable_view by done.
  case_match eqn:E1; [|right; by eexists]. unbool. rewrite PeekInt32_spec by (done || lia).
  cbn [mbind res_bind]. fold (frame_len (view b)). set (len := frame_len (view b)).
  destruct (_ || _)%bool eqn:E2; [right; destruct (error_callback_ _ _ _); by eexists|].
  apply orb_false_iff in E2 as [? ?]. unbool. pose proof kMax_lt. rewrite size_t_id by lia.
  case_match eqn:E3; [|right; by eexists]. unbool.
  destruct (Parse_total b Hwf) as [[[om ec] HP]|(m & f & HP & Hn & Hd)];
    [unfold kMinMessageLen, kHeaderLen, kCheckSumLen; fold len; lia | done | | by left; exists m, f; fold len in HP; rewrite HP].
  fold len in HP. rewrite HP. right. cbn [mbind res_bind].
  destruct (Retrieve_spec b (4 + len)) as (b' & HR & Hw' & Hv' & _); [done | lia|].
  destruct om as [m|], ec; rewrite ?HR; cbn [mbind res_bind];
    try (destruct (error_callback_ _ _ _); by eexists).
  eexists; split; [reflexivity|]. split_and!; [done | rewrite Hv'; zlen_lia | | by exists m].
  rewrite Hv'. exists (ztake (4 + len) (view b)). by rewrite ztake_zdrop.
Qed.

Lemma parse_loop_total fuel conn b vec : wf b -> zlen (view b) < Z.of_nat fuel ->
  (exists o ms, parse_loop error_callback_ fuel conn b vec = Some (Ok o) /\ vecMessagePtr o = vec ++ ms) \/
  (exists b' r, parse_loop error_callback_ fuel conn b vec = Some r /\ view b' `suffix_of` view b /\ wf b' /\ overrun b' r).
Proof.
  revert b vec. induction fuel as [|fuel IH]; intros b vec Hwf Hf; [zlen_lia|].
  cbn [parse_loop].
  destruct (parse_pass_total conn b vec Hwf) as [(m & f & -> & Hn)|([[b' vec']|o] & -> & Hr)].
  - right. exists b, (Fail f). split_and!; [done | reflexivity | done | by exists m, f].
  - destruct Hr as (Hwf' & Hl & Hs & m & ->).
    destruct (IH b' (vec ++ [m])) as [(o & ms & Ho & Hms)|(b2 & r & Ho & Hs2 & H2)]; [done | lia | left | right].
    + exists o, (m :: ms). rewrite Ho, Hms. split; [done|]. by rewrite <- app_assoc.
    + exists b2, r. split_and!; [done | by etrans | apply H2..].
  - left. exists o, []. by rewrite app_nil_r.
Qed.
End stream.

(** ** Properties *)
Section properties.
Context {h : Host} {Z_ : Zlib} {P : Protobuf} `{!ProtobufLaws P}.
Context {conn_t : Type}.
Context (cb : conn_t -> Buffer -> ErrorCode -> conn_t * Buffer).

(** What [ProtobufCodec::Send] puts on the wire for a list of messages: each
    message is encoded into a fresh buffer, whose content is handed over. *)
Fixpoint encode_all (ms : list message) : res bytes :=
  match ms with
  | [] => Ok []
  | m :: ms =>
      b ← new_Buffer; b ← FillEmptyBuffer b m;
      '(s, _) ← RetrieveAllAsString b;
      rest ← encode_all ms; Ok (s ++ rest)
  end.

Lemma encode_all_frames ms : Forall sendable ms -> encode_all ms = Ok (frames ms).
Proof.
  induction 1 as [|m ms [Hg Hf] _ IH]; [done|]. cbn [encode_all].
  destruct new_Buffer_spec as (b & -> & Hwf & Hv & Hr & Hw). cbn [mbind res_bind].
  pose proof kMax_lt. unfold fits in Hf. unfold kCheapPrepend in *.
  destruct (FillEmptyBuffer_spec b m) as (b1 & -> & Hwf1 & Hv1); try done;
    [lia | by apply generated_initialized | rewrite zlen_frame; lia
    | rewrite zlen_frame, Hw; unfold max_size; lia |].
  cbn [mbind res_bind]. unfold RetrieveAllAsString. rewrite readable_view by done.
  destruct (RetrieveAsString_spec b1 (zlen (view b1))) as (b2 & -> & _); [done | zlen_lia|].
  cbn [mbind res_bind]. rewrite IH. cbn [mbind res_bind]. rewrite ztake_all, Hv1 by lia. done.
Qed.

(** C2: messages survive the wire, however TCP cuts the stream. Any list of
    sendable messages (of generated types, frames of at most 64 MiB) is encoded
    without a fault; if the receiver gets those bytes in any sequence of chunks,
    feeding them to [ParseMessages] yields exactly the messages, in order, no
    error code, and an empty buffer, as long as they fit into the buffer
    together. *)
Theorem codec_stream_roundtrip conn ms : Forall sendable ms ->
  exists wire, encode_all ms = Ok wire /\
    forall chunks, concat chunks = wire -> zlen wire <= max_size - 8 ->
    exists b0 b', new_Buffer = Ok b0 /\
      feed cb conn b0 [] chunks = Some (Ok (mkOutcome 0 conn b' ms)) /\ view b' = [].
Proof using All.
  intros Hms. exists (frames ms). split; [by apply encode_all_frames|]. intros chunks Hc Hmax.
  destruct new_Buffer_spec as (b & Hb & Hwf & Hv & Hr & Hw). exists b.
  destruct (feed_frames cb conn b [] ms chunks) as (b' & Hfd & _ & Hv'); try done.
  - by rewrite Hv.
  - rewrite Hv. by left.
  - rewrite Hw, Hc. unfold kCheapPrepend. lia.
  - by exists b'.
Qed.

(** C4: hostile input. Whatever bytes are in the buffer, the loop of
    [ParseMessages] ends, no assertion fails and no read of the codec leaves the
    buffer; it returns, with the vector it was given only extended, unless
    protobuf fails. Protobuf, which returns on bytes it can read, can fail only
    on one kind of input: at a complete frame of the input with a valid length
    and checksum and a known type, whose name length is more than the length of
    the frame less 8, [ParseFromArray] is called with a negative size. *)
Theorem ParseMessages_total `{!ProtobufReads P} conn b vec : wf b ->
  (exists o ms, ParseMessages cb conn b vec = Some (Ok o) /\ vecMessagePtr o = vec ++ ms) \/
  (exists b' m f, ParseMessages cb conn b vec = Some (Fail f) /\ wf b' /\ view b' `suffix_of` view b /\
    negative_size (view b') m /\ data_parse b' m = Fail f).
Proof.
  intros Hwf. destruct (parse_loop_total cb (S (length (buffer_ b))) conn b vec Hwf) as [H|(b' & r & E & Hs & Hw & m & f & -> & Hn)];
    [by apply view_fuel | by left | right]. by exists b', m, f.
Qed.

(** C36: errors are precise. When complete frames are followed by a head that
    is wrong (length out of range, checksum mismatch, bad name length, unknown
    type), the messages before it are delivered, [error_callback_] is called
    once, on a buffer that still holds the offending bytes, with the error code
    those bytes deserve, and the call returns -1. *)
Theorem ParseMessages_error conn b vec ms rest ec : wf b -> Forall sendable ms ->
  view b = frames ms ++ rest -> classify rest = Some ec ->
  exists b1, wf b1 /\ view b1 = rest /\
    ParseMessages cb conn b vec =
    let '(conn', buf') := cb conn b1 ec in
    Some (Ok (mkOutcome (-1) conn' buf' (vec ++ ms))).
Proof.
  intros Hwf Hms Hv Hc.
  destruct (ParseMessages_frames_then cb conn b vec ms rest) as (b1 & Hw1 & Hv1 & _ & Ho); [done..|].
  exists b1. split_and!; try done. rewrite <- Hv1 in Hc.
  pose proof (parse_pass_error cb conn b1 (vec ++ ms) ec Hw1 Hc) as Hp.
  destruct (cb conn b1 ec) as [conn' buf']. by apply Ho.
Qed.

(** The sender does not enforce the receiver's limit. A message whose
    frame exceeds [kMaxMessageLen] is encoded without complaint, and the
    receiver answers its first bytes with [kInvalidLength]. *)
Theorem oversized_message_is_sent_and_refused conn m : generated m ->
  kMaxMessageLen < zlen (body m) + 4 -> zlen (frame m) < 2 ^ 31 ->
  exists b0 b, new_Buffer = Ok b0 /\ FillEmptyBuffer b0 m = Ok b /\ view b = frame m /\
    ParseMessages cb conn b [] =
    let '(conn', buf') := cb conn b kInvalidLength in
    Some (Ok (mkOutcome (-1) conn' buf' [])).
Proof.
  intros Hg Hbig Hlt. destruct new_Buffer_spec as (b0 & Hb0 & Hwf & Hv & Hr & Hw).
  unfold kCheapPrepend in *. exists b0.
  destruct (FillEmptyBuffer_spec b0 m) as (b & HF & Hwf1 & Hv1); try done;
    [lia | by apply generated_initialized | unfold max_size; lia |].
  exists b. split_and!; try done. rewrite zlen_frame in Hlt.
  assert (Hc : classify (view b) = Some kInvalidLength).
  { unfold classify. rewrite Hv1, zlen_frame. pose proof (body_min m Hg).
    pose proof (take_frame m []) as Ht. rewrite app_nil_r in Ht. rewrite Ht, int32_be_value by lia.
    rewrite (proj2 (Z.ltb_ge _ 14)) by lia.
    by rewrite (proj2 (Z.ltb_lt kMaxMessageLen _)) by lia. }
  unfold ParseMessages. cbn [parse_loop]. rewrite (parse_pass_error cb conn b [] _ Hwf1 Hc).
  by destruct (cb conn b kInvalidLength).
Qed.

(** The name-length check is four bytes too weak. For a frame whose name
    length is [len - kCheckSumLen], every check passes, the type name extends
    over three bytes of the checksum, and [ParseFromArray] is called with the
    size -4. *)
Theorem Parse_negative_size junk :
  let bd := be_bytes 4 (zlen junk + 4) ++ junk in
  let sum := be_bytes 4 (adler32 1 bd) in
  let l := bd ++ sum in
  2 <= zlen junk -> zlen l <= kMaxMessageLen ->
  Parse (Ptr l 0) (zlen l) =
  match CreateMessage (junk ++ ztake 3 sum) with
  | Some m => r ← ParseFromArray m (Ptr l (zlen l)) (-4);
              Ok (match r with Some m' => (Some m', kNoError) | None => (None, kParseError) end)
  | None => Ok (None, kUnknownMessageType)
  end.
Proof.
  intros bd sum l Hj Hmax. pose proof kMax_lt.
  assert (Hbd : zlen bd = zlen junk + 4) by (unfold bd; zlen_lia).
  assert (Hsum : zlen sum = 4) by apply zlen_be_bytes.
  assert (Hl : zlen l = zlen bd + 4) by (unfold l; rewrite zlen_app; lia).
  unfold Parse, kCheckSumLen, kNamelenLen. cbn [ptr_add].
  assert (E1 : l = bd ++ sum ++ []) by (by rewrite app_nil_r).
  assert (E2 : l = [] ++ be_bytes 4 (zlen junk + 4) ++ junk ++ sum) by (unfold l, bd; by rewrite <- app_assoc).
  assert (E3 : l = be_bytes 4 (zlen junk + 4) ++ (junk ++ ztake 3 sum) ++ zdrop 3 sum).
  { rewrite <- app_assoc, ztake_zdrop. exact E2. }
  assert (H1 : AsInt32 (Ptr l (0 + (zlen l - 4))) = Ok (int32 (adler32 1 bd))).
  { rewrite E1 at 1. rewrite AsInt32_mid by lia.
    exact (f_equal Ok (int32_be_value_any _)). }
  rewrite H1. cbn [mbind res_bind]. rewrite (int32_id (zlen l - 4)), uint32_id by lia.
  assert (H2 : ptr_read (Ptr l 0) (zlen l - 4) = Ok bd).
  { change l with ([] ++ bd ++ sum) at 1. apply ptr_read_mid; [done | lia]. }
  rewrite H2. cbn [mbind res_bind]. rewrite Z.eqb_refl.
  assert (H3 : AsInt32 (Ptr l 0) = Ok (zlen junk + 4)).
  { rewrite E2. rewrite AsInt32_mid by (rewrite ?zlen_be_bytes; done). by rewrite int32_be_value by lia. }
  rewrite H3. cbn [mbind res_bind].
  rewrite (proj2 (Z.leb_le 2 _)), (proj2 (Z.leb_le _ (zlen l - 4))) by lia. cbn [andb].
  assert (H4 : ptr_read (Ptr l (0 + 4)) (zlen junk + 4 - 1) = Ok (junk ++ ztake 3 sum)).
  { rewrite E3. apply ptr_read_mid; [by rewrite zlen_be_bytes|]. rewrite zlen_app, zlen_take; lia. }
  rewrite H4. cbn [mbind res_bind].
  replace (0 + (4 + (zlen junk + 4))) with (zlen l) by lia.
  replace (zlen l - (zlen junk + 4) - 4 - 4) with (-4) by lia.
  destruct (CreateMessage _); [|done]. by destruct (ParseFromArray _ _ _) as [[|]|].
Qed.
End properties.

(** ** Witnesses *)
Module Witness.
Import Toy.
#[local] Existing Instances little zlib proto laws.

Definition msgs : list message := [(Byte.x41, [Byte.x01; Byte.x02]); (Byte.x42, [])].
Definition no_callback (c : unit) (b : Buffer) (_ : ErrorCode) : unit * Buffer := (c, b).

Lemma msgs_sendable : Forall sendable msgs.
Proof. repeat constructor; vm_compute; congruence. Qed.

(** Two messages, cut after 3 and after 20 bytes. *)
Definition wire : bytes := Eval vm_compute in frames msgs.
Definition chunks : list bytes := [ztake 3 wire; ztake 17 (zdrop 3 wire); zdrop 20 wire].

Lemma codec_stream_roundtrip_witness :
  Forall sendable msgs /\ exists w, encode_all msgs = Ok w /\ w = concat chunks /\
  exists b0 b', new_Buffer = Ok b0 /\
    feed no_callback tt b0 [] chunks = Some (Ok (mkOutcome 0 tt b' msgs)) /\ view b' = [].
Proof.
  split; [exact msgs_sendable|].
  destruct (codec_stream_roundtrip no_callback tt msgs msgs_sendable) as (w & Ew & Hw). exists w.
  assert (w = wire) as -> by (vm_compute in Ew; by injection Ew).
  split; [exact Ew|]. split; [vm_compute; reflexivity|]. apply Hw; [vm_compute; reflexivity | vm_compute; discriminate].
Defined.

(** A buffer with 20 bytes of garbage. *)
Definition garbage : Buffer := mkBuffer (repeat Byte.xff 28) 8 28.
Lemma garbage_wf : wf garbage.
Proof. split; vm_compute; intuition discriminate. Qed.

#[local] Existing Instance reads.

Lemma ParseMessages_total_witness : wf garbage /\
  exists o ms, ParseMessages no_callback tt garbage [] = Some (Ok o) /\ vecMessagePtr o = [] ++ ms.
Proof.
  split; [exact garbage_wf|].
  destruct (ParseMessages_total no_callback tt garbage [] garbage_wf) as [H|(b' & m & f & E & _)]; [exact H|].
  exfalso. assert (match ParseMessages no_callback tt garbage [] with Some (Fail _) => false | _ => true end = true) as Hg
    by (vm_compute; reflexivity).
  rewrite E in Hg. discriminate Hg.
Defined.

(** A frame of the type "Aaa..." whose name length is the length of the frame
    less 4: the runtime of this example fails, as protobuf may. *)
Definition overrun_body : bytes := be_bytes 4 6 ++ [Byte.x41; Byte.x61].
Definition overrun_frame : bytes := be_bytes 4 10 ++ overrun_body ++ be_bytes 4 (adler32 1 overrun_body).
Definition overrun_buffer : Buffer := mkBuffer (repeat Byte.x00 8 ++ overrun_frame) 8 22.

Example overrun_reaches_protobuf :
  negative_size overrun_frame (Byte.x41, []) /\ ParseMessages no_callback tt overrun_buffer [] = Some (Fail FBounds).
Proof.
  split.
  - unfold negative_size. split_and!; try (vm_compute; reflexivity); vm_compute; discriminate.
  - assert (match ParseMessages no_callback tt overrun_buffer [] with Some (Fail FBounds) => true | _ => false end = true) as H
      by (vm_compute; reflexivity).
    by destruct (ParseMessages _ _ _ _) as [[|[]]|].
Qed.

(** A good frame, then a frame whose last checksum byte is flipped. *)
Definition good : message := (Byte.x41, [Byte.x01]).
Definition bad_rest : bytes := Eval vm_compute in
  ztake (zlen (frame good) - 1) (frame good) ++ [Byte.xff].
Definition good_then_bad : Buffer :=
  mkBuffer (repeat Byte.x00 8 ++ frame good ++ bad_rest) 8 (8 + zlen (frame good ++ bad_rest)).

Lemma ParseMessages_error_witness :
  wf good_then_bad /\ classify bad_rest = Some kCheckSumError /\
  exists b1, wf b1 /\ view b1 = bad_rest /\
    ParseMessages no_callback tt good_then_bad [] =
    let '(conn', buf') := no_callback tt b1 kCheckSumError in
    Some (Ok (mkOutcome (-1) conn' buf' ([] ++ [good]))).
Proof.
  assert (Hw : wf good_then_bad) by (split; vm_compute; intuition discriminate).
  assert (Hc : classify bad_rest = Some kCheckSumError) by (vm_compute; reflexivity).
  split; [exact Hw | split; [exact Hc|]].
  apply (ParseMessages_error no_callback tt good_then_bad [] [good] bad_rest kCheckSumError Hw);
    [repeat constructor; vm_compute; congruence | vm_compute; reflexivity | exact Hc].
Defined.

(** A payload of 64 MiB. *)
Definition big : message := (Byte.x41, repeat Byte.x00 (Z.to_nat (2 ^ 26))).
Lemma zlen_big : zlen big.2 = 2 ^ 26.
Proof. unfold zlen, big. cbn [snd]. rewrite repeat_length, Z2Nat.id; [done | discriminate]. Qed.
Lemma zlen_big_frame : zlen (frame big) = 2 ^ 26 + 14.
Proof.
  rewrite zlen_frame, zlen_body.
  change (SerializeWithCachedSizesToArray big) with (if zlen big.2 <? 2 ^ 31 then big.2 else []).
  change (GetTypeName big) with [Byte.x41]. rewrite zlen_big. cbn [Z.ltb]. 
  change (2 ^ 26 <? 2 ^ 31) with true. cbv iota. rewrite zlen_big. reflexivity.
Qed.

Lemma oversized_message_is_sent_and_refused_witness :
  zlen (frame big) = 2 ^ 26 + 14 /\
  exists b0 b, new_Buffer = Ok b0 /\ FillEmptyBuffer b0 big = Ok b /\ view b = frame big /\
    ParseMessages no_callback tt b [] =
    let '(conn', buf') := no_callback tt b kInvalidLength in
    Some (Ok (mkOutcome (-1) conn' buf' [])).
Proof.
  split; [exact zlen_big_frame|].
  apply (oversized_message_is_sent_and_refused no_callback tt big).
  - change (zlen big.2 < 2 ^ 31). rewrite zlen_big. reflexivity.
  - assert (H := zlen_big_frame). rewrite zlen_frame in H. unfold kMaxMessageLen. lia.
  - rewrite zlen_big_frame. reflexivity.
Defined.

Lemma Parse_negative_size_witness :
  let bd := be_bytes 4 6 ++ [Byte.x41; Byte.x42] in
  let l := bd ++ be_bytes 4 (adler32 1 bd) in
  Parse (Ptr l 0) (zlen l) = Fail FBounds.
Proof.
  intros bd l. etransitivity.
  - apply (Parse_negative_size [Byte.x41; Byte.x42]); vm_compute; discriminate.
  - vm_compute. reflexivity.
Defined.
End Witness.
