(* ===== verification/BlockingQueue.v ===== *)
(** * [common::BlockingQueue<T>] ([src/common/base/blocking_queue.h]) and
      [QueuedRecvMsg] ([src/queue_msg_type.h])

    An unbounded queue behind a mutex and one condition. The methods are the
    instruction lists of [Monitor]; [call] and [program] let any number of
    threads run any sequence of calls. *)
From S2P Require Import Prelude Monitor.

(** What the network side queues for the logic side: the session to answer
    and the message (a null pointer is [None]). *)
Record QueuedRecvMsg (M : Type) := mkQueuedRecvMsg {
  sendback_sid : Z;
  msg_ptr : option M;
}.
Arguments mkQueuedRecvMsg {M} sendback_sid msg_ptr.
Definition QueuedRecvMsg_default {M} : QueuedRecvMsg M := mkQueuedRecvMsg (-1) None.

Section queue.
Context {T : Type}.

(** The protected data. [pushed] and [gone] are ghost state: everything ever
    put, and everything removed, with [true] for what a taker received and
    [false] for what [clearAll] dropped. *)
Record bq := mkBq {
  queue_ : list T;
  pushed : list T;
  gone : list (bool * T);
}.

(** Locals of a calling thread: [front] of [take], the [emptyQueue] argument
    of [takeAll], the result of [size] and [empty]; [received] collects what
    the thread got. *)
Record locals := mkLocals {
  front : option T;
  emptyQueue : list T;
  result : Z;
  received : list T;
}.

Abbreviation instr := (instr bq locals).
Definition notEmpty_ : nat := 0.

Definition queue_empty (d : bq) : bool := match queue_ d with [] => true | _ => false end.

(** ** Accesses to [queue_] *)
Definition push_back (xs : list T) : instr := Act (fun d l =>
  Ok (mkBq (queue_ d ++ xs) (pushed d ++ xs) (gone d), l)).
Definition assert_nonempty : instr := Act (fun d l =>
  assert_ (negb (queue_empty d));; Ok (d, l)).
(** [T front(queue_.front())]: undefined on an empty deque. *)
Definition read_front : instr := Act (fun d l =>
  match queue_ d with
  | x :: _ => Ok (d, mkLocals (Some x) (emptyQueue l) (result l) (received l))
  | [] => Fail FBounds
  end).
(** [queue_.pop_front()] *)
Definition pop_front : instr := Act (fun d l =>
  match queue_ d with
  | x :: q => Ok (mkBq q (pushed d) (gone d ++ [(true, x)]), l)
  | [] => Fail FBounds
  end).
Definition assert_takeAll : instr := Act (fun d l =>
  assert_ (negb (queue_empty d) && match emptyQueue l with [] => true | _ => false end)%bool;; Ok (d, l)).
(** [queue_.swap(emptyQueue)] *)
Definition swap_out : instr := Act (fun d l =>
  Ok (mkBq (emptyQueue l) (pushed d) (gone d ++ ((fun x => (true, x)) <$> queue_ d)),
      mkLocals (front l) (queue_ d) (result l) (received l))).
Definition read_size : instr := Act (fun d l =>
  Ok (d, mkLocals (front l) (emptyQueue l) (Z.of_nat (length (queue_ d))) (received l))).
(** [queue_.swap(tmp_empty_deq)]; the temporary is destroyed at the end of the scope. *)
Definition swap_clear : instr := Act (fun d l =>
  Ok (mkBq [] (pushed d) (gone d ++ ((fun x => (false, x)) <$> queue_ d)), l)).

(** ** Methods *)
Definition put (x : T) : list instr :=
  MutexLockGuard_ctor ++ [push_back [x]] ++ Condition_Notify notEmpty_ ++ MutexLockGuard_dtor.

Definition putAll (dataQueue : list T) : list instr :=
  MutexLockGuard_ctor ++ [push_back dataQueue] ++ Condition_Notify notEmpty_ ++ MutexLockGuard_dtor.

Definition take : list instr :=
  MutexLockGuard_ctor ++
  [While queue_empty (Condition_Wait notEmpty_); assert_nonempty; read_front; pop_front] ++
  MutexLockGuard_dtor.

Definition takeAll : list instr :=
  MutexLockGuard_ctor ++
  [While queue_empty (Condition_Wait notEmpty_); assert_takeAll; swap_out] ++
  MutexLockGuard_dtor.

Definition size : list instr :=
  MutexLockGuard_ctor ++ [read_size] ++ MutexLockGuard_dtor.

(** [empty()] reads without the mutex. *)
Definition empty : list instr := [Act (fun d l =>
  Ok (d, mkLocals (front l) (emptyQueue l) (if queue_empty d then 1 else 0) (received l)))].

Definition clearAll : list instr :=
  MutexLockGuard_ctor ++ [swap_clear] ++ MutexLockGuard_dtor.

(** ** Callers *)
Inductive call := CPut (x : T) | CPutAll (xs : list T) | CTake | CTakeAll | CSize | CClearAll.

(** A caller of [take] uses the returned value; a caller of [takeAll] passes
    an empty deque and consumes it afterwards. *)
Definition keep_front (l : locals) : locals :=
  mkLocals None (emptyQueue l) (result l) (received l ++ option_list (front l)).
Definition keep_all (l : locals) : locals :=
  mkLocals (front l) [] (result l) (received l ++ emptyQueue l).

Definition call_code (c : call) : list instr :=
  match c with
  | CPut x => put x
  | CPutAll xs => putAll xs
  | CTake => take ++ [Local keep_front]
  | CTakeAll => takeAll ++ [Local keep_all]
  | CSize => size
  | CClearAll => clearAll
  end.

Definition program (cs : list call) : list instr := concat (call_code <$> cs).

Definition no_locals : locals := mkLocals None [] 0 [].

(** The queue as constructed, with a program per thread. *)
Definition start (progs : gmap tid_t (list call)) : system bq locals :=
  mkSystem None 0 (mkBq [] [] []) ((fun cs => mkThread (program cs) no_locals) <$> progs) None.

(** ** Invariant: first in, first out, nothing lost or duplicated *)
Definition fifo (d : bq) : Prop := pushed d = (gone d).*2 ++ queue_ d.

Definition safe_from (k : list instr) (l : locals) : Prop := forall n d, safe fifo n Free k d l.

Lemma safe_put xs k l :
  safe_from k l -> safe_from (putAll xs ++ k) l.
Proof.
  intros Hk n d. unfold putAll. rewrite <- !app_assoc.
  apply safe_ctor. intros d' m Hm HI. eapply safe_act; [reflexivity|]. intros m1 Hm1.
  apply safe_notify. intros m2 Hm2. apply safe_dtor; [|intros m3 Hm3; apply Hk].
  unfold fifo in *. cbn. by rewrite HI, app_assoc.
Qed.

Lemma nonempty_queue d : queue_empty d = false -> exists x q, queue_ d = x :: q.
Proof. unfold queue_empty. destruct (queue_ d); [done|]. by eauto. Qed.

Lemma safe_take k l :
  (forall x, safe_from k (mkLocals (Some x) (emptyQueue l) (result l) (received l))) ->
  safe_from (take ++ k) l.
Proof.
  intros Hk n d. unfold take. rewrite <- !app_assoc.
  apply safe_ctor. intros d1 m1 _ HI1. apply safe_wait_loop; [done|]. intros d2 m2 _ HI2 Hne.
  destruct (nonempty_queue d2 Hne) as (x & q & Hq).
  eapply safe_act; [by rewrite Hne|]. intros m3 _.
  eapply safe_act; [by rewrite Hq|]. intros m4 _.
  eapply safe_act; [by rewrite Hq|]. intros m5 _.
  apply safe_dtor; [|intros; apply Hk].
  unfold fifo in *. cbn. by rewrite fmap_app, <- app_assoc, HI2, Hq.
Qed.

Lemma fmap_snd_pair (b : bool) (q : list T) : ((fun x => (b, x)) <$> q).*2 = q.
Proof. induction q; cbn; congruence. Qed.

Lemma safe_takeAll k l : emptyQueue l = [] ->
  (forall q, safe_from k (mkLocals (front l) q (result l) (received l))) ->
  safe_from (takeAll ++ k) l.
Proof.
  intros He Hk n d. unfold takeAll. rewrite <- !app_assoc.
  apply safe_ctor. intros d1 m1 _ HI1. apply safe_wait_loop; [done|]. intros d2 m2 _ HI2 Hne.
  eapply safe_act; [by rewrite Hne, He|]. intros m3 _.
  eapply safe_act; [done|]. intros m4 _. apply safe_dtor; [|intros; apply Hk].
  unfold fifo in *. cbn. by rewrite He, app_nil_r, fmap_app, fmap_snd_pair.
Qed.

Lemma safe_size k l :
  (forall z, safe_from k (mkLocals (front l) (emptyQueue l) z (received l))) -> safe_from (size ++ k) l.
Proof.
  intros Hk n d. unfold size. rewrite <- !app_assoc.
  apply safe_ctor. intros d1 m1 _ HI1. eapply safe_act; [done|]. intros m2 _.
  apply safe_dtor; [done|]. intros; apply Hk.
Qed.

Lemma safe_clearAll k l : safe_from k l -> safe_from (clearAll ++ k) l.
Proof.
  intros Hk n d. unfold clearAll. rewrite <- !app_assoc.
  apply safe_ctor. intros d1 m1 _ HI1. eapply safe_act; [done|]. intros m2 _.
  apply safe_dtor; [|intros; apply Hk].
  unfold fifo in *. cbn. by rewrite app_nil_r, fmap_app, fmap_snd_pair.
Qed.

(** Every program of queue calls is safe. *)
Lemma safe_program cs l : emptyQueue l = [] -> safe_from (program cs) l.
Proof.
  revert l. induction cs as [|c cs IH]; intros l He.
  { intros n d. apply safe_nil. }
  change (program (c :: cs)) with (call_code c ++ program cs).
  destruct c; cbn [call_code].
  - apply (safe_put [x]). by apply IH.
  - apply safe_put. by apply IH.
  - rewrite <- app_assoc. apply safe_take. intros x. intros n d. apply (safe_local (I := fifo)). by apply IH.
  - rewrite <- app_assoc. apply safe_takeAll; [done|]. intros q. intros n d. apply (safe_local (I := fifo)). by apply IH.
  - apply safe_size. intros z. by apply IH.
  - apply safe_clearAll. by apply IH.
Qed.

Lemma queue_good progs s : rtc step (start progs) s -> good fifo s.
Proof.
  apply monitor_sound; [done | done | done | done|].
  intros t th. cbn. rewrite lookup_fmap, fmap_Some. intros (cs & _ & ->) d n. by apply safe_program.
Qed.
End queue.
Arguments bq T : clear implicits.
Arguments locals T : clear implicits.
Arguments call T : clear implicits.

(** C21: the queue works under every interleaving. Let any number of threads
    run any programs of [put], [putAll], [take], [takeAll], [size] and
    [clearAll] calls on one queue. In every reachable state no assertion of
    the methods has failed and no [front]/[pop_front] hit an empty deque; and
    whenever the mutex is free, what was put is exactly what left the queue
    followed by what is in it: first in first out, nothing lost, duplicated or
    reordered. *)
Theorem BlockingQueue_fifo {T} (progs : gmap tid_t (list (call T))) s :
  rtc step (start progs) s ->
  crashed s = None /\
  (owner s = None -> pushed (data s) = (gone (data s)).*2 ++ queue_ (data s)).
Proof.
  intros Hr%queue_good. split; [apply (good_live _ _ Hr)|]. intros Ho.
  apply (good_free _ _ Hr Ho).
Qed.

(** [holder_] tells the truth inside the critical section. At every point
    of every interleaving of queue programs, if [IsLockedByThisThread()] is
    true in a thread, that thread owns the pthread mutex; so the calls that
    hold the lock exclude each other. *)
Theorem IsLockedByThisThread_sound {T} (progs : gmap tid_t (list (call T))) s t th :
  rtc step (start progs) s -> threads s !! t = Some th -> t <> 0 ->
  IsLockedByThisThread s t = true -> owner s = Some t.
Proof. intros Hr%queue_good. by apply (good_holder fifo). Qed.

(** ** Witnesses *)
Definition demo {T} (x y : T) : gmap tid_t (list (call T)) :=
  {[1 := [CTake]; 2 := [CTake]; 3 := [CPutAll [x; y]]]}.

(** Both takers go to sleep, [putAll] wakes the first, which takes [x]. *)
Definition demo_schedule : list (tid_t * choice) :=
  replicate 5 (1, NoChoice) ++ replicate 5 (2, NoChoice) ++
  replicate 3 (3, NoChoice) ++ [(3, Wake 1)] ++ replicate 2 (3, NoChoice) ++
  replicate 9 (1, NoChoice).

Definition demo_end {T} (x y : T) : system (bq T) (locals T) :=
  match run (start (demo x y)) demo_schedule with Some s => s | None => start (demo x y) end.

Lemma demo_reachable {T} (x y : T) : rtc step (start (demo x y)) (demo_end x y).
Proof. apply (run_rtc _ demo_schedule). vm_compute. reflexivity. Qed.

Lemma BlockingQueue_fifo_witness :
  rtc step (start (demo 10 20)) (demo_end 10 20) /\
  owner (demo_end 10 20) = None /\
  pushed (data (demo_end 10 20)) = (gone (data (demo_end 10 20))).*2 ++ queue_ (data (demo_end 10 20)).
Proof.
  split; [apply demo_reachable | split; [vm_compute; reflexivity|]].
  apply (BlockingQueue_fifo (demo 10 20) (demo_end 10 20) (demo_reachable 10 20)).
  vm_compute. reflexivity.
Defined.

(** Thread 1 has locked and assigned the holder. *)
Definition demo_inside : system (bq Z) (locals Z) :=
  match run (start (demo 10 20)) (replicate 2 (1, NoChoice)) with
  | Some s => s | None => start (demo 10 20) end.
Lemma demo_inside_reachable : rtc step (start (demo 10 20)) demo_inside.
Proof. apply (run_rtc _ (replicate 2 (1, NoChoice))). vm_compute. reflexivity. Qed.

Lemma IsLockedByThisThread_sound_witness :
  IsLockedByThisThread demo_inside 1 = true /\ owner demo_inside = Some 1.
Proof.
  split; [vm_compute; reflexivity|].
  eapply (IsLockedByThisThread_sound (demo 10 20) demo_inside 1 _ demo_inside_reachable);
    [vm_compute; reflexivity | discriminate | vm_compute; reflexivity].
Defined.

(** [putAll] can leave a taker asleep beside a non-empty queue. It calls
    [Notify] once for the whole batch: with two takers asleep and a batch of
    two, one schedule ends with every other thread finished, the mutex free,
    the second element in the queue, and the second taker blocked in
    [pthread_cond_wait] with nobody left to signal it. *)
Theorem putAll_wakes_only_one {T} (x y : T) :
  exists s, rtc step (start (demo x y)) s /\
    owner s = None /\ queue_ (data s) = [y] /\
    (code <$> threads s !! 1) = Some [] /\ (code <$> threads s !! 3) = Some [] /\
    (asleep_on notEmpty_ <$> threads s !! 2) = Some true /\
    (received ∘ local <$> threads s !! 1) = Some [x].
Proof.
  exists (demo_end x y). split; [apply demo_reachable|]. vm_compute. split_and!; reflexivity.
Qed.
