(* ===== verification/BoundedQueue.v ===== *)
(** * [muduo::BoundedBlockingQueue<T>]
      ([3rd_party/muduo/muduo/base/BoundedBlockingQueue.h])

    A ring buffer of fixed capacity behind a mutex and two conditions. The
    mutex, guards and conditions of the base library have the structure of
    those of [Monitor]. *)
From S2P Require Import Prelude Monitor.

Section bounded.
Context {T : Type} (maxSize : nat).

(** [boost::circular_buffer]: [push_back] into a full buffer overwrites the
    oldest element. [bpushed] and [btaken] are ghost state. *)
Record ring := mkRing { bqueue_ : list T; bpushed : list T; btaken : list T }.
Record blocals := mkBLocals { bfront : option T; bresult : Z; breceived : list T }.
Abbreviation instr := (instr ring blocals).

Definition c_notEmpty : nat := 0.
Definition c_notFull : nat := 1.
Definition ring_full (d : ring) : bool := (length (bqueue_ d) =? maxSize)%nat.
Definition ring_empty (d : ring) : bool := match bqueue_ d with [] => true | _ => false end.

Definition ring_push (x : T) : instr := Act (fun d l =>
  if ring_full d then Ok (mkRing (tail (bqueue_ d ++ [x])) (bpushed d ++ [x]) (btaken d), l)
  else Ok (mkRing (bqueue_ d ++ [x]) (bpushed d ++ [x]) (btaken d), l)).
Definition bassert (b : ring -> bool) : instr := Act (fun d l => assert_ (b d);; Ok (d, l)).
Definition ring_front : instr := Act (fun d l =>
  match bqueue_ d with
  | x :: _ => Ok (d, mkBLocals (Some x) (bresult l) (breceived l))
  | [] => Fail FBounds
  end).
Definition ring_pop : instr := Act (fun d l =>
  match bqueue_ d with
  | x :: q => Ok (mkRing q (bpushed d) (btaken d ++ [x]), l)
  | [] => Fail FBounds
  end).
Definition bread (f : ring -> Z) : instr := Act (fun d l => Ok (d, mkBLocals (bfront l) (f d) (breceived l))).

Definition bput (x : T) : list instr :=
  MutexLockGuard_ctor ++
  [While ring_full (Condition_Wait c_notFull); bassert (fun d => negb (ring_full d)); ring_push x] ++
  Condition_Notify c_notEmpty ++ MutexLockGuard_dtor.
Definition btake : list instr :=
  MutexLockGuard_ctor ++
  [While ring_empty (Condition_Wait c_notEmpty); bassert (fun d => negb (ring_empty d)); ring_front; ring_pop] ++
  Condition_Notify c_notFull ++ MutexLockGuard_dtor.
Definition bempty : list instr :=
  MutexLockGuard_ctor ++ [bread (fun d => if ring_empty d then 1 else 0)] ++ MutexLockGuard_dtor.
Definition bfull : list instr :=
  MutexLockGuard_ctor ++ [bread (fun d => if ring_full d then 1 else 0)] ++ MutexLockGuard_dtor.
Definition bsize : list instr :=
  MutexLockGuard_ctor ++ [bread (fun d => zlen (bqueue_ d))] ++ MutexLockGuard_dtor.
Definition bcapacity : list instr :=
  MutexLockGuard_ctor ++ [bread (fun _ => Z.of_nat maxSize)] ++ MutexLockGuard_dtor.

Inductive bcall := BPut (x : T) | BTake | BEmpty | BFull | BSize | BCapacity.
(** A caller of [take] keeps the value. *)
Definition bkeep (l : blocals) : blocals := mkBLocals None (bresult l) (breceived l ++ option_list (bfront l)).
Definition bcall_code (c : bcall) : list instr :=
  match c with
  | BPut x => bput x
  | BTake => btake ++ [Local bkeep]
  | BEmpty => bempty
  | BFull => bfull
  | BSize => bsize
  | BCapacity => bcapacity
  end.
Definition bprogram (cs : list bcall) : list instr := concat (bcall_code <$> cs).
Definition bstart (progs : gmap tid_t (list bcall)) : system ring blocals :=
  mkSystem None 0 (mkRing [] [] []) ((fun cs => mkThread (bprogram cs) (mkBLocals None 0 [])) <$> progs) None.

(** ** Invariant *)
Definition bounded (d : ring) : Prop := bpushed d = btaken d ++ bqueue_ d /\ (length (bqueue_ d) <= maxSize)%nat.
Definition bsafe_from (k : list instr) (l : blocals) : Prop := forall n d, safe bounded n Free k d l.

Lemma bsafe_put x k l : bsafe_from k l -> bsafe_from (bput x ++ k) l.
Proof.
  intros Hk n d. unfold bput. rewrite <- !app_assoc. apply safe_ctor. intros d1 m1 _ HI1.
  apply safe_wait_loop; [done|]. intros d2 m2 _ [Hp Hl] Hf. eapply safe_act; [by rewrite Hf|]. intros m3 _.
  eapply safe_act; [by rewrite Hf|]. intros m4 _. apply safe_notify. intros m5 _. apply safe_dtor; [|intros; apply Hk].
  apply Nat.eqb_neq in Hf. split; cbn; [by rewrite Hp, app_assoc | rewrite length_app; cbn; lia].
Qed.

Lemma bsafe_take k l : (forall x, bsafe_from k (mkBLocals (Some x) (bresult l) (breceived l))) -> bsafe_from (btake ++ k) l.
Proof.
  intros Hk n d. unfold btake. rewrite <- !app_assoc. apply safe_ctor. intros d1 m1 _ HI1.
  apply safe_wait_loop; [done|]. intros d2 m2 _ [Hp Hl] Hf. unfold ring_empty in Hf. destruct (bqueue_ d2) as [|x q] eqn:E; [done|].
  eapply safe_act; [unfold ring_empty; by rewrite E|]. intros m3 _. eapply safe_act; [by rewrite E|]. intros m4 _.
  eapply safe_act; [by rewrite E|]. intros m5 _. apply safe_notify. intros m6 _. apply safe_dtor; [|intros; apply Hk].
  split; cbn in *; [by rewrite Hp, <- app_assoc | lia].
Qed.

Lemma bsafe_read f k l : (forall z, bsafe_from k (mkBLocals (bfront l) z (breceived l))) ->
  bsafe_from ((MutexLockGuard_ctor ++ [bread f] ++ MutexLockGuard_dtor) ++ k) l.
Proof.
  intros Hk n d. rewrite <- !app_assoc. apply safe_ctor. intros d1 m1 _ HI1. eapply safe_act; [done|]. intros m2 _.
  apply safe_dtor; [done|]. intros; apply Hk.
Qed.

Lemma bsafe_program cs l : bsafe_from (bprogram cs) l.
Proof.
  revert l. induction cs as [|c cs IH]; intros l; [intros n d; apply safe_nil|].
  change (bprogram (c :: cs)) with (bcall_code c ++ bprogram cs). destruct c; cbn [bcall_code]; try (apply bsafe_read; intros z; apply IH).
  - by apply bsafe_put.
  - rewrite <- app_assoc. apply bsafe_take. intros x. intros n d. apply (safe_local (I := bounded)). apply IH.
Qed.

Lemma bounded_good progs s : rtc step (bstart progs) s -> good bounded s.
Proof.
  apply monitor_sound; [done | done | done | split; [done | cbn; lia]|].
  intros t th. cbn. rewrite lookup_fmap, fmap_Some. intros (cs & _ & ->) d n. by apply bsafe_program.
Qed.
End bounded.
Arguments ring T : clear implicits.
Arguments blocals T : clear implicits.
Arguments bcall T : clear implicits.

(** C39: under every interleaving of any number of producers and consumers, no
    assertion of the bounded queue fails; whenever the mutex is free it holds at
    most [maxSize] elements, and nothing was overwritten, lost or reordered:
    what was put is what was taken followed by what is in the buffer. *)
Theorem BoundedBlockingQueue_bounded {T} (maxSize : nat) (progs : gmap tid_t (list (bcall T))) s :
  rtc step (bstart maxSize progs) s ->
  crashed s = None /\
  (owner s = None -> (length (bqueue_ (data s)) <= maxSize)%nat /\ bpushed (data s) = btaken (data s) ++ bqueue_ (data s)).
Proof.
  intros Hr%bounded_good. split; [apply (good_live _ _ Hr)|]. intros Ho. destruct (good_free _ _ Hr Ho) as [[? ?] _]. done.
Qed.

(** A producer blocks on a full queue of one until the consumer has taken. *)
Definition bdemo : gmap tid_t (list (bcall Z)) := {[1 := [BPut 10; BPut 20]; 2 := [BTake]]}.
Definition bdemo_schedule : list (tid_t * choice) :=
  replicate 8 (1, NoChoice) ++ replicate 5 (1, NoChoice) ++ replicate 6 (2, NoChoice) ++ [(2, Wake 1)] ++ replicate 3 (2, NoChoice) ++ replicate 8 (1, NoChoice).
Definition bdemo_end : system (ring Z) (blocals Z) :=
  match run (bstart 1 bdemo) bdemo_schedule with Some s => s | None => bstart 1 bdemo end.
Lemma bdemo_reachable : rtc step (bstart 1 bdemo) bdemo_end.
Proof. apply (run_rtc _ bdemo_schedule). vm_compute. reflexivity. Qed.

Lemma BoundedBlockingQueue_bounded_witness :
  bqueue_ (data bdemo_end) = [20] /\ bpushed (data bdemo_end) = btaken (data bdemo_end) ++ bqueue_ (data bdemo_end).
Proof.
  split; [vm_compute; reflexivity|].
  apply (BoundedBlockingQueue_bounded 1 bdemo bdemo_end bdemo_reachable). vm_compute. reflexivity.
Defined.
