(* ===== verification/ThreadPool.v ===== *)
(** * [muduo::ThreadPool] ([3rd_party/muduo/muduo/base/ThreadPool.{h,cc}])

    A queue of tasks behind a mutex and two conditions, filled by [run] and
    emptied by worker threads, over the interleaving semantics of [Monitor].
    [running_] is read by the workers without the mutex, so that loop is a
    [While] outside the critical section. A task is a value [T]; running it
    records it in the worker's locals. [threads_] and [maxQueueSize_] do not
    change after [start], so they are arguments. Thread names, the init
    callback, exceptions of tasks and [join] are not modelled. *)
From S2P Require Import Prelude Monitor.

Section threadpool.
Context {T : Type} (maxQueueSize_ : Z) (nthreads : nat).

(** [tpushed] and [ttaken] are ghost state. *)
Record pool := mkTasks { queue_ : list T; running_ : bool; tpushed : list T; ttaken : list T }.
Record wlocals := mkWLocals { task : option T; executed : list T; wresult : Z }.
Abbreviation instr := (instr pool wlocals).

Definition notEmpty_ : nat := 0.
Definition notFull_ : nat := 1.

(** [isFull()]; its [assertLocked] holds wherever it is called below. *)
Definition isFull (d : pool) : bool := (0 <? maxQueueSize_) && (maxQueueSize_ <=? zlen (queue_ d)).
Definition is_empty (d : pool) : bool := match queue_ d with [] => true | _ => false end.

Definition tassert (b : pool -> bool) : instr := Act (fun d l => assert_ (b d);; Ok (d, l)).
Definition push_task (x : T) : instr := Act (fun d l =>
  Ok (mkTasks (queue_ d ++ [x]) (running_ d) (tpushed d ++ [x]) (ttaken d), l)).
Definition pop_task : instr := Act (fun d l =>
  match queue_ d with
  | x :: q => Ok (mkTasks q (running_ d) (tpushed d) (ttaken d ++ [x]), mkWLocals (Some x) (executed l) (wresult l))
  | [] => Fail FBounds
  end).
Definition set_stopped : instr := Act (fun d l =>
  Ok (mkTasks (queue_ d) false (tpushed d) (ttaken d), l)).
Definition read_size : instr := Act (fun d l =>
  Ok (d, mkWLocals (task l) (executed l) (zlen (queue_ d)))).

(** [if (task) task();] in a worker, and the task of [run] without threads. *)
Definition perform (l : wlocals) : wlocals := mkWLocals None (executed l ++ option_list (task l)) (wresult l).
Definition perform_now (x : T) (l : wlocals) : wlocals := mkWLocals (task l) (executed l ++ [x]) (wresult l).
Definition no_task (l : wlocals) : wlocals := mkWLocals None (executed l) (wresult l).

Definition run_task (x : T) : list instr :=
  if (nthreads =? 0)%nat then [Local (perform_now x)]
  else MutexLockGuard_ctor ++
       [While isFull (Condition_Wait notFull_); tassert (fun d => negb (isFull d)); push_task x] ++
       Condition_Notify notEmpty_ ++ MutexLockGuard_dtor.

Definition take : list instr :=
  MutexLockGuard_ctor ++
  [While (fun d => is_empty d && running_ d) (Condition_Wait notEmpty_); Local no_task;
   If (fun d => negb (is_empty d))
      (pop_task :: if 0 <? maxQueueSize_ then Condition_Notify notFull_ else [])] ++
  MutexLockGuard_dtor.

Definition runInThread : list instr := [While running_ (take ++ [Local perform])].

Definition stop : list instr :=
  MutexLockGuard_ctor ++ [set_stopped] ++ Condition_NotifyAll notEmpty_ ++ MutexLockGuard_dtor.
Definition queueSize : list instr := MutexLockGuard_ctor ++ [read_size] ++ MutexLockGuard_dtor.

(** ** Programs: workers, and callers of the public methods *)
Inductive tcall := TRun (x : T) | TStop | TQueueSize.
Definition tcall_code (c : tcall) : list instr :=
  match c with TRun x => run_task x | TStop => stop | TQueueSize => queueSize end.
Inductive role := Worker | Caller (cs : list tcall).
Definition role_code (r : role) : list instr :=
  match r with Worker => runInThread | Caller cs => concat (tcall_code <$> cs) end.

(** After [start]: the queue is empty and the pool runs. *)
Definition tstart (roles : gmap tid_t role) : system pool wlocals :=
  mkSystem None 0 (mkTasks [] true [] [])
    ((fun r => mkThread (role_code r) (mkWLocals None [] 0)) <$> roles) None.

(** ** Invariant *)
Definition pool_inv (d : pool) : Prop :=
  tpushed d = ttaken d ++ queue_ d /\ (0 < maxQueueSize_ -> zlen (queue_ d) <= maxQueueSize_).

Lemma isFull_false d : isFull d = false -> 0 < maxQueueSize_ -> zlen (queue_ d) < maxQueueSize_.
Proof using. unfold isFull. intros [H|H]%andb_false_iff ?; unbool; lia. Qed.

Lemma safe_run_task n x k d l :
  (forall m d' l', (m <= n)%nat -> safe pool_inv m Free k d' l') -> safe pool_inv n Free (run_task x ++ k) d l.
Proof using.
  intros Hk. unfold run_task. destruct (nthreads =? 0)%nat.
  { destruct n as [|n]; [done|]. apply Hk. lia. }
  rewrite <- !app_assoc. apply safe_ctor. intros d1 m1 ? HI1.
  apply safe_wait_loop; [done|]. intros d2 m2 ? [Hp Hl] Hf. eapply safe_act; [by rewrite Hf|]. intros m3 ?.
  eapply safe_act; [done|]. intros m4 ?. apply safe_notify. intros m5 ?. apply safe_dtor; [|intros; apply Hk; lia].
  split; cbn; [by rewrite Hp, app_assoc|]. intros Hmax. pose proof (isFull_false _ Hf Hmax). zlen_lia.
Qed.

Lemma safe_take_task n k d l :
  (forall m d' l', (m <= n)%nat -> safe pool_inv m Free k d' l') -> safe pool_inv n Free (take ++ k) d l.
Proof using.
  intros Hk. unfold take. rewrite <- !app_assoc. apply safe_ctor. intros d1 m1 ? HI1.
  apply safe_wait_loop; [done|]. intros d2 m2 ? HI2 _. destruct m2 as [|m2]; [done|]. cbn [app safe].
  apply safe_if.
  - intros He m3 ?. unfold is_empty in He. destruct (queue_ d2) as [|x q] eqn:E; [done|].
    eapply safe_act; [by rewrite E|]. intros m4 ?. destruct HI2 as [Hp Hl]. rewrite E in *.
    assert (HI3 : pool_inv (mkTasks q (running_ d2) (tpushed d2) (ttaken d2 ++ [x]))).
    { split; cbn; [by rewrite Hp, <- app_assoc|]. intros Hmax. specialize (Hl Hmax). zlen_lia. }
    destruct (0 <? maxQueueSize_).
    + apply safe_notify. intros m5 ?. apply safe_dtor; [done | intros; apply Hk; lia].
    + apply safe_dtor; [done | intros; apply Hk; lia].
  - intros _ m3 ?. apply safe_dtor; [done | intros; apply Hk; lia].
Qed.

Lemma safe_role r n d l : safe pool_inv n Free (role_code r) d l.
Proof using.
  destruct r as [|cs]; cbn [role_code].
  - apply safe_free_loop; [|intros; by apply safe_nil]. intros m k d1 l1 Hk. rewrite <- app_assoc.
    apply safe_take_task. intros m2 d2 l2 ?. destruct m2 as [|m2]; [done|]. apply Hk. lia.
  - revert n d l. induction cs as [|c cs IH]; intros n d l; [by apply safe_nil|].
    cbn [fmap list_fmap concat]. destruct c; cbn [tcall_code].
    + apply safe_run_task. intros. apply IH.
    + unfold stop. rewrite <- !app_assoc. apply safe_ctor. intros d1 m1 _ [Hp Hl].
      eapply safe_act; [done|]. intros m2 _. apply safe_notify_all. intros m3 _.
      by apply safe_dtor; [split | intros; apply IH].
    + unfold queueSize. rewrite <- !app_assoc. apply safe_ctor. intros d1 m1 _ HI.
      eapply safe_act; [done|]. intros m2 _. apply safe_dtor; [done | intros; apply IH].
Qed.

Lemma pool_good roles s : rtc step (tstart roles) s -> good pool_inv s.
Proof using.
  apply monitor_sound; [done | done | done | split; [done | intros ?; cbn; zlen_lia]|].
  intros t th. cbn. rewrite lookup_fmap, fmap_Some. intros (r & _ & ->) d n. by apply safe_role.
Qed.
End threadpool.
Arguments pool T : clear implicits.
Arguments wlocals T : clear implicits.
Arguments tcall T : clear implicits.
Arguments role T : clear implicits.

(** Under every interleaving of any number of workers and callers, no
    assertion of the pool fails and the empty deque is never popped; whenever
    the mutex is free, tasks have been taken in the order they were put and
    none was lost or duplicated, and the queue respects [maxQueueSize_]. *)
Theorem ThreadPool_fifo {T} (maxQueueSize_ : Z) (nthreads : nat) (roles : gmap tid_t (role T)) s :
  rtc step (tstart maxQueueSize_ nthreads roles) s ->
  crashed s = None /\
  (owner s = None -> tpushed (data s) = ttaken (data s) ++ queue_ (data s) /\
     (0 < maxQueueSize_ -> zlen (queue_ (data s)) <= maxQueueSize_)).
Proof.
  intros Hr%pool_good. split; [apply (good_live _ _ Hr)|]. intros Ho.
  destruct (good_free _ _ Hr Ho) as [[? ?] _]. done.
Qed.

(** ** Examples *)
Module Example.
(** One worker, a bound of one, a producer of two tasks. *)
Definition roles : gmap tid_t (role Z) := {[1 := Worker; 2 := Caller [TRun 10; TRun 20]; 3 := Caller [TStop]]}.
Definition s0 : system (pool Z) (wlocals Z) := tstart 1 1 roles.

(** The producer fills the queue and waits; the worker takes a task, which wakes it. *)
Definition sched : list (tid_t * choice) :=
  replicate 8 (2, NoChoice) ++ replicate 5 (2, NoChoice) ++ replicate 7 (1, NoChoice) ++ [(1, Wake 2)] ++ replicate 3 (1, NoChoice).
Definition s1 : system (pool Z) (wlocals Z) := match run s0 sched with Some s => s | None => s0 end.
Lemma s1_reached : rtc step s0 s1.
Proof. apply (run_rtc _ sched). vm_compute. reflexivity. Qed.

Lemma ThreadPool_fifo_witness :
  ttaken (data s1) = [10] /\ tpushed (data s1) = ttaken (data s1) ++ queue_ (data s1).
Proof.
  split; [vm_compute; reflexivity|].
  apply (ThreadPool_fifo 1 1 roles s1 s1_reached). vm_compute. reflexivity.
Defined.

(** The producer waits for room; the pool is stopped before the worker looks at it. *)
Definition stop_sched : list (tid_t * choice) :=
  replicate 13 (2, NoChoice) ++ replicate 6 (3, NoChoice) ++ [(1, NoChoice)].
Definition stranded : system (pool Z) (wlocals Z) := match run s0 stop_sched with Some s => s | None => s0 end.

Lemma stranded_reached : rtc step s0 stranded.
Proof. apply (run_rtc _ stop_sched). vm_compute. reflexivity. Qed.

(** The producer in its wait loop: it can only wake up spuriously, find the
    queue full and wait again. *)
Abbreviation tinstr := (instr (pool Z) (wlocals Z)).
Definition rest : list tinstr :=
  [tassert (fun d => negb (isFull 1 d)); push_task 20] ++ Condition_Notify notEmpty_ ++ MutexLockGuard_dtor.
Definition loop : list tinstr := While (isFull 1) (Condition_Wait notFull_) :: rest.
Definition cycle : list (option tid_t * list tinstr) :=
  [(None, PCondAsleep notFull_ :: AssignHolder :: loop); (None, PMutexLock :: AssignHolder :: loop);
   (Some 2, AssignHolder :: loop); (Some 2, loop);
   (Some 2, UnassignHolder :: PCondWait notFull_ :: AssignHolder :: loop);
   (Some 2, PCondWait notFull_ :: AssignHolder :: loop)].

Definition l0 : wlocals Z := mkWLocals None [] 0.

Section waiting.
(** The threads when the producer is stranded: all others have finished. *)
Context (m : gmap tid_t (thread (pool Z) (wlocals Z))).
Hypothesis others_finished : map_Forall (fun t th => t = 2 \/ code th = []) m.

Record waiting (s : system (pool Z) (wlocals Z)) : Prop := {
  w_live : crashed s = None;
  w_data : data s = mkTasks [10] false [10] [];
  w_code : exists c, In (owner s, c) cycle /\ threads s = <[2 := mkThread c l0]> m;
}.

Lemma waiting_step s s' : waiting s -> step s s' -> waiting s'.
Proof using others_finished.
  intros [Hl Hd (c & Hc & Ht)] (t & ch & He).
  assert (Hgoal : forall o h c', In (o, c') cycle ->
    waiting (mkSystem o h (mkTasks [10] false [10] []) (<[2 := mkThread c' l0]> m) None)).
  { intros o h c' Hin. split; [done | done|]. by exists c'. }
  unfold exec in He. rewrite Hl, Ht, lookup_insert in He. case_decide as E; [subst t|].
  2: { destruct (m !! t) as [[k l]|] eqn:Et; [|done].
       destruct (others_finished t _ Et) as [?|Hk]; [congruence|]. cbn in Hk. by subst k. }
  destruct s as [o h d th cr]. cbn in *. subst.
  repeat (destruct Hc as [[= <- <-]|Hc]; [|]); try done;
    cbn in He; injection He as <-; rewrite insert_insert_eq; apply Hgoal; cbn; tauto.
Qed.

Lemma waiting_forever s s' : waiting s -> rtc step s s' ->
  exists th, threads s' !! 2 = Some th /\ code th <> [] /\ queue_ (data s') = [10].
Proof using others_finished.
  intros Hw Hr. assert (waiting s') as [_ Hd (c & Hc & Ht)] by (eapply rtc_invariant; [apply waiting_step | exact Hr | done]).
  exists (mkThread c l0). rewrite Ht, lookup_insert_eq, Hd. split_and!; [done | | done].
  cbn in *. repeat (destruct Hc as [[= _ <-]|Hc]; [done|]). done.
Qed.
End waiting.

(** [stop] leaves producers behind. A thread that waits in [run] for room is
    not woken by [stop], which notifies [notEmpty_] only, and its loop does not
    look at [running_]: from the state [stranded], which a pool with one worker
    reaches, every continuation has the producer still inside [run], and the
    task that is queued is never executed. *)
Theorem ThreadPool_stop_strands_producer s : rtc step stranded s ->
  exists th, threads s !! 2 = Some th /\ code th <> [] /\ queue_ (data s) = [10].
Proof.
  apply (waiting_forever {[1 := mkThread [] l0; 3 := mkThread [] l0]}).
  - intros t th. rewrite lookup_insert_Some, lookup_singleton_Some. intros [[_ <-]|[_ [_ <-]]]; by right.
  - split; [vm_compute; reflexivity..|]. eexists. split; [left; reflexivity | vm_compute; reflexivity].
Qed.

Lemma ThreadPool_stop_strands_producer_witness :
  exists th, threads stranded !! 2 = Some th /\ code th <> [] /\ queue_ (data stranded) = [10].
Proof. apply (ThreadPool_stop_strands_producer stranded). constructor. Defined.
End Example.
