(* ===== verification/RWLock.v ===== *)
(** * Reader/writer locks ([src/common/base/rwlock.h]) and
      [common::RWLockQueue<T>] ([src/common/base/rwlock_queue.h])

    Same interleaving semantics as [Monitor], for [pthread_rwlock_t]: any
    number of readers or one writer. [RWLockQueue::take] and [takeAll] change
    the queue under the read lock, so their correctness depends on which
    threads call what; both sides are theorems here. Every instruction is one
    step; two threads that are about to access the same object, one of them to
    change it, are a [data_race], and nothing is promised of a program that has
    one. *)
From S2P Require Import Prelude Monitor.

#[warnings="-register-all"]
Inductive rinstr (D L : Type) :=
  | PRdLock | PWrLock              (** [pthread_rwlock_rdlock], [_wrlock] *)
  | PTimedRdLock | PTimedWrLock    (** with [assert(ret == 0)] on the result *)
  | PRwUnlock
  | RAssignHolder                  (** [holder_ = CurrentThread::tid()] *)
  | RUnassignHolder                (** [holder_ = 0] *)
  | RAssertHolderFree              (** [assert(holder_ == 0)] *)
  | RDestroyLoop (again : list (rinstr D L))
      (** [while ((ret = pthread_rwlock_destroy(..)) == EBUSY) again; assert(ret == 0)] *)
  | RAct (write : bool) (f : D -> L -> res (D * L))  (** an access to the data *)
  | RLocal (g : L -> L).
Arguments PRdLock {D L}.
Arguments PWrLock {D L}.
Arguments PTimedRdLock {D L}.
Arguments PTimedWrLock {D L}.
Arguments PRwUnlock {D L}.
Arguments RAssignHolder {D L}.
Arguments RUnassignHolder {D L}.
Arguments RAssertHolderFree {D L}.
Arguments RDestroyLoop {D L} again.
Arguments RAct {D L} write f.
Arguments RLocal {D L} g.

(** ** [RWLock] and its guards *)
Section methods.
Context {D L : Type}.
Abbreviation rcode := (list (rinstr D L)).

Definition RWLock_rdlock : rcode := [PRdLock; RAssignHolder].
Definition RWLock_wrlock : rcode := [PWrLock; RAssignHolder].
Definition RWLock_unlock : rcode := [RUnassignHolder; PRwUnlock].
Definition RWLock_timed_rdlock : rcode := [PTimedRdLock; RAssignHolder].
Definition RWLock_timed_wrlock : rcode := [PTimedWrLock; RAssignHolder].
Definition RWLock_dtor : rcode :=
  [RAssertHolderFree; RDestroyLoop (RWLock_wrlock ++ RWLock_unlock)].

Definition RWLockReadGuard_ctor : rcode := RWLock_rdlock.
Definition RWLockReadGuard_dtor : rcode := RWLock_unlock.
Definition RWLockWriteGuard_ctor : rcode := RWLock_wrlock.
Definition RWLockWriteGuard_dtor : rcode := RWLock_unlock.
Definition RWLockTimedReadGuard_ctor : rcode := RWLock_timed_rdlock.
Definition RWLockTimedReadGuard_dtor : rcode := RWLock_unlock.
Definition RWLockTimedWriteGuard_ctor : rcode := RWLock_timed_wrlock.
Definition RWLockTimedWriteGuard_dtor : rcode := RWLock_unlock.
End methods.

(** ** States and steps *)
Record rthread D L := mkRThread { rcode : list (rinstr D L); rlocal : L }.
Arguments mkRThread {D L} rcode rlocal.
Arguments rcode {D L} r.
Arguments rlocal {D L} r.

Record rsystem D L := mkRSystem {
  readers : list tid_t;
  writer : option tid_t;
  rholder_ : tid_t;
  rdata : D;
  rthreads : gmap tid_t (rthread D L);
  rcrashed : option fault;
}.
Arguments mkRSystem {D L} readers writer rholder_ rdata rthreads rcrashed.
Arguments readers {D L} r.
Arguments writer {D L} r.
Arguments rholder_ {D L} r.
Arguments rdata {D L} r.
Arguments rthreads {D L} r.
Arguments rcrashed {D L} r.

(** Remove one occurrence. *)
Fixpoint remove_one (t : tid_t) (l : list tid_t) : list tid_t :=
  match l with
  | [] => []
  | x :: l => if decide (x = t) then l else x :: remove_one t l
  end.

Section semantics.
Context {D L : Type}.
Abbreviation rsystem := (rsystem D L).

(** [IsLockedByThisThread] of [RWLock]. *)
Definition RWLock_IsLockedByThisThread (s : rsystem) (t : tid_t) : bool := rholder_ s =? t.

Definition rcrash (s : rsystem) (f : fault) : rsystem :=
  mkRSystem (readers s) (writer s) (rholder_ s) (rdata s) (rthreads s) (Some f).

(** The lock is free for a reader, for a writer. *)
Definition can_read (s : rsystem) : bool := match writer s with None => true | _ => false end.
Definition can_write (s : rsystem) : bool :=
  match writer s, readers s with None, [] => true | _, _ => false end.

Definition rexec (s : rsystem) (t : tid_t) (timeout : bool) : option rsystem :=
  match rcrashed s, rthreads s !! t with
  | None, Some (mkRThread (i :: k) l) =>
      let go r w h d l' k' := Some (mkRSystem r w h d (<[t := mkRThread k' l']> (rthreads s)) None) in
      let stay := fun k' => go (readers s) (writer s) (rholder_ s) (rdata s) l k' in
      match i with
      | PRdLock => if can_read s then go (t :: readers s) None (rholder_ s) (rdata s) l k else None
      | PWrLock => if can_write s then go [] (Some t) (rholder_ s) (rdata s) l k else None
      | PTimedRdLock =>
          if can_read s then go (t :: readers s) None (rholder_ s) (rdata s) l k
          else if timeout then Some (rcrash s FAssert) else None
      | PTimedWrLock =>
          if can_write s then go [] (Some t) (rholder_ s) (rdata s) l k
          else if timeout then Some (rcrash s FAssert) else None
      | PRwUnlock =>
          if decide (writer s = Some t) then go (readers s) None (rholder_ s) (rdata s) l k
          else if decide (t ∈ readers s)
          then go (remove_one t (readers s)) (writer s) (rholder_ s) (rdata s) l k
          else Some (rcrash s FBounds)
      | RAssignHolder => go (readers s) (writer s) t (rdata s) l k
      | RUnassignHolder => go (readers s) (writer s) 0 (rdata s) l k
      | RAssertHolderFree => if rholder_ s =? 0 then stay k else Some (rcrash s FAssert)
      | RDestroyLoop again => if can_write s then stay k else stay (again ++ RDestroyLoop again :: k)
      | RAct _ f =>
          match f (rdata s) l with
          | Ok (d, l') => go (readers s) (writer s) (rholder_ s) d l' k
          | Fail e => Some (rcrash s e)
          end
      | RLocal g => go (readers s) (writer s) (rholder_ s) (rdata s) (g l) k
      end
  | _, _ => None
  end.

(** Two accesses to the data, or to [holder_], one of them a write. *)
Definition conflict (i i' : rinstr D L) : bool :=
  match i, i' with
  | RAct w _, RAct w' _ => w || w'
  | (RAssignHolder | RUnassignHolder), (RAssignHolder | RUnassignHolder | RAssertHolderFree)
  | RAssertHolderFree, (RAssignHolder | RUnassignHolder) => true
  | _, _ => false
  end.
Definition data_race (s : rsystem) : Prop :=
  exists t t' i i' k k' l l', t <> t' /\ rthreads s !! t = Some (mkRThread (i :: k) l) /\
    rthreads s !! t' = Some (mkRThread (i' :: k') l') /\ conflict i i' = true.

(** Steps without a 30 second timeout, and all steps. *)
Definition rstep_in_time (s s' : rsystem) : Prop := exists t, rexec s t false = Some s'.
Definition rstep (s s' : rsystem) : Prop := exists t timeout, rexec s t timeout = Some s'.

Fixpoint rrun (s : rsystem) (sched : list tid_t) : option rsystem :=
  match sched with
  | [] => Some s
  | t :: sched => s' ← rexec s t false; rrun s' sched
  end.

Lemma rrun_rtc s sched s' : rrun s sched = Some s' -> rtc rstep_in_time s s'.
Proof.
  revert s. induction sched as [|t sched IH]; cbn; intros s H; [by simplify_eq|].
  apply bind_Some in H as (s1 & H1 & H2). eapply rtc_l; [by exists t | by apply IH].
Qed.
End semantics.

(** ** [RWLockQueue] *)
Section queue.
Context {T : Type}.

Record rq := mkRq { rqueue_ : list T; rpushed : list T; rgone : list (bool * T) }.
Record rlocals := mkRLocals { rfront : option T; remptyQueue : list T; rresult : Z; rreceived : list T }.
Abbreviation rinstr := (rinstr rq rlocals).

Definition rq_empty (d : rq) : bool := match rqueue_ d with [] => true | _ => false end.

Definition rpush_back (xs : list T) : rinstr := RAct true (fun d l =>
  Ok (mkRq (rqueue_ d ++ xs) (rpushed d ++ xs) (rgone d), l)).
Definition rassert_nonempty : rinstr := RAct false (fun d l => assert_ (negb (rq_empty d));; Ok (d, l)).
Definition rread_front : rinstr := RAct false (fun d l =>
  match rqueue_ d with
  | x :: _ => Ok (d, mkRLocals (Some x) (remptyQueue l) (rresult l) (rreceived l))
  | [] => Fail FBounds
  end).
Definition rpop_front : rinstr := RAct true (fun d l =>
  match rqueue_ d with
  | x :: q => Ok (mkRq q (rpushed d) (rgone d ++ [(true, x)]), l)
  | [] => Fail FBounds
  end).
Definition rassert_takeAll : rinstr := RAct false (fun d l =>
  assert_ (match remptyQueue l with [] => true | _ => false end);; Ok (d, l)).
Definition rswap_out : rinstr := RAct true (fun d l =>
  Ok (mkRq (remptyQueue l) (rpushed d) (rgone d ++ ((fun x => (true, x)) <$> rqueue_ d)),
      mkRLocals (rfront l) (rqueue_ d) (rresult l) (rreceived l))).
Definition rread_size : rinstr := RAct false (fun d l =>
  Ok (d, mkRLocals (rfront l) (remptyQueue l) (Z.of_nat (length (rqueue_ d))) (rreceived l))).
Definition rswap_clear : rinstr := RAct true (fun d l =>
  Ok (mkRq [] (rpushed d) (rgone d ++ ((fun x => (false, x)) <$> rqueue_ d)), l)).

Definition rput (x : T) : list rinstr :=
  RWLockTimedWriteGuard_ctor ++ [rpush_back [x]] ++ RWLockTimedWriteGuard_dtor.
Definition rputAll (dataQueue : list T) : list rinstr :=
  RWLockTimedWriteGuard_ctor ++ [rpush_back dataQueue] ++ RWLockTimedWriteGuard_dtor.
Definition rtake : list rinstr :=
  RWLockTimedReadGuard_ctor ++ [rassert_nonempty; rread_front; rpop_front] ++ RWLockTimedReadGuard_dtor.
Definition rtakeAll : list rinstr :=
  RWLockTimedReadGuard_ctor ++ [rassert_takeAll; rswap_out] ++ RWLockTimedReadGuard_dtor.
Definition rsize : list rinstr :=
  RWLockTimedReadGuard_ctor ++ [rread_size] ++ RWLockTimedReadGuard_dtor.
Definition rempty : list rinstr := [RAct false (fun d l =>
  Ok (d, mkRLocals (rfront l) (remptyQueue l) (if rq_empty d then 1 else 0) (rreceived l)))].
Definition rclearAll : list rinstr :=
  RWLockTimedWriteGuard_ctor ++ [rswap_clear] ++ RWLockTimedWriteGuard_dtor.

Inductive rcall := RPut (x : T) | RPutAll (xs : list T) | RTake | RTakeAll | RSize | RClearAll.

Definition rkeep_front (l : rlocals) : rlocals :=
  mkRLocals None (remptyQueue l) (rresult l) (rreceived l ++ option_list (rfront l)).
Definition rkeep_all (l : rlocals) : rlocals :=
  mkRLocals (rfront l) [] (rresult l) (rreceived l ++ remptyQueue l).

Definition rcall_code (c : rcall) : list rinstr :=
  match c with
  | RPut x => rput x
  | RPutAll xs => rputAll xs
  | RTake => rtake ++ [RLocal rkeep_front]
  | RTakeAll => rtakeAll ++ [RLocal rkeep_all]
  | RSize => rsize
  | RClearAll => rclearAll
  end.

Definition rprogram (cs : list rcall) : list rinstr := concat (rcall_code <$> cs).
Definition rno_locals : rlocals := mkRLocals None [] 0 [].

Definition rstart (progs : gmap tid_t (list rcall)) : rsystem rq rlocals :=
  mkRSystem [] None 0 (mkRq [] [] [])
    ((fun cs => mkRThread (rprogram cs) rno_locals) <$> progs) None.
End queue.
Arguments rq T : clear implicits.
Arguments rlocals T : clear implicits.
Arguments rcall T : clear implicits.

(** ** A logic for one consumer

    [cons] is the only thread that takes the read lock. While it holds it there
    is no writer and no other reader, so it is as exclusive as a writer. *)
Inductive rw_state := RFree | RReading | RWriting.

Section logic.
Context {D L : Type} (I : D -> Prop).

Fixpoint rsafe (n : nat) (cons : bool) (st : rw_state) (c : list (rinstr D L)) (d : D) (l : L) : Prop :=
  match n with
  | O => True
  | S n =>
    match c with
    | [] => st = RFree
    | i :: k =>
      match i, st with
      | (PRdLock | PTimedRdLock), RFree => cons = true /\ forall d', I d' -> rsafe n cons RReading k d' l
      | (PWrLock | PTimedWrLock), RFree => forall d', I d' -> rsafe n cons RWriting k d' l
      | PRwUnlock, RWriting => I d /\ rsafe n cons RFree k d l
      | PRwUnlock, RReading => I d /\ rsafe n cons RFree k d l
      | (RAssignHolder | RUnassignHolder), (RReading | RWriting) => rsafe n cons st k d l
      | RAct _ f, (RReading | RWriting) => exists d' l', f d l = Ok (d', l') /\ rsafe n cons st k d' l'
      | RLocal g, _ => rsafe n cons st k d (g l)
      | _, _ => False
      end
    end
  end.

Lemma rsafe_shared_data n cons c d d' l : rsafe n cons RFree c d l -> rsafe n cons RFree c d' l.
Proof.
  revert c l. induction n as [|n IH]; intros c l; [done|]. destruct c as [|i k]; [done|]. destruct i; cbn; try done; apply IH.
Qed.
End logic.

Section soundness.
Context {D L : Type} (I : D -> Prop) (consumer : tid_t).

Definition is_cons (t : tid_t) : bool := bool_decide (t = consumer).

Definition rok_thread (r : list tid_t) (w : option tid_t) (d : D) (t : tid_t) (th : rthread D L) : Prop :=
  exists st, (forall n, rsafe I n (is_cons t) st (rcode th) d (rlocal th)) /\
    (w = Some t <-> st = RWriting) /\ (t ∈ r <-> st = RReading).

Record rgood (s : rsystem D L) : Prop := {
  rgood_live : rcrashed s = None;
  rgood_excl : forall t, writer s = Some t -> readers s = [];
  rgood_nodup : NoDup (readers s);
  rgood_readers : forall t, t ∈ readers s -> t = consumer;
  rgood_threads : map_Forall (rok_thread (readers s) (writer s) (rdata s)) (rthreads s);
  rgood_inv : writer s = None -> consumer ∉ readers s -> I (rdata s);
}.

Lemma elem_of_remove_one t x l : NoDup l -> t ∈ remove_one x l <-> t ∈ l /\ t <> x.
Proof.
  induction 1 as [|y l Hy Hl IH]; cbn; [set_solver|].
  destruct (decide (y = x)) as [->|Hne]; [|rewrite !elem_of_cons, IH; naive_solver].
  rewrite elem_of_cons. split; [|naive_solver]. intros Ht. split; [by right | by intros ->].
Qed.

Lemma NoDup_remove_one x l : NoDup l -> NoDup (remove_one x l).
Proof.
  induction 1 as [|y l Hy Hl IH]; cbn; [constructor|]. case_decide; [done|].
  constructor; [|done]. rewrite elem_of_remove_one by done. naive_solver.
Qed.

(** Threads other than [t] keep their state when [t] moves: either the data
    is unchanged, or nobody else relies on it. *)
Lemma rgood_update s t th r w h d :
  rgood s ->
  rok_thread r w d t th ->
  (forall t', t' <> t -> (w = Some t' <-> writer s = Some t') /\ (t' ∈ r <-> t' ∈ readers s)) ->
  (d = rdata s \/ forall t', t' <> t -> writer s <> Some t' /\ t' ∉ readers s) ->
  (forall t', w = Some t' -> r = []) -> NoDup r -> (forall t', t' ∈ r -> t' = consumer) ->
  (w = None -> consumer ∉ r -> I d) ->
  rgood (mkRSystem r w h d (<[t := th]> (rthreads s)) None).
Proof.
  intros Hg Hok Hsame Hd Hex Hnd Hrd Hinv. split; cbn; try done.
  intros t' th'. rewrite lookup_insert. case_decide as Hne; [by intros; simplify_eq|]. intros Ht'.
  destruct (rgood_threads _ Hg t' th' Ht') as (st & Hs & Hw & Hr).
  destruct (Hsame t' ltac:(done)) as [Hsw Hsr]. exists st. split_and!; [|by rewrite Hsw|by rewrite Hsr].
  destruct Hd as [->|Hd]; [done|]. destruct (Hd t' ltac:(done)) as [Hnw Hnr].
  assert (st = RFree) as -> by (destruct st; naive_solver). intros n. eapply rsafe_shared_data, Hs.
Qed.

Lemma rgood_no_writer s t : rgood s -> t ∈ readers s -> writer s = None.
Proof.
  intros Hg Ht. destruct (writer s) as [w|] eqn:Ew; [|done].
  rewrite (rgood_excl _ Hg w Ew) in Ht. by apply not_elem_of_nil in Ht.
Qed.

(** The lock has one owner, whichever way it was taken. *)
Definition owns (s : rsystem D L) (t : tid_t) : Prop := writer s = Some t \/ t ∈ readers s.
Lemma rgood_owner s t t' : rgood s -> owns s t -> owns s t' -> t = t'.
Proof.
  intros Hg [Hw|Hr] [Hw'|Hr']; [congruence | | |].
  - by rewrite (rgood_no_writer s t' Hg Hr') in Hw.
  - by rewrite (rgood_no_writer s t Hg Hr) in Hw'.
  - by rewrite (rgood_readers _ Hg t Hr), (rgood_readers _ Hg t' Hr').
Qed.

(** [t] moves on and only its own code and locals change. *)
Lemma rgood_stay s t c l st h :
  rgood s -> (forall n, rsafe I n (is_cons t) st c (rdata s) l) ->
  (writer s = Some t <-> st = RWriting) -> (t ∈ readers s <-> st = RReading) ->
  rgood (mkRSystem (readers s) (writer s) h (rdata s) (<[t := mkRThread c l]> (rthreads s)) None).
Proof.
  intros Hg Hs Hw Hr. apply rgood_update; [done | by exists st | done | by left | apply Hg..].
Qed.

Lemma rgood_acquire_read s t c l h :
  rgood s -> writer s = None -> t ∉ readers s -> is_cons t = true ->
  (forall n d', I d' -> rsafe I n (is_cons t) RReading c d' l) ->
  rgood (mkRSystem (t :: readers s) None h (rdata s) (<[t := mkRThread c l]> (rthreads s)) None).
Proof.
  intros Hg Hw Ht Hc Hs. apply bool_decide_eq_true in Hc as Hc'. apply rgood_update; [done | | | by left | done | | | ].
  - exists RReading. split_and!; [|done | by split; [|left]]. intros n. apply Hs, (rgood_inv _ Hg Hw). by rewrite <- Hc'.
  - intros t' Hne. rewrite Hw, elem_of_cons. naive_solver.
  - constructor; [done | apply (rgood_nodup _ Hg)].
  - intros t' [->|Ht']%elem_of_cons; [done | by apply (rgood_readers _ Hg)].
  - intros _ Hc''. apply (rgood_inv _ Hg Hw). set_solver.
Qed.

Lemma rgood_acquire_write s t c l h :
  rgood s -> writer s = None -> readers s = [] ->
  (forall n d', I d' -> rsafe I n (is_cons t) RWriting c d' l) ->
  rgood (mkRSystem [] (Some t) h (rdata s) (<[t := mkRThread c l]> (rthreads s)) None).
Proof.
  intros Hg Hw Hr Hs.
  assert (HI : I (rdata s)) by (apply (rgood_inv _ Hg Hw); rewrite Hr; apply not_elem_of_nil).
  apply rgood_update; [done | | | by left | done | constructor | by intros t' ?%not_elem_of_nil | done].
  - exists RWriting. split_and!; [intros n; by apply Hs | done | ].
    split; [by intros ?%not_elem_of_nil | done].
  - intros t' Hne. rewrite Hw, Hr. split; [|done]. split; [congruence | done].
Qed.

Lemma rgood_release s t c l h :
  rgood s -> (forall n, rsafe I n (is_cons t) RFree c (rdata s) l) -> owns s t -> I (rdata s) ->
  rgood (mkRSystem (if decide (writer s = Some t) then readers s else remove_one t (readers s))
    (if decide (writer s = Some t) then None else writer s) h (rdata s)
    (<[t := mkRThread c l]> (rthreads s)) None).
Proof.
  intros Hg Hs Ho HI. pose proof (rgood_nodup _ Hg) as Hnd.
  assert (Hfree : forall r w, w <> Some t -> t ∉ r -> rok_thread r w (rdata s) t (mkRThread c l)).
  { intros r w H1 H2. exists RFree. split_and!; [done | by split | by split]. }
  destruct (decide (writer s = Some t)) as [Ew|Ew].
  - pose proof (rgood_excl _ Hg t Ew) as Er. apply rgood_update; [done | | | by left | done | done | apply Hg | done].
    + apply Hfree; [done|]. rewrite Er. apply not_elem_of_nil.
    + intros t' Hne. rewrite Ew. split; [|done]. split; congruence.
  - destruct Ho as [?|Ht]; [done|].
    apply rgood_update; [done | | | by left | | by apply NoDup_remove_one | | done].
    + apply Hfree; [done|]. rewrite elem_of_remove_one by done. naive_solver.
    + intros t' Hne. split; [done|]. rewrite elem_of_remove_one by done. naive_solver.
    + intros t' Ht'. by rewrite (rgood_no_writer s t Hg Ht) in Ht'.
    + intros t' [Ht' _]%elem_of_remove_one; [|done]. by apply (rgood_readers _ Hg).
Qed.

Lemma rgood_act s t c l st d h :
  rgood s -> st <> RFree -> (forall n, rsafe I n (is_cons t) st c d l) ->
  (writer s = Some t <-> st = RWriting) -> (t ∈ readers s <-> st = RReading) ->
  rgood (mkRSystem (readers s) (writer s) h d (<[t := mkRThread c l]> (rthreads s)) None).
Proof.
  intros Hg Hst Hs Hw Hr. assert (Ho : owns s t) by (destruct st; [done | right; by apply Hr | left; by apply Hw]).
  apply rgood_update; [done | by exists st | done | right | apply Hg..|].
  - intros t' Hne. split; intros H; apply Hne; apply (rgood_owner s); try done; [by left | by right].
  - intros Hn Hc. destruct Ho as [?|Ho]; [congruence|]. by rewrite (rgood_readers _ Hg t Ho) in Ho.
Qed.

Lemma rgood_step s s' : rgood s -> rstep_in_time s s' -> rgood s'.
Proof.
  intros Hg (t & He). unfold rexec in He. rewrite (rgood_live _ Hg) in He.
  destruct (rthreads s !! t) as [[[|i k] l]|] eqn:Ht; try done.
  pose proof (rgood_threads _ Hg t _ Ht) as (st & Hs & Hw & Hr). cbn in Hs.
  assert (Hn : forall n, rsafe I (S n) (is_cons t) st (i :: k) (rdata s) l) by (intros; apply Hs).
  pose proof (Hn 0%nat) as H1.
  assert (Hcr : can_read s = true -> writer s = None) by (unfold can_read; by destruct (writer s)).
  assert (Hcw : can_write s = true -> writer s = None /\ readers s = [])
    by (unfold can_write; by destruct (writer s), (readers s)).
  assert (Hnr : st = RFree -> t ∉ readers s) by (intros -> ?%Hr; done).
  assert (Ho : st <> RFree -> owns s t) by (destruct st; [done | right; by apply Hr | left; by apply Hw]).
  destruct i; cbn in H1, Hn.
  1, 3: destruct st; try done; destruct (can_read s); [|done]; injection He as <-;
    (apply rgood_acquire_read; [done | by auto | by auto | apply H1 | intros n; apply (Hn n)]).
  1, 2: destruct st; try done; destruct (can_write s); [|done]; injection He as <-;
    destruct Hcw as [? ?]; [done|]; (apply rgood_acquire_write; [done | done | done | exact Hn]).
  - (* PRwUnlock *)
    assert (Hst : st <> RFree) by (by intros ->).
    assert (HR : rgood (mkRSystem (if decide (writer s = Some t) then readers s else remove_one t (readers s))
      (if decide (writer s = Some t) then None else writer s) (rholder_ s) (rdata s) (<[t := mkRThread k l]> (rthreads s)) None)).
    { apply rgood_release; [done | | by apply Ho |]; destruct st; try done; [intros n; apply (Hn n).. | apply H1 | apply H1]. }
    destruct (decide (writer s = Some t)) as [Ew|Ew]; [by injection He as <-|].
    destruct (Ho Hst) as [?|Hin]; [done|]. rewrite decide_True in He by done. by injection He as <-.
  - injection He as <-. eapply (rgood_stay s t k l st); try done; by destruct st.
  - injection He as <-. eapply (rgood_stay s t k l st); try done; by destruct st.
  - done.
  - done.
  - (* RAct *)
    assert (HX : st <> RFree /\ exists d' l', f (rdata s) l = Ok (d', l') /\ forall n, rsafe I n (is_cons t) st k d' l').
    { destruct st; [done | |]; (split; [done|]); destruct H1 as (d' & l' & Hf & _); exists d', l'; (split; [done|]);
        intros n; destruct (Hn n) as (d2 & l2 & Hf2 & ?); rewrite Hf in Hf2; by simplify_eq. }
    destruct HX as (Hst & d' & l' & Hf & Hk). rewrite Hf in He. injection He as <-. by apply (rgood_act s t k l' st).
  - injection He as <-. by eapply (rgood_stay s t k (g l) st).
Qed.

(** Only an owner of the lock is about to access anything. *)
Lemma rgood_no_race s : rgood s -> ~ data_race s.
Proof.
  intros Hg (t & t' & i & i' & k & k' & l & l' & Hne & Ht & Ht' & Hc).
  assert (Hown : forall t i k l, rthreads s !! t = Some (mkRThread (i :: k) l) ->
    match i with RAct _ _ | RAssignHolder | RUnassignHolder | RAssertHolderFree => True | _ => False end -> owns s t).
  { clear -Hg. intros t i k l Ht Hi. pose proof (rgood_threads _ Hg t _ Ht) as (st & Hs & Hw & Hr). specialize (Hs 1%nat). cbn in Hs.
    destruct st; [destruct i; done | right; by apply Hr | left; by apply Hw]. }
  apply Hne, (rgood_owner s); [done | eapply Hown; [exact Ht|] | eapply Hown; [exact Ht'|]]; by destruct i, i'.
Qed.

Lemma rw_sound (s s' : rsystem D L) :
  rcrashed s = None -> writer s = None -> readers s = [] -> I (rdata s) ->
  map_Forall (fun t th => forall n d, rsafe I n (is_cons t) RFree (rcode th) d (rlocal th)) (rthreads s) ->
  rtc rstep_in_time s s' -> rgood s'.
Proof.
  intros Hc Hw Hr HI Hth Hstar. eapply rtc_invariant; [apply rgood_step | exact Hstar|].
  split; [done | congruence | rewrite Hr; constructor | rewrite Hr; by intros t ?%not_elem_of_nil | | done].
  intros t th Ht. exists RFree. rewrite Hw, Hr. split_and!; [intros n; by apply Hth | by split|].
  split; [by intros ?%not_elem_of_nil | done].
Qed.
End soundness.
