(* ===== verification/RWLockQueueProps.v ===== *)
(** * Properties of [common::RWLockQueue<T>]: one consumer, several consumers *)
From S2P Require Import Prelude Monitor RWLock.

Section one_consumer.
Context {T : Type} (consumer : tid_t).

Definition rfifo (d : rq T) : Prop := rpushed d = (rgone d).*2 ++ rqueue_ d.

Definition rsafe_from (cons : bool) (k : list (rinstr (rq T) (rlocals T))) (l : rlocals T) : Prop :=
  forall n d, rsafe rfifo n cons RFree k d l.

(** The calls a thread may make: only the consumer calls what takes the read
    lock. *)
Definition allowed (cons : bool) (c : rcall T) : bool :=
  match c with
  | RTake => false
  | RTakeAll | RSize => cons
  | _ => true
  end.

Lemma rfmap_snd_pair (b : bool) (q : list T) : ((fun x => (b, x)) <$> q).*2 = q.
Proof. induction q; cbn; congruence. Qed.

(** A write section with one access that keeps the invariant. *)
Lemma rsafe_write cons w f k l :
  (forall d, rfifo d -> exists d', f d l = Ok (d', l) /\ rfifo d') -> rsafe_from cons k l ->
  rsafe_from cons (RWLockTimedWriteGuard_ctor ++ [RAct w f] ++ RWLockTimedWriteGuard_dtor ++ k) l.
Proof.
  intros Hf Hk n d. destruct n as [|[|[|[|[|n]]]]]; cbn; try done.
  all: intros d' HI; destruct (Hf d' HI) as (d2 & Hd2 & HI2); exists d2, l; split; [done|]; try done;
    (split; [done | apply Hk]).
Qed.

Lemma rsafe_rput cons xs k l : rsafe_from cons k l -> rsafe_from cons (rputAll xs ++ k) l.
Proof.
  intros Hk. unfold rputAll. rewrite <- !app_assoc. apply rsafe_write; [|done].
  intros d HI. eexists. split; [done|]. unfold rfifo in *. cbn. by rewrite HI, app_assoc.
Qed.

Lemma rsafe_rclearAll cons k l : rsafe_from cons k l -> rsafe_from cons (rclearAll ++ k) l.
Proof.
  intros Hk. unfold rclearAll. rewrite <- !app_assoc. apply rsafe_write; [|done].
  intros d HI. eexists. split; [done|]. unfold rfifo in *. cbn.
  by rewrite app_nil_r, fmap_app, rfmap_snd_pair.
Qed.

Lemma rsafe_rsize k l :
  (forall z, rsafe_from true k (mkRLocals (rfront l) (remptyQueue l) z (rreceived l))) ->
  rsafe_from true (rsize ++ k) l.
Proof.
  intros Hk n d. unfold rsize. destruct n as [|[|[|n]]]; cbn; try done; split; try done.
  intros d' HI. eexists _, _. split; [done|]. destruct n as [|[|n]]; cbn; try done. split; [done | apply Hk].
Qed.

Lemma rsafe_rtakeAll k l : remptyQueue l = [] ->
  (forall q, rsafe_from true k (mkRLocals (rfront l) q (rresult l) (rreceived l))) ->
  rsafe_from true (rtakeAll ++ k) l.
Proof.
  intros He Hk n d. unfold rtakeAll. destruct n as [|[|[|n]]]; cbn; try done; split; try done.
  intros d' HI. rewrite He. eexists _, _. split; [done|]. destruct n as [|n]; cbn; [done|].
  eexists _, _. split; [done|]. destruct n as [|[|n]]; cbn; try done. split; [|apply Hk].
  unfold rfifo in *. cbn. by rewrite He, app_nil_r, fmap_app, rfmap_snd_pair.
Qed.

Lemma rsafe_program cons cs l : remptyQueue l = [] -> Forall (fun c => allowed cons c = true) cs ->
  rsafe_from cons (rprogram cs) l.
Proof.
  intros He Hcs. revert l He. induction Hcs as [|c cs Hc _ IH]; intros l He.
  { intros [|n] d; done. }
  change (rprogram (c :: cs)) with (rcall_code c ++ rprogram cs).
  destruct c; cbn [rcall_code]; cbn in Hc; try done.
  - apply (rsafe_rput _ [x]). by apply IH.
  - apply rsafe_rput. by apply IH.
  - subst cons. rewrite <- app_assoc. apply rsafe_rtakeAll; [done|]. intros q [|n] d; [done|].
    cbn. by apply IH.
  - subst cons. apply rsafe_rsize. intros z. by apply IH.
  - apply rsafe_rclearAll. by apply IH.
Qed.
End one_consumer.

(** C34: with one thread on the reading side the queue is correct. Any number
    of threads run [put], [putAll] and [clearAll], and one thread alone runs
    [takeAll] and [size], which only take the read lock: as long as no lock
    attempt runs into its 30 second limit, in every interleaving no assertion
    fails, there is no data race on the deque or on [holder_], readers and
    writer exclude each other, and whenever nobody writes and the consumer is
    outside, what was put is what left the queue followed by what is in it. *)
Theorem RWLockQueue_one_consumer {T} (consumer : tid_t) (progs : gmap tid_t (list (rcall T))) s :
  map_Forall (fun t cs => Forall (fun c => allowed (bool_decide (t = consumer)) c = true) cs) progs ->
  rtc rstep_in_time (rstart progs) s ->
  rcrashed s = None /\ ~ data_race s /\ (forall t, writer s = Some t -> readers s = []) /\
  (writer s = None -> consumer ∉ readers s ->
   rpushed (rdata s) = (rgone (rdata s)).*2 ++ rqueue_ (rdata s)).
Proof.
  intros Hp Hr. assert (Hg : rgood rfifo consumer s).
  { eapply rw_sound; [.. | exact Hr]; try done.
    intros t th. cbn. rewrite lookup_fmap, fmap_Some. intros (cs & Hcs & ->) n d.
    apply rsafe_program; [done|]. exact (Hp t cs Hcs). }
  split_and!; [apply (rgood_live _ _ _ Hg) | by eapply rgood_no_race | apply (rgood_excl _ _ _ Hg) | apply (rgood_inv _ _ _ Hg)].
Qed.

(** A second thread that only asks for the size races with the consumer: both
    hold the read lock, [takeAll] is about to swap the deque and [size] about to
    read it. *)
Example takeAll_races_with_size :
  exists s, rtc rstep_in_time (rstart (T := Z) {[1 := [RTakeAll]; 2 := [RSize]]}) s /\ data_race s.
Proof.
  destruct (rrun (rstart (T := Z) {[1 := [RTakeAll]; 2 := [RSize]]}) [1; 1; 1; 2; 2]) as [s|] eqn:Hrun; [|by vm_compute in Hrun].
  exists s. split; [by eapply rrun_rtc|]. vm_compute in Hrun. injection Hrun as <-.
  exists 1, 2. do 6 eexists. split_and!; [done | reflexivity | reflexivity | reflexivity].
Qed.

(** ** Several consumers *)
Definition rdemo {T} (xs : list T) : gmap tid_t (list (rcall T)) :=
  {[1 := [RTake]; 2 := [RTake]; 3 := [RPutAll xs]]}.

(** After the put, both takers pass the assertion and copy the front before
    either pops. *)
Definition race_schedule : list tid_t :=
  replicate 5 3 ++ replicate 4 1 ++ replicate 4 2 ++ replicate 4 1 ++ replicate 4 2.

(** [take] under the read lock delivers twice and loses. With elements
    [x], [y] put once and two threads in [take], one interleaving ends with
    both threads having received [x], the queue empty, and [y] delivered to
    nobody. *)
Theorem RWLockQueue_take_duplicates {T} (x y : T) :
  exists s, rtc rstep_in_time (rstart (rdemo [x; y])) s /\ rcrashed s = None /\
    (rreceived ∘ rlocal <$> rthreads s !! 1) = Some [x] /\
    (rreceived ∘ rlocal <$> rthreads s !! 2) = Some [x] /\
    rqueue_ (rdata s) = [] /\ rpushed (rdata s) = [x; y].
Proof.
  destruct (rrun (rstart (rdemo [x; y])) race_schedule) as [s|] eqn:Hrun; [|by vm_compute in Hrun].
  exists s. split; [by eapply rrun_rtc|]. vm_compute in Hrun. injection Hrun as <-.
  vm_compute. split_and!; reflexivity.
Qed.

(** ... and with a single element the second [pop_front] hits an empty
    deque, which is undefined behaviour. *)
Theorem RWLockQueue_take_pops_empty {T} (x : T) :
  exists s, rtc rstep_in_time (rstart (rdemo [x])) s /\ rcrashed s = Some FBounds.
Proof.
  destruct (rrun (rstart (rdemo [x])) (take 18 race_schedule)) as [s|] eqn:Hrun; [|by vm_compute in Hrun].
  exists s. split; [by eapply rrun_rtc|]. vm_compute in Hrun. by injection Hrun as <-.
Qed.

(** [holder_] of a reader/writer lock is unreliable. Two threads calling
    [size()] reach a state where the first holds the read lock, inside its
    critical section, and [IsLockedByThisThread()] is false for it, because
    the second one's [unlock] has cleared [holder_]; [AssertLocked()] would
    fail there. *)
Theorem RWLock_holder_lost {T} :
  exists s : rsystem (rq T) (rlocals T),
    rtc rstep_in_time (rstart {[1 := [RSize]; 2 := [RSize]]}) s /\
    1 ∈ readers s /\ RWLock_IsLockedByThisThread s 1 = false.
Proof.
  destruct (rrun (rstart (T := T) {[1 := [RSize]; 2 := [RSize]]}) (replicate 2 1 ++ replicate 5 2))
    as [s|] eqn:Hrun; [|by vm_compute in Hrun].
  exists s. split; [by eapply rrun_rtc|]. vm_compute in Hrun. injection Hrun as <-.
  split; [by left | done].
Qed.

(** ** Witness: a producer and the consumer *)
Definition rpair : gmap tid_t (list (rcall Z)) := {[1 := [RTakeAll]; 2 := [RPut 5; RPut 6]]}.
Definition rpair_end : rsystem (rq Z) (rlocals Z) :=
  match rrun (rstart rpair) (replicate 5 2 ++ replicate 7 1 ++ replicate 5 2) with
  | Some s => s | None => rstart rpair end.
Lemma rpair_reachable : rtc rstep_in_time (rstart rpair) rpair_end.
Proof. apply (rrun_rtc _ (replicate 5 2 ++ replicate 7 1 ++ replicate 5 2)). vm_compute. reflexivity. Qed.

Lemma RWLockQueue_one_consumer_witness :
  rqueue_ (rdata rpair_end) = [6] /\ ~ data_race rpair_end /\
  rpushed (rdata rpair_end) = (rgone (rdata rpair_end)).*2 ++ rqueue_ (rdata rpair_end).
Proof.
  split; [vm_compute; reflexivity|].
  destruct (RWLockQueue_one_consumer 1 rpair rpair_end) as (_ & Hn & _ & H).
  - apply map_Forall_insert_2; [vm_compute; repeat constructor|].
    apply map_Forall_singleton. vm_compute. repeat constructor.
  - exact rpair_reachable.
  - split; [exact Hn|]. apply H; [vm_compute; reflexivity|]. vm_compute. intros H'. inversion H'.
Defined.
