(* ===== verification/DoubleGuard.v ===== *)
(** * [MutexLockTimedDoubleGuard] ([src/common/base/mutex.h])

    The guard that takes two mutexes. Mutexes are their addresses; any number
    of threads run any sequence of guarded sections over any mutexes, each
    locking in the order the constructor chooses. *)
From S2P Require Import Prelude Monitor.

Definition addr := Z.

Inductive dinstr :=
  | DTimedLock (m : addr)         (** [MCHECK(pthread_mutex_timedlock(&m.mutex_, ..))] *)
  | DAssignHolder (m : addr)
  | DUnassignHolder (m : addr)
  | DUnlock (m : addr)            (** [MCHECK(pthread_mutex_unlock(&m.mutex_))] *)
  | DAssert (b : bool)
  | DSection (m m' : addr).       (** the code between constructor and destructor *)

Definition timed_lock (m : addr) : list dinstr := [DTimedLock m; DAssignHolder m].
Definition unlock (m : addr) : list dinstr := [DUnassignHolder m; DUnlock m].

Definition MutexLockTimedDoubleGuard_ctor (lhs rhs : addr) : list dinstr :=
  if lhs <? rhs then timed_lock lhs ++ timed_lock rhs
  else [DAssert (negb (lhs =? rhs))] ++ timed_lock rhs ++ timed_lock lhs.

Definition MutexLockTimedDoubleGuard_dtor (lhs rhs : addr) : list dinstr :=
  if lhs <? rhs then unlock rhs ++ unlock lhs
  else [DAssert (negb (lhs =? rhs))] ++ unlock lhs ++ unlock rhs.

(** A thread's program: the pairs of mutexes of its successive sections. *)
Definition guarded (p : addr * addr) : list dinstr :=
  MutexLockTimedDoubleGuard_ctor p.1 p.2 ++ [DSection p.1 p.2] ++ MutexLockTimedDoubleGuard_dtor p.1 p.2.
Definition dprogram (ps : list (addr * addr)) : list dinstr := concat (guarded <$> ps).

Record dsystem := mkDSystem {
  downer : gmap addr tid_t;        (** the locked mutexes *)
  dholder : gmap addr tid_t;       (** [holder_], absent for 0 *)
  dthreads : gmap tid_t (list dinstr);
  dcrashed : option fault;
}.

Definition dcrash (s : dsystem) (f : fault) : dsystem :=
  mkDSystem (downer s) (dholder s) (dthreads s) (Some f).

Definition dexec (s : dsystem) (t : tid_t) (timeout : bool) : option dsystem :=
  match dcrashed s, dthreads s !! t with
  | None, Some (i :: k) =>
      let go o h := Some (mkDSystem o h (<[t := k]> (dthreads s)) None) in
      match i with
      | DTimedLock m =>
          match downer s !! m with
          | None => go (<[m := t]> (downer s)) (dholder s)
          | Some _ => if timeout then Some (dcrash s FAssert) else None
          end
      | DAssignHolder m => go (downer s) (<[m := t]> (dholder s))
      | DUnassignHolder m => go (downer s) (delete m (dholder s))
      | DUnlock m =>
          if decide (downer s !! m = Some t) then go (delete m (downer s)) (dholder s)
          else Some (dcrash s FBounds)
      | DAssert b => if b then go (downer s) (dholder s) else Some (dcrash s FAssert)
      | DSection _ _ => go (downer s) (dholder s)
      end
  | _, _ => None
  end.

Definition dstep (s s' : dsystem) : Prop := exists t, dexec s t false = Some s'.

Definition dstart (progs : gmap tid_t (list (addr * addr))) : dsystem :=
  mkDSystem ∅ ∅ (dprogram <$> progs) None.

(** ** Invariant

    [dok held assigned c]: with the mutexes [held] locked and [holder_]
    assigned on [assigned], the code [c] locks only above what it holds,
    releases only what it holds, and ends with nothing held. *)
Fixpoint dok (held assigned : gset addr) (c : list dinstr) : Prop :=
  match c with
  | [] => held = ∅
  | DTimedLock m :: k => (forall m', m' ∈ held -> m' < m) /\ dok ({[m]} ∪ held) assigned k
  | DAssignHolder m :: k => m ∈ held /\ dok held ({[m]} ∪ assigned) k
  | DUnassignHolder m :: k => m ∈ held /\ dok held (assigned ∖ {[m]}) k
  | DUnlock m :: k => m ∈ held /\ (m ∉ assigned) /\ dok (held ∖ {[m]}) assigned k
  | DAssert b :: k => b = true /\ dok held assigned k
  | DSection m m' :: k => m ∈ assigned /\ m' ∈ assigned /\ dok held assigned k
  end.

Definition dok_thread (o h : gmap addr tid_t) (t : tid_t) (c : list dinstr) : Prop :=
  exists held assigned, dok held assigned c /\ assigned ⊆ held /\
    (forall m, (o !! m = Some t) <-> (m ∈ held)) /\ (forall m, m ∈ assigned -> h !! m = Some t).

Record dgood (s : dsystem) : Prop := {
  dgood_live : dcrashed s = None;
  dgood_threads : map_Forall (dok_thread (downer s) (dholder s)) (dthreads s);
  dgood_owner : forall m t, downer s !! m = Some t -> is_Some (dthreads s !! t);
}.

(** The section proper, with the lower mutex first. *)
Lemma dok_section lo hi x y k :
  lo < hi -> (x = lo /\ y = hi \/ x = hi /\ y = lo) -> dok ∅ ∅ k ->
  dok ∅ ∅ (timed_lock lo ++ timed_lock hi ++ [DSection x y] ++ unlock hi ++ unlock lo ++ k).
Proof.
  intros Hlt Hxy Hk. cbn.
  split; [set_solver|]. split; [set_solver|].
  split. { intros m. rewrite elem_of_union, elem_of_singleton. intros [->|?%elem_of_empty]; done. }
  split; [set_solver|]. split; [set_solver|]. split; [set_solver|].
  split; [set_solver|]. split; [set_solver|]. split; [set_solver|].
  split; [rewrite elem_of_difference, elem_of_singleton; split; [set_solver | lia]|].
  split; [rewrite elem_of_difference, elem_of_singleton; split; [set_solver | lia]|]. split; [set_solver|].
  match goal with |- dok ?h ?s _ => replace h with (∅ : gset addr) by set_solver;
    replace s with (∅ : gset addr) by set_solver end. done.
Qed.

Lemma dok_assert_true held asg c c' : dok held asg (c ++ c') -> dok held asg (c ++ DAssert true :: c').
Proof. revert held asg. induction c as [|[] c IH]; cbn; naive_solver. Qed.

Lemma dok_program ps : Forall (fun p => p.1 <> p.2) ps -> dok ∅ ∅ (dprogram ps).
Proof.
  induction 1 as [|[a b] ps Hab _ IH]; [done|]. cbn in Hab.
  change (dprogram ((a, b) :: ps)) with (guarded (a, b) ++ dprogram ps).
  unfold guarded, MutexLockTimedDoubleGuard_ctor, MutexLockTimedDoubleGuard_dtor.
  cbn [fst snd]. destruct (Z.ltb_spec a b).
  - rewrite <- !app_assoc. apply dok_section; auto.
  - rewrite (proj2 (Z.eqb_neq a b)) by done. rewrite <- !app_assoc.
    split; [done|]. apply (dok_assert_true _ _ (timed_lock b ++ timed_lock a ++ [DSection a b])).
    rewrite <- !app_assoc. apply dok_section; [lia | auto | done].
Qed.

(** The other threads are not concerned by a step of [t]. *)
Lemma dgood_update s t k o h :
  dgood s -> is_Some (dthreads s !! t) -> dok_thread o h t k ->
  (forall m t', t' <> t -> (o !! m = Some t' <-> downer s !! m = Some t')) ->
  (forall m t', t' <> t -> downer s !! m = Some t' -> h !! m = dholder s !! m) ->
  dgood (mkDSystem o h (<[t := k]> (dthreads s)) None).
Proof.
  intros Hg Ht Hok Ho Hh. split; cbn; [done| |].
  - intros t' c. rewrite lookup_insert. case_decide as Hne; [by intros; simplify_eq|]. intros Hc.
    destruct (dgood_threads _ Hg t' c Hc) as (held & asg & Hd & Hsub & Hho & Ha).
    exists held, asg. split_and!; [done | done | intros m; rewrite Ho by done; apply Hho |].
    intros m Hm. rewrite (Hh m t' ltac:(done)); [by apply Ha|]. apply Hho. set_solver.
  - intros m t' Hm. destruct (decide (t' = t)) as [->|Hne]; [rewrite lookup_insert_eq; eauto|].
    rewrite lookup_insert_ne by done. apply (dgood_owner _ Hg m). by apply Ho.
Qed.

Lemma dgood_step s s' : dgood s -> dstep s s' -> dgood s'.
Proof.
  intros Hg (t & He). unfold dexec in He. rewrite (dgood_live _ Hg) in He.
  destruct (dthreads s !! t) as [[|i k]|] eqn:Ht; try done.
  pose proof (dgood_threads _ Hg t _ Ht) as (held & asg & Hd & Hsub & Hho & Ha).
  assert (HS : is_Some (dthreads s !! t)) by eauto.
  destruct i; cbn in Hd.
  - destruct Hd as [Hlt Hd]. destruct (downer s !! m) as [?|] eqn:Em; [done|]. injection He as <-.
    apply dgood_update; try done.
    + exists ({[m]} ∪ held), asg. split_and!; [done | set_solver | | done].
      intros m'. rewrite lookup_insert_Some, elem_of_union, elem_of_singleton, Hho.
      destruct (decide (m = m')) as [->|]; naive_solver.
    + intros m' t' Hne. rewrite lookup_insert_Some. destruct (decide (m = m')) as [->|]; naive_solver congruence.
  - destruct Hd as [Hm Hd]. injection He as <-. apply dgood_update; try done.
    + exists held, ({[m]} ∪ asg). split_and!; [done | set_solver | done |].
      intros m'. rewrite elem_of_union, elem_of_singleton, lookup_insert_Some. intros [->|?]; [by left|].
      destruct (decide (m = m')); [by left | right; auto].
    + intros m' t' Hne Hm'. rewrite lookup_insert_ne; [done|]. intros ->. apply Hho in Hm. congruence.
  - destruct Hd as [Hm Hd]. injection He as <-. apply dgood_update; try done.
    + exists held, (asg ∖ {[m]}). split_and!; [done | set_solver | done |].
      intros m' Hm'. rewrite lookup_delete_ne by set_solver. apply Ha. set_solver.
    + intros m' t' Hne Hm'. rewrite lookup_delete_ne; [done|]. intros ->. apply Hho in Hm. congruence.
  - destruct Hd as (Hm & Hna & Hd). rewrite decide_True in He by by apply Hho. injection He as <-.
    apply dgood_update; try done.
    + exists (held ∖ {[m]}), asg. split_and!; [done | set_solver | | done].
      intros m'. rewrite lookup_delete_Some, Hho. set_solver.
    + intros m' t' Hne. rewrite lookup_delete_Some. split; [naive_solver|]. intros H; split; [|done].
      intros ->. apply Hho in Hm. congruence.
  - destruct Hd as (-> & Hd). injection He as <-. apply dgood_update; try done. by exists held, asg.
  - destruct Hd as (? & ? & Hd). injection He as <-. apply dgood_update; try done. by exists held, asg.
Qed.

Lemma dgood_start progs :
  map_Forall (fun _ ps => Forall (fun p => p.1 <> p.2) ps) progs -> dgood (dstart progs).
Proof.
  intros Hp. split; cbn; [done | | done].
  intros t c. rewrite lookup_fmap, fmap_Some. intros (ps & Hps & ->).
  exists ∅, ∅. split_and!; [apply dok_program; exact (Hp t ps Hps) | done | | set_solver].
  intros m. rewrite lookup_empty. set_solver.
Qed.

Lemma owners_bounded (o : gmap addr tid_t) : exists B, forall m t, o !! m = Some t -> m < B.
Proof.
  induction o as [|m t o _ IH] using map_ind; [by exists 0|]. destruct IH as [B HB].
  exists (Z.max (m + 1) B). intros m' t'. rewrite lookup_insert_Some. intros [[<- _]|[_ H]]; [lia|].
  specialize (HB m' t' H). lia.
Qed.

(** Follow the chain of owners: it climbs, so it ends at a thread that can move. *)
Lemma chain_ends s m t : dgood s -> downer s !! m = Some t -> exists t' s', dexec s t' false = Some s'.
Proof.
  intros Hg. destruct (owners_bounded (downer s)) as [B HB].
  remember (Z.to_nat (B - m)) as n eqn:Hn. revert m t Hn.
  induction n as [n IH] using lt_wf_ind. intros m t Hn Hm.
  destruct (dgood_owner _ Hg m t Hm) as [c Hc].
  destruct (dgood_threads _ Hg t c Hc) as (held & asg & Hd & Hsub & Hho & Ha).
  assert (Hin : m ∈ held) by by apply Hho.
  destruct c as [|i k]; [cbn in Hd; set_solver|].
  unfold dexec. destruct i; cbn in Hd.
  1: destruct (downer s !! m0) as [t2|] eqn:Em0.
  1: { destruct Hd as [Hlt _]. specialize (Hlt m Hin). pose proof (HB m t Hm). pose proof (HB _ _ Em0).
       apply (IH (Z.to_nat (B - m0)) ltac:(lia) m0 t2 ltac:(lia) Em0). }
  all: exists t; rewrite (dgood_live _ Hg), Hc, ?Em0; eauto.
  - destruct (decide _); eauto.
  - destruct b; eauto.
Qed.

(** C37: locking two mutexes in address order cannot deadlock. Any number of
    threads run any sequence of [MutexLockTimedDoubleGuard] sections over
    pairs of distinct mutexes. In every state they reach in any interleaving
    (no lock attempt running into its 30 second limit) no assertion has
    failed; a thread inside a section owns both mutexes and
    [IsLockedByThisThread] holds for both; and unless every thread has
    finished, some thread can take a step. *)
Theorem DoubleGuard_no_deadlock (progs : gmap tid_t (list (addr * addr))) s :
  map_Forall (fun _ ps => Forall (fun p => p.1 <> p.2) ps) progs ->
  rtc dstep (dstart progs) s ->
  dcrashed s = None /\
  (forall t m m' k, dthreads s !! t = Some (DSection m m' :: k) ->
     downer s !! m = Some t /\ downer s !! m' = Some t /\ dholder s !! m = Some t /\ dholder s !! m' = Some t) /\
  ((forall t c, dthreads s !! t = Some c -> c = []) \/ exists s', dstep s s').
Proof.
  intros Hp Hr. assert (Hg : dgood s)
    by (eapply rtc_invariant; [apply dgood_step | exact Hr | by apply dgood_start]).
  split_and!; [apply (dgood_live _ Hg) | |].
  - intros t m m' k Ht. destruct (dgood_threads _ Hg t _ Ht) as (held & asg & (H1 & H2 & _) & Hsub & Hho & Ha).
    split_and!; [apply Hho, Hsub | apply Hho, Hsub | apply Ha | apply Ha]; done.
  - destruct (decide (map_Forall (fun _ c => c = []) (dthreads s))) as [Hd|Hd]; [by left|]. right.
    apply map_not_Forall in Hd as (t & c & Hc & Hne); [|intros ? ?; apply _].
    destruct c as [|i k]; [done|].
    enough (exists t' s', dexec s t' false = Some s') as (t' & s' & He) by (exists s', t'; done).
    destruct (dgood_threads _ Hg t _ Hc) as (held & asg & Hd & Hsub & Hho & Ha).
    destruct (dexec s t false) as [s'|] eqn:He; [by eauto|].
    unfold dexec in He. rewrite (dgood_live _ Hg), Hc in He.
    destruct i; try done; repeat case_match; try done. by eapply chain_ends.
Qed.

(** Two threads that name the mutexes in opposite orders. *)
Definition dopposite : gmap tid_t (list (addr * addr)) := {[1 := [(100, 200)]; 2 := [(200, 100)]]}.
Definition dopposite_mid : dsystem :=
  match dexec (dstart dopposite) 1 false with Some s => s | None => dstart dopposite end.

Lemma DoubleGuard_no_deadlock_witness :
  downer dopposite_mid !! 100 = Some 1 /\ (exists s', dstep dopposite_mid s').
Proof.
  split; [vm_compute; reflexivity|].
  destruct (DoubleGuard_no_deadlock dopposite dopposite_mid) as (_ & _ & [Hf|Hs]); [ | | | exact Hs].
  - apply map_Forall_insert_2; [vm_compute; repeat constructor; discriminate|].
    apply map_Forall_singleton. vm_compute. repeat constructor. discriminate.
  - eapply rtc_l; [exists 1; vm_compute; reflexivity | constructor].
  - exfalso. specialize (Hf 1 (tl (dprogram [(100, 200)]))). discriminate Hf. vm_compute. reflexivity.
Defined.
