(* ===== verification/Atomic.v ===== *)
(** * [common::AtomicIntegerT<T>] ([src/common/base/atomic.h])

    Counters shared by threads; the session manager draws its ids from one.
    Every method performs one atomic builtin on [value_] and then works on the
    value the builtin returned. *)
From S2P Require Import Prelude Monitor.

(** ** The integer type [T] *)
Record int_type := mkIntType { signed : bool; width : Z }.

Definition int32_t : int_type := mkIntType true 32.
Definition int64_t : int_type := mkIntType true 64.
Definition uint32_t : int_type := mkIntType false 32.
Definition uint64_t : int_type := mkIntType false 64.

(** Conversion to [T], and the arithmetic [a + b] of the language in [T]:
    signed overflow is undefined, unsigned wraps. *)
Definition conv (T : int_type) (z : Z) : Z :=
  if signed T then swrap (width T) z else wrap (width T) z.
Definition max_value (T : int_type) : Z :=
  if signed T then 2 ^ (width T - 1) - 1 else 2 ^ width T - 1.
Definition min_value (T : int_type) : Z := if signed T then - 2 ^ (width T - 1) else 0.
Definition in_type (T : int_type) (z : Z) : bool := (min_value T <=? z) && (z <=? max_value T).
Definition arith_add (T : int_type) (a b : Z) : res Z :=
  if signed T then check (in_type T (a + b)) FOverflow;; Ok (a + b) else Ok (conv T (a + b)).

Section methods.
Context (T : int_type).

(** The [__sync] builtins: new value and result. The addition of
    [__sync_fetch_and_add] wraps, also for signed types. *)
Definition sync_val_compare_and_swap (value oldval newval : Z) : Z * Z :=
  (if value =? oldval then newval else value, value).
Definition sync_fetch_and_add (value x : Z) : Z * Z := (conv T (value + x), value).
Definition sync_lock_test_and_set (value x : Z) : Z * Z := (x, value).

Definition AtomicIntegerT_ctor : Z := 0.
Definition get (value_ : Z) : Z * Z := sync_val_compare_and_swap value_ 0 0.
Definition get_and_add (value_ x : Z) : Z * Z := sync_fetch_and_add value_ x.
Definition add_and_get (value_ x : Z) : Z * res Z :=
  let '(v, old) := get_and_add value_ x in (v, arith_add T old x).
Definition increment_and_get (value_ : Z) : Z * res Z := add_and_get value_ (conv T 1).
Definition decrement_and_get (value_ : Z) : Z * res Z := add_and_get value_ (conv T (-1)).
Definition add (value_ x : Z) : Z := (get_and_add value_ x).1.
Definition increment (value_ : Z) : Z * res unit :=
  let '(v, r) := increment_and_get value_ in (v, r;; Ok tt).
Definition decrement (value_ : Z) : Z * res unit :=
  let '(v, r) := decrement_and_get value_ in (v, r;; Ok tt).
Definition get_and_set (value_ newValue : Z) : Z * Z := sync_lock_test_and_set value_ newValue.

(** ** Threads that share a counter *)
Inductive aop :=
  | AGet | AGetAndAdd (x : Z) | AAddAndGet (x : Z) | AIncrementAndGet | ADecrementAndGet
  | AAdd (x : Z) | AIncrement | ADecrement | AGetAndSet (x : Z).

(** New value, and the result: a number, nothing, or undefined behaviour. *)
Definition aexec (value_ : Z) (o : aop) : Z * res (option Z) :=
  match o with
  | AGet => let '(v, r) := get value_ in (v, Ok (Some r))
  | AGetAndAdd x => let '(v, r) := get_and_add value_ x in (v, Ok (Some r))
  | AAddAndGet x => let '(v, r) := add_and_get value_ x in (v, Some <$> r)
  | AIncrementAndGet => let '(v, r) := increment_and_get value_ in (v, Some <$> r)
  | ADecrementAndGet => let '(v, r) := decrement_and_get value_ in (v, Some <$> r)
  | AAdd x => (add value_ x, Ok None)
  | AIncrement => let '(v, r) := increment value_ in (v, (fun _ => None) <$> r)
  | ADecrement => let '(v, r) := decrement value_ in (v, (fun _ => None) <$> r)
  | AGetAndSet x => let '(v, r) := get_and_set value_ x in (v, Ok (Some r))
  end.

(** [ahistory] is ghost state: who did what and what it returned. *)
Record asystem := mkASystem {
  avalue : Z;
  athreads : gmap tid_t (list aop);
  ahistory : list (tid_t * aop * option Z);
  acrashed : option fault;
}.

Definition astart (progs : gmap tid_t (list aop)) : asystem :=
  mkASystem AtomicIntegerT_ctor progs [] None.

Definition astep_thread (s : asystem) (t : tid_t) : option asystem :=
  match acrashed s, athreads s !! t with
  | None, Some (o :: k) =>
      let '(v, r) := aexec (avalue s) o in
      let th := <[t := k]> (athreads s) in
      Some match r with
      | Ok r => mkASystem v th (ahistory s ++ [(t, o, r)]) None
      | Fail f => mkASystem v th (ahistory s) (Some f)
      end
  | _, _ => None
  end.

Definition astep (s s' : asystem) : Prop := exists t, astep_thread s t = Some s'.

(** What an operation adds; [get_and_set] is not an addition. *)
Definition delta (o : aop) : Z :=
  match o with
  | AGetAndAdd x | AAddAndGet x | AAdd x => x
  | AIncrementAndGet | AIncrement => 1
  | ADecrementAndGet | ADecrement => -1
  | AGet | AGetAndSet _ => 0
  end.
Definition is_set (o : aop) : bool := match o with AGetAndSet _ => true | _ => false end.
Definition total (h : list (tid_t * aop * option Z)) : Z := foldr (fun e z => delta e.1.2 + z) 0 h.

(** ** Lemmas *)
Lemma conv_conv_add a b : 0 < width T -> conv T (conv T a + b) = conv T (a + b).
Proof.
  intros Hw. unfold conv. destruct (signed T).
  - rewrite <- (swrap_wrap _ (swrap _ a + b)), <- (swrap_wrap _ (a + b)) by done. f_equal.
    unfold wrap. rewrite <- Zplus_mod_idemp_l. fold (wrap (width T) (swrap (width T) a)).
    rewrite wrap_swrap by done. unfold wrap. apply Zplus_mod_idemp_l.
  - unfold wrap. apply Zplus_mod_idemp_l.
Qed.

Lemma conv_add_conv a b : 0 < width T -> conv T (a + conv T b) = conv T (a + b).
Proof. intros. rewrite !(Z.add_comm a). by apply conv_conv_add. Qed.

Lemma conv_id z : 0 < width T -> in_type T z = true -> conv T z = z.
Proof.
  intros Hw Hz. unfold in_type, min_value, max_value in Hz. unfold conv. destruct (signed T); unbool.
  - apply swrap_id; [done|]. split; lia.
  - apply wrap_id. split; lia.
Qed.

Lemma total_app h e : total (h ++ [e]) = total h + delta e.1.2.
Proof. unfold total. induction h as [|x h IH]; cbn in *; rewrite ?IH; lia. Qed.

Lemma aexec_value v o : 0 < width T -> is_set o = false -> conv T v = v ->
  (aexec v o).1 = conv T (v + delta o).
Proof.
  intros Hw Hs Hv. destruct o; cbn; try done; try (by rewrite conv_add_conv).
  rewrite Z.add_0_r, Hv. by destruct (Z.eqb_spec v 0).
Qed.

(** The additive invariant. *)
Definition adds_up (s : asystem) : Prop :=
  map_Forall (fun _ k => Forall (fun o => is_set o = false) k) (athreads s) /\
  (acrashed s = None -> avalue s = conv T (total (ahistory s))).

Lemma conv_idem z : 0 < width T -> conv T (conv T z) = conv T z.
Proof. intros Hw. pose proof (conv_conv_add z 0 Hw) as E. by rewrite !Z.add_0_r in E. Qed.

Lemma adds_up_step s s' : 0 < width T -> adds_up s -> astep s s' -> adds_up s'.
Proof.
  intros Hw [Hp Hv] [t Ht]. unfold astep_thread in Ht.
  destruct (acrashed s); [done|]. destruct (athreads s !! t) as [[|o k]|] eqn:Et; try done.
  pose proof (Hp t _ Et) as Hk. apply Forall_cons in Hk as [Ho Hk]. specialize (Hv eq_refl).
  pose proof (aexec_value (avalue s) o Hw Ho) as Hx. destruct (aexec (avalue s) o) as [v r]. cbn in Hx.
  destruct r as [r|f]; injection Ht as <-; split; cbn; try (by apply map_Forall_insert_2); [|done].
  intros _. rewrite total_app, Hx by (rewrite Hv; by apply conv_idem).
  rewrite Hv. by rewrite conv_conv_add.
Qed.

Lemma seqZ_snoc a n : 0 <= n -> seqZ a (n + 1) = seqZ a n ++ [a + n].
Proof. intros. rewrite seqZ_app by lia. done. Qed.

(** The ids handed out so far, and those still to come. *)
Definition tickets (n : Z) (s : asystem) : Prop :=
  let k := zlen (ahistory s) in
  acrashed s = None /\ avalue s = k /\ (ahistory s).*2 = Some <$> seqZ 1 k /\
  map_Forall (fun _ c => Forall (fun o => o = AIncrementAndGet) c) (athreads s) /\
  k + map_fold (fun _ c z => zlen c + z) 0 (athreads s) = n.

Lemma map_fold_pop (m : gmap tid_t (list aop)) t o k :
  m !! t = Some (o :: k) ->
  map_fold (fun _ c z => zlen c + z) 0 m = 1 + map_fold (fun _ c z => zlen c + z) 0 (<[t := k]> m).
Proof.
  intros Ht. rewrite <- (insert_delete_id m t (o :: k) Ht) at 1.
  rewrite <- (insert_delete_eq m t k).
  rewrite !map_fold_insert_L by (try apply lookup_delete_eq; intros; lia).
  rewrite zlen_cons. lia.
Qed.

Lemma map_fold_zlen_nonneg (m : gmap tid_t (list aop)) : 0 <= map_fold (fun _ c z => zlen c + z) 0 m.
Proof. apply (map_fold_weak_ind (fun z _ => 0 <= z)); [done|]. intros. zlen_lia. Qed.

Lemma tickets_step n s s' :
  1 < width T -> n <= max_value T -> tickets n s -> astep s s' -> tickets n s'.
Proof.
  intros Hw Hn (Hc & Hv & Hh & Hp & Hsum) [t Ht]. unfold astep_thread in Ht. rewrite Hc in Ht.
  destruct (athreads s !! t) as [[|o k]|] eqn:Et; try done.
  pose proof (Hp t _ Et) as Hk. apply Forall_cons in Hk as [-> Hk].
  pose proof (map_fold_pop _ _ _ _ Et) as Hpop.
  pose proof (map_fold_zlen_nonneg (<[t := k]> (athreads s))) as Hpos. zlen_pos.
  assert (Hmin : min_value T <= 0) by (unfold min_value; destruct (signed T); lia).
  assert (Hone : conv T 1 = 1).
  { apply conv_id; [lia|]. unfold in_type. apply andb_true_iff; split; apply Z.leb_le; lia. }
  assert (Hin : in_type T (avalue s + 1) = true).
  { unfold in_type. apply andb_true_iff; split; apply Z.leb_le; lia. }
  cbn in Ht. rewrite Hone in Ht. unfold arith_add in Ht. rewrite Hin, conv_id in Ht by (done || lia).
  assert (Hs' : s' = mkASystem (avalue s + 1) (<[t := k]> (athreads s))
    (ahistory s ++ [(t, AIncrementAndGet, Some (avalue s + 1))]) None)
    by (destruct (signed T); cbn in Ht; congruence).
  subst s'. unfold tickets. cbn. rewrite zlen_app. change (zlen [_]) with 1.
  split_and!; [done | lia | | by apply map_Forall_insert_2 | lia].
  rewrite fmap_app, Hh, seqZ_snoc, fmap_app by lia. cbn. do 3 f_equal. lia.
Qed.
End methods.

(** Concurrent additions are never lost. Any number of threads call
    [get], [get_and_add], [add_and_get], [increment_and_get],
    [decrement_and_get], [add], [increment] and [decrement] on one counter, in
    any interleaving; in every reachable state the counter is the sum, modulo
    the width of [T], of what the completed calls added. *)
Theorem AtomicIntegerT_adds_up (T : int_type) (progs : gmap tid_t (list aop)) s :
  0 < width T ->
  map_Forall (fun _ k => Forall (fun o => is_set o = false) k) progs ->
  rtc (astep T) (astart progs) s -> acrashed s = None ->
  avalue s = conv T (total (ahistory s)).
Proof.
  intros Hw Hp Hr. eapply (rtc_invariant (astep T) (adds_up T)); [by eauto using adds_up_step | exact Hr|].
  split; [done|]. intros _. cbn. unfold AtomicIntegerT_ctor, conv, swrap, wrap.
  destruct (signed T); cbn; [|done].
  rewrite Z.mod_small; [lia|]. rewrite (half_double _ Hw). lia.
Qed.

(** [increment_and_get] hands out unique consecutive ids. If all threads
    together call it at most [max(T)] times, then in every interleaving the
    values returned so far are, in the order of the atomic additions,
    1, 2, 3, ... with no repetition, and no addition overflows. *)
Theorem increment_and_get_unique (T : int_type) (progs : gmap tid_t (list aop)) s :
  1 < width T ->
  map_Forall (fun _ k => Forall (fun o => o = AIncrementAndGet) k) progs ->
  map_fold (fun _ k z => zlen k + z) 0 progs <= max_value T ->
  rtc (astep T) (astart progs) s ->
  acrashed s = None /\ (ahistory s).*2 = Some <$> seqZ 1 (zlen (ahistory s)) /\ NoDup (ahistory s).*2.
Proof.
  intros Hw Hp Hn Hr.
  assert (Ht : tickets (map_fold (fun _ k z => zlen k + z) 0 progs) s).
  { eapply (rtc_invariant (astep T)); [|exact Hr|].
    - intros a b. by apply tickets_step.
    - unfold tickets, astart, AtomicIntegerT_ctor. cbn. split_and!; try done. }
  destruct Ht as (Hc & _ & Hh & _). split_and!; [done | done|].
  rewrite Hh. apply NoDup_fmap_2; [by intros ?? [=] | apply NoDup_seqZ].
Qed.

(** At the maximum of a signed type the two halves of
    [increment_and_get] disagree. The builtin wraps the stored value to the
    minimum, and the expression [get_and_add(x) + x] that computes the result
    overflows, which is undefined; [increment] runs the same expression.
    [add(1)] and [get_and_add(1)] only wrap. For an unsigned type all of them
    wrap to zero. *)
Theorem increment_at_max (T : int_type) (w : Z) :
  1 < w ->
  (T = mkIntType true w ->
   increment_and_get T (max_value T) = (min_value T, Fail FOverflow) /\
   increment T (max_value T) = (min_value T, Fail FOverflow) /\
   get_and_add T (max_value T) 1 = (min_value T, max_value T) /\ add T (max_value T) 1 = min_value T) /\
  (T = mkIntType false w ->
   increment_and_get T (max_value T) = (0, Ok 0) /\ increment T (max_value T) = (0, Ok tt) /\
   get_and_add T (max_value T) 1 = (0, max_value T)).
Proof.
  intros Hw. assert (Hp : 2 <= 2 ^ (w - 1)) by (change 2 with (2 ^ 1) at 1; apply Z.pow_le_mono_r; lia).
  pose proof (half_double w ltac:(lia)) as Hh. split; intros ->.
  - set (T := mkIntType true w).
    assert (H1 : conv T 1 = 1).
    { apply conv_id; [cbn; lia|]. unfold in_type, min_value, max_value; cbn. apply andb_true_iff; split; apply Z.leb_le; lia. }
    assert (Hm : conv T (max_value T + 1) = min_value T).
    { unfold conv, swrap, max_value, min_value; cbn. rewrite <- (Z.mod_add _ (-1)), Z.mod_small; lia. }
    assert (Ho : arith_add T (max_value T) 1 = Fail FOverflow).
    { unfold arith_add, in_type; cbn [signed T]. rewrite (proj2 (Z.leb_gt (max_value T + 1) _)) by lia.
      by rewrite andb_false_r. }
    unfold increment, increment_and_get, add_and_get, add, get_and_add, sync_fetch_and_add.
    rewrite H1, Ho, Hm. done.
  - set (T := mkIntType false w).
    assert (H1 : conv T 1 = 1) by (apply wrap_id; split; cbn; lia).
    assert (Hm : conv T (max_value T + 1) = 0).
    { unfold conv, wrap, max_value; cbn. replace (2 ^ w - 1 + 1) with (2 ^ w) by lia. apply Z.mod_same. lia. }
    unfold increment, increment_and_get, add_and_get, arith_add, get_and_add, sync_fetch_and_add.
    rewrite H1. cbn [signed T]. rewrite !Hm. done.
Qed.

(** ** Witnesses *)
Definition acounters : gmap tid_t (list aop) := {[1 := [AIncrementAndGet]; 2 := [AIncrementAndGet]]}.
Definition acounters_end : asystem :=
  default (astart acounters) (s ← astep_thread int32_t (astart acounters) 2; astep_thread int32_t s 1).
Lemma acounters_reachable : rtc (astep int32_t) (astart acounters) acounters_end.
Proof.
  eapply rtc_l; [exists 2; vm_compute; reflexivity|].
  eapply rtc_l; [exists 1; vm_compute; reflexivity | constructor].
Qed.

Lemma AtomicIntegerT_adds_up_witness : avalue acounters_end = 2 /\
  avalue acounters_end = conv int32_t (total (ahistory acounters_end)).
Proof.
  split; [vm_compute; reflexivity|]. apply (AtomicIntegerT_adds_up int32_t acounters).
  - reflexivity.
  - apply map_Forall_insert_2; [repeat constructor|]. apply map_Forall_singleton. repeat constructor.
  - exact acounters_reachable.
  - vm_compute; reflexivity.
Defined.

Lemma increment_and_get_unique_witness : NoDup (ahistory acounters_end).*2.
Proof.
  apply (increment_and_get_unique int32_t acounters).
  - reflexivity.
  - apply map_Forall_insert_2; [repeat constructor|]. apply map_Forall_singleton. repeat constructor.
  - vm_compute. discriminate.
  - exact acounters_reachable.
Defined.

Lemma increment_at_max_witness : increment_and_get int32_t 2147483647 = (-2147483648, Fail FOverflow).
Proof.
  destruct (increment_at_max int32_t 32 eq_refl) as [H _]. exact (proj1 (H eq_refl)).
Defined.
