(* ===== verification/Dispatcher.v ===== *)
(** * [ProtobufDispatcher] ([src/common/net/dispatcher_proto.h])

    Routes a decoded message to the handler registered for its type. The
    message classes are protobuf's: the class [MessageTypes] holds what the
    dispatcher uses of them. A handler is a function on the state [W] of the
    program. *)
From S2P Require Import Prelude.

(** [ty] ranges over the generated message classes ([T] of [CallbackT<T>]). *)
Class MessageTypes := {
  msg : Type;
  ty : Type;
  Descriptor : Type;
  #[global] Descriptor_eq_dec :: EqDecision Descriptor;
  #[global] Descriptor_countable :: Countable Descriptor;
  (** [message->GetDescriptor()] *)
  GetDescriptor : msg -> Descriptor;
  (** [T::descriptor()] *)
  T_descriptor : ty -> Descriptor;
  (** [dynamic_cast<T*>(message) != NULL] *)
  is_a : ty -> msg -> bool;
}.

(** The generated code gives every class its own descriptor, and an object
    with the descriptor of a class is an object of that class. *)
Class MessageTypesLaws (P : MessageTypes) := {
  descriptor_inj t t' : T_descriptor t = T_descriptor t' -> t = t';
  descriptor_is_a t m : GetDescriptor m = T_descriptor t <-> is_a t m = true;
}.

Section dispatcher.
Context {P : MessageTypes} {conn_t W : Type}.

(** A [boost::function] on a connection and a message. *)
Definition handler : Type := conn_t -> msg -> W -> res W.

(** [muduo::down_pointer_cast<T>]; a null pointer is [None]. *)
Definition down_pointer_cast (t : ty) (f : option msg) : res (option msg) :=
  assert_ (match f with None => true | Some m => is_a t m end);; Ok f.

Record CallbackT := mkCallbackT { cb_type : ty; callback_ : handler }.

Definition onMessage (cb : CallbackT) (conn : conn_t) (message : option msg) (w : W) : res W :=
  concrete ← down_pointer_cast (cb_type cb) message;
  match concrete with
  | None => Fail FAssert     (* assert(concrete != NULL) *)
  | Some m => callback_ cb conn m w
  end.

Record ProtobufDispatcher := mkDispatcher {
  callbacks_ : gmap Descriptor CallbackT;
  defaultCallback_ : handler;
}.

Definition ProtobufDispatcher_ctor (defaultCb : handler) : ProtobufDispatcher :=
  mkDispatcher ∅ defaultCb.

Definition onProtobufMessage (d : ProtobufDispatcher) (conn : conn_t) (message : option msg) (w : W) : res W :=
  match message with
  | None => Fail FBounds     (* message->GetDescriptor() on a null pointer *)
  | Some m =>
      match callbacks_ d !! GetDescriptor m with
      | Some cb => onMessage cb conn message w
      | None => defaultCallback_ d conn m w
      end
  end.

Definition registerMessageCallback (d : ProtobufDispatcher) (t : ty) (callback : handler) : ProtobufDispatcher :=
  mkDispatcher (<[T_descriptor t := mkCallbackT t callback]> (callbacks_ d)) (defaultCallback_ d).

(** ** Specification: the last handler registered for the message's type *)
Fixpoint route (regs : list (ty * handler)) (dflt : handler) (m : msg) : handler :=
  match regs with
  | [] => dflt
  | (t, f) :: regs => route regs (if is_a t m then f else dflt) m
  end.

Definition register_all (d : ProtobufDispatcher) (regs : list (ty * handler)) : ProtobufDispatcher :=
  fold_left (fun d '(t, f) => registerMessageCallback d t f) regs d.

(** The keys of the map are the descriptors of the registered classes. *)
Definition dispatcher_wf (d : ProtobufDispatcher) : Prop :=
  forall k cb, callbacks_ d !! k = Some cb -> k = T_descriptor (cb_type cb).

(** The handler the map selects. *)
Definition selected (d : ProtobufDispatcher) (m : msg) : handler :=
  match callbacks_ d !! GetDescriptor m with Some cb => callback_ cb | None => defaultCallback_ d end.

Context `{!MessageTypesLaws P}.

Lemma register_wf d t f : dispatcher_wf d -> dispatcher_wf (registerMessageCallback d t f).
Proof. intros Hd k cb. cbn. rewrite lookup_insert_Some. intros [[<- <-]|[_ H]]; [done | by apply Hd]. Qed.

Lemma register_selected d t f m :
  selected (registerMessageCallback d t f) m = if is_a t m then f else selected d m.
Proof.
  unfold selected. cbn. rewrite lookup_insert. destruct (is_a t m) eqn:E.
  - rewrite decide_True; [done|]. symmetry. by apply descriptor_is_a.
  - rewrite decide_False; [done|]. intros H. symmetry in H. apply descriptor_is_a in H. congruence.
Qed.

Lemma route_ext regs f g m : f = g -> route regs f m = route regs g m.
Proof. by intros ->. Qed.

Lemma register_all_spec regs d m : dispatcher_wf d ->
  dispatcher_wf (register_all d regs) /\
  selected (register_all d regs) m = route regs (selected d m) m.
Proof.
  revert d. induction regs as [|[t f] regs IH]; intros d Hd; [done|].
  cbn [register_all fold_left route]. destruct (IH (registerMessageCallback d t f)) as [H1 H2]; [by apply register_wf|].
  split; [exact H1|]. unfold register_all in H2. rewrite H2. apply route_ext, register_selected.
Qed.

(** On a well-formed map no assertion of [onMessage] can fail. *)
Lemma onProtobufMessage_selected d conn m w : dispatcher_wf d ->
  onProtobufMessage d conn (Some m) w = selected d m conn m w.
Proof.
  intros Hd. unfold onProtobufMessage, selected, onMessage, down_pointer_cast.
  destruct (callbacks_ d !! GetDescriptor m) as [cb|] eqn:E; [|done].
  apply Hd, descriptor_is_a in E. by rewrite E.
Qed.
End dispatcher.
Arguments handler {P} conn_t W.

(** C35: A message reaches the right handler. After any sequence of
    registrations on a fresh dispatcher, dispatching any message runs exactly
    the handler registered last for the message's class, or the default
    callback when there is none; the down-cast in [CallbackT::onMessage]
    never fails. *)
Theorem dispatch_last_registered {P : MessageTypes} `{!MessageTypesLaws P} {conn_t W}
    (dflt : handler conn_t W) regs conn m w :
  onProtobufMessage (register_all (ProtobufDispatcher_ctor dflt) regs) conn (Some m) w =
  route regs dflt m conn m w.
Proof.
  destruct (register_all_spec regs (ProtobufDispatcher_ctor dflt) m) as [Hw Hs]; [by intros k cb|].
  by rewrite onProtobufMessage_selected, Hs.
Qed.

(** ** Example: two message classes, handlers that log *)
Module ToyTypes.
#[local] Instance toy : MessageTypes := {|
  msg := bool * Z; ty := bool; Descriptor := bool;
  GetDescriptor := fst; T_descriptor := id; is_a := fun t m => Bool.eqb m.1 t |}.
#[local] Instance toy_laws : MessageTypesLaws toy.
Proof.
  split; cbn; [done|]. intros t m. split; [intros ->; apply Bool.eqb_reflx | apply Bool.eqb_prop].
Defined.

Definition log (n : Z) : handler unit (list (Z * Z)) := fun _ m w => Ok (w ++ [(n, m.2)]).

Lemma dispatch_last_registered_witness :
  onProtobufMessage (register_all (ProtobufDispatcher_ctor (log 0)) [(true, log 1); (true, log 2)])
    tt (Some (true, 7)) [] = Ok [(2, 7)].
Proof.
  etransitivity; [apply (dispatch_last_registered (log 0) [(true, log 1); (true, log 2)] tt (true, 7) [])|].
  reflexivity.
Defined.
End ToyTypes.
