(* ===== verification/Process.v ===== *)
(** * The process: [main] ([src/main.cpp], [src/global_init.cc]) and
      [common::Singleton<T>] ([src/singleton.h]) *)
From S2P Require Import Prelude.

(** ** [main]

    The environment of a run: the status of [system("/bin/touch foo")], the
    options [getopt] returns before [EOF], and after how many [sleep(1)] calls
    of the wait loop SIGINT is delivered, if ever. *)
Record env := mkEnv {
  touch_status : Z;
  options : list Z;
  sigint_after : option nat;
}.

(** What is printed. *)
Inductive line :=
  | LBye | LNotWritable | LVersion | LUsage | LInitError (ret : Z) | LStopError (ret : Z).

Inductive event :=
  | ESignal                  (** [signal(SIGINT, int_handler)] *)
  | ETouch                   (** [system("/bin/touch foo")] *)
  | EPrint (l : line)
  | EInitServer | ESleep | EStopServer
  | EShutdownProtobuf.       (** [google::protobuf::ShutdownProtobufLibrary()] *)

Inductive ending := Exited (code : Z) | StillWaiting.

(** [globalInit::InitServer], [globalInit::StopServer]: their return value. *)
Definition InitServer : Z := 0.
Definition StopServer : Z := 0.

(** [int_handler]: prints and sets the flag [done]. *)
Definition int_handler (done : bool) : list event * bool := ([EPrint LBye], true).

(** [usage] *)
Definition usage : list event := [EPrint LUsage].

(** The [while ((opt = getopt(...)) != EOF)] loop; [Some code] when it calls
    [exit]. Both branches of the [switch] leave the program. *)
Definition parse_options (opts : list Z) : list event * option Z :=
  match opts with
  | [] => ([], None)
  | opt :: _ => if opt =? 118 (* 'v' *) then ([EPrint LVersion], Some 0) else (usage, Some 0)
  end.

(** [while(!done) sleep(1)]: [n] is the number of sleeps until the handler
    runs; [fuel] bounds how long the run is observed. *)
Fixpoint wait_loop (fuel : nat) (n : option nat) (done : bool) : list event * bool :=
  let '(tr, done) := match n with Some O => int_handler done | _ => ([], done) end in
  if done then (tr, true) else
  match fuel with
  | O => (tr, false)
  | S fuel =>
      let '(tr', finished) := wait_loop fuel (Nat.pred <$> n) done in
      (tr ++ ESleep :: tr', finished)
  end.

Definition main (e : env) (fuel : nat) : list event * ending :=
  let tr := [ESignal; ETouch] in
  if negb (touch_status e =? 0) then (tr ++ [EPrint LNotWritable], Exited (-1)) else
  let '(tr1, ex) := parse_options (options e) in
  match ex with
  | Some code => (tr ++ tr1, Exited code)
  | None =>
      let tr := tr ++ tr1 ++ [EInitServer] in
      let ret := InitServer in
      if negb (ret =? 0) then (tr ++ [EPrint (LInitError ret)], Exited ret) else
      let '(tr2, finished) := wait_loop fuel (sigint_after e) false in
      if negb finished then (tr ++ tr2, StillWaiting) else
      let tr := tr ++ tr2 ++ [EStopServer] in
      let ret := StopServer in
      if negb (ret =? 0) then (tr ++ [EPrint (LStopError ret)], Exited ret) else
      (tr ++ [EShutdownProtobuf], Exited 0)
  end.

Lemma wait_loop_sigint n fuel : (n <= fuel)%nat ->
  wait_loop fuel (Some n) false = (replicate n ESleep ++ [EPrint LBye], true).
Proof.
  revert fuel. induction n as [|n IH]; intros fuel Hf; [by destruct fuel|].
  destruct fuel as [|fuel]; [lia|]. cbn. by rewrite IH by lia.
Qed.

Lemma wait_loop_never fuel : wait_loop fuel None false = (replicate fuel ESleep, false).
Proof. induction fuel as [|fuel IH]; cbn; [done|]. by rewrite IH. Qed.

(** The life of the server process. With an unwritable file system [main]
    returns -1 and with any option it exits 0, both before the server is
    initialised; otherwise it initialises the server once, sleeps until SIGINT
    (exactly [n] sleeps when the signal comes after [n]), prints the farewell,
    stops the server, shuts protobuf down and returns 0; without SIGINT it
    waits for as long as it is observed. *)
Theorem main_lifecycle (e : env) (fuel : nat) :
  (touch_status e <> 0 -> main e fuel = ([ESignal; ETouch; EPrint LNotWritable], Exited (-1))) /\
  (touch_status e = 0 -> options e <> [] ->
     exists l, main e fuel = ([ESignal; ETouch; EPrint l], Exited 0)) /\
  (touch_status e = 0 -> options e = [] ->
     (forall n, sigint_after e = Some n -> (n <= fuel)%nat ->
        main e fuel = ([ESignal; ETouch; EInitServer] ++ replicate n ESleep ++
          [EPrint LBye; EStopServer; EShutdownProtobuf], Exited 0)) /\
     (sigint_after e = None ->
        main e fuel = ([ESignal; ETouch; EInitServer] ++ replicate fuel ESleep, StillWaiting))).
Proof.
  unfold main. split_and!.
  - intros H. by rewrite (proj2 (Z.eqb_neq _ _) H).
  - intros -> Ho. cbn. destruct (options e) as [|o os]; [done|]. unfold parse_options. destruct (o =? 118); by eexists.
  - intros -> ->. cbn. split.
    + intros n -> Hn. rewrite wait_loop_sigint by done. cbn. by rewrite <- !app_assoc.
    + intros ->. by rewrite wait_loop_never.
Qed.

Lemma main_lifecycle_witness :
  main (mkEnv 0 [] (Some 2%nat)) 5 =
  ([ESignal; ETouch; EInitServer; ESleep; ESleep; EPrint LBye; EStopServer; EShutdownProtobuf], Exited 0).
Proof.
  destruct (main_lifecycle (mkEnv 0 [] (Some 2%nat)) 5) as (_ & _ & H).
  destruct (H eq_refl eq_refl) as [Hn _]. apply (Hn 2%nat eq_refl). lia.
Defined.

(** ** [InitSignalProcMask]

    The signal state the function touches: the blocked set and the handler of
    SIGBUS. [set] is a local that no call receives. *)
Record sigstate := mkSig { blocked : gset Z; sigbus : option Z (* exit code of the handler *) }.
Definition SIGALRM : Z := 14.
Definition InitSignalProcMask (s : sigstate) : sigstate * Z :=
  let set : gset Z := {[SIGALRM]} in
  (mkSig (blocked s) (Some 0), 0).

(** ** Singletons

    Every singleton type is a key; [SingletonModule] has one lock flag for all
    of them. [constructed] is the guard of the function-local static,
    [builds] counts constructor runs (ghost). *)
Record single := mkSingle { constructed : bool; m_is_destroyed : bool; builds : nat }.
Record singletons := mkSingletons { module_lock : bool; singles : gmap Z single }.

Definition no_singleton : single := mkSingle false false 0.
Definition single_of (s : singletons) (k : Z) : single := default no_singleton (singles s !! k).

Definition SingletonModule_lock (s : singletons) : singletons := mkSingletons true (singles s).
Definition SingletonModule_unlock (s : singletons) : singletons := mkSingletons false (singles s).
Definition is_locked (s : singletons) : bool := module_lock s.

(** [static SingletonWrapper<T> t;]: constructed when control first passes. *)
Definition construct_static (s : singletons) (k : Z) : singletons :=
  let w := single_of s k in
  if constructed w then s
  else mkSingletons (module_lock s) (<[k := mkSingle true (m_is_destroyed w) (S (builds w))]> (singles s)).

(** The instance is identified by its key. *)
Definition get_instance (s : singletons) (k : Z) : res (singletons * Z) :=
  let s := construct_static s k in
  assert_ (negb (m_is_destroyed (single_of s k)));; Ok (s, k).
Definition get_mutable_instance (s : singletons) (k : Z) : res (singletons * Z) :=
  assert_ (negb (is_locked s));; get_instance s k.
Definition get_const_instance (s : singletons) (k : Z) : res (singletons * Z) := get_instance s k.
Definition is_destroyed (s : singletons) (k : Z) : bool := m_is_destroyed (single_of s k).

(** [~SingletonWrapper], run once at exit for a constructed static. *)
Definition SingletonWrapper_dtor (s : singletons) (k : Z) : singletons :=
  let w := single_of s k in
  if constructed w && negb (m_is_destroyed w) then
    mkSingletons (module_lock s) (<[k := mkSingle true true (builds w)]> (singles s))
  else s.

Inductive sop := SLock | SUnlock | SMutable (k : Z) | SConst (k : Z) | SExit (k : Z).

(** A failed assertion aborts; the state before it is kept for inspection. *)
Definition sexec (s : singletons) (o : sop) : res singletons :=
  match o with
  | SLock => Ok (SingletonModule_lock s)
  | SUnlock => Ok (SingletonModule_unlock s)
  | SMutable k => fst <$> get_mutable_instance s k
  | SConst k => fst <$> get_const_instance s k
  | SExit k => Ok (SingletonWrapper_dtor s k)
  end.
Fixpoint srun (s : singletons) (os : list sop) : res singletons :=
  match os with [] => Ok s | o :: os => s ← sexec s o; srun s os end.
Definition sinit : singletons := mkSingletons false ∅.

Definition single_inv (s : singletons) : Prop :=
  forall k, builds (single_of s k) = (if constructed (single_of s k) then 1%nat else 0%nat) /\
    (m_is_destroyed (single_of s k) = true -> constructed (single_of s k) = true).

Lemma single_of_insert s b k w k' :
  single_of (mkSingletons b (<[k := w]> (singles s))) k' = if decide (k = k') then w else single_of s k'.
Proof. unfold single_of. cbn. rewrite lookup_insert. by case_decide. Qed.

Lemma construct_static_inv s k : single_inv s -> single_inv (construct_static s k).
Proof.
  intros H. unfold construct_static. destruct (constructed (single_of s k)) eqn:E; [done|].
  intros k'. rewrite single_of_insert. case_decide; [|apply H]. subst. cbn.
  destruct (H k') as [-> Hd]. by rewrite E in *.
Qed.

Lemma get_instance_inv s k s' i : single_inv s -> get_instance s k = Ok (s', i) -> single_inv s' /\ i = k.
Proof. intros Hs H. unfold get_instance in H. inv_res. split; [by apply construct_static_inv | congruence]. Qed.

Lemma sexec_inv s o s' : single_inv s -> sexec s o = Ok s' -> single_inv s'.
Proof.
  intros Hs. destruct o; cbn.
  - by intros [= <-].
  - by intros [= <-].
  - unfold get_mutable_instance. destruct (is_locked s); [done|]. cbn.
    destruct (get_instance s k) as [[s1 i]|] eqn:E; [|done]. intros [= <-].
    by apply (get_instance_inv s k s1 i).
  - unfold get_const_instance. destruct (get_instance s k) as [[s1 i]|] eqn:E; [|done]. intros [= <-].
    by apply (get_instance_inv s k s1 i).
  - intros [= <-]. unfold SingletonWrapper_dtor. destruct (_ && _)%bool eqn:E; [|done].
    apply andb_true_iff in E as [E1 E2]. intros k'. rewrite single_of_insert. case_decide; [|apply Hs]. subst.
    cbn. destruct (Hs k') as [-> _]. by rewrite E1.
Qed.

Lemma srun_inv os s s' : single_inv s -> srun s os = Ok s' -> single_inv s'.
Proof.
  revert s. induction os as [|o os IH]; intros s Hs; cbn; [by intros [= <-]|]. intros H. inv_res.
  eapply IH; [|done]. by eapply sexec_inv.
Qed.

(** A singleton is built at most once, whatever sequence of accesses,
    locks, unlocks and static destructions ran; and at that point an access
    behaves as documented: [get_const_instance] yields the one instance unless
    it was destroyed, when the assertion fails; [get_mutable_instance] also
    fails while the module is locked, and otherwise agrees with it. *)
Theorem singleton_unique os s k :
  srun sinit os = Ok s ->
  (builds (single_of s k) <= 1)%nat /\
  (is_destroyed s k = true -> get_const_instance s k = Fail FAssert) /\
  (is_destroyed s k = false -> exists s', get_const_instance s k = Ok (s', k) /\
     builds (single_of s' k) = 1%nat) /\
  get_mutable_instance s k = if is_locked s then Fail FAssert else get_const_instance s k.
Proof.
  intros H. assert (Hs : single_inv s) by (eapply srun_inv, H; intros k'; done).
  destruct (Hs k) as [Hb Hd]. split_and!.
  - rewrite Hb. case_match; lia.
  - unfold is_destroyed. intros E. unfold get_const_instance, get_instance, construct_static.
    by rewrite (Hd E), E.
  - unfold is_destroyed. intros E. exists (construct_static s k).
    assert (Hm : m_is_destroyed (single_of (construct_static s k) k) = false /\
                 builds (single_of (construct_static s k) k) = 1%nat).
    { unfold construct_static. destruct (constructed (single_of s k)) eqn:Ec; [by rewrite Hb|].
      rewrite single_of_insert, decide_True by done. cbn. by rewrite Hb. }
    destruct Hm as [Hm Hb']. split; [|done]. unfold get_const_instance, get_instance. by rewrite Hm.
  - unfold get_mutable_instance, get_const_instance. by destruct (is_locked s).
Qed.

Lemma singleton_unique_witness :
  srun sinit [SMutable 3; SConst 3; SLock; SExit 3] =
    Ok (mkSingletons true {[3 := mkSingle true true 1]}) /\
  get_const_instance (mkSingletons true {[3 := mkSingle true true 1]}) 3 = Fail FAssert.
Proof.
  split; [vm_compute; reflexivity|].
  apply (singleton_unique [SMutable 3; SConst 3; SLock; SExit 3]); vm_compute; reflexivity.
Defined.
