(* ===== verification/MuduoBuffer.v ===== *)
(** * [muduo::net::Buffer] ([3rd_party/muduo/muduo/net/Buffer.{h,cc}]) and
      the conversions of [muduo/net/Endian.h]

    The buffer of the connections airnet runs on. [common::net::Buffer] is a
    copy of this class with other method names, so both use the record
    [Buffer.Buffer]; the methods are translated again from this source, and
    [muduo_buffer_same_queue] shows that both classes implement one
    specification. Own to this class: 64-bit integers, [findEOL], [unwrite],
    the check in [hasWritten], and [readFd]. *)
From S2P Require Import Prelude Endian StringPiece Buffer.

(** ** Endian.h *)
Section endian.
Context {h : Host}.
Definition hostToNetwork64 (host64 : Z) : Z := htobe 8 host64.
Definition hostToNetwork32 (host32 : Z) : Z := htobe 4 host32.
Definition hostToNetwork16 (host16 : Z) : Z := htobe 2 host16.
Definition networkToHost64 (net64 : Z) : Z := betoh 8 net64.
Definition networkToHost32 (net32 : Z) : Z := betoh 4 net32.
Definition networkToHost16 (net16 : Z) : Z := betoh 2 net16.
End endian.

Definition int64 := swrap 64.
Definition uint64 := wrap 64.

(** ** Observers *)
Definition readableBytes (b : Buffer) : Z := size_t (writerIndex_ b - readerIndex_ b).
Definition writableBytes (b : Buffer) : Z := size_t (zlen (buffer_ b) - writerIndex_ b).
Definition prependableBytes (b : Buffer) : Z := readerIndex_ b.
Definition beginWrite (b : Buffer) : Z := writerIndex_ b.

(** [Buffer(initialSize)] *)
Definition muduo_Buffer (initialSize : Z) : res Buffer :=
  v ← vec_resize [] (size_t (kCheapPrepend + initialSize));
  let b := mkBuffer v kCheapPrepend kCheapPrepend in
  assert_ (readableBytes b =? 0);;
  assert_ (writableBytes b =? initialSize);;
  assert_ (prependableBytes b =? kCheapPrepend);;
  Ok b.

Definition swap (b rhs : Buffer) : Buffer * Buffer :=
  (mkBuffer (buffer_ rhs) (readerIndex_ rhs) (writerIndex_ rhs),
   mkBuffer (buffer_ b) (readerIndex_ b) (writerIndex_ b)).

(** ** Searching *)
Definition kCRLF : byte * byte := (Byte.x0d, Byte.x0a).

Definition findCRLF (b : Buffer) : res (option Z) :=
  l ← vec_read (buffer_ b) (peek b) (beginWrite b - peek b);
  let crlf := search2 kCRLF.1 kCRLF.2 l (peek b) in
  Ok (if crlf =? beginWrite b then None else Some crlf).

Definition findCRLF_from (b : Buffer) (start : Z) : res (option Z) :=
  assert_ (peek b <=? start);;
  assert_ (start <=? beginWrite b);;
  l ← vec_read (buffer_ b) start (beginWrite b - start);
  let crlf := search2 kCRLF.1 kCRLF.2 l start in
  Ok (if crlf =? beginWrite b then None else Some crlf).

(** [memchr(p, c, n)] over the bytes [l] at [pos]. *)
Fixpoint memchr (c : byte) (l : bytes) (pos : Z) : option Z :=
  match l with
  | [] => None
  | x :: l => if Byte.eqb x c then Some pos else memchr c l (pos + 1)
  end.

Definition findEOL (b : Buffer) : res (option Z) :=
  l ← vec_read (buffer_ b) (peek b) (readableBytes b);
  Ok (memchr Byte.x0a l (peek b)).

Definition findEOL_from (b : Buffer) (start : Z) : res (option Z) :=
  assert_ (peek b <=? start);;
  assert_ (start <=? beginWrite b);;
  l ← vec_read (buffer_ b) start (beginWrite b - start);
  Ok (memchr Byte.x0a l start).

(** ** Consuming *)
Definition retrieveAll (b : Buffer) : Buffer := mkBuffer (buffer_ b) kCheapPrepend kCheapPrepend.

Definition retrieve (b : Buffer) (len : Z) : res Buffer :=
  assert_ (len <=? readableBytes b);;
  if len <? readableBytes b then
    Ok (mkBuffer (buffer_ b) (size_t (readerIndex_ b + len)) (writerIndex_ b))
  else Ok (retrieveAll b).

Definition retrieveUntil (b : Buffer) (end_ : Z) : res Buffer :=
  assert_ (peek b <=? end_);;
  assert_ (end_ <=? beginWrite b);;
  retrieve b (size_t (end_ - peek b)).

Definition retrieveInt64 (b : Buffer) : res Buffer := retrieve b 8.
Definition retrieveInt32 (b : Buffer) : res Buffer := retrieve b 4.
Definition retrieveInt16 (b : Buffer) : res Buffer := retrieve b 2.
Definition retrieveInt8 (b : Buffer) : res Buffer := retrieve b 1.

Definition retrieveAsString (b : Buffer) (len : Z) : res (bytes * Buffer) :=
  assert_ (len <=? readableBytes b);;
  result ← vec_read (buffer_ b) (peek b) len;
  b' ← retrieve b len;
  Ok (result, b').

Definition retrieveAllAsString (b : Buffer) : res (bytes * Buffer) :=
  retrieveAsString b (readableBytes b).

Definition toStringPiece (b : Buffer) : StringPiece :=
  StringPiece_range (Ptr (buffer_ b) (peek b)) (int32 (readableBytes b)).

(** ** Producing *)
Definition hasWritten (b : Buffer) (len : Z) : res Buffer :=
  assert_ (len <=? writableBytes b);;
  Ok (mkBuffer (buffer_ b) (readerIndex_ b) (size_t (writerIndex_ b + len))).

Definition unwrite (b : Buffer) (len : Z) : res Buffer :=
  assert_ (len <=? readableBytes b);;
  Ok (mkBuffer (buffer_ b) (readerIndex_ b) (size_t (writerIndex_ b - len))).

Definition makeSpace (b : Buffer) (len : Z) : res Buffer :=
  if size_t (writableBytes b + prependableBytes b) <? size_t (len + kCheapPrepend) then
    v ← vec_resize (buffer_ b) (size_t (writerIndex_ b + len));
    Ok (mkBuffer v (readerIndex_ b) (writerIndex_ b))
  else
    assert_ (kCheapPrepend <? readerIndex_ b);;
    let readable := readableBytes b in
    l ← vec_read (buffer_ b) (readerIndex_ b) (writerIndex_ b - readerIndex_ b);
    v ← vec_write (buffer_ b) kCheapPrepend l;
    let b' := mkBuffer v kCheapPrepend (size_t (kCheapPrepend + readable)) in
    assert_ (readable =? readableBytes b');;
    Ok b'.

Definition ensureWritableBytes (b : Buffer) (len : Z) : res Buffer :=
  b' ← (if writableBytes b <? len then makeSpace b len else Ok b);
  assert_ (len <=? writableBytes b');;
  Ok b'.

Definition append (b : Buffer) (data : ptr) (len : Z) : res Buffer :=
  b' ← ensureWritableBytes b len;
  d ← ptr_read data len;
  v ← vec_write (buffer_ b') (beginWrite b') d;
  hasWritten (mkBuffer v (readerIndex_ b') (writerIndex_ b')) len.

Definition append_piece (b : Buffer) (str : StringPiece) : res Buffer :=
  append b (data str) (size_t (size str)).

Definition prepend (b : Buffer) (data : ptr) (len : Z) : res Buffer :=
  assert_ (len <=? prependableBytes b);;
  let r := size_t (readerIndex_ b - len) in
  d ← ptr_read data len;
  v ← vec_write (buffer_ b) r d;
  Ok (mkBuffer v r (writerIndex_ b)).

Definition shrink (b : Buffer) (reserve : Z) : res Buffer :=
  other ← muduo_Buffer kInitialSize;
  other ← ensureWritableBytes other (size_t (readableBytes b + reserve));
  other ← append_piece other (toStringPiece b);
  Ok (swap b other).1.

(** ** Integers in network byte order *)
Section integers.
Context {h : Host}.

Definition appendInt64 (b : Buffer) (x : Z) : res Buffer :=
  let be64 := int64 (hostToNetwork64 (uint64 x)) in
  append b (Ptr (store_int 8 be64) 0) 8.
Definition appendInt32 (b : Buffer) (x : Z) : res Buffer :=
  let be32 := int32 (hostToNetwork32 (uint32 x)) in
  append b (Ptr (store_int 4 be32) 0) 4.
Definition appendInt16 (b : Buffer) (x : Z) : res Buffer :=
  let be16 := int16 (hostToNetwork16 (uint16 x)) in
  append b (Ptr (store_int 2 be16) 0) 2.
Definition appendInt8 (b : Buffer) (x : Z) : res Buffer :=
  append b (Ptr (store_int 1 x) 0) 1.

Definition peekInt64 (b : Buffer) : res Z :=
  assert_ (8 <=? readableBytes b);;
  l ← vec_read (buffer_ b) (peek b) 8;
  let be64 := int64 (load_int l) in
  Ok (int64 (networkToHost64 (uint64 be64))).
Definition peekInt32 (b : Buffer) : res Z :=
  assert_ (4 <=? readableBytes b);;
  l ← vec_read (buffer_ b) (peek b) 4;
  let be32 := int32 (load_int l) in
  Ok (int32 (networkToHost32 (uint32 be32))).
Definition peekInt16 (b : Buffer) : res Z :=
  assert_ (2 <=? readableBytes b);;
  l ← vec_read (buffer_ b) (peek b) 2;
  let be16 := int16 (load_int l) in
  Ok (int16 (networkToHost16 (uint16 be16))).
Definition peekInt8 (b : Buffer) : res Z :=
  assert_ (1 <=? readableBytes b);;
  l ← vec_read (buffer_ b) (peek b) 1;
  Ok (int8 (load_int l)).

Definition readInt64 (b : Buffer) : res (Z * Buffer) :=
  result ← peekInt64 b; b' ← retrieveInt64 b; Ok (result, b').
Definition readInt32 (b : Buffer) : res (Z * Buffer) :=
  result ← peekInt32 b; b' ← retrieveInt32 b; Ok (result, b').
Definition readInt16 (b : Buffer) : res (Z * Buffer) :=
  result ← peekInt16 b; b' ← retrieveInt16 b; Ok (result, b').
Definition readInt8 (b : Buffer) : res (Z * Buffer) :=
  result ← peekInt8 b; b' ← retrieveInt8 b; Ok (result, b').

Definition prependInt64 (b : Buffer) (x : Z) : res Buffer :=
  let be64 := int64 (hostToNetwork64 (uint64 x)) in
  prepend b (Ptr (store_int 8 be64) 0) 8.
Definition prependInt32 (b : Buffer) (x : Z) : res Buffer :=
  let be32 := int32 (hostToNetwork32 (uint32 x)) in
  prepend b (Ptr (store_int 4 be32) 0) 4.
Definition prependInt16 (b : Buffer) (x : Z) : res Buffer :=
  let be16 := int16 (hostToNetwork16 (uint16 x)) in
  prepend b (Ptr (store_int 2 be16) 0) 2.
Definition prependInt8 (b : Buffer) (x : Z) : res Buffer :=
  prepend b (Ptr (store_int 1 x) 0) 1.
End integers.

(** ** [readFd]

    [readv] is a system call: its outcome is an argument, an error number or
    the bytes it delivered, which the kernel spreads over the two vectors:
    first the writable part of the buffer, then [extrabuf]. *)
Definition sizeof_extrabuf : Z := 65536.

(** How many bytes the vectors of the call can take. *)
Definition readv_capacity (b : Buffer) : Z :=
  if writableBytes b <? sizeof_extrabuf then writableBytes b + sizeof_extrabuf else writableBytes b.

Inductive io := IoErr (errno : Z) | IoData (d : bytes).

(** The new buffer and the returned [n]; [*savedErrno] for errors. *)
Definition readFd (b : Buffer) (readv : io) : res (Buffer * Z * option Z) :=
  let writable := writableBytes b in
  match readv with
  | IoErr e => Ok (b, -1, Some e)
  | IoData d =>
      let n := zlen d in
      (* what the kernel stored *)
      v ← vec_write (buffer_ b) (writerIndex_ b) (ztake writable d);
      let extrabuf := zdrop writable d in
      if n <=? writable then
        Ok (mkBuffer v (readerIndex_ b) (size_t (writerIndex_ b + n)), n, None)
      else
        b' ← append (mkBuffer v (readerIndex_ b) (zlen v)) (Ptr extrabuf 0) (n - writable);
        Ok (b', n, None)
  end.

(** ** Agreement with [common::net::Buffer] *)
Lemma retrieve_eq b len : retrieve b len = Retrieve b len.
Proof. done. Qed.

Lemma retrieve_wf b n b' : wf b -> 0 <= n -> retrieve b n = Ok b' -> wf b'.
Proof.
  intros Hwf Hn Hr. rewrite retrieve_eq in Hr. destruct (decide (n <= zlen (view b))) as [Hle|Hgt].
  - destruct (Retrieve_spec b n Hwf) as (b1 & Hb1 & ? & _); [lia|]. congruence.
  - unfold Retrieve in Hr. rewrite readable_view in Hr by done.
    by rewrite assert_bind_false in Hr by (apply Z.leb_gt; lia).
Qed.

Lemma ensureWritableBytes_eq b len : ensureWritableBytes b len = EnsureWritableBytes b len.
Proof. done. Qed.

Lemma prepend_eq b p len : prepend b p len = Prepend b p len.
Proof. done. Qed.

(** [hasWritten] adds a check, which holds after the space was ensured. *)
Lemma append_room_eq b p len d : wf b -> ptr_read p len = Ok d -> len <= max_size -> has_room b len ->
  append b p len = Append b p len.
Proof.
  intros Hwf Hd Hmax Hr. destruct (ptr_read_len _ _ _ Hd) as [Hl ?].
  unfold append, Append. rewrite ensureWritableBytes_eq.
  destruct (EnsureWritableBytes_room b len) as (b1 & -> & Hwf1 & Hv1 & Hroom & ? & ?); [done | lia | done|].
  cbn [mbind res_bind]. rewrite Hd. cbn [mbind res_bind]. unfold beginWrite, BeginWrite.
  destruct (vec_write (buffer_ b1) (writerIndex_ b1) d) as [v|] eqn:Hv; [|done]. cbn [mbind res_bind].
  unfold hasWritten. rewrite assert_bind_true; [done|]. apply Z.leb_le. unfold writableBytes. cbn.
  rewrite (vec_write_len _ _ _ _ Hv). open_wf. rewrite size_t_id by lia. lia.
Qed.

Lemma append_eq b p len d : wf b -> ptr_read p len = Ok d -> writerIndex_ b + len <= max_size ->
  append b p len = Append b p len.
Proof. intros Hwf Hd Hm. eapply append_room_eq; [done | done | open_wf; lia | by left]. Qed.

Lemma append_spec b p len d : wf b -> ptr_read p len = Ok d -> writerIndex_ b + len <= max_size ->
  exists b', append b p len = Ok b' /\ wf b' /\ view b' = view b ++ d /\
  readerIndex_ b `min` kCheapPrepend <= readerIndex_ b' /\ writerIndex_ b' <= writerIndex_ b + len.
Proof. intros Hwf Hd Hm. rewrite (append_eq b p len d) by done. by apply Append_spec. Qed.

(** Without the bound, the only other outcome is [std::length_error]. *)
Lemma append_sat b p len d : wf b -> ptr_read p len = Ok d -> len <= max_size ->
  sat (fun b' => wf b' /\ view b' = view b ++ d) (append b p len).
Proof.
  intros Hwf Hd Hmax. destruct (ptr_read_len _ _ _ Hd) as [Hl ?].
  destruct (decide (writerIndex_ b + len <= max_size)) as [Hle|Hgt];
    [|destruct (decide (len + kCheapPrepend <= zlen (buffer_ b) - writerIndex_ b + readerIndex_ b)) as [Hle|Hgt2]].
  1, 2: rewrite (append_room_eq b p len d) by (first [done | by left | by right]);
    destruct (Append_room b p len d) as (b' & -> & ? & ? & _); [done | done | done | first [by left | by right]|]; done.
  unfold append, ensureWritableBytes, makeSpace. change (writableBytes b) with (WritableBytes b).
  change (prependableBytes b) with (readerIndex_ b). rewrite writable_wf by done. open_wf.
  rewrite (proj2 (Z.ltb_lt _ _)) by lia. rewrite !size_t_id by lia.
  rewrite (proj2 (Z.ltb_lt _ _)) by lia. unfold vec_resize, max_size. rewrite (proj2 (Z.leb_gt (writerIndex_ b + len) (2 ^ 63 - 1))) by lia. done.
Qed.

Lemma shrink_eq b reserve : wf b -> zlen (view b) < 2 ^ 31 -> 0 <= reserve ->
  kCheapPrepend + zlen (view b) + reserve <= max_size -> shrink b reserve = Shrink b reserve.
Proof.
  intros Hwf Hlt Hres Hmax. unfold shrink, Shrink.
  change (muduo_Buffer kInitialSize) with new_Buffer. zlen_pos.
  destruct new_Buffer_spec as (o & -> & Hwo & Hvo & Hro & Hwro). cbn [mbind res_bind].
  change (readableBytes b) with (ReadableBytes b). rewrite readable_view by done.
  open_wf. rewrite size_t_id by lia. rewrite ensureWritableBytes_eq.
  destruct (EnsureWritableBytes_spec o (zlen (view b) + reserve)) as
    (o1 & -> & Hwf1 & Hv1 & Hroom & Hr1 & Hw1); [done | lia | unfold max_size; lia |].
  cbn [mbind res_bind]. unfold append_piece, Append_piece, toStringPiece, ToStringPiece, StringPiece_range.
  cbn [data size ptr_ length_]. change (readableBytes b) with (ReadableBytes b).
  rewrite readable_view, int32_id, size_t_id by (done || lia).
  rewrite (append_eq o1 _ _ (view b)); [done | done | | unfold max_size; lia].
  unfold peek. rewrite ptr_read_ok; rewrite ?zlen_view by done; [done | lia..].
Qed.

(** The operations of the queue specification, on this class. *)
Section refinement.
Context {h : Host}.
Import Spec.

Definition muduo_op (b : Buffer) (o : op) : res (output * Buffer) :=
  match o with
  | OpAppend d => none_out (append b (Ptr d 0) (zlen d))
  | OpAppendInt32 x => none_out (appendInt32 b x)
  | OpPrepend d => none_out (prepend b (Ptr d 0) (zlen d))
  | OpPrependInt32 x => none_out (prependInt32 b x)
  | OpEnsure n => none_out (ensureWritableBytes b n)
  | OpRetrieve n => none_out (retrieve b n)
  | OpRetrieveAll => Ok (ONone, retrieveAll b)
  | OpRetrieveAsString n => '(s, b') ← retrieveAsString b n; Ok (OString s, b')
  | OpReadInt32 => '(x, b') ← readInt32 b; Ok (OInt x, b')
  | OpPeekInt32 => x ← peekInt32 b; Ok (OInt x, b)
  | OpShrink reserve => none_out (shrink b reserve)
  end.

Fixpoint muduo_ops (b : Buffer) (ops : list op) : res (list output * Buffer) :=
  match ops with
  | [] => Ok ([], b)
  | o :: ops =>
      '(r, b1) ← muduo_op b o; '(rs, b2) ← muduo_ops b1 ops; Ok (r :: rs, b2)
  end.

Lemma muduo_op_eq b q o r q' : sim b q -> Spec.step q o = Some (r, q') -> muduo_op b o = do_op b o.
Proof.
  intros [Hwf Hv Hroom Htail] Hq. destruct o; cbn [muduo_op do_op Spec.step] in *; try done.
  - unfold Spec.push in Hq. case_match eqn:E; [|done]. unbool.
    by rewrite (append_eq b _ _ d) by (done || apply ptr_read_all || lia).
  - unfold Spec.push in Hq. rewrite zlen_be_bytes in Hq. case_match eqn:E; [|done]. unbool.
    unfold appendInt32, AppendInt32. erewrite append_eq; [done | done | | lia].
    apply ptr_read_exact, zlen_store_int.
  - case_match eqn:E; [|done]. unbool. rewrite shrink_eq; [done | done | | done |];
      rewrite Hv; unfold kCheapPrepend; lia.
Qed.

Lemma muduo_ops_refine b q ops rs q' : sim b q -> Spec.run q ops = Some (rs, q') ->
  exists b', muduo_ops b ops = Ok (rs, b') /\ do_ops b ops = Ok (rs, b') /\ sim b' q'.
Proof.
  revert b q rs q'. induction ops as [|o ops IH]; intros b q rs q' Hs Hrun; cbn in *.
  { simplify_eq. by exists b. }
  apply bind_Some in Hrun as ([r q1] & Hq1 & Hrun).
  apply bind_Some in Hrun as ([rs' q2] & Hq2 & Hrun). simplify_eq.
  rewrite (muduo_op_eq _ _ _ _ _ Hs Hq1).
  destruct (do_op_refines _ _ _ _ _ Hs Hq1) as (b1 & -> & Hs1).
  destruct (IH _ _ _ _ Hs1 Hq2) as (b2 & Hb2 & Hb2' & Hs2). exists b2. cbn. by rewrite Hb2, Hb2'.
Qed.

(** ** Own operations *)
Lemma unwrite_spec b len : wf b -> 0 <= len <= zlen (view b) -> exists b',
  unwrite b len = Ok b' /\ wf b' /\ view b' = ztake (zlen (view b) - len) (view b).
Proof.
  intros Hwf Hlen. unfold unwrite. change (readableBytes b) with (ReadableBytes b).
  rewrite readable_view by done. rewrite assert_bind_true by (apply Z.leb_le; lia).
  pose proof (zlen_view b Hwf) as Hv. eexists; split; [done|]. open_wf. rewrite size_t_id by lia.
  split; [solve_wf|]. unfold view at 1. cbn. rewrite Hv. unfold view. rewrite ztake_ztake by lia. f_equal. lia.
Qed.

Lemma readFd_sat b d : wf b -> zlen d <= readv_capacity b -> zlen d <= max_size ->
  sat (fun '(b', n, e) => wf b' /\ view b' = view b ++ d /\ n = zlen d /\ e = None) (readFd b (IoData d)).
Proof.
  intros Hwf Hcap Hmax. unfold readFd, readv_capacity, sizeof_extrabuf in *.
  change (writableBytes b) with (WritableBytes b) in *. rewrite writable_wf in * by done.
  set (w := zlen (buffer_ b) - writerIndex_ b) in *. assert (0 <= w) by (open_wf; unfold w; lia). zlen_pos.
  assert (Hd : zlen (ztake w d) = zlen d `min` w).
  { destruct (decide (w <= zlen d)); [rewrite zlen_take by lia; lia | rewrite ztake_all by lia; lia]. }
  destruct (write_tail_spec b (ztake w d)) as (v & HW & Hwf1 & Hv1 & Hr1 & Hw1); [done | lia|].
  unfold BeginWrite in HW. rewrite HW. cbn [mbind res_bind]. pose proof (vec_write_len _ _ _ _ HW) as Hlv.
  unfold HasWritten in *. cbn [buffer_ readerIndex_ writerIndex_] in *. rewrite Hd in *.
  destruct (Z.leb_spec (zlen d) w).
  - rewrite Z.min_l in * by lia. rewrite (ztake_all w d) in Hv1 by lia. done.
  - rewrite Z.min_r in * by lia. replace (writerIndex_ b + w) with (zlen v) in * by lia.
    assert (Hsz : size_t (zlen v) = zlen v) by (apply size_t_id; open_wf; zlen_lia). rewrite Hsz in *.
    apply sat_bind. eapply sat_mono, (append_sat _ (Ptr (zdrop w d) 0) _ (zdrop w d)); [|done | | lia].
    + intros b' [Hwf' Hv']. cbn. split_and!; try done. rewrite Hv', Hv1, <- app_assoc. by rewrite ztake_zdrop.
    + apply ptr_read_exact. zlen_lia.
Qed.

(** The end of the stream leaves the content alone. *)
Lemma readFd_eof b : wf b -> exists b', readFd b (IoData []) = Ok (b', 0, None).
Proof.
  intros Hwf. unfold readFd. rewrite zlen_nil. change (writableBytes b) with (WritableBytes b).
  rewrite writable_wf by done. replace (ztake _ []) with (@nil byte) by (unfold ztake; by rewrite take_nil).
  open_wf. rewrite vec_write_ok by (rewrite ?zlen_nil; lia). cbn [mbind res_bind].
  rewrite (proj2 (Z.leb_le 0 _)) by lia. by eexists.
Qed.

Lemma readFd_spec b d : wf b -> zlen d <= readv_capacity b -> zlen (buffer_ b) + sizeof_extrabuf <= max_size ->
  exists b', readFd b (IoData d) = Ok (b', zlen d, None) /\ wf b' /\ view b' = view b ++ d.
Proof.
  intros Hwf Hcap Hmax. unfold readFd, readv_capacity, sizeof_extrabuf in *.
  change (writableBytes b) with (WritableBytes b) in *. rewrite writable_wf in * by done.
  set (w := zlen (buffer_ b) - writerIndex_ b) in *. assert (0 <= w) by (open_wf; unfold w; lia). zlen_pos.
  assert (Hd : zlen (ztake w d) = zlen d `min` w).
  { destruct (decide (w <= zlen d)); [rewrite zlen_take by lia; lia | rewrite ztake_all by lia; lia]. }
  destruct (write_tail_spec b (ztake w d)) as (v & HW & Hwf1 & Hv1 & Hr1 & Hw1); [done | lia|].
  unfold BeginWrite in HW. rewrite HW. cbn [mbind res_bind]. pose proof (vec_write_len _ _ _ _ HW) as Hlv.
  unfold HasWritten in *. cbn [buffer_ readerIndex_ writerIndex_] in *. rewrite Hd in *.
  destruct (Z.leb_spec (zlen d) w).
  - rewrite Z.min_l in * by lia. eexists; split; [done|]. rewrite (ztake_all w d) in Hv1 by lia. by split.
  - rewrite Z.min_r in * by lia. replace (writerIndex_ b + w) with (zlen v) in * by lia.
    assert (Hsz : size_t (zlen v) = zlen v) by (apply size_t_id; open_wf; zlen_lia). rewrite Hsz in *.
    destruct (append_spec (mkBuffer v (readerIndex_ b) (zlen v)) (Ptr (zdrop w d) 0) (zlen d - w) (zdrop w d))
      as (b' & -> & Hwf' & Hv' & _ & _); [done | apply ptr_read_exact; zlen_lia | | ].
    { cbn. destruct (w <? 65536); unfold max_size in *; lia. }
    eexists; split; [done|]. split; [done|]. rewrite Hv', Hv1, <- app_assoc. by rewrite ztake_zdrop.
Qed.

Lemma peekInt64_spec b : wf b -> 8 <= zlen (view b) -> peekInt64 b = Ok (int64 (be_value (ztake 8 (view b)))).
Proof.
  intros Hwf Hl. unfold peekInt64. change (readableBytes b) with (ReadableBytes b). rewrite readable_view by done.
  rewrite assert_bind_true by (apply Z.leb_le; lia).
  pose proof (vec_read_view b 0 8 Hwf ltac:(lia) ltac:(lia) ltac:(lia)) as Hr.
  rewrite Z.add_0_r, zdrop_0 in Hr. unfold peek. rewrite Hr. cbn [mbind res_bind].
  pose proof (load_signed 64 (ztake 8 (view b))) as HL.
  replace (length (ztake 8 (view b))) with 8%nat in HL
    by (unfold zlen, ztake in *; rewrite length_take; lia).
  unfold networkToHost64, int64, uint64. rewrite HL; [done | by rewrite zlen_take by lia | done].
Qed.
End refinement.

(** Muduo's buffer and airnet's copy are the same queue. On every sequence
    of operations the queue specification accepts, both classes run without a
    fault, return the specification's results, and end in the same state. *)
Theorem muduo_buffer_same_queue {h : Host} ops rs q :
  Spec.run (Spec.mkQueue [] kCheapPrepend kCheapPrepend) ops = Some (rs, q) ->
  exists b0 b, muduo_Buffer kInitialSize = Ok b0 /\ new_Buffer = Ok b0 /\
    muduo_ops b0 ops = Ok (rs, b) /\ do_ops b0 ops = Ok (rs, b) /\ wf b /\ view b = Spec.content q.
Proof.
  intros Hrun. destruct new_Buffer_spec as (b0 & Hb0 & Hwf & Hv & Hr & Hw).
  assert (Hs : sim b0 (Spec.mkQueue [] kCheapPrepend kCheapPrepend))
    by (split; cbn; [done | done | lia | lia]).
  destruct (muduo_ops_refine b0 _ ops rs q Hs Hrun) as (b & Hb & Hb' & [? ? ? ?]).
  by exists b0, b.
Qed.

Lemma muduo_buffer_same_queue_witness :
  exists b0 b, muduo_Buffer kInitialSize = Ok b0 /\ new_Buffer = Ok b0 /\
    muduo_ops (h := BigEndian) b0 [Spec.OpAppend [Byte.x61]; Spec.OpAppendInt32 7; Spec.OpRetrieve 1; Spec.OpReadInt32]
    = Ok ([Spec.ONone; Spec.ONone; Spec.ONone; Spec.OInt 7], b) /\
    do_ops (h := BigEndian) b0 [Spec.OpAppend [Byte.x61]; Spec.OpAppendInt32 7; Spec.OpRetrieve 1; Spec.OpReadInt32]
    = Ok ([Spec.ONone; Spec.ONone; Spec.ONone; Spec.OInt 7], b) /\ wf b /\ view b = [].
Proof.
  apply (@muduo_buffer_same_queue BigEndian _ _ (Spec.mkQueue [] 8 13)). vm_compute. reflexivity.
Defined.

(** [readFd] appends exactly what the kernel delivered, in order, whether
    it fitted in the writable part or spilled into the 64 KiB stack buffer,
    and returns its length. *)
Theorem readFd_appends b d : wf b -> zlen d <= readv_capacity b ->
  zlen (buffer_ b) + sizeof_extrabuf <= max_size ->
  exists b', readFd b (IoData d) = Ok (b', zlen d, None) /\ wf b' /\ view b' = view b ++ d.
Proof. apply readFd_spec. Qed.

(** A buffer with room for two bytes receives three. *)
Definition tight : Buffer := mkBuffer (repeat Byte.x00 11) 8 9.
Lemma readFd_appends_witness :
  wf tight /\ writableBytes tight = 2 /\
  exists b', readFd tight (IoData [Byte.x61; Byte.x62; Byte.x63]) = Ok (b', 3, None) /\ wf b' /\
    view b' = [Byte.x00; Byte.x61; Byte.x62; Byte.x63].
Proof.
  assert (Hw : wf tight) by (split; vm_compute; intuition discriminate).
  split; [exact Hw | split; [reflexivity|]].
  apply (readFd_appends tight [Byte.x61; Byte.x62; Byte.x63] Hw); vm_compute; discriminate.
Defined.

(** 64-bit integers survive the wire between any two hosts: what
    [appendInt64] writes after arbitrary content, a reader that consumed that
    content gets back from [readInt64]. *)
Theorem int64_roundtrip (h1 h2 : Host) b x : wf b -> in_s 64 x -> writerIndex_ b + 8 <= max_size ->
  exists b1 b2 b3, @appendInt64 h1 b x = Ok b1 /\ retrieve b1 (zlen (view b)) = Ok b2 /\
    @readInt64 h2 b2 = Ok (x, b3) /\ view b3 = [].
Proof.
  intros Hwf Hx Hmax.
  destruct (append_spec b (Ptr (@store_int h1 8 (int64 (@hostToNetwork64 h1 (uint64 x)))) 0) 8 (be_bytes 8 x))
    as (b1 & Ha & Hw1 & Hv1 & _); [done | | done |].
  { rewrite <- (@store_signed h1 8 64 x) by done. apply ptr_read_exact, zlen_store_int. }
  assert (Hl : zlen (view b1) = zlen (view b) + 8) by (rewrite Hv1; zlen_lia).
  destruct (Retrieve_spec b1 (zlen (view b))) as (b2 & HR & Hw2 & Hv2 & _); [done | zlen_lia|].
  rewrite Hv1, zdrop_app_r, Z.sub_diag, zdrop_0 in Hv2 by lia.
  destruct (Retrieve_spec b2 8) as (b3 & HR3 & _ & Hv3 & _); [done | rewrite Hv2; zlen_lia|].
  exists b1, b2, b3. split_and!; [done | done | | rewrite Hv3, Hv2; apply zdrop_all; zlen_lia].
  unfold readInt64. rewrite (@peekInt64_spec h2 b2) by (done || (rewrite Hv2; zlen_lia)). cbn [mbind res_bind].
  unfold retrieveInt64. rewrite retrieve_eq, HR3. cbn [mbind res_bind]. do 2 f_equal.
  rewrite Hv2, ztake_all, be_value_bytes by zlen_lia. change (Z.of_nat 8 * 8) with 64.
  unfold int64. change (x mod 2 ^ 64) with (wrap 64 x). rewrite swrap_wrap by done. by apply swrap_id.
Qed.

Lemma int64_roundtrip_witness :
  exists b1 b2 b3, @appendInt64 LittleEndian tight (-5) = Ok b1 /\ retrieve b1 1 = Ok b2 /\
    @readInt64 BigEndian b2 = Ok (-5, b3) /\ view b3 = [].
Proof.
  apply (int64_roundtrip LittleEndian BigEndian tight (-5)).
  - split; vm_compute; intuition discriminate.
  - split; vm_compute; congruence.
  - vm_compute. discriminate.
Defined.
