(* ===== verification/MuduoBufferSafe.v ===== *)
(** * muduo's buffer is memory safe

    Every public operation of [muduo::net::Buffer], with any arguments of the
    right type, on any buffer that other operations made: it leaves a well-formed
    buffer, or an assertion fails, or [std::vector] refuses to grow. Nothing is
    read or written outside the vector, whatever the caller asks for. *)
From S2P Require Import Prelude Endian StringPiece Buffer MuduoBuffer.

(** The outcomes a caller of a class with assertions has to expect. *)
Definition guarded {A} (Q : A -> Prop) (m : res A) : Prop :=
  match m with
  | Ok a => Q a
  | Fail FAssert | Fail FLength => True
  | Fail _ => False
  end.

Lemma guarded_bind {A B} (Q : B -> Prop) (m : res A) (k : A -> res B) : guarded (fun a => guarded Q (k a)) m -> guarded Q (m ≫= k).
Proof. by destruct m as [|[]]. Qed.
Lemma guarded_assert {A} (Q : A -> Prop) b (k : unit -> res A) : (b = true -> guarded Q (k tt)) -> guarded Q (assert_ b ≫= k).
Proof. destruct b; cbn; auto. Qed.
Lemma guarded_mono {A} (Q Q' : A -> Prop) m : (forall a, Q a -> Q' a) -> guarded Q m -> guarded Q' m.
Proof. intros H. destruct m as [|[]]; cbn; auto. Qed.
Lemma guarded_sat {A} (Q : A -> Prop) m : sat Q m -> guarded Q m.
Proof. by destruct m as [|[]]. Qed.

Inductive width := W8 | W16 | W32 | W64.

(** A call with its arguments; pointers into the buffer are offsets. *)
Inductive bcall :=
  | CAppend (d : bytes) | CPrepend (d : bytes)
  | CRetrieve (len : Z) | CRetrieveUntil (end_ : Z) | CRetrieveAll | CRetrieveAsString (len : Z) | CRetrieveAllAsString
  | CEnsureWritableBytes (len : Z) | CHasWritten (len : Z) | CUnwrite (len : Z) | CShrink (reserve : Z)
  | CAppendInt (w : width) (x : Z) | CPrependInt (w : width) (x : Z) | CPeekInt (w : width) | CReadInt (w : width)
  | CFindCRLF | CFindCRLF_from (start : Z) | CFindEOL | CFindEOL_from (start : Z)
  | CReadFd (r : io).

Section calls.
Context {h : Host}.

Definition state_of {A} (r : res (A * Buffer)) : res Buffer := '(_, b) ← r; Ok b.
Definition kept {A} (b : Buffer) (r : res A) : res Buffer := _ ← r; Ok b.

(** The buffer after a call; the results do not matter here. *)
Definition do_call (b : Buffer) (c : bcall) : res Buffer :=
  match c with
  | CAppend d => append b (Ptr d 0) (zlen d)
  | CPrepend d => prepend b (Ptr d 0) (zlen d)
  | CRetrieve len => retrieve b len
  | CRetrieveUntil end_ => retrieveUntil b end_
  | CRetrieveAll => Ok (retrieveAll b)
  | CRetrieveAsString len => state_of (retrieveAsString b len)
  | CRetrieveAllAsString => state_of (retrieveAllAsString b)
  | CEnsureWritableBytes len => ensureWritableBytes b len
  | CHasWritten len => hasWritten b len
  | CUnwrite len => unwrite b len
  | CShrink reserve => shrink b reserve
  | CAppendInt W8 x => appendInt8 b x | CAppendInt W16 x => appendInt16 b x
  | CAppendInt W32 x => appendInt32 b x | CAppendInt W64 x => appendInt64 b x
  | CPrependInt W8 x => prependInt8 b x | CPrependInt W16 x => prependInt16 b x
  | CPrependInt W32 x => prependInt32 b x | CPrependInt W64 x => prependInt64 b x
  | CPeekInt W8 => kept b (peekInt8 b) | CPeekInt W16 => kept b (peekInt16 b)
  | CPeekInt W32 => kept b (peekInt32 b) | CPeekInt W64 => kept b (peekInt64 b)
  | CReadInt W8 => state_of (readInt8 b) | CReadInt W16 => state_of (readInt16 b)
  | CReadInt W32 => state_of (readInt32 b) | CReadInt W64 => state_of (readInt64 b)
  | CFindCRLF => kept b (findCRLF b)
  | CFindCRLF_from start => kept b (findCRLF_from b start)
  | CFindEOL => kept b (findEOL b)
  | CFindEOL_from start => kept b (findEOL_from b start)
  | CReadFd r => '(b, _, _) ← readFd b r; Ok b
  end.

(** The arguments the theorem is about: objects have at most [max_size] bytes, a
    length is a [size_t], the kernel fills the vectors it got; the space asked
    for does not make the sums [len + kCheapPrepend] and [writerIndex_ + len] of
    [makeSpace] wrap around; and at most 2 GB are in a buffer that is shrunk,
    which goes through the [int] length of a [StringPiece]. *)
Definition arguments (b : Buffer) (c : bcall) : bool :=
  match c with
  | CAppend d | CPrepend d => zlen d <=? max_size
  | CRetrieve len | CRetrieveAsString len | CHasWritten len | CUnwrite len => (0 <=? len) && (len <? 2 ^ 64)
  | CEnsureWritableBytes len => (0 <=? len) && (len + kCheapPrepend <? 2 ^ 64) && (writerIndex_ b + len <? 2 ^ 64)
  | CShrink reserve => (0 <=? reserve) && (zlen (view b) + reserve + kCheapPrepend <? 2 ^ 64) && (zlen (view b) <? 2 ^ 31)
  | CReadFd (IoData d) => (zlen d <=? readv_capacity b) && (zlen d <=? max_size)
  | _ => true
  end.

(** ** Each call *)
Lemma append_guarded b p len d : wf b -> ptr_read p len = Ok d -> len <= max_size -> guarded wf (append b p len).
Proof. intros Hwf Hd Hm. apply guarded_sat. eapply sat_mono, append_sat; [|done..]. by intros b' [? _]. Qed.

Lemma prepend_guarded b p len d : wf b -> ptr_read p len = Ok d -> guarded wf (prepend b p len).
Proof.
  intros Hwf Hd. destruct (decide (len <= readerIndex_ b)) as [Hle|Hgt].
  - rewrite prepend_eq. destruct (Prepend_spec b p len d) as (b' & -> & ? & _); done.
  - unfold prepend, prependableBytes. apply guarded_assert. intros ?%Z.leb_le. lia.
Qed.

Lemma retrieve_guarded b len : wf b -> 0 <= len -> guarded wf (retrieve b len).
Proof.
  intros Hwf Hl. destruct (retrieve b len) as [b'|f] eqn:E; [by eapply retrieve_wf|].
  unfold retrieve in E. destruct (len <=? readableBytes b); cbn in E; [|by injection E as <-]. by destruct (len <? readableBytes b).
Qed.

Lemma readable_range b : wf b -> readableBytes b = writerIndex_ b - readerIndex_ b /\ 0 <= readableBytes b <= zlen (buffer_ b).
Proof. intros Hwf. change (readableBytes b) with (ReadableBytes b). rewrite readable_wf by done. open_wf. lia. Qed.

Lemma retrieveAsString_guarded b len : wf b -> 0 <= len -> guarded wf (state_of (retrieveAsString b len)).
Proof.
  intros Hwf Hl. unfold state_of, retrieveAsString. apply guarded_bind, guarded_assert. intros Hle%Z.leb_le.
  destruct (readable_range b Hwf) as [E ?]. open_wf. unfold peek. rewrite vec_read_ok by lia. cbn [mbind res_bind].
  apply guarded_bind. eapply guarded_mono; [|by apply retrieve_guarded]. done.
Qed.

Lemma ensure_guarded b len : wf b -> 0 <= len -> len + kCheapPrepend < 2 ^ 64 -> writerIndex_ b + len < 2 ^ 64 ->
  guarded wf (ensureWritableBytes b len).
Proof.
  intros Hwf Hl Hk Hw. unfold kCheapPrepend in Hk.
  assert (0 <= writerIndex_ b /\ zlen (buffer_ b) - writerIndex_ b + readerIndex_ b <= max_size) by (open_wf; lia).
  destruct (decide (writerIndex_ b + len <= max_size)) as [Hle|Hgt];
    [|destruct (decide (len + kCheapPrepend <= zlen (buffer_ b) - writerIndex_ b + readerIndex_ b)) as [Hle|Hgt2]].
  1, 2: rewrite ensureWritableBytes_eq; destruct (EnsureWritableBytes_room b len) as (b' & -> & ? & _);
    [done | unfold kCheapPrepend in *; lia | first [by left | by right] | done].
  unfold ensureWritableBytes, makeSpace. change (writableBytes b) with (WritableBytes b). change (prependableBytes b) with (readerIndex_ b).
  rewrite writable_wf by done. open_wf. rewrite (proj2 (Z.ltb_lt _ _)) by lia. rewrite !size_t_id by (unfold kCheapPrepend in *; lia).
  rewrite (proj2 (Z.ltb_lt _ _)) by lia.
  unfold vec_resize, max_size. by rewrite (proj2 (Z.leb_gt (writerIndex_ b + len) (2 ^ 63 - 1))) by (unfold max_size in *; lia).
Qed.

Lemma hasWritten_guarded b len : wf b -> 0 <= len -> guarded wf (hasWritten b len).
Proof.
  intros Hwf Hl. unfold hasWritten. apply guarded_assert. change (writableBytes b) with (WritableBytes b). rewrite writable_wf by done.
  intros Hle%Z.leb_le. open_wf. rewrite size_t_id by lia. cbn. solve_wf.
Qed.

Lemma unwrite_guarded b len : wf b -> 0 <= len -> guarded wf (unwrite b len).
Proof.
  intros Hwf Hl. unfold unwrite. apply guarded_assert. destruct (readable_range b Hwf) as [E ?]. intros Hle%Z.leb_le. open_wf.
  rewrite size_t_id by lia. cbn. solve_wf.
Qed.

Lemma shrink_guarded b reserve : wf b -> 0 <= reserve -> zlen (view b) + reserve + kCheapPrepend < 2 ^ 64 -> zlen (view b) < 2 ^ 31 ->
  guarded wf (shrink b reserve).
Proof.
  intros Hwf Hr Hs Hv. zlen_pos. unfold shrink. change (muduo_Buffer kInitialSize) with new_Buffer.
  destruct new_Buffer_spec as (o & -> & Hwo & Hvo & _ & Hwro). cbn [mbind res_bind]. change (readableBytes b) with (ReadableBytes b).
  rewrite readable_view by done. unfold kCheapPrepend in *. rewrite size_t_id by lia. apply guarded_bind.
  eapply guarded_mono; [|apply ensure_guarded; [done | lia | unfold kCheapPrepend; lia | rewrite Hwro; lia]]. intros o1 Ho1. apply guarded_bind.
  unfold append_piece, toStringPiece, StringPiece_range. cbn [data size ptr_ length_]. change (readableBytes b) with (ReadableBytes b).
  rewrite readable_view, int32_id, size_t_id by (done || lia). eapply guarded_mono; [|eapply (append_guarded o1 _ _ (view b))].
  - intros o2 Ho2. cbn. by destruct o2.
  - done.
  - unfold peek. open_wf. rewrite ptr_read_ok by (rewrite ?zlen_view by done; lia). by rewrite zlen_view.
  - unfold max_size. lia.
Qed.

(** Integers: [n] bytes at the front, or the assertion fails. *)
Lemma peek_guarded {A} b n (k : bytes -> A) : wf b -> 0 <= n ->
  guarded (fun _ => n <= readableBytes b) (assert_ (n <=? readableBytes b);; l ← vec_read (buffer_ b) (peek b) n; Ok (k l)).
Proof.
  intros Hwf Hn. apply guarded_assert. intros Hle%Z.leb_le. destruct (readable_range b Hwf) as [E ?]. open_wf. unfold peek.
  by rewrite vec_read_ok by lia.
Qed.

Lemma read_guarded {A} b n (k : bytes -> A) : wf b -> 0 <= n ->
  guarded wf (state_of (r ← (assert_ (n <=? readableBytes b);; l ← vec_read (buffer_ b) (peek b) n; Ok (k l)); b' ← retrieve b n; Ok (r, b'))).
Proof.
  intros Hwf Hn. apply guarded_bind, guarded_bind. eapply guarded_mono; [|by apply peek_guarded]. intros r _. apply guarded_bind.
  eapply guarded_mono; [|by apply retrieve_guarded]. done.
Qed.

Lemma kept_guarded {A} b (r : res A) : wf b -> guarded (fun _ => True) r -> guarded wf (kept b r).
Proof. intros Hwf Hr. apply guarded_bind. eapply guarded_mono; [|done]. done. Qed.

Lemma search_guarded {A} b start len (k : bytes -> A) : wf b -> readerIndex_ b <= start -> 0 <= len -> start + len <= writerIndex_ b ->
  guarded (fun _ => True) (l ← vec_read (buffer_ b) start len; Ok (k l)).
Proof. intros Hwf ? ? ?. open_wf. by rewrite vec_read_ok by lia. Qed.

Lemma readFd_guarded b r : wf b -> match r with IoData d => zlen d <= readv_capacity b /\ zlen d <= max_size | IoErr _ => True end ->
  guarded wf ('(b, _, _) ← readFd b r; Ok b).
Proof.
  intros Hwf Hr. apply guarded_bind. destruct r as [e|d]; [done|]. destruct Hr as [Hc Hm].
  eapply guarded_mono; [|apply guarded_sat, (readFd_sat b d); done]. by intros [[b' n] e] (? & _).
Qed.

Lemma do_call_guarded b c : wf b -> arguments b c = true -> guarded wf (do_call b c).
Proof.
  intros Hwf Ha. destruct (readable_range b Hwf) as [Hrd ?]. assert (wf (retrieveAll b)) by (unfold retrieveAll; solve_wf).
  destruct c as [d|d|n|e| |n| |n|n|n|n|w x|w x|w|w| |st| |st|r]; cbn [do_call arguments] in *; unbool.
  - eapply append_guarded; [done | apply ptr_read_all | done].
  - eapply prepend_guarded; [done | apply ptr_read_all].
  - by apply retrieve_guarded.
  - unfold retrieveUntil. apply guarded_assert. intros ?%Z.leb_le. apply guarded_assert. intros ?%Z.leb_le. unfold peek, beginWrite in *.
    apply retrieve_guarded; [done|]. open_wf. rewrite size_t_id by lia. lia.
  - done.
  - by apply retrieveAsString_guarded.
  - apply retrieveAsString_guarded; [done | lia].
  - by apply ensure_guarded.
  - by apply hasWritten_guarded.
  - by apply unwrite_guarded.
  - by apply shrink_guarded.
  - destruct w; (eapply append_guarded; [done | apply ptr_read_exact, zlen_store_int | done]).
  - destruct w; (eapply prepend_guarded; [done | apply ptr_read_exact, zlen_store_int]).
  - destruct w; apply kept_guarded; try done; (eapply guarded_mono; [|by apply peek_guarded]; done).
  - destruct w; by apply read_guarded.
  - apply kept_guarded; [done|]. apply search_guarded; unfold peek, beginWrite; open_wf; (done || lia).
  - apply kept_guarded; [done|]. unfold findCRLF_from. apply guarded_assert. intros ?%Z.leb_le. apply guarded_assert. intros ?%Z.leb_le.
    unfold peek, beginWrite in *. apply search_guarded; (done || lia).
  - apply kept_guarded; [done|]. unfold findEOL. rewrite Hrd. apply search_guarded; unfold peek; open_wf; (done || lia).
  - apply kept_guarded; [done|]. unfold findEOL_from. apply guarded_assert. intros ?%Z.leb_le. apply guarded_assert. intros ?%Z.leb_le.
    unfold peek, beginWrite in *. apply search_guarded; (done || lia).
  - apply readFd_guarded; [done|]. destruct r; [done|]. unbool. done.
Qed.

(** A program of calls; [None]: a call got other arguments. *)
Fixpoint do_calls (b : Buffer) (cs : list bcall) : option (res Buffer) :=
  match cs with
  | [] => Some (Ok b)
  | c :: cs =>
      if arguments b c then match do_call b c with Ok b => do_calls b cs | Fail f => Some (Fail f) end
      else None
  end.

Lemma muduo_Buffer_wf n b : 0 <= n -> n + kCheapPrepend < 2 ^ 64 -> muduo_Buffer n = Ok b -> wf b.
Proof.
  intros Hn Hk (v & Hv & Hb)%bind_inv. do 3 apply bind_inv in Hb as (_ & _ & Hb). injection Hb as <-.
  unfold kCheapPrepend in Hk. assert (E : size_t (kCheapPrepend + n) = 8 + n) by (unfold kCheapPrepend; rewrite size_t_id; lia).
  rewrite E in Hv. unfold vec_resize in Hv. destruct (8 + n <=? max_size) eqn:Em; [|done]. unbool. cbn [check mbind res_bind] in Hv.
  rewrite zlen_nil, (proj2 (Z.leb_gt (8 + n) 0)) in Hv by lia. injection Hv as <-.
  assert (zlen (repeat Byte.x00 (Z.to_nat (8 + n - 0))) = 8 + n) by (unfold zlen; rewrite repeat_length; lia).
  split; cbn [buffer_ readerIndex_ writerIndex_ app]; unfold kCheapPrepend, max_size in *; lia.
Qed.

(** C6: a buffer stays a buffer. A buffer of any initial size less than
    [2^64 - 8], under any sequence of calls of its public operations with
    arguments whose sums do not wrap around ([arguments]: any [size_t] lengths
    for what is taken, written or unwritten, objects of at most 2^63-1 bytes;
    the space asked for plus 8 or plus [writerIndex_] is less than 2^64; a
    shrunk buffer has less than 2 GB), is well-formed after each of them
    ([0 <= readerIndex_ <= writerIndex_ <= size()]), or the program stops in a
    failed assertion or in [std::length_error]; no call reads or writes outside
    the vector. [huge_space_breaks] shows the case that is left out. *)
Theorem muduo_buffer_typed initialSize cs r : 0 <= initialSize -> initialSize + kCheapPrepend < 2 ^ 64 ->
  (b ← muduo_Buffer initialSize; Ok (do_calls b cs)) = Ok (Some r) -> guarded wf r.
Proof.
  intros Hi Hk Hr. apply bind_inv in Hr as (b & Hb & [= Hr]). apply muduo_Buffer_wf in Hb as Hwf; [|done..].
  clear Hb. revert b Hwf Hr. induction cs as [|c cs IH]; intros b Hwf Hr; cbn [do_calls] in Hr; [by injection Hr as <-|].
  destruct (arguments b c) eqn:Ea; [|done]. pose proof (do_call_guarded b c Hwf Ea) as Hc. destruct (do_call b c) as [b1|f].
  - by apply (IH b1).
  - injection Hr as <-. exact Hc.
Qed.
End calls.

(** A program of calls that ends in a failed assertion: more is taken than there is. *)
Definition greedy : list bcall :=
  [CAppend [Byte.x61; Byte.x0d; Byte.x0a]; CFindCRLF; CPrependInt W32 7; CReadInt W32; CShrink 10; CReadFd (IoData [Byte.x62]); CUnwrite 1; CRetrieve 4].

Lemma muduo_buffer_typed_witness : guarded wf (Fail FAssert) /\
  (b ← muduo_Buffer 16; Ok (do_calls (h := LittleEndian) b greedy)) = Ok (Some (Fail FAssert)).
Proof.
  assert (H : (b ← muduo_Buffer 16; Ok (do_calls (h := LittleEndian) b greedy)) = Ok (Some (Fail FAssert))) by (vm_compute; reflexivity).
  split; [|exact H]. apply (muduo_buffer_typed (h := LittleEndian) 16 greedy (Fail FAssert)); [vm_compute; discriminate | vm_compute; reflexivity | exact H].
Defined.

(** With 60 bytes in the buffer, a request for 2^64 - 50 bytes of space passes
    both tests: [resize] gets the wrapped sum and makes the vector shorter than
    [writerIndex_], and the final assertion compares with a wrapped difference. *)
Example huge_space_breaks : exists b, (b ← muduo_Buffer 16; b ← append b (Ptr (repeat Byte.x61 60) 0) 60; ensureWritableBytes b (2 ^ 64 - 50)) = Ok b /\
  zlen (buffer_ b) = 18 /\ writerIndex_ b = 68.
Proof. eexists. split; [vm_compute; reflexivity|]. split; vm_compute; reflexivity. Qed.
