(* ===== verification/CodecLite.v ===== *)
(** * [muduo::net::ProtobufCodecLite]
      ([3rd_party/muduo/muduo/net/protobuf/ProtobufCodecLite.{h,cc}])

    The codec of the RPC channels: one message type per codec, framed as

      len | tag | protobuf data | adler32

    Protobuf and zlib are the classes [Protobuf] and [Zlib] of airnet's codec.
    The callbacks of the codec belong to its user: they are arguments, which
    change a state [conn_t] of the user's (the connection and whatever else they
    reach) and can fail. The receive time they get, too, is the same for a whole
    call of [onMessage], so it is part of the callbacks. *)
From stdpp Require Import strings.
From S2P Require Import Prelude Endian StringPiece Buffer MuduoBuffer Codec CodecProps.

(** ** Constants and error codes *)
Definition kHeaderLen : Z := 4.
Definition kChecksumLen : Z := 4.
Definition kMaxMessageLen : Z := 64 * 1024 * 1024.

Inductive ErrorCode :=
  | kNoError
  | kInvalidLength
  | kCheckSumError
  | kInvalidNameLen
  | kUnknownMessageType
  | kParseError.

#[global] Instance LiteErrorCode_eq_dec : EqDecision ErrorCode.
Proof. solve_decision. Defined.

(** The [default] branch ("UnknownError") is for values outside the enumeration. *)
Definition errorCodeToString (errorCode : ErrorCode) : string :=
  match errorCode with
  | kNoError => "NoError"
  | kInvalidLength => "InvalidLength"
  | kCheckSumError => "CheckSumError"
  | kInvalidNameLen => "InvalidNameLen"
  | kUnknownMessageType => "UnknownMessageType"
  | kParseError => "ParseError"
  end.

(** A protobuf type, given by its prototype: parsing into a new message what
    one of its messages serialises to restores that message. *)
Class PrototypeLaws (P : Protobuf) (prototype : message) := {
  instance_of : message -> Prop;
  instance_initialized m : instance_of m -> IsInitialized m = true;
  instance_byte_size m : 0 <= ByteSize m < 2 ^ 31;
  instance_byte_size_exact m : zlen (SerializeWithCachedSizesToArray m) = ByteSize m;
  instance_parse m p : instance_of m ->
    ptr_read p (ByteSize m) = Ok (SerializeWithCachedSizesToArray m) ->
    ParseFromArray (New prototype) p (ByteSize m) = Ok (Some m);
}.

Section codec.
Context {h : Host} {Z_ : Zlib} {P : Protobuf}.

(** The members of the codec that are data; the constructor copies the tag. *)
Record ProtobufCodecLite := mkCodecLite {
  prototype_ : message;
  tag_ : bytes;
  kMinMessageLen : Z;
}.

Definition ProtobufCodecLite_ctor (prototype : message) (tagArg : StringPiece) : res ProtobufCodecLite :=
  tag ← as_string tagArg;
  Ok (mkCodecLite prototype tag (size tagArg + kChecksumLen)).

(** ** Helpers *)
Definition asInt32 (buf : ptr) : res Z :=
  l ← ptr_read buf 4;
  let be32 := int32 (load_int l) in
  Ok (int32 (networkToHost32 (uint32 be32))).

Definition checksum (buf : ptr) (len : Z) : res Z :=
  d ← ptr_read buf (uint32 len);
  Ok (int32 (adler32 1 d)).

Definition validateChecksum (buf : ptr) (len : Z) : res bool :=
  expectedCheckSum ← asInt32 (ptr_add buf (len - kChecksumLen));
  checkSum ← checksum buf (len - kChecksumLen);
  Ok (checkSum =? expectedCheckSum).

Definition parseFromBuffer (buf : StringPiece) (m : message) : res (option message) :=
  ParseFromArray m (data buf) (size buf).

Section with_codec.
Context (codec : ProtobufCodecLite).

(** ** Encoding *)
Definition serializeToBuffer (m : message) (buf : Buffer) : res (Z * Buffer) :=
  (* GOOGLE_DCHECK(message.IsInitialized()) *)
  check (IsInitialized m) FFatal;;
  let byte_size := ByteSize m in
  buf ← ensureWritableBytes buf (size_t (int32 (byte_size + kChecksumLen)));
  let out := SerializeWithCachedSizesToArray m in
  v ← vec_write (buffer_ buf) (beginWrite buf) out;
  (if zlen out =? byte_size then Ok tt
   else ByteSizeConsistencyError byte_size (ByteSize m) (int32 (zlen out)));;
  buf ← hasWritten (mkBuffer v (readerIndex_ buf) (writerIndex_ buf)) (size_t byte_size);
  Ok (byte_size, buf).

Definition fillEmptyBuffer (buf : Buffer) (m : message) : res Buffer :=
  assert_ (readableBytes buf =? 0);;
  (* [append(tag_)]: the string becomes a piece *)
  buf ← append_piece buf (StringPiece_string (tag_ codec));
  '(byte_size, buf) ← serializeToBuffer m buf;
  checkSum ← checksum (Ptr (buffer_ buf) (peek buf)) (int32 (readableBytes buf));
  buf ← appendInt32 buf checkSum;
  assert_ (readableBytes buf =? size_t (zlen (tag_ codec) + byte_size + kChecksumLen));;
  let len := int32 (hostToNetwork32 (uint32 (int32 (readableBytes buf)))) in
  prepend buf (Ptr (store_int 4 len) 0) 4.

(** [conn->send(&buf)] is an operation of the connection. *)
Definition lite_send {conn_t} (send : conn_t -> Buffer -> res (conn_t * Buffer)) (conn : conn_t) (m : message) : res conn_t :=
  buf ← muduo_Buffer kInitialSize;
  buf ← fillEmptyBuffer buf m;
  '(conn, _) ← send conn buf;
  Ok conn.

(** ** Decoding one frame: the code, and [*message] when it is [kNoError] *)
Definition parse (buf : ptr) (len : Z) (m : message) : res (ErrorCode * message) :=
  valid ← validateChecksum buf len;
  if (valid : bool) then
    r ← memcmp buf (Ptr (tag_ codec) 0) (zlen (tag_ codec));
    if r =? 0 then
      let data := ptr_add buf (zlen (tag_ codec)) in
      let dataLen := int32 (len - kChecksumLen - int32 (zlen (tag_ codec))) in
      parsed ← parseFromBuffer (StringPiece_range data dataLen) m;
      match parsed with
      | Some m' => Ok (kNoError, m')
      | None => Ok (kParseError, m)
      end
    else Ok (kUnknownMessageType, m)
  else Ok (kCheckSumError, m).

(** ** Decoding a stream *)
Section stream.
Context {conn_t : Type}.
Context (messageCallback_ : conn_t -> message -> res conn_t).
(** [None]: no raw callback was given. *)
Context (rawCb_ : option (conn_t -> StringPiece -> res (conn_t * bool))).
Context (errorCallback_ : conn_t -> Buffer -> ErrorCode -> res (conn_t * Buffer)).

(** [rawCb_ && !rawCb_(...)] is the negation of the [bool]. *)
Definition call_raw (conn : conn_t) (piece : StringPiece) : res (conn_t * bool) :=
  match rawCb_ with
  | None => Ok (conn, true)
  | Some cb => cb conn piece
  end.

Definition report (conn : conn_t) (buf : Buffer) (errorCode : ErrorCode) : res (conn_t * Buffer + conn_t * Buffer) :=
  '(conn, buf) ← errorCallback_ conn buf errorCode; Ok (inr (conn, buf)).

(** One pass of the [while] loop: [inl] goes on, [inr] leaves it. *)
Definition onMessage_pass (conn : conn_t) (buf : Buffer) : res (conn_t * Buffer + conn_t * Buffer) :=
  if uint32 (kMinMessageLen codec + kHeaderLen) <=? readableBytes buf then
    len ← peekInt32 buf;
    if (kMaxMessageLen <? len) || (len <? kMinMessageLen codec) then report conn buf kInvalidLength
    else if size_t (kHeaderLen + len) <=? readableBytes buf then
      '(conn, go_on) ← call_raw conn (StringPiece_range (Ptr (buffer_ buf) (peek buf)) (kHeaderLen + len));
      if negb go_on then
        buf ← retrieve buf (kHeaderLen + len);
        Ok (inl (conn, buf))
      else
        let m := New (prototype_ codec) in
        '(errorCode, m) ← parse (ptr_add (Ptr (buffer_ buf) (peek buf)) kHeaderLen) len m;
        if bool_decide (errorCode = kNoError) then
          conn ← messageCallback_ conn m;
          buf ← retrieve buf (kHeaderLen + len);
          Ok (inl (conn, buf))
        else report conn buf errorCode
    else Ok (inr (conn, buf))
  else Ok (inr (conn, buf)).

(** The loop; [None] is out of fuel. *)
Fixpoint onMessage_loop (fuel : nat) (conn : conn_t) (buf : Buffer) : option (res (conn_t * Buffer)) :=
  match fuel with
  | O => None
  | S fuel =>
      match onMessage_pass conn buf with
      | Fail f => Some (Fail f)
      | Ok (inr r) => Some (Ok r)
      | Ok (inl (conn, buf)) => onMessage_loop fuel conn buf
      end
  end.

(** Every pass that goes on consumes a frame. *)
Definition onMessage (conn : conn_t) (buf : Buffer) : option (res (conn_t * Buffer)) :=
  onMessage_loop (S (length (buffer_ buf))) conn buf.
End stream.
End with_codec.

(** [conn] may be a null pointer. *)
Definition defaultErrorCallback {C : Type} (connected : C -> bool) (shutdown : C -> res C)
    (conn : option C) (buf : Buffer) (errorCode : ErrorCode) : res (option C * Buffer) :=
  match conn with
  | Some c => if connected c then c ← shutdown c; Ok (Some c, buf) else Ok (Some c, buf)
  | None => Ok (None, buf)
  end.
End codec.
