(* ===== verification/CodecLiteProps.v ===== *)
(** * Properties of [ProtobufCodecLite]

    The wire format, what the encoder writes, and what the decoder makes of a
    stream: complete frames are handled once each and in order, a proper prefix
    of a frame waits, and no input makes it fault or loop. *)
From stdpp Require Import strings.
From S2P Require Import Prelude Endian StringPiece Buffer MuduoBuffer Codec CodecProps CodecLite.

(** The bound on frames is far below the integers of the code. *)
Lemma lite_max_lt : kMaxMessageLen + 8 < 2 ^ 31.
Proof. done. Qed.

Lemma memcmp_bytes_refl l : memcmp_bytes l l = 0.
Proof. induction l as [|x l IH]; [done|]. cbn. by rewrite Z.compare_refl. Qed.

(** Both buffer classes have the same integer operations. *)
Lemma appendInt32_spec {h : Host} b x : wf b -> writerIndex_ b + 4 <= max_size -> exists b',
  appendInt32 b x = Ok b' /\ wf b' /\ view b' = view b ++ be_bytes 4 x /\
  readerIndex_ b `min` kCheapPrepend <= readerIndex_ b' /\ writerIndex_ b' <= writerIndex_ b + 4.
Proof.
  intros Hwf Hm. destruct (AppendInt32_spec b x Hwf Hm) as (b' & HA & ?). exists b'. split; [|done].
  unfold appendInt32. erewrite append_eq; [exact HA | done | | lia]. rewrite ptr_read_exact; [done | apply zlen_store_int].
Qed.

Lemma peekInt32_spec {h : Host} b : wf b -> 4 <= zlen (view b) -> peekInt32 b = Ok (int32 (be_value (ztake 4 (view b)))).
Proof. intros. by rewrite <- PeekInt32_spec. Qed.

Section lite.
Context {h : Host} {Z_ : Zlib} {P : Protobuf} (codec : ProtobufCodecLite) `{!PrototypeLaws P (prototype_ codec)}.
Implicit Types (m : message) (b : Buffer).

(** What the constructor establishes for a tag that fits a frame. *)
Definition codec_ok : Prop := kMinMessageLen codec = zlen (tag_ codec) + 4 /\ zlen (tag_ codec) + 4 <= kMaxMessageLen.
Hypothesis Hok : codec_ok.

Definition lite_body m : bytes := tag_ codec ++ SerializeWithCachedSizesToArray m.
Definition lite_frame m : bytes := be_bytes 4 (zlen (lite_body m) + 4) ++ lite_body m ++ be_bytes 4 (adler32 1 (lite_body m)).
Definition lite_frames (ms : list message) : bytes := concat (lite_frame <$> ms).
Definition lite_sendable m : Prop := instance_of m /\ zlen (lite_body m) + 4 <= kMaxMessageLen.

Lemma zlen_lite_body m : zlen (lite_body m) = zlen (tag_ codec) + ByteSize m.
Proof. unfold lite_body. by rewrite zlen_app, instance_byte_size_exact. Qed.

Lemma zlen_lite_frame m : zlen (lite_frame m) = 8 + zlen (lite_body m).
Proof. unfold lite_frame. zlen_lia. Qed.

Lemma take_lite_frame m rest : ztake 4 (lite_frame m ++ rest) = be_bytes 4 (zlen (lite_body m) + 4).
Proof. unfold lite_frame. rewrite <- app_assoc, ztake_app_l by zlen_lia. apply ztake_all. zlen_lia. Qed.

(** ** Encoding *)
Lemma serializeToBuffer_spec b m : wf b -> instance_of m -> ByteSize m + 4 < 2 ^ 31 -> writerIndex_ b + ByteSize m + 4 <= max_size ->
  exists b', serializeToBuffer m b = Ok (ByteSize m, b') /\ wf b' /\ view b' = view b ++ SerializeWithCachedSizesToArray m /\
  readerIndex_ b `min` kCheapPrepend <= readerIndex_ b' /\ writerIndex_ b' <= writerIndex_ b + ByteSize m.
Proof using PrototypeLaws0.
  intros Hwf Hm Hlt Hmax. pose proof (instance_byte_size m). pose proof (instance_byte_size_exact m) as Hbs.
  unfold serializeToBuffer, kChecksumLen. rewrite instance_initialized by done. cbn [check mbind res_bind].
  rewrite (int32_id (ByteSize m + 4)), !size_t_id by lia. rewrite ensureWritableBytes_eq.
  destruct (EnsureWritableBytes_spec b (ByteSize m + 4)) as (b1 & -> & Hw1 & Hv1 & Hroom & ? & ?); [done | lia | lia|].
  cbn [mbind res_bind]. destruct (write_tail_spec b1 (SerializeWithCachedSizesToArray m)) as (v & HW & Hw2 & Hv2 & Hr2 & Hwi2);
    [done | lia|].
  unfold BeginWrite in HW. unfold beginWrite. rewrite HW. cbn [mbind res_bind]. rewrite Hbs in *. rewrite Z.eqb_refl. cbn [mbind res_bind].
  pose proof (vec_write_len _ _ _ _ HW). unfold hasWritten, writableBytes. cbn [buffer_ writerIndex_ readerIndex_].
  open_wf. rewrite assert_bind_true by (apply Z.leb_le; rewrite size_t_id by lia; lia). cbn [mbind res_bind].
  eexists. split; [reflexivity|]. unfold HasWritten in *. cbn [buffer_ writerIndex_ readerIndex_] in *.
  rewrite Hv2, Hv1. split_and!; try done; lia.
Qed.

(** Encoding writes exactly one frame. *)
Lemma fillEmptyBuffer_spec b m : wf b -> view b = [] -> 4 <= readerIndex_ b -> lite_sendable m ->
  writerIndex_ b + zlen (lite_frame m) <= max_size ->
  exists b', fillEmptyBuffer codec b m = Ok b' /\ wf b' /\ view b' = lite_frame m.
Proof using PrototypeLaws0.
  intros Hwf Hv Hr [Hm Hfit] Hmax. pose proof lite_max_lt. pose proof (instance_byte_size m).
  rewrite zlen_lite_frame, zlen_lite_body in *. zlen_pos. unfold fillEmptyBuffer.
  change (readableBytes b) with (ReadableBytes b). rewrite readable_view, Hv by done. rewrite assert_bind_true by done.
  unfold append_piece, StringPiece_string. cbn [data size ptr_ length_]. rewrite int32_id, size_t_id by lia.
  destruct (append_spec b (Ptr (tag_ codec) 0) (zlen (tag_ codec)) (tag_ codec)) as (b1 & -> & Hw1 & Hv1 & ? & ?);
    [done | apply ptr_read_all | lia|]. cbn [mbind res_bind].
  destruct (serializeToBuffer_spec b1 m) as (b2 & -> & Hw2 & Hv2 & ? & ?); [done | done | lia | lia|]. cbn [mbind res_bind].
  assert (Hb : view b2 = lite_body m) by (by rewrite Hv2, Hv1, Hv).
  pose proof (zlen_lite_body m) as Hz. unfold checksum.
  change (readableBytes b2) with (ReadableBytes b2). rewrite readable_view, Hb by done. rewrite int32_id, uint32_id by lia.
  pose proof (ptr_read_view b2 0 (zlen (lite_body m)) Hw2) as Hrd. rewrite Hb, Z.add_0_r, zdrop_0, ztake_all in Hrd by lia.
  unfold peek. rewrite Hrd by lia. cbn [mbind res_bind].
  destruct (appendInt32_spec b2 (int32 (adler32 1 (lite_body m)))) as (b3 & -> & Hw3 & Hv3 & ? & ?); [done | lia|].
  cbn [mbind res_bind]. rewrite be_bytes_int32, Hb in Hv3.
  assert (Hl : zlen (view b3) = zlen (lite_body m) + 4) by (rewrite Hv3; zlen_lia). unfold kChecksumLen.
  change (readableBytes b3) with (ReadableBytes b3). rewrite readable_view, Hl by done. rewrite (size_t_id (_ + _ + 4)) by lia.
  rewrite assert_bind_true by (apply Z.eqb_eq; lia). rewrite (int32_id (_ + 4)) by lia. rewrite prepend_eq.
  destruct (Prepend_spec b3 (Ptr (store_int 4 (int32 (HostToNetwork32 (uint32 (zlen (lite_body m) + 4))))) 0) 4
    (be_bytes 4 (zlen (lite_body m) + 4))) as (b4 & HP & ? & Hv4 & _); [done | | unfold kCheapPrepend in *; lia |].
  { rewrite <- (store_signed 4 32) by done. apply ptr_read_exact, zlen_store_int. }
  exists b4. split; [exact HP|]. by rewrite Hv4, Hv3.
Qed.

(** ** Decoding one frame *)
Lemma asInt32_eq p : asInt32 p = AsInt32 p.
Proof. done. Qed.

Lemma parse_lite_frame pre m post : lite_sendable m ->
  parse codec (Ptr (pre ++ lite_frame m ++ post) (zlen pre + 4)) (zlen (lite_body m) + 4) (New (prototype_ codec)) = Ok (kNoError, m).
Proof using PrototypeLaws0.
  intros [Hm Hfit]. pose proof lite_max_lt. pose proof (zlen_lite_body m) as Hz. pose proof (instance_byte_size m). zlen_pos.
  set (hd := pre ++ be_bytes 4 (zlen (lite_body m) + 4)). set (sum := be_bytes 4 (adler32 1 (lite_body m))).
  assert (Hhd : zlen hd = zlen pre + 4) by (unfold hd; zlen_lia).
  assert (E : pre ++ lite_frame m ++ post = (hd ++ lite_body m) ++ sum ++ post).
  { unfold lite_frame, hd, sum. by rewrite <- !app_assoc. }
  rewrite E. unfold parse, validateChecksum, checksum, kChecksumLen. cbn [ptr_add].
  replace (zlen (lite_body m) + 4 - 4) with (zlen (lite_body m)) by lia. rewrite asInt32_eq.
  rewrite (AsInt32_mid (hd ++ lite_body m) sum post) by (unfold sum; rewrite ?zlen_be_bytes, ?zlen_app; lia).
  cbn [mbind res_bind]. rewrite uint32_id by lia. rewrite <- (app_assoc hd), (ptr_read_mid hd (lite_body m)) by lia.
  cbn [mbind res_bind]. unfold sum at 1. rewrite int32_be_value_any, Z.eqb_refl. unfold memcmp.
  assert (E2 : hd ++ lite_body m ++ sum ++ post = hd ++ tag_ codec ++ SerializeWithCachedSizesToArray m ++ sum ++ post)
    by (unfold lite_body; by rewrite <- app_assoc).
  rewrite E2, (ptr_read_mid hd (tag_ codec)), ptr_read_all by lia.
  cbn [mbind res_bind]. rewrite memcmp_bytes_refl. cbn [Z.eqb]. unfold parseFromBuffer, StringPiece_range. cbn [data size ptr_ length_].
  rewrite (int32_id (zlen (tag_ codec))), int32_id by lia.
  replace (zlen (lite_body m) - zlen (tag_ codec)) with (ByteSize m) by lia. rewrite instance_parse; [done | done|].
  rewrite (app_assoc hd). apply ptr_read_mid; [zlen_lia | by rewrite instance_byte_size_exact].
Qed.

(** Arbitrary input: every read stays inside the frame. *)
Lemma parse_total `{!ProtobufReads P} blk off len m : 0 <= off -> zlen (tag_ codec) + 4 <= len <= kMaxMessageLen -> off + len <= zlen blk ->
  is_ok (parse codec (Ptr blk off) len m).
Proof using.
  intros Hoff Hlen Hin. pose proof lite_max_lt. zlen_pos. unfold parse, validateChecksum, checksum, kChecksumLen. cbn [ptr_add].
  rewrite asInt32_eq, AsInt32_ok by lia. cbn [mbind res_bind]. rewrite uint32_id, ptr_read_ok by lia. cbn [mbind res_bind].
  case_match; [|by eexists]. unfold memcmp. rewrite ptr_read_all, ptr_read_ok by lia. cbn [mbind res_bind].
  case_match; [|by eexists]. rewrite (int32_id (zlen (tag_ codec))), int32_id by lia.
  unfold parseFromBuffer, StringPiece_range. cbn [data size ptr_ length_].
  assert (Hr : ptr_read (Ptr blk (off + zlen (tag_ codec))) (len - 4 - zlen (tag_ codec)) = Ok _) by (apply ptr_read_ok; lia).
  destruct (parse_readable m _ _ _ Hr) as [r ->].
  cbn [mbind res_bind]. destruct r; by eexists.
Qed.

(** ** Streams *)

(** Bytes that are not yet a frame: the loop waits for more. *)
Definition lite_incomplete (l : bytes) : Prop :=
  zlen l < kMinMessageLen codec + kHeaderLen \/
  (kMinMessageLen codec <= int32 (be_value (ztake 4 l)) <= kMaxMessageLen /\ zlen l < kHeaderLen + int32 (be_value (ztake 4 l))).

Section stream.
Context {conn_t : Type}.
Context (messageCallback_ : conn_t -> message -> res conn_t).
Context (rawCb_ : option (conn_t -> StringPiece -> res (conn_t * bool))).
Context (errorCallback_ : conn_t -> Buffer -> ErrorCode -> res (conn_t * Buffer)).
#[local] Abbreviation pass := (onMessage_pass codec messageCallback_ rawCb_ errorCallback_).
#[local] Abbreviation loop := (onMessage_loop codec messageCallback_ rawCb_ errorCallback_).
#[local] Abbreviation run := (onMessage codec messageCallback_ rawCb_ errorCallback_).

Lemma pass_incomplete conn b : wf b -> lite_incomplete (view b) -> pass conn b = Ok (inr (conn, b)).
Proof using Hok.
  intros Hwf Hinc. unfold onMessage_pass, lite_incomplete, kHeaderLen in *. destruct Hok as [Hmin Ht]. pose proof lite_max_lt.
  change (readableBytes b) with (ReadableBytes b). rewrite readable_view by done. zlen_pos. rewrite uint32_id by lia.
  case_match eqn:E; [|done]. unbool. destruct Hinc as [?|[Hl Hs]]; [lia|].
  rewrite peekInt32_spec by (done || lia). cbn [mbind res_bind].
  rewrite (proj2 (Z.ltb_ge _ _)), (proj2 (Z.ltb_ge _ _)) by lia. cbn [orb].
  rewrite size_t_id by lia. by rewrite (proj2 (Z.leb_gt _ _)) by lia.
Qed.

(** What a frame makes the user see. *)
Definition handle (conn : conn_t) m : res conn_t :=
  '(conn, go_on) ← call_raw rawCb_ conn (StringPiece_string (lite_frame m));
  if (go_on : bool) then messageCallback_ conn m else Ok conn.

Fixpoint handle_all (conn : conn_t) (ms : list message) : res conn_t :=
  match ms with
  | [] => Ok conn
  | m :: ms => conn ← handle conn m; handle_all conn ms
  end.

Lemma handle_all_app conn ms ks : handle_all conn (ms ++ ks) = conn' ← handle_all conn ms; handle_all conn' ks.
Proof using. revert conn. induction ms as [|m ms IH]; intros conn; [done|]. cbn. destruct (handle conn m); [apply IH | done]. Qed.

(** A raw callback looks at the characters of the piece, not at its address. *)
Definition raw_reads : Prop := forall cb conn p q n d,
  rawCb_ = Some cb -> ptr_read p n = Ok d -> ptr_read q n = Ok d -> cb conn (mkStringPiece p n) = cb conn (mkStringPiece q n).
Hypothesis Hraw : raw_reads.

Lemma pass_frame conn b m rest : wf b -> lite_sendable m -> view b = lite_frame m ++ rest ->
  match handle conn m with
  | Ok conn' => exists b', pass conn b = Ok (inl (conn', b')) /\ wf b' /\ view b' = rest /\ writerIndex_ b' <= writerIndex_ b `max` 8
  | Fail f => pass conn b = Fail f
  end.
Proof using Hok Hraw PrototypeLaws0.
  intros Hwf Hs Hv. pose proof Hs as [Hm Hfit]. destruct Hok as [Hmin Ht]. pose proof lite_max_lt.
  pose proof (zlen_lite_body m) as Hz. pose proof (zlen_lite_frame m) as Hzf. pose proof (instance_byte_size m).
  assert (Hl : zlen (view b) = 8 + zlen (lite_body m) + zlen rest) by (rewrite Hv, zlen_app, zlen_lite_frame; lia).
  zlen_pos. unfold onMessage_pass, kHeaderLen.
  change (readableBytes b) with (ReadableBytes b). rewrite readable_view, peekInt32_spec by (done || lia).
  rewrite uint32_id, (proj2 (Z.leb_le _ _)) by lia. cbn [mbind res_bind].
  assert (Hlen : int32 (be_value (ztake 4 (view b))) = zlen (lite_body m) + 4).
  { rewrite Hv, take_lite_frame. apply int32_be_value. lia. }
  rewrite Hlen, (proj2 (Z.ltb_ge _ _)), (proj2 (Z.ltb_ge _ _)) by lia. cbn [orb].
  rewrite size_t_id by lia. rewrite (proj2 (Z.leb_le _ _)) by lia.
  assert (Hcall : call_raw rawCb_ conn (StringPiece_range (Ptr (buffer_ b) (peek b)) (4 + (zlen (lite_body m) + 4))) =
    call_raw rawCb_ conn (StringPiece_string (lite_frame m))).
  { unfold call_raw, StringPiece_range, StringPiece_string. destruct rawCb_ as [cb|] eqn:Hcb; [|done]. rewrite int32_id by lia.
    replace (4 + (zlen (lite_body m) + 4)) with (zlen (lite_frame m)) by lia.
    apply (Hraw cb conn _ _ _ (lite_frame m)); [done| |apply ptr_read_all].
    pose proof (ptr_read_view b 0 (zlen (lite_frame m)) Hwf ltac:(lia) ltac:(lia) ltac:(lia)) as HR. rewrite Z.add_0_r, zdrop_0 in HR.
    unfold peek. rewrite HR, Hv, ztake_app_l, ztake_all by lia. done. }
  rewrite Hcall. unfold handle. destruct (call_raw rawCb_ conn (StringPiece_string (lite_frame m))) as [[conn1 go]|f]; cbn [mbind res_bind]; [|done].
  destruct (Retrieve_spec b (4 + (zlen (lite_body m) + 4))) as (b' & HR & Hw' & Hv' & _ & Hle'); [done | lia|].
  assert (Hrest : view b' = rest).
  { rewrite Hv', Hv, zdrop_app_r by lia. replace (_ - _) with 0 by lia. apply zdrop_0. }
  destruct go; cbn [negb]; [|exists b'; rewrite retrieve_eq, HR; done].
  assert (HP : parse codec (ptr_add (Ptr (buffer_ b) (peek b)) 4) (zlen (lite_body m) + 4) (New (prototype_ codec)) = Ok (kNoError, m)).
  { cbn [ptr_add]. rewrite (buffer_split b Hwf), Hv, <- app_assoc. unfold peek.
    replace (readerIndex_ b + 4) with (zlen (ztake (readerIndex_ b) (buffer_ b)) + 4) by (open_wf; zlen_lia).
    by apply parse_lite_frame. }
  rewrite HP. cbn [mbind res_bind]. rewrite bool_decide_eq_true_2 by done.
  destruct (messageCallback_ conn1 m) as [conn2|f]; cbn [mbind res_bind]; [|done]. exists b'. rewrite retrieve_eq, HR. done.
Qed.

Lemma onMessage_loop_mono fuel fuel' conn b r : loop fuel conn b = Some r -> (fuel <= fuel')%nat -> loop fuel' conn b = Some r.
Proof using.
  revert fuel' conn b. induction fuel as [|fuel IH]; intros fuel' conn b H Hle; [done|]. destruct fuel' as [|fuel']; [lia|].
  cbn [onMessage_loop] in *. destruct (pass conn b) as [[[c' b']|?]|]; try done. apply IH; [done | lia].
Qed.

Lemma lite_frames_len ms : Forall lite_sendable ms -> Z.of_nat (length ms) <= zlen (lite_frames ms).
Proof using PrototypeLaws0.
  induction 1 as [|m ms _ _ IH]; [done|]. unfold lite_frames in *. cbn [length fmap list_fmap concat]. rewrite zlen_app, zlen_lite_frame. zlen_lia.
Qed.

(** The loop handles the complete frames; the rest waits. *)
Lemma loop_frames conn b ms rest : wf b -> Forall lite_sendable ms -> view b = lite_frames ms ++ rest -> lite_incomplete rest ->
  match handle_all conn ms with
  | Ok conn' => exists b', loop (S (length ms)) conn b = Some (Ok (conn', b')) /\ wf b' /\ view b' = rest /\
      writerIndex_ b' <= writerIndex_ b `max` 8
  | Fail f => loop (S (length ms)) conn b = Some (Fail f)
  end.
Proof using Hok Hraw PrototypeLaws0.
  intros Hwf Hms. revert conn b Hwf. induction Hms as [|m ms Hm _ IH]; intros conn b Hwf Hv Hr.
  - cbn. exists b. rewrite pass_incomplete by (done || by rewrite Hv). split_and!; [done.. | lia].
  - unfold lite_frames in Hv. cbn in Hv. rewrite <- app_assoc in Hv. pose proof (pass_frame conn b m _ Hwf Hm Hv) as Hp.
    cbn [length handle_all]. remember (S (length ms)) as k eqn:Ek. cbn [onMessage_loop].
    destruct (handle conn m) as [conn'|f]; cbn [mbind res_bind]; [|by rewrite Hp].
    destruct Hp as (b1 & -> & Hw1 & Hv1 & Hl1). pose proof (IH conn' b1 Hw1 Hv1 Hr) as H1.
    destruct (handle_all conn' ms); [|done]. destruct H1 as (b2 & ? & ? & ? & ?). exists b2. split_and!; [done.. | lia].
Qed.

Lemma onMessage_frames conn b ms rest : wf b -> Forall lite_sendable ms -> view b = lite_frames ms ++ rest -> lite_incomplete rest ->
  match handle_all conn ms with
  | Ok conn' => exists b', run conn b = Some (Ok (conn', b')) /\ wf b' /\ view b' = rest /\ writerIndex_ b' <= writerIndex_ b `max` 8
  | Fail f => run conn b = Some (Fail f)
  end.
Proof using Hok Hraw PrototypeLaws0.
  intros Hwf Hms Hv Hr. pose proof (loop_frames conn b ms rest Hwf Hms Hv Hr) as H.
  assert (Hf : (S (length ms) <= S (length (buffer_ b)))%nat).
  { pose proof (lite_frames_len ms Hms). pose proof (view_fuel b Hwf) as Hf. rewrite Hv, zlen_app in Hf. zlen_lia. }
  unfold onMessage. destruct (handle_all conn ms).
  - destruct H as (b' & H & ?). exists b'. split; [|done]. by eapply onMessage_loop_mono.
  - by eapply onMessage_loop_mono.
Qed.

Lemma lite_prefix_incomplete m l k : lite_sendable m -> lite_frame m = l ++ k -> k <> [] -> lite_incomplete l.
Proof using Hok PrototypeLaws0.
  intros [Hm Hf] Hlk Hk. unfold lite_incomplete, kHeaderLen. destruct Hok as [Hmin Ht].
  destruct (decide (zlen l < kMinMessageLen codec + 4)) as [|Hl]; [by left | right]. zlen_pos.
  assert (E : ztake 4 l = be_bytes 4 (zlen (lite_body m) + 4)).
  { pose proof (take_lite_frame m []) as E. rewrite app_nil_r, Hlk in E. by rewrite ztake_app_l in E by lia. }
  pose proof (zlen_lite_body m). pose proof (instance_byte_size m). pose proof lite_max_lt.
  rewrite E, int32_be_value by lia. split; [lia|].
  pose proof (zlen_lite_frame m) as Hz. rewrite Hlk, zlen_app in Hz. assert (zlen k <> 0) by (intros ?%zlen_0_nil; done). zlen_lia.
Qed.

Lemma lite_incomplete_nil : lite_incomplete [].
Proof using Hok. left. destruct Hok as [-> _]. unfold kHeaderLen. zlen_lia. Qed.

(** Any prefix of a stream of frames is frames and an incomplete rest. *)
Lemma lite_prefix_split ms s t : Forall lite_sendable ms -> s ++ t = lite_frames ms ->
  exists ms1 ms2 rest, ms = ms1 ++ ms2 /\ s = lite_frames ms1 ++ rest /\ rest ++ t = lite_frames ms2 /\ lite_incomplete rest.
Proof using Hok PrototypeLaws0.
  intros Hms. revert s. induction Hms as [|m ms Hm Hms IH]; intros s Hst.
  { apply app_nil in Hst as [-> ->]. exists [], [], []. split_and!; try done. apply lite_incomplete_nil. }
  unfold lite_frames in Hst. cbn in Hst. apply app_eq_app in Hst as (l & [[-> Ht]|[Hf ->]]).
  - destruct (IH l) as (ms1 & ms2 & rest & -> & -> & ? & ?); [done|].
    exists (m :: ms1), ms2, rest. split_and!; try done. unfold lite_frames. cbn. by rewrite <- app_assoc.
  - destruct (decide (l = [])) as [->|Hl].
    + rewrite app_nil_r in Hf. subst s. exists [m], ms, []. unfold lite_frames. cbn.
      split_and!; [done | by rewrite !app_nil_r | done | apply lite_incomplete_nil].
    + exists [], (m :: ms), s. split_and!; [done | done | | by eapply lite_prefix_incomplete].
      unfold lite_frames. cbn. by rewrite Hf, app_assoc.
Qed.

(** ** A connection's input buffer: append what was read, then [onMessage] *)
Fixpoint lite_feed (conn : conn_t) (b : Buffer) (chunks : list bytes) : option (res (conn_t * Buffer)) :=
  match chunks with
  | [] => Some (Ok (conn, b))
  | c :: chunks =>
      match append b (Ptr c 0) (zlen c) with
      | Fail f => Some (Fail f)
      | Ok b1 =>
          match run conn b1 with
          | Some (Ok (conn', b')) => lite_feed conn' b' chunks
          | r => r
          end
      end
  end.

(** However much of the stream has arrived, its complete frames were handled. *)
Lemma lite_feed_prefix conn b ms chunks later : wf b -> Forall lite_sendable ms ->
  view b ++ concat chunks ++ later = lite_frames ms -> lite_incomplete (view b) ->
  (writerIndex_ b `max` 8) + zlen (concat chunks) <= max_size ->
  exists ms1 ms2, ms = ms1 ++ ms2 /\
  match handle_all conn ms1 with
  | Ok conn' => exists b', lite_feed conn b chunks = Some (Ok (conn', b')) /\ wf b' /\
      view b' ++ later = lite_frames ms2 /\ lite_incomplete (view b')
  | Fail f => lite_feed conn b chunks = Some (Fail f)
  end.
Proof using Hok Hraw PrototypeLaws0.
  revert conn b ms. induction chunks as [|c chunks IH]; intros conn b ms Hwf Hms Hv Hi Hmax; cbn [lite_feed].
  { exists [], ms. split; [done|]. cbn. by exists b. }
  cbn [concat] in *. rewrite zlen_app in Hmax. zlen_pos.
  destruct (append_spec b (Ptr c 0) (zlen c) c) as (b1 & -> & Hw1 & Hv1 & _ & Hle1); [done | apply ptr_read_all | lia|].
  rewrite <- app_assoc, app_assoc, <- Hv1 in Hv.
  destruct (lite_prefix_split ms (view b1) (concat chunks ++ later)) as (ms1 & ms2 & rest & -> & Hs & Ht & Hr); [done..|].
  apply Forall_app in Hms as [Hms1 Hms2]. pose proof (onMessage_frames conn b1 ms1 rest Hw1 Hms1 Hs Hr) as H1.
  destruct (handle_all conn ms1) as [conn1|f] eqn:E1; [|exists ms1, ms2; split; [done|]; by rewrite E1, H1].
  destruct H1 as (b2 & -> & Hw2 & Hv2 & Hle2).
  destruct (IH conn1 b2 ms2) as (ms3 & ms4 & -> & H2); [done | done | by rewrite Hv2 | by rewrite Hv2 | lia|].
  exists (ms1 ++ ms3), ms4. rewrite app_assoc. split; [done|]. rewrite handle_all_app, E1. cbn [mbind res_bind]. done.
Qed.

Lemma lite_frames_incomplete ms : Forall lite_sendable ms -> lite_incomplete (lite_frames ms) -> ms = [].
Proof using Hok PrototypeLaws0.
  intros Hms Hi. destruct Hms as [|m ms [Hm Hf] _]; [done|]. exfalso. destruct Hok as [Hmin Ht].
  pose proof (zlen_lite_body m). pose proof (instance_byte_size m). pose proof lite_max_lt. unfold lite_incomplete, lite_frames, kHeaderLen in Hi. cbn in Hi.
  zlen_pos. rewrite take_lite_frame, int32_be_value, zlen_app, zlen_lite_frame in Hi by lia. zlen_lia.
Qed.

Lemma lite_feed_frames conn b ms chunks : wf b -> view b = [] -> Forall lite_sendable ms -> concat chunks = lite_frames ms ->
  (writerIndex_ b `max` 8) + zlen (concat chunks) <= max_size ->
  match handle_all conn ms with
  | Ok conn' => exists b', lite_feed conn b chunks = Some (Ok (conn', b')) /\ view b' = []
  | Fail f => lite_feed conn b chunks = Some (Fail f)
  end.
Proof using Hok Hraw PrototypeLaws0.
  intros Hwf Hv0 Hms Hc Hmax.
  destruct (lite_feed_prefix conn b ms chunks []) as (ms1 & ms2 & -> & H);
    [done | done | by rewrite Hv0, app_nil_r | rewrite Hv0; apply lite_incomplete_nil | done|].
  apply Forall_app in Hms as [Hms1 Hms2]. rewrite handle_all_app. destruct (handle_all conn ms1) as [c1|f] eqn:E1; cbn [mbind res_bind]; [|done].
  destruct H as (b' & HF & Hw & Hl & Hi). rewrite app_nil_r in Hl. rewrite Hl in Hi. rewrite (lite_frames_incomplete ms2 Hms2 Hi) in *. cbn.
  by exists b'.
Qed.

(** ** Arbitrary input *)

(** Callbacks that return; the raw one may read the piece it gets. *)
Definition callbacks_return : Prop :=
  (forall conn m, is_ok (messageCallback_ conn m)) /\
  (forall cb conn p n, rawCb_ = Some cb -> is_ok (ptr_read p n) -> is_ok (cb conn (mkStringPiece p n))) /\
  (forall conn b e, is_ok (errorCallback_ conn b e)).

(** A pass over a well-formed buffer returns, and goes on only after it
    consumed a frame. *)
Lemma pass_total `{!ProtobufReads P} conn b : wf b -> callbacks_return -> exists r, pass conn b = Ok r /\
  match r with inl (_, b') => wf b' /\ zlen (view b') + 4 <= zlen (view b) | inr _ => True end.
Proof using Hok.
  intros Hwf (Hmc & Hrc & Hec). destruct Hok as [Hmin Ht]. pose proof lite_max_lt. zlen_pos. unfold onMessage_pass, kHeaderLen.
  assert (Hrep : forall c e, exists r, report errorCallback_ c b e = Ok r /\ match r with inl (_, b') => wf b' /\ zlen (view b') + 4 <= zlen (view b) | inr _ => True end).
  { intros c e. unfold report. destruct (Hec c b e) as [[? ?] ->]. by eexists. }
  change (readableBytes b) with (ReadableBytes b). rewrite readable_view by done. rewrite uint32_id by lia.
  case_match eqn:E1; [|by eexists]. unbool. rewrite peekInt32_spec by (done || lia). cbn [mbind res_bind].
  set (len := int32 _). destruct (_ || _)%bool eqn:E2; [apply Hrep|]. apply orb_false_iff in E2 as [? ?]. unbool.
  rewrite size_t_id by lia. case_match eqn:E3; [|by eexists]. unbool. pose proof (zlen_view b Hwf). open_wf.
  assert (Hcall : is_ok (call_raw rawCb_ conn (StringPiece_range (Ptr (buffer_ b) (peek b)) (4 + len)))).
  { unfold call_raw, StringPiece_range. destruct rawCb_ as [cb|] eqn:Ecb; [|by eexists]. apply Hrc; [done|].
    unfold peek. rewrite ptr_read_ok by lia. by eexists. }
  destruct Hcall as [[conn1 go] ->]. cbn [mbind res_bind].
  destruct (Retrieve_spec b (4 + len)) as (b' & HR & Hw' & Hv' & _); [done | lia|].
  assert (Hlt : wf b' /\ zlen (view b') + 4 <= zlen (view b)) by (split; [done | rewrite Hv'; zlen_lia]).
  destruct go; cbn [negb]; [|rewrite retrieve_eq, HR; by eexists].
  destruct (parse_total (buffer_ b) (peek b + 4) len (New (prototype_ codec))) as [[ec m] HP]; [unfold peek; lia | lia | unfold peek; lia|].
  cbn [ptr_add]. rewrite HP. cbn [mbind res_bind]. case_bool_decide; [|apply Hrep].
  destruct (Hmc conn1 m) as [conn2 ->]. cbn [mbind res_bind]. rewrite retrieve_eq, HR. by eexists.
Qed.

Lemma loop_total `{!ProtobufReads P} fuel conn b : wf b -> callbacks_return -> zlen (view b) < Z.of_nat fuel -> exists r, loop fuel conn b = Some (Ok r).
Proof using Hok.
  intros Hwf Hcb. revert conn b Hwf. induction fuel as [|fuel IH]; intros conn b Hwf Hf; [zlen_lia|]. cbn [onMessage_loop].
  destruct (pass_total conn b Hwf Hcb) as ([[c' b']|r] & -> & Hr); [|by eexists]. destruct Hr as [Hw' Hl]. apply IH; [done | lia].
Qed.
End stream.
End lite.

(** ** Properties *)
Section properties.
Context {h : Host} {Z_ : Zlib} {P : Protobuf}.

(** A connection as the sender of a stream sees it: it takes what the buffer holds. *)
Definition wire_send (wire : bytes) (b : Buffer) : res (bytes * Buffer) :=
  '(d, b) ← retrieveAllAsString b; Ok (wire ++ d, b).

Fixpoint lite_send_all (codec : ProtobufCodecLite) (wire : bytes) (ms : list message) : res bytes :=
  match ms with
  | [] => Ok wire
  | m :: ms => wire ← lite_send codec wire_send wire m; lite_send_all codec wire ms
  end.

Lemma lite_send_frame codec `{!PrototypeLaws P (prototype_ codec)} wire m : lite_sendable codec m ->
  lite_send codec wire_send wire m = Ok (wire ++ lite_frame codec m).
Proof.
  intros Hm. unfold lite_send. change (muduo_Buffer kInitialSize) with new_Buffer.
  destruct new_Buffer_spec as (b & -> & Hwf & Hv & Hr & Hw). cbn [mbind res_bind].
  pose proof (zlen_lite_frame codec m). pose proof lite_max_lt. pose proof Hm as [_ Hfit].
  destruct (fillEmptyBuffer_spec codec b m) as (b1 & -> & Hw1 & Hv1); try done;
    [rewrite Hr; unfold kCheapPrepend; lia | rewrite Hw; unfold kCheapPrepend, max_size; lia|].
  cbn [mbind res_bind]. unfold wire_send, retrieveAllAsString. change (readableBytes b1) with (ReadableBytes b1).
  rewrite readable_view by done. change (retrieveAsString b1 (zlen (view b1))) with (RetrieveAsString b1 (zlen (view b1))).
  destruct (RetrieveAsString_spec b1 (zlen (view b1))) as (b2 & -> & _); [done | zlen_lia|].
  cbn [mbind res_bind]. by rewrite ztake_all, Hv1 by lia.
Qed.

Lemma lite_send_all_frames codec `{!PrototypeLaws P (prototype_ codec)} wire ms : Forall (lite_sendable codec) ms ->
  lite_send_all codec wire ms = Ok (wire ++ lite_frames codec ms).
Proof.
  intros Hms. revert wire. induction Hms as [|m ms Hm _ IH]; intros wire; cbn [lite_send_all].
  - by rewrite app_nil_r.
  - rewrite (lite_send_frame codec wire m Hm). cbn [mbind res_bind]. rewrite IH. by rewrite <- app_assoc.
Qed.

Context {conn_t : Type}.
Context (messageCallback_ : conn_t -> message -> res conn_t).
Context (rawCb_ : option (conn_t -> StringPiece -> res (conn_t * bool))).
Context (errorCallback_ : conn_t -> Buffer -> ErrorCode -> res (conn_t * Buffer)).

(** C14: [ProtobufCodecLite] carries messages. What [send] puts on the wire for
    any list of messages of the codec's type whose frames are at most 64 MiB
    ([kMaxMessageLen]; the receiver refuses larger ones) and fit into the
    receiver's buffer together, cut into any chunks, makes the
    receiver's [onMessage] call the callbacks for exactly these messages, once
    each and in order (the message callback unless the raw callback declines
    the frame), and leaves its buffer empty; a fault of a callback is the only
    fault. *)
Theorem CodecLite_stream codec `{!PrototypeLaws P (prototype_ codec)} conn ms :
  codec_ok codec -> raw_reads rawCb_ -> Forall (lite_sendable codec) ms -> zlen (lite_frames codec ms) <= max_size - 8 ->
  exists wire b0, lite_send_all codec [] ms = Ok wire /\ muduo_Buffer kInitialSize = Ok b0 /\
  forall chunks, concat chunks = wire ->
  match handle_all codec messageCallback_ rawCb_ conn ms with
  | Ok conn' => exists b', lite_feed codec messageCallback_ rawCb_ errorCallback_ conn b0 chunks = Some (Ok (conn', b')) /\ view b' = []
  | Fail f => lite_feed codec messageCallback_ rawCb_ errorCallback_ conn b0 chunks = Some (Fail f)
  end.
Proof.
  intros Hok Hraw Hms Hmax. destruct new_Buffer_spec as (b & Hb & Hwf & Hv & _ & Hw).
  exists (lite_frames codec ms), b. split_and!; [by rewrite (lite_send_all_frames codec [] ms Hms) | done|]. intros chunks Hc.
  apply (lite_feed_frames codec Hok messageCallback_ rawCb_ errorCallback_ Hraw); try done. rewrite Hc, Hw. unfold kCheapPrepend. lia.
Qed.

(** No input makes [ProtobufCodecLite::onMessage] fault or loop. Whatever
    bytes are in the buffer, it returns when its callbacks do and protobuf returns
    on bytes it can read: no read leaves
    the buffer, no assertion fails, and the loop ends. *)
Theorem CodecLite_total `{!ProtobufReads P} codec conn b : codec_ok codec -> wf b -> callbacks_return messageCallback_ rawCb_ errorCallback_ ->
  exists r, onMessage codec messageCallback_ rawCb_ errorCallback_ conn b = Some (Ok r).
Proof. intros Hok Hwf Hcb. apply loop_total; try done. by apply view_fuel. Qed.
End properties.

(** ** A concrete codec *)
Module LiteExample.
Import Toy.
#[local] Existing Instance reads.

Definition tagged : ProtobufCodecLite := mkCodecLite (P := proto) (Byte.x41, []) (lit "RPC0") 8.

#[local] Instance tagged_laws : PrototypeLaws proto (prototype_ tagged).
Proof.
  refine {| instance_of := fun m : @message proto => m.1 = Byte.x41 /\ zlen m.2 < 2 ^ 31 |}; cbn.
  - done.
  - intros m. case_match eqn:E; unbool; zlen_lia.
  - intros m. by case_match.
  - intros [t d] p [Ht Hd]. cbn in *. subst t. rewrite (proj2 (Z.ltb_lt _ _)) by done. cbn. intros ->. done.
Defined.

Lemma tagged_ok : codec_ok tagged.
Proof. by split. Qed.

Definition two : list (@message proto) := [(Byte.x41, lit "ping"); (Byte.x41, [])].
(** The user keeps the messages it got; its raw callback lets every frame through. *)
Definition keep (got : list (@message proto)) (m : @message proto) : res (list (@message proto)) := Ok (got ++ [m]).
Definition through : option (list (@message proto) -> StringPiece -> res (list (@message proto) * bool)) :=
  Some (fun got p => Ok (got, 8 <=? size p)).
Definition ignore (got : list (@message proto)) (b : Buffer) (e : ErrorCode) : res (list (@message proto) * Buffer) := Ok (got, b).

Lemma CodecLite_stream_witness : exists wire b0, lite_send_all (h := little) (Z_ := zlib) tagged [] two = Ok wire /\
  muduo_Buffer kInitialSize = Ok b0 /\ forall chunks, concat chunks = wire ->
  exists b', lite_feed (h := little) (Z_ := zlib) tagged keep through ignore [] b0 chunks = Some (Ok (two, b')) /\ view b' = [].
Proof.
  apply (CodecLite_stream (h := little) (Z_ := zlib) keep through ignore tagged [] two).
  - apply tagged_ok.
  - intros cb conn p q n d [= <-] _ _. reflexivity.
  - repeat constructor; by vm_compute.
  - by vm_compute.
Defined.

Lemma CodecLite_total_witness : exists b, append_piece (mkBuffer (repeat Byte.x00 64) 8 8) (StringPiece_string (repeat Byte.xff 20)) = Ok b /\
  exists r, onMessage (h := little) (Z_ := zlib) tagged keep through ignore [] b = Some (Ok r).
Proof.
  eexists. split; [vm_compute; reflexivity|].
  apply (CodecLite_total (h := little) (Z_ := zlib) keep through ignore tagged []).
  - apply tagged_ok.
  - split; vm_compute; intuition discriminate.
  - split_and!; [intros; by eexists | intros cb conn p n [= <-] _; by eexists | intros; by eexists].
Defined.
End LiteExample.
