(* ===== verification/Rpc.v ===== *)
(** * [muduo::net::RpcChannel] and [RpcServer]
      ([3rd_party/muduo/muduo/net/protorpc/RpcChannel.{h,cc}], [RpcServer.cc], [rpc.proto])

    A channel sends requests with increasing ids, keeps what the caller gave it
    for each until the answer with that id arrives, and runs the requests of
    its peer on the registered services. The messages, services and methods of
    the program are those of the class [RpcRuntime]; what a service does with a
    request is left open: it gets a closure and runs it when it likes.

    A [Peer] is a process around one channel: the objects the channel reaches
    through pointers are on a heap, and what it does to the outside is recorded:
    the messages sent, the closures handed to services, the callbacks run. The
    [done] closures of the callers are objects too, made by [NewCallback] as
    those of the generated stubs are: [Run] deletes them. *)
From stdpp Require Import strings gmap.
From S2P Require Import Prelude MuduoBuffer.

(** ** Protobuf's services *)
Class RpcRuntime := {
  rmsg : Type;        (** [google::protobuf::Message] *)
  Service : Type;
  MethodDescriptor : Type;
  SerializeAsString : rmsg -> bytes;
  (** the result, and the message after the call *)
  ParseFromString : rmsg -> bytes -> bool * rmsg;
  rNew : rmsg -> rmsg;
  full_name : Service -> bytes;                               (** [GetDescriptor()->full_name()] *)
  FindMethodByName : Service -> bytes -> option MethodDescriptor;
  GetRequestPrototype : Service -> MethodDescriptor -> rmsg;
  GetResponsePrototype : Service -> MethodDescriptor -> rmsg;
  method_name : MethodDescriptor -> bytes;
  method_service_name : MethodDescriptor -> bytes;            (** [method->service()->full_name()] *)
}.

(** ** rpc.proto *)
Inductive MessageType := REQUEST | RESPONSE | ERROR.
Inductive RpcErrorCode := NO_ERROR | WRONG_PROTO | NO_SERVICE | NO_METHOD | INVALID_REQUEST | INVALID_RESPONSE | TIMEOUT.

#[global] Instance MessageType_eq_dec : EqDecision MessageType.
Proof. solve_decision. Defined.
#[global] Instance RpcErrorCode_eq_dec : EqDecision RpcErrorCode.
Proof. solve_decision. Defined.

Record RpcMessage := mkRpcMessage {
  m_type : MessageType;
  m_id : Z;                    (** fixed64 *)
  m_service : option bytes;
  m_method : option bytes;
  m_request : option bytes;
  m_response : option bytes;
  m_error : option RpcErrorCode;
}.

#[global] Instance RpcMessage_eq_dec : EqDecision RpcMessage.
Proof. solve_decision. Defined.

(** A field that is not set reads as its default. *)
Definition bytes_field (f : option bytes) : bytes := default [] f.

Section rpc.
Context {R : RpcRuntime}.
Implicit Types (id : Z) (l : positive).

(** ** The channel; pointers are heap addresses, [None] is [NULL] *)
Record OutstandingCall := mkOut { response : option positive; done_ : option positive }.

Record RpcChannel := mkChannel {
  conn_ : option positive;
  id_ : Z;
  outstandings_ : gmap Z OutstandingCall;
  services_ : option (gmap bytes Service);
}.

(** A call of a service: its arguments and the closure
    [NewCallback(this, &RpcChannel::doneCallback, response, id)]. *)
Record Running := mkRunning {
  r_service : Service;
  r_method : MethodDescriptor;
  r_request : rmsg;
  r_response : positive;
  r_id : Z;
}.

Record Peer := mkPeer {
  alive : bool;                        (** the channel was not deleted *)
  channel : RpcChannel;
  heap : gmap positive rmsg;           (** response objects *)
  closures : gmap positive positive;   (** [done] closures, by what they tell the user *)
  sent : list RpcMessage;              (** handed to the connection, in order *)
  running : list Running;              (** given to services, not yet finished *)
  ran : list (positive * rmsg);        (** closures [Run()] by the channel, with their response *)
}.

Definition set_channel (c : RpcChannel) (p : Peer) : Peer := mkPeer (alive p) c (heap p) (closures p) (sent p) (running p) (ran p).
Definition set_heap (hp : gmap positive rmsg) (p : Peer) : Peer := mkPeer (alive p) (channel p) hp (closures p) (sent p) (running p) (ran p).
Definition set_closures (cl : gmap positive positive) (p : Peer) : Peer := mkPeer (alive p) (channel p) (heap p) cl (sent p) (running p) (ran p).
Definition set_sent (ms : list RpcMessage) (p : Peer) : Peer := mkPeer (alive p) (channel p) (heap p) (closures p) ms (running p) (ran p).
Definition set_running (rs : list Running) (p : Peer) : Peer := mkPeer (alive p) (channel p) (heap p) (closures p) (sent p) rs (ran p).
Definition add_ran (e : positive * rmsg) (p : Peer) : Peer :=
  mkPeer (alive p) (channel p) (heap p) (closures p) (sent p) (running p) (ran p ++ [e]).

(** *** The heap: an address that is not on it is a dangling pointer *)
Definition new_object (v : rmsg) (p : Peer) : positive * Peer :=
  let l := fresh (dom (heap p)) in (l, set_heap (<[l := v]> (heap p)) p).
Definition read_object l (p : Peer) : res rmsg :=
  match heap p !! l with Some v => Ok v | None => Fail FBounds end.
Definition write_object l (v : rmsg) (p : Peer) : res Peer :=
  _ ← read_object l p; Ok (set_heap (<[l := v]> (heap p)) p).
Definition delete_object l (p : Peer) : res Peer :=
  _ ← read_object l p; Ok (set_heap (delete l (heap p)) p).

Definition new_closure (tag : positive) (p : Peer) : positive * Peer :=
  let l := fresh (dom (closures p)) in (l, set_closures (<[l := tag]> (closures p)) p).
Definition delete_closure l (p : Peer) : res Peer :=
  match closures p !! l with Some _ => Ok (set_closures (delete l (closures p)) p) | None => Fail FBounds end.
(** [done->Run()] tells the user, and deletes the closure. *)
Definition Run l (v : rmsg) (p : Peer) : res Peer :=
  match closures p !! l with
  | Some tag => delete_closure l (add_ran (tag, v) p)
  | None => Fail FBounds
  end.

(** [this] *)
Definition this_channel (p : Peer) : res RpcChannel := if alive p then Ok (channel p) else Fail FBounds.

(** ** Constructors and setters *)
Definition RpcChannel_default : RpcChannel := mkChannel None 0 ∅ None.
Definition RpcChannel_ctor (conn : positive) : RpcChannel := mkChannel (Some conn) 0 ∅ None.
Definition setConnection (conn : positive) (c : RpcChannel) : RpcChannel :=
  mkChannel (Some conn) (id_ c) (outstandings_ c) (services_ c).
Definition setServices (services : gmap bytes Service) (c : RpcChannel) : RpcChannel :=
  mkChannel (conn_ c) (id_ c) (outstandings_ c) (Some services).

(** [codec_.send(conn_, message)]: the message goes to the connection. *)
Definition codec_send (m : RpcMessage) (p : Peer) : res Peer :=
  c ← this_channel p;
  match conn_ c with
  | None => Fail FBounds
  | Some _ => Ok (set_sent (sent p ++ [m]) p)
  end.

(** ** [CallMethod], in the pieces that other threads can come between *)
Definition request_message id (method : MethodDescriptor) (request : rmsg) : RpcMessage :=
  mkRpcMessage REQUEST (uint64 id) (Some (method_service_name method)) (Some (method_name method))
    (Some (SerializeAsString request)) None None.

(** [id_.incrementAndGet()] *)
Definition next_id (p : Peer) : res (Z * Peer) :=
  c ← this_channel p;
  let id := int64 (id_ c + 1) in
  Ok (id, set_channel (mkChannel (conn_ c) id (outstandings_ c) (services_ c)) p).

(** The block with the lock. *)
Definition store_call id (out : OutstandingCall) (p : Peer) : res Peer :=
  c ← this_channel p;
  Ok (set_channel (mkChannel (conn_ c) (id_ c) (<[id := out]> (outstandings_ c)) (services_ c)) p).

Definition CallMethod (method : MethodDescriptor) (request : rmsg) (resp done : option positive) (p : Peer) : res Peer :=
  '(id, p) ← next_id p;
  let message := request_message id method request in
  p ← store_call id (mkOut resp done) p;
  codec_send message p.

(** ** [onRpcMessage] *)

(** Look the call up and erase it, with the lock. *)
Definition take_call id (p : Peer) : res (OutstandingCall * Peer) :=
  c ← this_channel p;
  match outstandings_ c !! id with
  | Some out => Ok (out, set_channel (mkChannel (conn_ c) (id_ c) (delete id (outstandings_ c)) (services_ c)) p)
  | None => Ok (mkOut None None, p)
  end.

Definition has_response (m : RpcMessage) : bool := bool_decide (is_Some (m_response m)).
Definition has_error (m : RpcMessage) : bool := bool_decide (is_Some (m_error m)).

(** What [ParseFromString] makes of the caller's response object; its result is
    not looked at. *)
Definition filled (v : rmsg) (m : RpcMessage) : rmsg :=
  if has_response m then (ParseFromString v (bytes_field (m_response m))).2 else v.

Definition onResponse (message : RpcMessage) (p : Peer) : res Peer :=
  let id := int64 (m_id message) in
  assert_ (has_response message || has_error message);;
  '(out, p) ← take_call id p;
  match response out with
  | None => Ok p
  | Some d =>
      v ← read_object d p;
      p ← write_object d (filled v message) p;
      p ← match done_ out with Some k => Run k (filled v message) p | None => Ok p end;
      delete_object d p
  end.

(** The branches up to the call of the service. *)
Definition dispatch (services : option (gmap bytes Service)) (message : RpcMessage)
    : RpcErrorCode + Service * MethodDescriptor * rmsg :=
  match services with
  | None => inl NO_SERVICE
  | Some services =>
      match services !! bytes_field (m_service message) with
      | None => inl NO_SERVICE
      | Some service =>
          match FindMethodByName service (bytes_field (m_method message)) with
          | None => inl NO_METHOD
          | Some method =>
              let '(ok, request) := ParseFromString (rNew (GetRequestPrototype service method)) (bytes_field (m_request message)) in
              if (ok : bool) then inr (service, method, request) else inl INVALID_REQUEST
          end
      end
  end.

Definition error_message id (error : RpcErrorCode) : RpcMessage :=
  mkRpcMessage RESPONSE id None None None None (Some error).

(** The service gets the request and the closure. One that runs the closure
    before it returns does so right after this step. *)
Definition onRequest (message : RpcMessage) (p : Peer) : res Peer :=
  c ← this_channel p;
  match dispatch (services_ c) message with
  | inr (service, method, request) =>
      let '(resp, p) := new_object (rNew (GetResponsePrototype service method)) p in
      let id := int64 (m_id message) in
      Ok (set_running (running p ++ [mkRunning service method request resp id]) p)
  | inl error => codec_send (error_message (m_id message) error) p
  end.

Definition onRpcMessage (conn : positive) (message : RpcMessage) (p : Peer) : res Peer :=
  c ← this_channel p;
  assert_ (bool_decide (Some conn = conn_ c));;
  match m_type message with
  | RESPONSE => onResponse message p
  | REQUEST => onRequest message p
  | ERROR => Ok p
  end.

(** ** [doneCallback], run by a service *)
Definition response_message id (resp : rmsg) : RpcMessage :=
  mkRpcMessage RESPONSE (uint64 id) None None None (Some (SerializeAsString resp)) None.

Definition doneCallback (resp : positive) id (p : Peer) : res Peer :=
  v ← read_object resp p;
  p ← codec_send (response_message id v) p;
  delete_object resp p.

(** A service stores its answer in the response object and runs the closure. *)
Definition service_done (i : nat) (v : rmsg) (p : Peer) : option (res Peer) :=
  r ← running p !! i;
  Some (p ← write_object (r_response r) v p;
        doneCallback (r_response r) (r_id r) (set_running (delete i (running p)) p)).

(** ** The destructor *)
Fixpoint delete_calls (outs : list OutstandingCall) (p : Peer) : res Peer :=
  match outs with
  | [] => Ok p
  | out :: outs =>
      p ← match response out with None => Ok p | Some d => delete_object d p end;
      p ← match done_ out with None => Ok p | Some k => delete_closure k p end;
      delete_calls outs p
  end.

Definition RpcChannel_dtor (p : Peer) : res Peer :=
  c ← this_channel p;
  p ← delete_calls (map_to_list (outstandings_ c)).*2 p;
  Ok (mkPeer false (channel p) (heap p) (closures p) (sent p) (running p) (ran p)).

(** ** [RpcServer] *)
Definition registerService (service : Service) (services : gmap bytes Service) : gmap bytes Service :=
  <[full_name service := service]> services.

(** [onConnection] for one connection, whose context holds the channel: a new
    one when it is up, none when it is down. The channel gets the address of
    the map of services; the services are registered before the server starts. *)
Definition onConnection (services : gmap bytes Service) (conn : positive) (connected : bool) (p : Peer) : res Peer :=
  if connected then Ok (mkPeer true (setServices services (RpcChannel_ctor conn)) (heap p) (closures p) (sent p) (running p) (ran p))
  else RpcChannel_dtor p.
End rpc.
