(* ===== verification/RpcSystem.v ===== *)
(** * Two RPC channels and the connection between them

    Both ends of a connection are channels, and both can call. The threads of
    the two programs interleave: a thread inside [CallMethod] stands between
    two of its pieces, messages are on their way in order, and a service runs
    its closure at any later time. [exec] makes one step; besides the state of
    the program it keeps the history the theorems speak about: the calls by id,
    the answers a side got, and what the services answered. *)
From stdpp Require Import gmap.
From S2P Require Import Prelude MuduoBuffer Rpc.

Section system.
Context {R : RpcRuntime}.
Implicit Types (id : Z) (l : positive).

(** A thread inside [CallMethod]. *)
Inductive Calling :=
  | GotId id (method : MethodDescriptor) (request : rmsg) (out : OutstandingCall)
  | Stored id (message : RpcMessage).

(** What the user called: the contents of the response object and what the
    closure tells it, if there are any. *)
Record Call := mkCall {
  c_method : MethodDescriptor;
  c_request : rmsg;
  c_response : option rmsg;
  c_done : option positive;
}.

Record Side := mkSide {
  peer : Peer;
  calling : list Calling;
  calls : gmap Z Call;
  completed : list (Z * RpcMessage);      (** the answers it got *)
  served : list (Running * rmsg);         (** what its services answered *)
}.

Record Sys := mkSys { left_ : Side; right_ : Side }.
Definition side (x : bool) (s : Sys) : Side := if x then right_ s else left_ s.
Definition set_side (x : bool) (e : Side) (s : Sys) : Sys := if x then mkSys (left_ s) e else mkSys e (right_ s).
Definition set_peer (p : Peer) (e : Side) : Side := mkSide p (calling e) (calls e) (completed e) (served e).

(** The identity of the connection. *)
Definition link : positive := 1.

Definition init_side (services : option (gmap bytes Service)) : Side :=
  let c := RpcChannel_ctor link in
  mkSide (mkPeer true (match services with Some m => setServices m c | None => c end) ∅ ∅ [] [] []) [] ∅ [] [].
Definition init (services1 services2 : option (gmap bytes Service)) : Sys := mkSys (init_side services1) (init_side services2).

(** ** Steps of one side *)

(** The user makes a response object and a closure, unless it passes [NULL],
    and calls. *)
Definition begin_call (method : MethodDescriptor) (request : rmsg) (resp : option rmsg) (done : option positive) (e : Side) : res Side :=
  let '(d, p) := match resp with None => (None, peer e) | Some v => let '(d, p) := new_object v (peer e) in (Some d, p) end in
  let '(k, p) := match done with None => (None, p) | Some tag => let '(k, p) := new_closure tag p in (Some k, p) end in
  '(id, p) ← next_id p;
  Ok (mkSide p (calling e ++ [GotId id method request (mkOut d k)])
    (<[id := mkCall method request resp done]> (calls e)) (completed e) (served e)).

Definition store_step (i : nat) (e : Side) : option (res Side) :=
  match calling e !! i with
  | Some (GotId id method request out) =>
      Some (p ← store_call id out (peer e);
            Ok (mkSide p (<[i := Stored id (request_message id method request)]> (calling e)) (calls e) (completed e) (served e)))
  | _ => None
  end.

Definition send_step (i : nat) (e : Side) : option (res Side) :=
  match calling e !! i with
  | Some (Stored id message) =>
      Some (p ← codec_send message (peer e); Ok (mkSide p (delete i (calling e)) (calls e) (completed e) (served e)))
  | _ => None
  end.

(** A message arrives. *)
Definition receive (m : RpcMessage) (e : Side) : res Side :=
  p ← onRpcMessage link m (peer e);
  Ok (mkSide p (calling e) (calls e)
    (if bool_decide (m_type m = RESPONSE) then completed e ++ [(int64 (m_id m), m)] else completed e) (served e)).

Definition finish_step (i : nat) (v : rmsg) (e : Side) : option (res Side) :=
  r ← running (peer e) !! i;
  p ← service_done i v (peer e);
  Some (p ← p; Ok (mkSide p (calling e) (calls e) (completed e) (served e ++ [(r, v)]))).

(** ** Steps of the system *)
Inductive op :=
  | OBegin (x : bool) (method : MethodDescriptor) (request : rmsg) (resp : option rmsg) (done : option positive)
  | OStore (x : bool) (i : nat)
  | OSend (x : bool) (i : nat)
  | OReceive (x : bool)
  | OFinish (x : bool) (i : nat) (v : rmsg).

Definition on_side (x : bool) (r : res Side) (s : Sys) : res Sys := e ← r; Ok (set_side x e s).

(** [None]: the step is not possible in this state. *)
Definition exec (s : Sys) (o : op) : option (res Sys) :=
  match o with
  | OBegin x method request resp done => Some (on_side x (begin_call method request resp done (side x s)) s)
  | OStore x i => r ← store_step i (side x s); Some (on_side x r s)
  | OSend x i => r ← send_step i (side x s); Some (on_side x r s)
  | OReceive x =>
      let from := side (negb x) s in
      match sent (peer from) with
      | [] => None
      | m :: rest => Some (on_side x (receive m (side x s)) (set_side (negb x) (set_peer (set_sent rest (peer from)) from) s))
      end
  | OFinish x i v => r ← finish_step i v (side x s); Some (on_side x r s)
  end.

Fixpoint run (s : Sys) (ops : list op) : option (res Sys) :=
  match ops with
  | [] => Some (Ok s)
  | o :: ops =>
      match exec s o with
      | Some (Ok s) => run s ops
      | r => r
      end
  end.
End system.
