(* ===== verification/RpcProps.v ===== *)
(** * The invariant of two RPC channels

    Every call is in exactly one place: in a thread that is still inside
    [CallMethod], on its way as a request, at a service, on its way back as an
    answer, or completed. The map of outstanding calls holds those that were
    stored and not yet completed; the response objects are live and have one
    owner. Each step keeps this, so no step faults. *)
From stdpp Require Import gmap.
From S2P Require Import Prelude MuduoBuffer Rpc RpcSystem.

Section invariant.
Context {R : RpcRuntime}.
Implicit Types (id : Z) (l : positive) (e p q : Side) (m : RpcMessage).

(** ** Where the calls are *)
Definition got_id (c : Calling) : option Z := match c with GotId id _ _ _ => Some id | Stored _ _ => None end.
Definition stored_id (c : Calling) : option Z := match c with GotId _ _ _ _ => None | Stored id _ => Some id end.
(** The object of a call, its response or its closure, that a thread holds. *)
Definition got_of (f : OutstandingCall -> option positive) (c : Calling) : option positive :=
  match c with GotId _ _ _ out => f out | Stored _ _ => None end.
Definition mid m : Z := int64 (m_id m).

Definition reqs e : list RpcMessage := filter (fun m => m_type m = REQUEST) (sent (peer e)).
Definition resps e : list RpcMessage := filter (fun m => m_type m = RESPONSE) (sent (peer e)).
Definition chan e : RpcChannel := channel (peer e).
Definition outs e : gmap Z OutstandingCall := outstandings_ (chan e).

(** The places of the calls [p] makes to [q] after they were stored. *)
Definition places p q id : nat :=
  (cnt id (omap stored_id (calling p)) + cnt id (mid <$> reqs p) + cnt id (r_id <$> running (peer q)) + cnt id (mid <$> resps q))%nat.

(** ** What the messages say *)
Definition request_of id (c : Call) : RpcMessage := request_message id (c_method c) (c_request c).

Definition asks q id (c : Call) (r : Running) : Prop :=
  r_id r = id /\ dispatch (services_ (chan q)) (request_of id c) = inr (r_service r, r_method r, r_request r).

Definition answers q id (c : Call) m : Prop :=
  (exists r v, (r, v) ∈ served q /\ asks q id c r /\ m = response_message id v) \/
  (exists err, dispatch (services_ (chan q)) (request_of id c) = inl err /\ m = error_message (uint64 id) err).

(** The callback a completed call makes. *)
Definition notice (cs : gmap Z Call) (a : Z * RpcMessage) : option (positive * rmsg) :=
  c ← cs !! a.1; v ← c_response c; k ← c_done c; Some (k, filled v a.2).

(** The object a pointer of a call points at. *)
Definition points {A} (hp : gmap positive A) (l : option positive) (v : option A) : Prop :=
  match l, v with
  | None, None => True
  | Some l, Some v => hp !! l = Some v
  | _, _ => False
  end.

(** The outstanding call is the one the user made; its objects are untouched. *)
Definition holds (pe : Peer) (c : Call) (out : OutstandingCall) : Prop :=
  points (closures pe) (done_ out) (c_done c) /\ points (heap pe) (response out) (c_response c).

Definition one (b : bool) : nat := if b then 1%nat else 0%nat.

(** ** The calls of [p] to [q] *)
Record Dir p q : Prop := {
  d_id : 0 <= id_ (chan p) < 2 ^ 63;
  d_total id : (cnt id (omap got_id (calling p)) + places p q id + cnt id (completed p).*1 =
    one (bool_decide (1 <= id <= id_ (chan p))%Z))%nat;
  d_places id : places p q id = one (bool_decide (is_Some (outs p !! id)));
  d_calls id c : calls p !! id = Some c -> 1 <= id <= id_ (chan p);
  d_got id method request out : GotId id method request out ∈ calling p ->
    exists c, calls p !! id = Some c /\ request_of id c = request_message id method request /\ holds (peer p) c out;
  d_stored id m : Stored id m ∈ calling p -> exists c, calls p !! id = Some c /\ m = request_of id c;
  d_outs id out : outs p !! id = Some out -> exists c, calls p !! id = Some c /\ holds (peer p) c out;
  d_reqs m : m ∈ reqs p -> exists id c, calls p !! id = Some c /\ m = request_of id c;
  d_run r : r ∈ running (peer q) -> exists c, calls p !! r_id r = Some c /\ asks q (r_id r) c r;
  d_resps m : m ∈ resps q -> exists id c, calls p !! id = Some c /\ answers q id c m;
  d_completed id m : (id, m) ∈ completed p -> exists c, calls p !! id = Some c /\ answers q id c m;
  d_ran : ran (peer p) = omap (notice (calls p)) (completed p);
}.

(** ** The objects of a side: live, with one owner each *)
Definition locs_of (f : OutstandingCall -> option positive) (os : gmap Z OutstandingCall) : list positive := omap (fun o => f o.2) (map_to_list os).
(** How many calls hold the object. *)
Definition held (f : OutstandingCall -> option positive) e l : nat :=
  (cnt l (omap (got_of f) (calling e)) + cnt l (locs_of f (outs e)))%nat.
Definition owners e l : nat := (held response e l + cnt l (r_response <$> running (peer e)))%nat.
Definition Owned e : Prop := forall l,
  (owners e l <= one (bool_decide (is_Some (heap (peer e) !! l))))%nat /\
  (held done_ e l <= one (bool_decide (is_Some (closures (peer e) !! l))))%nat.

Definition Ready e : Prop := alive (peer e) = true /\ conn_ (chan e) = Some link.

Definition Inv (s : Sys) : Prop := forall x, Ready (side x s) /\ Owned (side x s) /\ Dir (side x s) (side (negb x) s).

(** ** Small facts *)
Lemma mid_id id : 0 <= id < 2 ^ 63 -> int64 (uint64 id) = id.
Proof.
  intros. unfold int64, uint64. rewrite wrap_id by (unfold in_u; change (2 ^ 64) with (2 * 2 ^ 63); lia).
  apply (swrap_id 64); [done|]. unfold in_s. change (64 - 1) with 63. lia.
Qed.

Lemma locs_of_insert f l os id out : os !! id = None ->
  cnt l (locs_of f (<[id := out]> os)) = (one (bool_decide (f out = Some l)) + cnt l (locs_of f os))%nat.
Proof.
  intros H. unfold locs_of. rewrite (cnt_perm l _ _ (omap_Permutation _ _ _ (map_to_list_insert os id out H))). cbn [omap list_omap snd].
  destruct (f out) as [k|]; [rewrite cnt_cons|]; case_bool_decide; repeat destruct (decide _); simplify_eq; done.
Qed.

Lemma locs_of_delete f l os id out : os !! id = Some out ->
  cnt l (locs_of f os) = (one (bool_decide (f out = Some l)) + cnt l (locs_of f (delete id os)))%nat.
Proof. intros H. rewrite <- locs_of_insert with (id := id) by apply lookup_delete_eq. by rewrite insert_delete_id. Qed.

Lemma locs_of_elem f l os id out : os !! id = Some out -> f out = Some l -> (0 < cnt l (locs_of f os))%nat.
Proof. intros H Hr. rewrite (locs_of_delete f l os id out H), bool_decide_eq_true_2 by done. cbn. lia. Qed.

Lemma got_held f e l id method request out : GotId id method request out ∈ calling e -> f out = Some l -> (0 < held f e l)%nat.
Proof.
  intros Hc Hl. unfold held. assert (0 < cnt l (omap (got_of f) (calling e)))%nat by (apply cnt_elem, list_elem_of_omap; by eexists). lia.
Qed.

Lemma out_held f e l id out : outs e !! id = Some out -> f out = Some l -> (0 < held f e l)%nat.
Proof. intros Ho Hl. unfold held. pose proof (locs_of_elem f l _ _ _ Ho Hl). lia. Qed.

(** ** Frames *)
Definition callee_same q q' : Prop :=
  services_ (chan q') = services_ (chan q) /\ running (peer q') = running (peer q) /\ served q' = served q /\ resps q' = resps q.

Definition caller_same p p' : Prop :=
  id_ (chan p') = id_ (chan p) /\ outs p' = outs p /\ calling p' = calling p /\ calls p' = calls p /\ completed p' = completed p /\
  ran (peer p') = ran (peer p) /\ reqs p' = reqs p /\
  (forall l, (0 < held response p l)%nat -> heap (peer p') !! l = heap (peer p) !! l) /\
  (forall l, (0 < held done_ p l)%nat -> closures (peer p') !! l = closures (peer p) !! l).

Lemma asks_same q q' id c r : services_ (chan q') = services_ (chan q) -> asks q id c r -> asks q' id c r.
Proof. unfold asks. by intros ->. Qed.

Lemma answers_same q q' id c m : services_ (chan q') = services_ (chan q) -> served q `prefix_of` served q' -> answers q id c m -> answers q' id c m.
Proof.
  intros Hs [k Hk] [(r & v & ? & ? & ?)|(err & ? & ?)]; [left | right].
  - exists r, v. split_and!; [rewrite Hk; set_solver | by eapply asks_same | done].
  - exists err. by rewrite Hs.
Qed.

Lemma points_same {A} (hp hp' : gmap positive A) (x : option positive) (v : option A) :
  (forall l, x = Some l -> hp' !! l = hp !! l) -> points hp x v -> points hp' x v.
Proof. unfold points. intros H. destruct x as [l|]; [|done]. destruct v; [|done]. by rewrite (H l eq_refl). Qed.

Lemma holds_same pe pe' c out : (forall l, response out = Some l -> heap pe' !! l = heap pe !! l) ->
  (forall l, done_ out = Some l -> closures pe' !! l = closures pe !! l) -> holds pe c out -> holds pe' c out.
Proof. intros H1 H2 [? ?]. by split; eapply points_same. Qed.

Lemma Dir_callee p q q' : callee_same q q' -> Dir p q -> Dir p q'.
Proof.
  intros (E1 & E2 & E3 & E4) [].
  assert (Ha : forall id c m, answers q id c m -> answers q' id c m) by (intros; eapply answers_same; [done | by rewrite E3 | done]).
  assert (Hp : forall id, places p q' id = places p q id) by (intros; unfold places; by rewrite E2, E4).
  split; try done.
  - intros id. by rewrite Hp.
  - intros id. by rewrite Hp.
  - intros r. rewrite E2. intros Hr. destruct (d_run0 r Hr) as (c & ? & ?). exists c. split; [done|]. by eapply asks_same.
  - intros m. rewrite E4. intros Hm. destruct (d_resps0 m Hm) as (id & c & ? & ?). exists id, c. eauto.
  - intros id m Hm. destruct (d_completed0 id m Hm) as (c & ? & ?). exists c. eauto.
Qed.

Lemma Dir_caller p p' q : caller_same p p' -> Dir p q -> Dir p' q.
Proof.
  intros (E1 & E2 & E3 & E4 & E5 & E6 & E7 & E8 & E9) [].
  assert (Hp : forall id, places p' q id = places p q id) by (intros; unfold places; by rewrite E3, E7).
  split; rewrite ?E1, ?E2, ?E3, ?E4, ?E5, ?E6, ?E7 in *; try done.
  - intros id. by rewrite Hp.
  - intros id. by rewrite Hp.
  - intros id method request out Hg. destruct (d_got0 _ _ _ _ Hg) as (c & ? & ? & ?). exists c. split_and!; [done..|].
    eapply holds_same; [..|done]; intros l Hl; [apply E8 | apply E9]; by eapply got_held.
  - intros id out Ho. destruct (d_outs0 _ _ Ho) as (c & ? & ?). exists c. split; [done|].
    eapply holds_same; [..|done]; intros l Hl; [apply E8 | apply E9]; by eapply out_held.
Qed.
End invariant.
