(* ===== verification/RpcSteps.v ===== *)
(** * Every step of two RPC channels keeps the invariant *)
From stdpp Require Import gmap.
From S2P Require Import Prelude MuduoBuffer Rpc RpcSystem RpcProps.

(** Projections of the records a step builds. *)
Ltac fields := cbn [peer channel conn_ id_ outstandings_ services_ calling calls completed served alive sent running ran heap closures
  set_channel set_heap set_closures set_sent set_running add_ran set_peer] in *.

Section steps.
Context {R : RpcRuntime}.
Implicit Types (id : Z) (l : positive) (e p q : Side) (m : RpcMessage).

Lemma points_weaken {A} (hp hp' : gmap positive A) (x : option positive) (v : option A) : hp ⊆ hp' -> points hp x v -> points hp' x v.
Proof. unfold points. intros Hs. destruct x; [|done]. destruct v; [|done]. intros ?. by eapply lookup_weaken. Qed.

Lemma holds_weaken (pe pe' : Peer) c out : heap pe ⊆ heap pe' -> closures pe ⊆ closures pe' -> holds pe c out -> holds pe' c out.
Proof. intros ? ? [? ?]. by split; eapply points_weaken. Qed.

Lemma notice_weaken (cs cs' : gmap Z Call) (as_ : list (Z * RpcMessage)) : cs ⊆ cs' -> (forall a, a ∈ as_ -> is_Some (cs !! a.1)) ->
  omap (notice cs') as_ = omap (notice cs) as_.
Proof.
  intros Hs. induction as_ as [|a as_ IH]; intros H; [done|]. cbn [omap list_omap].
  rewrite IH by (intros; apply H; set_solver). unfold notice.
  destruct (H a) as [c Hc]; [set_solver|]. by rewrite Hc, (lookup_weaken _ _ _ _ Hc Hs).
Qed.

Lemma answers_msg q id c m : answers q id c m -> m_type m = RESPONSE /\ m_id m = uint64 id /\ (has_response m || has_error m) = true.
Proof. intros [(r & v & _ & _ & ->)|(err & _ & ->)]; done. Qed.

(** The id on the wire is the id of the call. *)
Lemma mid_request p q : Dir p q -> forall id c, calls p !! id = Some c -> mid (request_of id c) = id.
Proof. intros [] id c Hc. apply d_calls in Hc. apply mid_id. lia. Qed.

Lemma mid_answer p q : Dir p q -> forall id c m, calls p !! id = Some c -> answers q id c m -> mid m = id.
Proof. intros [] id c m Hc (_ & E & _)%answers_msg. apply d_calls in Hc. unfold mid. rewrite E. apply mid_id. lia. Qed.

(** ** Beginning a call *)
Lemma Dir_begin p q hp' cl' method request resp done out : Dir p q -> id_ (chan p) + 1 < 2 ^ 63 ->
  heap (peer p) ⊆ hp' -> closures (peer p) ⊆ cl' -> points cl' (done_ out) done -> points hp' (response out) resp ->
  let id := id_ (chan p) + 1 in
  Dir (mkSide (mkPeer (alive (peer p)) (mkChannel (conn_ (chan p)) id (outs p) (services_ (chan p))) hp' cl'
        (sent (peer p)) (running (peer p)) (ran (peer p)))
      (calling p ++ [GotId id method request out]) (<[id := mkCall method request resp done]> (calls p)) (completed p) (served p)) q.
Proof.
  intros [] Hb Hhp Hcl Hd1 Hr1 id.
  assert (Hc : calls p ⊆ <[id := mkCall method request resp done]> (calls p)).
  { apply insert_subseteq. destruct (calls p !! id) eqn:E; [|done]. apply d_calls in E. unfold id in E. lia. }
  assert (Hw : forall id' c', calls p !! id' = Some c' -> <[id := mkCall method request resp done]> (calls p) !! id' = Some c')
    by (intros; by eapply lookup_weaken).
  split; unfold places, reqs, outs, chan in *; fields.
  - lia.
  - intros id'. rewrite !omap_app, !cnt_app. cbn [omap list_omap got_id stored_id]. rewrite cnt_cons, cnt_nil.
    specialize (d_total id'). unfold places, reqs in d_total. repeat case_bool_decide; destruct (decide (id = id')); cbn in *; lia.
  - intros id'. rewrite omap_app. cbn [omap list_omap stored_id]. rewrite app_nil_r. apply d_places.
  - intros id' c' [[<- _]|[_ Hl]]%lookup_insert_Some; [lia|]. apply d_calls in Hl. lia.
  - intros id' me re o [Hg|[= -> -> -> ->]%list_elem_of_singleton]%elem_of_app.
    + destruct (d_got _ _ _ _ Hg) as (c & ? & ? & ?). exists c. split_and!; [auto | done | by eapply holds_weaken].
    + eexists. split; [apply lookup_insert_eq|]. done.
  - intros id' m [Hg|[=]%list_elem_of_singleton]%elem_of_app. destruct (d_stored _ _ Hg) as (c & ? & ?). eauto.
  - intros id' o Ho. destruct (d_outs _ _ Ho) as (c & ? & ?). eauto using holds_weaken.
  - intros m Hm. destruct (d_reqs _ Hm) as (id' & c & ? & ?). eauto.
  - intros r Hr. destruct (d_run _ Hr) as (c & ? & ?). eauto.
  - intros m Hm. destruct (d_resps _ Hm) as (id' & c & ? & ?). eauto 6.
  - intros id' m Hm. destruct (d_completed _ _ Hm) as (c & ? & ?). eauto.
  - rewrite d_ran. symmetry. apply notice_weaken; [done|]. intros [id' m] Hm. destruct (d_completed _ _ Hm) as (c & ? & ?). by exists c.
Qed.

Lemma fresh_heap (hp : gmap positive rmsg) v : hp !! fresh (dom hp) = None /\ hp ⊆ <[fresh (dom hp) := v]> hp.
Proof.
  assert (H : hp !! fresh (dom hp) = None) by (apply not_elem_of_dom, is_fresh). split; [done|]. by apply insert_subseteq.
Qed.

Lemma Owned_dead e l : Owned e -> heap (peer e) !! l = None -> owners e l = 0%nat.
Proof. intros H Hl. destruct (H l) as [H' _]. rewrite Hl in H'. cbn in H'. lia. Qed.

(** A new object, if the user wants one. *)
Definition alloc {A} (hp : gmap positive A) (v : option A) : option positive * gmap positive A :=
  match v with None => (None, hp) | Some v => let l := fresh (dom hp) in (Some l, <[l := v]> hp) end.

Lemma alloc_spec {A} (hp : gmap positive A) (v : option A) : let '(x, hp') := alloc hp v in
  points hp' x v /\ hp ⊆ hp' /\
  forall l, one (bool_decide (is_Some (hp' !! l))) = (one (bool_decide (x = Some l)) + one (bool_decide (is_Some (hp !! l))))%nat.
Proof.
  destruct v as [v|]; cbn; [|done]. assert (H : hp !! fresh (dom hp) = None) by (apply not_elem_of_dom, is_fresh).
  split_and!; [apply lookup_insert_eq | by apply insert_subseteq|]. intros l. destruct (decide (fresh (dom hp) = l)) as [<-|Hn].
  - rewrite lookup_insert_eq, H. rewrite (bool_decide_eq_true_2 (is_Some (Some v))), (bool_decide_eq_true_2 (Some _ = Some _)) by done.
    by rewrite (bool_decide_eq_false_2 _ is_Some_None).
  - rewrite lookup_insert_ne, (bool_decide_eq_false_2 (Some _ = Some l)) by congruence. done.
Qed.

Lemma begin_call_eq p method request resp done : alive (peer p) = true ->
  begin_call method request resp done p =
  let '(d, hp') := alloc (heap (peer p)) resp in
  let '(k, cl') := alloc (closures (peer p)) done in
  let id := int64 (id_ (chan p) + 1) in
  Ok (mkSide (mkPeer true (mkChannel (conn_ (chan p)) id (outs p) (services_ (chan p))) hp' cl' (sent (peer p)) (running (peer p)) (ran (peer p)))
    (calling p ++ [GotId id method request (mkOut d k)]) (<[id := mkCall method request resp done]> (calls p)) (completed p) (served p)).
Proof.
  destruct p as [[a ch hp cl sn rn ra] cs cl' co se]. cbn. intros ->. by destruct resp, done.
Qed.

(** The objects of a call that is new. *)
Lemma held_begin f e e' c l : calling e' = calling e ++ [c] -> outs e' = outs e ->
  held f e' l = (one (bool_decide (got_of f c = Some l)) + held f e l)%nat.
Proof.
  intros E1 E2. unfold held. rewrite E1, E2, omap_app, cnt_app. cbn [omap list_omap]. destruct (got_of f c) as [k|].
  - rewrite cnt_cons, cnt_nil. case_bool_decide; destruct (decide (k = l)); simplify_eq; cbn [one]; lia.
  - rewrite cnt_nil, bool_decide_eq_false_2 by done. cbn [one]. lia.
Qed.

Lemma begin_call_ok p q method request resp done : Ready p -> Owned p -> Dir p q -> id_ (chan p) + 1 < 2 ^ 63 ->
  exists p', begin_call method request resp done p = Ok p' /\ Ready p' /\ Owned p' /\ Dir p' q /\ callee_same p p' /\
    id_ (chan p') = id_ (chan p) + 1.
Proof.
  intros [Ha Hcn] Ho HD Hb. rewrite begin_call_eq by done. pose proof (d_id _ _ HD) as Hid.
  assert (Hi : int64 (id_ (chan p) + 1) = id_ (chan p) + 1) by (apply (swrap_id 64); [done | unfold in_s; change (64 - 1) with 63; lia]).
  rewrite Hi.
  pose proof (alloc_spec (heap (peer p)) resp) as Hr. pose proof (alloc_spec (closures (peer p)) done) as Hd.
  destruct (alloc (heap (peer p)) resp) as [d hp'], (alloc (closures (peer p)) done) as [k cl']. destruct Hr as (Hr1 & Hr2 & Hr3), Hd as (Hd1 & Hd2 & Hd3).
  eexists. split; [reflexivity|]. split_and!; [done| | |done|done].
  - intros l. destruct (Ho l) as [H1 H2]. unfold owners in *. set (e' := mkSide _ _ _ _ _).
    rewrite (held_begin response p e' _ l eq_refl eq_refl), (held_begin done_ p e' _ l eq_refl eq_refl). subst e'. cbn [got_of response done_].
    fields. rewrite Hr3, Hd3. lia.
  - pose proof (Dir_begin p q hp' cl' method request resp done (mkOut d k) HD Hb Hr2 Hd2 Hd1 Hr1) as HD'. by rewrite Ha in HD'.
Qed.

(** ** Storing it *)
Lemma places_zero p q id c : Dir p q -> c ∈ calling p -> got_id c = Some id -> outs p !! id = None.
Proof.
  intros HD Hc Hi. pose proof (d_total _ _ HD id) as Ht. pose proof (d_places _ _ HD id) as Hp.
  assert (0 < cnt id (omap got_id (calling p)))%nat by (apply cnt_elem, list_elem_of_omap; by exists c).
  destruct (outs p !! id) eqn:E; [|done]. rewrite bool_decide_eq_true_2 in Hp by done. cbn in Hp. unfold one in Ht. case_bool_decide; lia.
Qed.

Lemma Dir_store p q i id method request out : Dir p q -> calling p !! i = Some (GotId id method request out) ->
  Dir (mkSide (set_channel (mkChannel (conn_ (chan p)) (id_ (chan p)) (<[id := out]> (outs p)) (services_ (chan p))) (peer p))
      (<[i := Stored id (request_message id method request)]> (calling p)) (calls p) (completed p) (served p)) q.
Proof.
  intros HD Hi. pose proof (list_elem_of_lookup_2 _ _ _ Hi) as Hel. pose proof (places_zero p q id _ HD Hel eq_refl) as Hn.
  destruct HD. destruct (d_got _ _ _ _ Hel) as (c0 & Hc0 & Hr0 & Hh0).
  assert (Hins : forall id', cnt id' (omap stored_id (<[i := Stored id (request_message id method request)]> (calling p))) =
    (one (bool_decide (id = id')) + cnt id' (omap stored_id (calling p)))%nat).
  { intros id'. rewrite (cnt_omap_insert _ _ _ _ _ _ Hi), (cnt_omap_delete stored_id id' _ _ _ Hi). cbn [stored_id].
    case_bool_decide; repeat destruct (decide _); simplify_eq; done. }
  assert (Hgot : forall id', cnt id' (omap got_id (calling p)) = (one (bool_decide (id = id')) +
    cnt id' (omap got_id (<[i := Stored id (request_message id method request)]> (calling p))))%nat).
  { intros id'. rewrite (cnt_omap_insert _ _ _ _ _ _ Hi), (cnt_omap_delete got_id id' _ _ _ Hi). cbn [got_id].
    case_bool_decide; repeat destruct (decide _); simplify_eq; done. }
  split; unfold places, reqs, outs, chan in *; fields; try done.
  - intros id'. specialize (d_total id'). rewrite Hgot in d_total. unfold places, reqs in d_total. rewrite Hins. lia.
  - intros id'. specialize (d_places id'). unfold places, reqs in d_places. rewrite Hins. destruct (decide (id = id')) as [<-|Hne].
    + rewrite lookup_insert_eq. rewrite Hn in d_places. rewrite !bool_decide_eq_true_2 by done. cbn [one]. cbn in d_places. lia.
    + rewrite lookup_insert_ne, (bool_decide_eq_false_2 (id = id')) by done. cbn [one]. lia.
  - intros id' me re o [?|Hg]%list_insert_inv; [done|]. by apply d_got.
  - intros id' m [[= -> ->]|Hg]%list_insert_inv; [by exists c0 | by apply d_stored].
  - intros id' o [[<- <-]|[_ Ho]]%lookup_insert_Some; [by exists c0 | by apply d_outs].
Qed.

(** Storing a call keeps its objects held. *)
Lemma held_store f e e' i id method request out m l : calling e !! i = Some (GotId id method request out) -> outs e !! id = None ->
  calling e' = <[i := Stored id m]> (calling e) -> outs e' = <[id := out]> (outs e) -> held f e' l = held f e l.
Proof.
  intros Hi Hn E1 E2. unfold held. rewrite E1, E2, locs_of_insert, (cnt_omap_insert _ _ _ _ _ _ Hi), (cnt_omap_delete (got_of f) l _ _ _ Hi) by done.
  cbn [got_of]. unfold one. repeat case_bool_decide; repeat destruct (decide _); simplify_eq; lia.
Qed.

Lemma store_step_ok p q i r : Ready p -> Owned p -> Dir p q -> store_step i p = Some r ->
  exists p', r = Ok p' /\ Ready p' /\ Owned p' /\ Dir p' q /\ callee_same p p' /\ id_ (chan p') = id_ (chan p).
Proof.
  intros [Ha Hcn] Ho HD. unfold store_step. destruct (calling p !! i) as [[id method request out|]|] eqn:Hi; [|done..].
  intros [= <-]. unfold store_call, this_channel. rewrite Ha. cbn [mbind res_bind]. eexists. split; [reflexivity|].
  split_and!; [done| |by eapply Dir_store|done|done].
  pose proof (places_zero p q id _ HD (list_elem_of_lookup_2 _ _ _ Hi) eq_refl) as Hn.
  intros l. destruct (Ho l) as [H1 H2]. unfold owners in *. fields.
  set (e' := mkSide _ _ _ _ _).
  by rewrite (held_store response p e' _ _ _ _ _ _ l Hi Hn eq_refl eq_refl), (held_store done_ p e' _ _ _ _ _ _ l Hi Hn eq_refl eq_refl).
Qed.

(** ** Sending the request *)
Lemma Dir_send p q i id m : Dir p q -> calling p !! i = Some (Stored id m) ->
  m_type m = REQUEST /\
  Dir (mkSide (set_sent (sent (peer p) ++ [m]) (peer p)) (delete i (calling p)) (calls p) (completed p) (served p)) q.
Proof.
  intros HD Hi. pose proof (list_elem_of_lookup_2 _ _ _ Hi) as Hel. pose proof HD as []. destruct (d_stored _ _ Hel) as (c0 & Hc0 & ->).
  split; [done|].
  assert (Hp : forall id', cnt id' (mid <$> filter (fun m => m_type m = REQUEST) (sent (peer p) ++ [request_of id c0])) =
    (cnt id' (mid <$> reqs p) + one (bool_decide (id = id')))%nat).
  { intros id'. rewrite filter_app, fmap_app, cnt_app, filter_cons_True by done. cbn [filter list_filter fmap list_fmap].
    rewrite cnt_cons, cnt_nil, (mid_request p q HD id c0 Hc0).
    case_bool_decide; repeat destruct (decide _); simplify_eq; done. }
  assert (Hd : forall id', cnt id' (omap stored_id (calling p)) = (one (bool_decide (id = id')) + cnt id' (omap stored_id (delete i (calling p))))%nat).
  { intros id'. rewrite (cnt_omap_delete stored_id id' _ _ _ Hi). cbn [stored_id]. case_bool_decide; repeat destruct (decide _); simplify_eq; done. }
  assert (Hg : forall id', cnt id' (omap got_id (calling p)) = cnt id' (omap got_id (delete i (calling p))))
    by (intros id'; by rewrite (cnt_omap_delete got_id id' _ _ _ Hi)).
  split; unfold places, outs, chan in *; fields; try done.
  - intros id'. specialize (d_total id'). rewrite Hg, Hd in d_total. unfold reqs at 1. fields. rewrite Hp. lia.
  - intros id'. rewrite <- d_places, Hd. unfold reqs at 1. fields. rewrite Hp. lia.
  - intros id' me re o Hm%list_elem_of_delete_inv. by apply d_got.
  - intros id' m Hm%list_elem_of_delete_inv. by apply d_stored.
  - intros m. unfold reqs. fields. rewrite filter_app, filter_cons_True by done. intros [Hm|Hm%list_elem_of_singleton]%elem_of_app; [by apply d_reqs | subst; eauto].
Qed.

Lemma send_step_ok p q i r : Ready p -> Owned p -> Dir p q -> send_step i p = Some r ->
  exists p', r = Ok p' /\ Ready p' /\ Owned p' /\ Dir p' q /\ callee_same p p' /\ id_ (chan p') = id_ (chan p).
Proof.
  intros [Ha Hcn] Ho HD. unfold send_step. destruct (calling p !! i) as [[|id m]|] eqn:Hi; [done| |done].
  intros [= <-]. destruct (Dir_send p q i id m HD Hi) as [Ht HD']. unfold codec_send, this_channel. rewrite Ha. cbn [mbind res_bind].
  unfold chan in Hcn. rewrite Hcn. cbn [mbind res_bind]. eexists. split; [reflexivity|]. split_and!; [by split| |done| |done].
  - intros l. specialize (Ho l). unfold owners, held, outs, chan in *. fields.
    by rewrite (cnt_omap_delete (got_of response) l _ _ _ Hi), (cnt_omap_delete (got_of done_) l _ _ _ Hi) in Ho.
  - split_and!; try done. unfold resps. fields. rewrite filter_app, filter_cons_False by (by rewrite Ht). by rewrite app_nil_r.
Qed.

(** ** A message arrives *)
Definition pop rest e : Side := set_peer (set_sent rest (peer e)) e.

Lemma pop_caller q m rest : sent (peer q) = m :: rest -> m_type m <> REQUEST -> caller_same q (pop rest q).
Proof. intros E Ht. split_and!; try done. unfold reqs. rewrite E, filter_cons_False by done. done. Qed.

Lemma pop_callee q m rest : sent (peer q) = m :: rest -> m_type m <> RESPONSE -> callee_same q (pop rest q).
Proof. intros E Ht. split_and!; try done. unfold resps. rewrite E, filter_cons_False by done. done. Qed.

Lemma pop_Owned q rest : Owned q -> Owned (pop rest q).
Proof. done. Qed.

Lemma owners_caller e l : (0 < held response e l)%nat -> (0 < owners e l)%nat.
Proof. unfold owners. lia. Qed.

Definition without {A} (x : option positive) (hp : gmap positive A) : gmap positive A :=
  match x with Some l => delete l hp | None => hp end.

(** The peer after the answer to the call [id]: the closure is left alone when
    there is no response object. *)
Definition ran_closure (out : OutstandingCall) : option positive := match response out with Some _ => done_ out | None => None end.
Definition answered (pe : Peer) id (c : Call) (out : OutstandingCall) m : Peer :=
  let ch := channel pe in
  mkPeer (alive pe) (mkChannel (conn_ ch) (id_ ch) (delete id (outstandings_ ch)) (services_ ch))
    (without (response out) (heap pe)) (without (ran_closure out) (closures pe)) (sent pe) (running pe)
    (ran pe ++ match c_response c, c_done c with Some v, Some k => [(k, filled v m)] | _, _ => [] end).

Lemma onResponse_ok pe c out m : alive pe = true -> outstandings_ (channel pe) !! mid m = Some out -> holds pe c out ->
  has_response m || has_error m = true -> onResponse m pe = Ok (answered pe (mid m) c out m).
Proof.
  intros Ha Ho [Hd Hh] Hr. unfold onResponse, answered, take_call, this_channel, ran_closure. rewrite assert_bind_true, Ha by done. cbn [mbind res_bind].
  fold (mid m). rewrite Ho. unfold points in *. destruct (response out) as [l|] eqn:El.
  - destruct (c_response c) as [v|] eqn:Ec; [|done]. cbn [mbind res_bind]. rewrite El. unfold write_object, read_object. fields. rewrite Hh.
    cbn [mbind res_bind]. unfold Run, delete_closure, delete_object, read_object.
    destruct (done_ out) as [k|] eqn:Ek; destruct (c_done c) as [tag|]; try done; fields; rewrite ?Hd; fields; cbn [mbind res_bind];
      fields; rewrite lookup_insert_eq; cbn [mbind res_bind]; rewrite delete_insert_eq, ?app_nil_r;
      unfold set_heap, set_closures, add_ran; fields; by rewrite Ha.
  - destruct (c_response c); [done|]. cbn [mbind res_bind]. rewrite El, app_nil_r. unfold set_channel. by rewrite Ha.
Qed.

(** The object of another call is not the one that was deleted. *)
Lemma other_loc {A} f (hp : gmap positive A) e id out l l' : (forall k, (held f e k <= one (bool_decide (is_Some (hp !! k))))%nat) ->
  outs e !! id = Some out -> f out = Some l ->
  (0 < cnt l' (omap (got_of f) (calling e)) + cnt l' (locs_of f (delete id (outs e))))%nat -> l <> l'.
Proof.
  intros Ho Hi Hl Hp <-. specialize (Ho l). unfold held in Ho. rewrite (locs_of_delete f l _ _ _ Hi), bool_decide_eq_true_2 in Ho by done.
  unfold one in Ho. case_bool_decide; lia.
Qed.

Lemma Owned_heap e : Owned e -> forall k, (held response e k <= one (bool_decide (is_Some (heap (peer e) !! k))))%nat.
Proof. intros H k. destruct (H k) as [H' _]. unfold owners in H'. lia. Qed.

Lemma Owned_closures e : Owned e -> forall k, (held done_ e k <= one (bool_decide (is_Some (closures (peer e) !! k))))%nat.
Proof. intros H k. apply H. Qed.

Lemma answered_holds p id c0 m out c : Owned p -> outs p !! id = Some out -> forall out',
  (forall f l', f out' = Some l' -> (0 < cnt l' (omap (got_of f) (calling p)) + cnt l' (locs_of f (delete id (outs p))))%nat) ->
  holds (peer p) c out' -> holds (answered (peer p) id c0 out m) c out'.
Proof.
  intros Ho Hi out' Hp. apply holds_same; intros l' Hl'; cbn [answered heap closures]; unfold without, ran_closure.
  - destruct (response out) as [l|] eqn:El; [|done]. apply lookup_delete_ne. eapply (other_loc response); eauto using Owned_heap.
  - destruct (response out) as [|]; [|done]. destruct (done_ out) as [l|] eqn:El; [|done]. apply lookup_delete_ne.
    eapply (other_loc done_); eauto using Owned_closures.
Qed.

Lemma Dir_answered p q m rest id c out : Owned p -> Dir p q -> sent (peer q) = m :: rest -> m_type m = RESPONSE ->
  calls p !! id = Some c -> answers q id c m -> outs p !! id = Some out ->
  Dir (mkSide (answered (peer p) id c out m) (calling p) (calls p) (completed p ++ [(id, m)]) (served p)) (pop rest q).
Proof.
  intros Hown HD Es Ht Hc Ha Ho. pose proof (mid_answer p q HD id c m Hc Ha) as Hm. destruct HD.
  assert (Er : resps q = m :: resps (pop rest q)) by (unfold resps; rewrite Es, filter_cons_True by done; done).
  assert (Hpl : forall id', places p q id' = (one (bool_decide (id = id')) + places p (pop rest q) id')%nat).
  { intros id'. unfold places. rewrite Er, fmap_cons, cnt_cons, Hm. cbn [peer pop set_peer set_sent running].
    case_bool_decide; repeat destruct (decide _); simplify_eq; cbn [one]; lia. }
  assert (Hpe : forall id', places (mkSide (answered (peer p) id c out m) (calling p) (calls p) (completed p ++ [(id, m)]) (served p)) (pop rest q) id' =
    places p (pop rest q) id') by done.
  split.
  - done.
  - intros id'. rewrite Hpe. specialize (d_total id'). rewrite Hpl in d_total. fields. rewrite fmap_app, cnt_app. cbn [fmap list_fmap fst].
    rewrite cnt_cons, cnt_nil. unfold chan in *. cbn [peer answered channel id_]. unfold one in *.
    repeat case_bool_decide; repeat destruct (decide _); simplify_eq; lia.
  - intros id'. rewrite Hpe. specialize (d_places id'). rewrite Hpl in d_places. unfold outs, chan in *. cbn [peer answered channel outstandings_].
    destruct (decide (id = id')) as [<-|Hne].
    + rewrite lookup_delete_eq. rewrite Ho in d_places. rewrite !bool_decide_eq_true_2 in d_places by done. cbn in *. lia.
    + rewrite lookup_delete_ne by done. rewrite (bool_decide_eq_false_2 (id = id')) in d_places by done. done.
  - done.
  - intros id' me re o Hg. destruct (d_got _ _ _ _ Hg) as (c' & ? & ? & ?). exists c'. split_and!; [done..|].
    eapply answered_holds; [done..| |done]. intros f l Hl.
    assert (0 < cnt l (omap (got_of f) (calling p)))%nat by (apply cnt_elem, list_elem_of_omap; by eexists). lia.
  - done.
  - intros id' o. unfold outs, chan. cbn [peer answered channel outstandings_]. intros Hl. pose proof Hl as [Hne Hl']%lookup_delete_Some.
    destruct (d_outs _ _ Hl') as (c' & ? & ?). exists c'. split; [done|]. eapply answered_holds; [done..| |done].
    intros f l Hr. pose proof (locs_of_elem f l _ _ _ Hl Hr). unfold outs, chan. lia.
  - done.
  - done.
  - intros m' Hm'. apply d_resps. rewrite Er. set_solver.
  - fields. intros id' m' [Hm'|[= -> ->]%list_elem_of_singleton]%elem_of_app; [by apply d_completed | eauto].
  - cbn [peer answered ran calls completed]. rewrite omap_app, d_ran. f_equal. cbn [omap list_omap notice fst snd]. unfold notice. cbn [fst snd]. rewrite Hc.
    cbn. by destruct (c_response c), (c_done c).
Qed.

Lemma held_answered f e e' id out l : outs e !! id = Some out -> calling e' = calling e -> outs e' = delete id (outs e) ->
  held f e l = (one (bool_decide (f out = Some l)) + held f e' l)%nat.
Proof. intros Hi E1 E2. unfold held. rewrite E1, E2, (locs_of_delete f l _ _ _ Hi). lia. Qed.

Lemma live_without {A} (x : option positive) (hp : gmap positive A) l n :
  (one (bool_decide (x = Some l)) + n <= one (bool_decide (is_Some (hp !! l))))%nat ->
  (n <= one (bool_decide (is_Some (without x hp !! l))))%nat.
Proof.
  destruct x as [k|]; cbn [without]; [|rewrite bool_decide_eq_false_2 by done; done]. destruct (decide (k = l)) as [->|Hn].
  - rewrite (bool_decide_eq_true_2 (Some l = Some l)) by done. unfold one. repeat case_bool_decide; lia.
  - rewrite lookup_delete_ne by done. lia.
Qed.

Lemma Owned_answered p id c out m k : Owned p -> outs p !! id = Some out ->
  Owned (mkSide (answered (peer p) id c out m) (calling p) (calls p) k (served p)).
Proof.
  intros Ho Hi l. destruct (Ho l) as [H1 H2]. set (e' := mkSide _ _ _ _ _). unfold owners in *.
  rewrite (held_answered response p e' id out l Hi) in H1 by done. rewrite (held_answered done_ p e' id out l Hi) in H2 by done. split.
  - cbn [e' peer answered heap running]. apply live_without. lia.
  - cbn [e' peer answered closures]. apply live_without. unfold ran_closure. destruct (response out); [done|].
    rewrite bool_decide_eq_false_2 by done. cbn [one]. lia.
Qed.

(** What a message from [q] does to [p]. *)
Definition received p q rest (r : res Side) : Prop := exists p', r = Ok p' /\ Ready p' /\ Owned p' /\
  Dir p' (pop rest q) /\ Dir (pop rest q) p' /\ id_ (chan p') = id_ (chan p).

Lemma receive_response p q m rest : Ready p -> Owned p -> Dir p q -> Dir q p -> sent (peer q) = m :: rest -> m_type m = RESPONSE ->
  received p q rest (receive m p).
Proof.
  intros [Ha Hcn] Ho HD HD' Es Ht.
  assert (Hin : m ∈ resps q) by (unfold resps; rewrite Es, filter_cons_True by done; set_solver).
  destruct (d_resps _ _ HD m Hin) as (id & c & Hc & Hans). pose proof (mid_answer p q HD id c m Hc Hans) as Hm.
  assert (Hplace : (0 < places p q id)%nat).
  { unfold places. assert (0 < cnt id (mid <$> resps q))%nat by (apply cnt_elem; rewrite <- Hm; by apply list_elem_of_fmap_2). lia. }
  rewrite (d_places _ _ HD) in Hplace. destruct (outs p !! id) as [out|] eqn:Hout; [|cbn in Hplace; lia].
  destruct (d_outs _ _ HD _ _ Hout) as (c' & Hc' & Hh). assert (c' = c) as -> by congruence.
  destruct (answers_msg q id c m Hans) as (_ & _ & Hhas). unfold receive, onRpcMessage, this_channel. rewrite Ha. cbn [mbind res_bind].
  unfold chan in Hcn. rewrite Hcn, (bool_decide_eq_true_2 (Some link = Some link)), assert_bind_true, Ht by done.
  rewrite (onResponse_ok _ c out) by (done || by rewrite Hm). cbn [mbind res_bind]. fold (mid m). rewrite Hm.
  eexists. split; [reflexivity|]. split_and!; [done | by apply Owned_answered | by apply Dir_answered | | done].
  eapply Dir_caller; [eapply pop_caller; [done | by rewrite Ht]|]. eapply Dir_callee; [|exact HD']. by split_and!.
Qed.

(** A request leaves the queue of [p]. *)
Lemma pop_request p q m rest : Dir p q -> sent (peer p) = m :: rest -> m_type m = REQUEST ->
  exists id c, calls p !! id = Some c /\ m = request_of id c /\
  forall id', places p q id' = (one (bool_decide (id = id')) + places (pop rest p) q id')%nat.
Proof.
  intros HD Es Ht. assert (Er : reqs p = m :: reqs (pop rest p)) by (unfold reqs; rewrite Es, filter_cons_True by done; done).
  destruct (d_reqs _ _ HD m) as (id & c & Hc & ->); [rewrite Er; set_solver|]. exists id, c. split_and!; [done..|].
  intros id'. unfold places. rewrite Er, fmap_cons, cnt_cons, (mid_request p q HD id c Hc). cbn [peer pop set_peer set_sent running calling].
  case_bool_decide; repeat destruct (decide _); simplify_eq; cbn [one]; lia.
Qed.

(** The calls of [p], when [q] takes the request [id] into one of its places. *)
Lemma Dir_taken p q q' m rest id : Dir p q -> sent (peer p) = m :: rest ->
  (forall id', places p q id' = (one (bool_decide (id = id')) + places (pop rest p) q id')%nat) ->
  (forall id', places (pop rest p) q' id' = (one (bool_decide (id = id')) + places (pop rest p) q id')%nat) ->
  services_ (chan q') = services_ (chan q) -> served q' = served q ->
  (forall r, r ∈ running (peer q') -> r ∈ running (peer q) \/ exists c, calls p !! r_id r = Some c /\ asks q (r_id r) c r) ->
  (forall k, k ∈ resps q' -> k ∈ resps q \/ exists i c, calls p !! i = Some c /\ answers q i c k) ->
  Dir (pop rest p) q'.
Proof.
  intros [] Es Hp Hp' Es1 Es2 Hr Hk.
  assert (Ha : forall id c m, answers q id c m -> answers q' id c m) by (intros; eapply answers_same; [done | by rewrite Es2 | done]).
  split; try done.
  - intros id'. rewrite Hp', <- Hp. apply d_total.
  - intros id'. rewrite Hp', <- Hp. apply d_places.
  - intros k Hin. apply d_reqs. unfold reqs in *. rewrite Es. fields. apply list_elem_of_filter in Hin as [? ?]. apply list_elem_of_filter.
    split; [done | by right].
  - intros r Hin. cut (exists c, calls p !! r_id r = Some c /\ asks q (r_id r) c r).
    { intros (c & ? & ?). exists c. split; [done|]. by eapply asks_same. }
    destruct (Hr r Hin) as [?|?]; [by apply d_run | done].
  - intros k Hin. cut (exists i c, calls p !! i = Some c /\ answers q i c k).
    { intros (i & c & ? & ?). exists i, c. auto. }
    destruct (Hk k Hin) as [?|?]; [by apply d_resps | done].
  - intros i k Hin. destruct (d_completed i k Hin) as (c & ? & ?). eauto.
Qed.

Lemma request_error id c err : m_id (request_of id c) = uint64 id /\ m_type (error_message (uint64 id) err) = RESPONSE.
Proof. done. Qed.

(** Here [p] is the caller, [q] gets its request. *)
Lemma receive_request p q m rest : Ready q -> Owned q -> Dir p q -> Dir q p -> sent (peer p) = m :: rest -> m_type m = REQUEST ->
  received q p rest (receive m q).
Proof.
  intros [Ha Hcn] Ho HD HD' Es Ht. destruct (pop_request p q m rest HD Es Ht) as (id & c & Hc & -> & Hpl).
  pose proof (mid_request p q HD id c Hc) as Hm. pose proof (Dir_callee _ _ _ (pop_callee p _ rest Es ltac:(by rewrite Ht)) HD') as HDq.
  unfold receive, onRpcMessage, onRequest, this_channel. rewrite Ha. cbn [mbind res_bind].
  unfold chan in Hcn. rewrite Hcn, (bool_decide_eq_true_2 (Some link = Some link)), assert_bind_true, Ht by done. cbn [mbind res_bind].
  destruct (dispatch (services_ (channel (peer q))) (request_of id c)) as [err|[[sv me] rq]] eqn:Hd.
  - unfold codec_send, this_channel. rewrite Ha. cbn [mbind res_bind]. rewrite Hcn. cbn [mbind res_bind].
    eexists. split; [reflexivity|]. split_and!; [done | done | | | done].
    + eapply Dir_caller; [|exact HDq]. split_and!; try done. unfold reqs. fields. rewrite filter_app, filter_cons_False by done. by rewrite app_nil_r.
    + assert (Er : forall k, resps (mkSide (set_sent (sent (peer q) ++ [error_message (m_id (request_of id c)) err]) (peer q)) k (calls q) (completed q) (served q)) =
        resps q ++ [error_message (uint64 id) err]) by (intros; unfold resps; fields; rewrite filter_app, filter_cons_True by done; done).
      assert (Hans : answers q id c (error_message (uint64 id) err)) by (right; by exists err).
      eapply (Dir_taken p q _ _ rest id HD Es Hpl); [|done|done|by left|].
      * intros id'. unfold places. rewrite Er. fields. rewrite fmap_app, cnt_app. cbn [fmap list_fmap]. rewrite cnt_cons, cnt_nil.
        rewrite (mid_answer p q HD id c _ Hc Hans). case_bool_decide; repeat destruct (decide _); simplify_eq; cbn [one]; lia.
      * intros k. rewrite Er. intros [?|?%list_elem_of_singleton]%elem_of_app; [by left | right]. subst k. eauto.
  - unfold new_object. set (l := fresh _). fields. destruct (fresh_heap (heap (peer q)) (rNew (GetResponsePrototype sv me))) as [Hf Hsub]. fold l in Hf, Hsub.
    change (int64 (m_id (request_of id c))) with (mid (request_of id c)). rewrite Hm.
    eexists. split; [reflexivity|]. pose proof (Owned_dead q l Ho Hf) as Hdead. split_and!; [done | | | | done].
    + intros k. destruct (Ho k) as [Ho1 Ho2]. split; [|exact Ho2]. unfold owners, held, outs, chan in *. fields. rewrite fmap_app, cnt_app. cbn [fmap list_fmap r_response]. rewrite cnt_cons, cnt_nil.
      destruct (decide (l = k)) as [<-|Hn]; [rewrite lookup_insert_eq | rewrite lookup_insert_ne by done; lia].
      rewrite bool_decide_eq_true_2 by done. cbn [one]. lia.
    + eapply Dir_caller; [|exact HDq]. split_and!; try done. intros k Hk%owners_caller. fields. apply lookup_insert_ne. intros <-. lia.
    + eapply (Dir_taken p q _ _ rest id HD Es Hpl); [|done|done| |by left].
      * intros id'. unfold places. fields. rewrite fmap_app, cnt_app. cbn [fmap list_fmap r_id]. rewrite cnt_cons, cnt_nil.
        change (cnt id' (mid <$> resps _)) with (cnt id' (mid <$> resps q)). case_bool_decide; repeat destruct (decide _); simplify_eq; cbn [one]; lia.
      * fields. intros r [?|?%list_elem_of_singleton]%elem_of_app; [by left | right]. subst r. exists c. split; [done|]. by split.
Qed.

(** The type no one sends is ignored. *)
Lemma receive_error p q m rest : Ready p -> Owned p -> Dir p q -> Dir q p -> sent (peer q) = m :: rest -> m_type m = ERROR ->
  received p q rest (receive m p).
Proof.
  intros [Ha Hcn] Ho HD HD' Es Ht. unfold receive, onRpcMessage, this_channel. rewrite Ha. cbn [mbind res_bind].
  unfold chan in Hcn. rewrite Hcn, (bool_decide_eq_true_2 (Some link = Some link)), assert_bind_true, Ht by done. cbn [mbind res_bind].
  eexists. split; [reflexivity|]. split_and!; [done | done | | | done].
  - eapply Dir_callee; [eapply pop_callee; [done | by rewrite Ht]|]. eapply Dir_caller; [|exact HD]. by split_and!.
  - eapply Dir_caller; [eapply pop_caller; [done | by rewrite Ht]|]. eapply Dir_callee; [|exact HD']. by split_and!.
Qed.

Lemma receive_ok p q m rest : Ready p -> Owned p -> Dir p q -> Dir q p -> sent (peer q) = m :: rest -> received p q rest (receive m p).
Proof. intros. destruct (m_type m) eqn:Ht; [by apply receive_request | by apply receive_response | by apply receive_error]. Qed.

(** ** A service answers *)
Lemma Dir_finish p q q' i r v : Dir p q -> running (peer q) !! i = Some r ->
  services_ (chan q') = services_ (chan q) -> served q' = served q ++ [(r, v)] -> running (peer q') = delete i (running (peer q)) ->
  resps q' = resps q ++ [response_message (r_id r) v] -> Dir p q'.
Proof.
  intros HD Hi E1 E2 E3 E4. pose proof HD as []. destruct (d_run r (list_elem_of_lookup_2 _ _ _ Hi)) as (c0 & Hc0 & Ha0).
  assert (Ha : forall id c m, answers q id c m -> answers q' id c m) by (intros; eapply answers_same; [done | rewrite E2; by eexists | done]).
  assert (Hans : answers q' (r_id r) c0 (response_message (r_id r) v)).
  { left. exists r, v. split_and!; [rewrite E2; set_solver | by eapply asks_same | done]. }
  assert (Hmid : mid (response_message (r_id r) v) = r_id r) by (apply mid_id; apply d_calls in Hc0; lia).
  assert (Hp : forall id', places p q' id' = places p q id').
  { intros id'. unfold places. rewrite E3, E4, (cnt_delete r_id id' _ _ _ Hi), fmap_app, cnt_app. cbn [fmap list_fmap].
    rewrite cnt_cons, cnt_nil, Hmid. lia. }
  split; try done.
  - intros id'. by rewrite Hp.
  - intros id'. by rewrite Hp.
  - intros r'. rewrite E3. intros Hr%list_elem_of_delete_inv. destruct (d_run _ Hr) as (c & ? & ?). exists c. split; [done|]. by eapply asks_same.
  - intros m. rewrite E4. intros [Hm|Hm%list_elem_of_singleton]%elem_of_app; [|subst; eauto].
    destruct (d_resps _ Hm) as (id & c & ? & ?). eauto.
  - intros id m Hm. destruct (d_completed _ _ Hm) as (c & ? & ?). eauto.
Qed.

Lemma finish_step_ok p q i v r : Ready q -> Owned q -> Dir p q -> Dir q p -> finish_step i v q = Some r ->
  exists q', r = Ok q' /\ Ready q' /\ Owned q' /\ Dir p q' /\ Dir q' p /\ id_ (chan q') = id_ (chan q).
Proof.
  intros [Ha Hcn] Ho HD HD' Hf. unfold finish_step, service_done in Hf. destruct (running (peer q) !! i) as [rn|] eqn:Hi; [|done].
  cbn in Hf. injection Hf as <-. destruct (Ho (r_response rn)) as [Hl _]. unfold owners in Hl. rewrite (cnt_delete r_response _ _ _ _ Hi), decide_True in Hl by done.
  destruct (heap (peer q) !! r_response rn) as [w|] eqn:Hw; [|cbn in Hl; lia]. rewrite bool_decide_eq_true_2 in Hl by done. cbn [one] in Hl.
  unfold write_object, read_object, doneCallback. rewrite Hw. cbn [mbind res_bind]. unfold read_object. fields. rewrite lookup_insert_eq.
  cbn [mbind res_bind]. unfold codec_send, this_channel. fields. rewrite Ha. cbn [mbind res_bind]. unfold chan in Hcn. rewrite Hcn. cbn [mbind res_bind].
  unfold delete_object, read_object. fields. rewrite lookup_insert_eq. cbn [mbind res_bind]. rewrite delete_insert_eq.
  eexists. split; [reflexivity|]. split_and!; [done | | | | done].
  - intros l. destruct (Ho l) as [Ho1 Ho2]. split; [|exact Ho2]. unfold owners, held, outs, chan in *. fields. rewrite (cnt_delete r_response l _ _ _ Hi) in Ho1.
    destruct (decide (r_response rn = l)) as [<-|Hn]; [rewrite lookup_delete_eq; cbn; lia | rewrite lookup_delete_ne by done; lia].
  - eapply (Dir_finish p q _ i rn v HD Hi); try done. unfold resps. fields. by rewrite filter_app, filter_cons_True.
  - eapply Dir_caller; [|eapply Dir_callee; [|exact HD']; by split_and!]. split_and!; try done.
    + unfold reqs. fields. rewrite filter_app, filter_cons_False by done. by rewrite app_nil_r.
    + intros l Hk. fields. apply lookup_delete_ne. intros <-. lia.
Qed.
End steps.
