(* ===== verification/RpcTheorems.v ===== *)
(** * Remote calls complete once, with their own answer

    The theorems about two RPC channels: however threads, messages and services
    interleave, no step faults, each call is answered at most once and by the
    service that was asked, and when nothing is left to do all calls are done. *)
From stdpp Require Import strings gmap.
From S2P Require Import Prelude MuduoBuffer Rpc RpcSystem RpcProps RpcSteps.

Section theorems.
Context {R : RpcRuntime}.
Implicit Types (id : Z) (l : positive) (e p q : Side) (m : RpcMessage) (s : Sys).

(** ** All steps *)
Lemma side_set x y e s : side x (set_side y e s) = if bool_decide (x = y) then e else side x s.
Proof. by destruct x, y, s. Qed.

Lemma side_same x e s : side x (set_side x e s) = e.
Proof. by destruct x, s. Qed.
Lemma side_other x e s : side (negb x) (set_side x e s) = side (negb x) s.
Proof. by destruct x, s. Qed.
Lemma side_other' x e s : side x (set_side (negb x) e s) = side x s.
Proof. by destruct x, s. Qed.

Lemma Inv_intro x s : Ready (side x s) -> Owned (side x s) -> Ready (side (negb x) s) -> Owned (side (negb x) s) ->
  Dir (side x s) (side (negb x) s) -> Dir (side (negb x) s) (side x s) -> Inv s.
Proof. intros. intros y. destruct (decide (y = x)) as [->|Hn]; [done|]. assert (y = negb x) as -> by (by destruct x, y). by rewrite negb_involutive. Qed.

Definition is_begin (o : op) : bool := match o with OBegin _ _ _ _ _ => true | _ => false end.
(** How many ids a step uses. *)
Definition uses (o : op) : Z := if is_begin o then 1 else 0.

(** The ids [k] more calls would use. *)
Definition ids_left (k : Z) s : Prop := forall x, id_ (chan (side x s)) + k < 2 ^ 63.

(** A step of side [x] that changes nothing else. *)
Lemma Inv_step x e' s k d : Inv s -> ids_left (k + d) s -> 0 <= d -> Ready e' -> Owned e' -> Dir e' (side (negb x) s) -> Dir (side (negb x) s) e' ->
  id_ (chan e') <= id_ (chan (side x s)) + d -> Inv (set_side x e' s) /\ ids_left k (set_side x e' s).
Proof.
  intros HI Hk Hk0 Hr Ho HD HD' Hid. split.
  - destruct (HI (negb x)) as (? & ? & _). apply (Inv_intro x); rewrite ?side_same, ?side_other; done.
  - intros y. rewrite side_set. pose proof (Hk y). pose proof (Hk x). case_bool_decide; lia.
Qed.

Lemma Inv_caller_step x e' s k d : Inv s -> ids_left (k + d) s -> 0 <= d -> Ready e' -> Owned e' -> Dir e' (side (negb x) s) -> callee_same (side x s) e' ->
  id_ (chan e') <= id_ (chan (side x s)) + d -> Inv (set_side x e' s) /\ ids_left k (set_side x e' s).
Proof.
  intros HI Hk Hk0 Hr Ho HD Hs Hid. eapply Inv_step; try done. eapply Dir_callee; [done|].
  destruct (HI (negb x)) as (_ & _ & H). by rewrite negb_involutive in H.
Qed.

Lemma exec_ok s o r k : Inv s -> ids_left (k + uses o) s -> 0 <= k -> exec s o = Some r ->
  exists s', r = Ok s' /\ Inv s' /\ ids_left k s'.
Proof.
  intros HI Hk Hk0 Hx. destruct o as [x method request resp done|x i|x i|x|x i v]; cbn [exec] in Hx; unfold uses in Hk; cbn [is_begin] in Hk; destruct (HI x) as (Hr & Ho & HD).
  - injection Hx as <-. destruct (begin_call_ok _ _ method request resp done Hr Ho HD) as (e' & -> & ? & ? & ? & ? & ?); [pose proof (Hk x); lia|].
    eexists. split; [reflexivity|]. eapply Inv_caller_step; try done. lia.
  - destruct (store_step i (side x s)) as [r'|] eqn:E; [|done]. cbn in Hx. injection Hx as <-.
    destruct (store_step_ok _ _ _ _ Hr Ho HD E) as (e' & -> & ? & ? & ? & ? & ?). eexists. split; [reflexivity|]. eapply Inv_caller_step; try done. lia.
  - destruct (send_step i (side x s)) as [r'|] eqn:E; [|done]. cbn in Hx. injection Hx as <-.
    destruct (send_step_ok _ _ _ _ Hr Ho HD E) as (e' & -> & ? & ? & ? & ? & ?). eexists. split; [reflexivity|]. eapply Inv_caller_step; try done. lia.
  - destruct (sent (peer (side (negb x) s))) as [|m rest] eqn:E; [done|]. injection Hx as <-.
    destruct (HI (negb x)) as (Hr' & Ho' & HD'). rewrite negb_involutive in HD'.
    destruct (receive_ok _ _ m rest Hr Ho HD HD' E) as (e' & -> & ? & ? & ? & ? & Hid). eexists. split; [reflexivity|].
    change (set_peer (set_sent rest (peer (side (negb x) s))) (side (negb x) s)) with (pop rest (side (negb x) s)).
    set (s1 := set_side (negb x) _ s). assert (E1 : side x s1 = side x s) by apply side_other'.
    assert (E2 : side (negb x) s1 = pop rest (side (negb x) s)) by apply side_same. split.
    + apply (Inv_intro x); rewrite ?side_same, ?side_other, ?E2; done.
    + intros y. rewrite side_set. pose proof (Hk x). pose proof (Hk (negb x)). case_bool_decide; [lia|].
      assert (y = negb x) as -> by (by destruct x, y). rewrite E2. change (chan (pop rest (side (negb x) s))) with (chan (side (negb x) s)). lia.
  - destruct (finish_step i v (side x s)) as [r'|] eqn:E; [|done]. cbn in Hx. injection Hx as <-.
    destruct (HI (negb x)) as (_ & _ & HD'). rewrite negb_involutive in HD'.
    destruct (finish_step_ok _ _ _ _ _ Hr Ho HD' HD E) as (e' & -> & ? & ? & ? & ? & ?). eexists. split; [reflexivity|]. eapply Inv_step; try done. lia.
Qed.

Lemma rpc_run_ok s ops r : Inv s -> ids_left (zlen ops) s -> run s ops = Some r -> exists s', r = Ok s' /\ Inv s'.
Proof.
  revert s. induction ops as [|o ops IH]; intros s HI Hk Hr; cbn [run] in Hr; [injection Hr as <-; by exists s|].
  destruct (exec s o) as [r1|] eqn:E; [|done].
  destruct (exec_ok s o r1 (zlen ops)) as (s1 & -> & HI1 & Hk1); [done | | zlen_lia | done | by apply (IH s1)].
  intros x. specialize (Hk x). rewrite zlen_cons in Hk. unfold uses. destruct (is_begin o); lia.
Qed.

Lemma init_inv services1 services2 : Inv (init services1 services2).
Proof.
  assert (HD : forall a b, Dir (init_side a) (init_side b)).
  { intros a b. split; try (by destruct a, b); try (destruct a, b; cbn; intros; set_solver).
    - intros id. destruct a, b; cbn; case_bool_decide; try done; cbn in *; lia. }
  assert (HO : forall a, Owned (init_side a)) by (intros a l; assert (owners (init_side a) l = 0%nat /\ held done_ (init_side a) l = 0%nat) as [-> ->] by (by destruct a); lia).
  apply (Inv_intro false); [split; by destruct services1 | apply HO | split; by destruct services2 | apply HO | apply HD | apply HD].
Qed.

(** ** What can still happen without new calls *)
Definition calling_weight (c : Calling) : nat := match c with GotId _ _ _ _ => 5 | Stored _ _ => 4 end.
Definition message_weight m : nat := match m_type m with REQUEST => 3 | _ => 1 end.
Definition side_weight e : nat :=
  (sum_list_with calling_weight (calling e) + sum_list_with message_weight (sent (peer e)) + 2 * length (running (peer e)))%nat.
Definition weight s : nat := (side_weight (left_ s) + side_weight (right_ s))%nat.

Lemma weight_set x e s : (weight (set_side x e s) + side_weight (side x s) = weight s + side_weight e)%nat.
Proof. destruct x, s; cbn; unfold weight; cbn; lia. Qed.

Lemma sum_delete {A} (f : A -> nat) (l : list A) i a : l !! i = Some a -> (sum_list_with f l = f a + sum_list_with f (delete i l))%nat.
Proof. intros H. rewrite <- (take_drop_middle l i a H) at 1. rewrite delete_take_drop, !sum_list_with_app. cbn. lia. Qed.

Lemma sum_insert {A} (f : A -> nat) (l : list A) i a a' : l !! i = Some a -> (sum_list_with f (<[i := a']> l) + f a = sum_list_with f l + f a')%nat.
Proof.
  intros H. rewrite insert_take_drop by (by eapply lookup_lt_Some). rewrite <- (take_drop_middle l i a H) at 3.
  rewrite !sum_list_with_app. cbn. lia.
Qed.

Lemma codec_send_inv m pe pe' : codec_send m pe = Ok pe' -> pe' = set_sent (sent pe ++ [m]) pe.
Proof. unfold codec_send, this_channel. destruct (alive pe); [|done]. cbn. destruct (conn_ _); [|done]. by intros [= <-]. Qed.

(** What the operations do to the queue of messages and to the services. *)
Definition load (pe : Peer) : nat := (sum_list_with message_weight (sent pe) + 2 * length (running pe))%nat.

Lemma load_send m pe : load (set_sent (sent pe ++ [m]) pe) = (load pe + message_weight m)%nat.
Proof. unfold load. cbn [sent running set_sent]. rewrite sum_list_with_app. cbn. lia. Qed.

Lemma delete_object_load l pe pe' : delete_object l pe = Ok pe' -> load pe' = load pe.
Proof. unfold delete_object, read_object. destruct (heap pe !! l); [|done]. by intros [= <-]. Qed.

Lemma onResponse_load m pe pe' : onResponse m pe = Ok pe' -> load pe' = load pe.
Proof.
  unfold onResponse, take_call, this_channel. destruct (has_response m || has_error m); [|done]. cbn [assert_ check mbind res_bind].
  destruct (alive pe); [|done]. cbn [mbind res_bind].
  destruct (outstandings_ (channel pe) !! _) as [out|]; cbn [mbind res_bind]; [|by intros [= <-]].
  destruct (response out) as [l|]; [|by intros [= <-]]. unfold write_object, read_object.
  destruct (heap _ !! l); [|done]. cbn [mbind res_bind]. destruct (done_ out) as [k|]; [|by intros ->%delete_object_load].
  unfold Run, delete_closure. cbn [closures set_heap set_channel add_ran]. destruct (closures pe !! k); [|done]. cbn [mbind res_bind].
  by intros ->%delete_object_load.
Qed.

Lemma onRequest_load m pe pe' : onRequest m pe = Ok pe' -> (load pe' <= load pe + 2)%nat.
Proof.
  unfold onRequest, this_channel. destruct (alive pe); [|done]. cbn [mbind res_bind]. destruct (dispatch _ _) as [err|[[sv me] rq]].
  - intros ->%codec_send_inv. rewrite load_send. cbn. lia.
  - intros [= <-]. unfold load. cbn [running sent set_running set_heap]. rewrite length_app. cbn. lia.
Qed.

Lemma receive_load m e e' : receive m e = Ok e' -> (side_weight e' < side_weight e + message_weight m)%nat.
Proof.
  unfold receive, onRpcMessage, this_channel. destruct (alive (peer e)); [|done]. cbn [mbind res_bind].
  destruct (bool_decide (Some link = _)); [|done]. cbn [assert_ check mbind res_bind]. intros (pe & Hpe & [= <-])%bind_inv.
  assert (H : (load pe < load (peer e) + message_weight m)%nat).
  { unfold message_weight. destruct (m_type m); [apply onRequest_load in Hpe; lia | apply onResponse_load in Hpe; lia | injection Hpe as <-; lia]. }
  unfold load in H. unfold side_weight. cbn [peer calling]. lia.
Qed.

Lemma weight_step x e' s : (side_weight e' < side_weight (side x s))%nat -> (weight (set_side x e' s) < weight s)%nat.
Proof. pose proof (weight_set x e' s). lia. Qed.

Lemma message_weight_le m : (1 <= message_weight m <= 3)%nat.
Proof. unfold message_weight. destruct (m_type m); lia. Qed.

Lemma finish_load i v pe r : service_done i v pe = Some r -> exists rn, running pe !! i = Some rn /\ forall pe', r = Ok pe' -> (load pe' < load pe)%nat.
Proof.
  unfold service_done. destruct (running pe !! i) as [rn|] eqn:Hi; [|done]. cbn. intros [= <-]. exists rn. split; [done|].
  intros pe'. unfold write_object. destruct (read_object (r_response rn) pe); [|done]. cbn [mbind res_bind]. unfold doneCallback.
  destruct (read_object _ _); [|done]. cbn [mbind res_bind]. intros (p2 & Hp2%codec_send_inv & H%delete_object_load)%bind_inv.
  rewrite H, Hp2, load_send. unfold load. cbn [set_running set_heap running sent message_weight response_message m_type].
  assert (HL : length (delete i (running pe)) = (length (running pe) - 1)%nat) by (by apply length_delete). pose proof (lookup_lt_Some _ _ _ Hi). rewrite HL. lia.
Qed.

(** Every step but a new call makes the rest smaller. *)
Lemma exec_weight s o s' : is_begin o = false -> exec s o = Some (Ok s') -> (weight s' < weight s)%nat.
Proof.
  intros Hb Hx. destruct o as [|x i|x i|x|x i v]; [done|..]; cbn [exec] in Hx.
  - unfold store_step in Hx. destruct (calling (side x s) !! i) as [[id me re out|]|] eqn:Hi; try done. cbn in Hx.
    injection Hx as (e' & He & [= <-])%bind_inv. apply bind_inv in He as (pe & Hpe & [= <-]). unfold store_call, this_channel in Hpe.
    destruct (alive _); [|done]. injection Hpe as <-. pose proof (sum_insert calling_weight _ _ _ (Stored id (request_message id me re)) Hi) as HS.
    apply weight_step. unfold side_weight. cbn [peer calling set_channel sent running calling_weight] in *. lia.
  - unfold send_step in Hx. destruct (calling (side x s) !! i) as [[|id m]|] eqn:Hi; try done. cbn in Hx.
    injection Hx as (e' & He & [= <-])%bind_inv. apply bind_inv in He as (pe & ->%codec_send_inv & [= <-]).
    pose proof (sum_delete calling_weight _ _ _ Hi) as HS. pose proof (load_send m (peer (side x s))) as HL. pose proof (message_weight_le m).
    apply weight_step. unfold load in HL. unfold side_weight. cbn [peer calling calling_weight] in *. lia.
  - destruct (sent (peer (side (negb x) s))) as [|m rest] eqn:E; [done|]. injection Hx as (e' & He & [= <-])%bind_inv.
    apply receive_load in He. set (f := set_peer _ _). pose proof (weight_set x e' (set_side (negb x) f s)) as H1. pose proof (weight_set (negb x) f s) as H2.
    rewrite side_other' in H1. unfold side_weight in H2 at 1. unfold side_weight in H2. rewrite E in H2. cbn [sum_list_with f set_peer set_sent peer calling sent running] in H2.
    lia.
  - unfold finish_step in Hx. destruct (running (peer (side x s)) !! i) as [rn|] eqn:Hi; [|done].
    destruct (service_done i v (peer (side x s))) as [r|] eqn:Hs; cbn in Hx; [|done].
    injection Hx as (e' & He & [= <-])%bind_inv. apply bind_inv in He as (pe & -> & [= <-]). destruct (finish_load _ _ _ _ Hs) as (_ & _ & HL).
    specialize (HL _ eq_refl). apply weight_step. unfold load in HL. unfold side_weight. cbn [peer calling]. lia.
Qed.

Lemma run_weight s ops s' : Forall (fun o => is_begin o = false) ops -> run s ops = Some (Ok s') -> (length ops + weight s' <= weight s)%nat.
Proof.
  intros Hops. revert s. induction Hops as [|o ops Ho _ IH]; intros s Hr; cbn [run length] in *; [injection Hr as <-; lia|].
  destruct (exec s o) as [[s1|]|] eqn:E; try done. apply exec_weight in E; [|done]. apply IH in Hr. lia.
Qed.

(** Nothing is under way. *)
Definition quiet s : Prop := forall x, calling (side x s) = [] /\ sent (peer (side x s)) = [] /\ running (peer (side x s)) = [].

Lemma stuck_quiet s (v : rmsg) : (forall o, is_begin o = false -> exec s o = None) -> quiet s.
Proof.
  intros H x. split_and!.
  - destruct (calling (side x s)) as [|c cs] eqn:E; [done|]. destruct c.
    + specialize (H (OStore x 0) eq_refl). cbn in H. unfold store_step in H. rewrite E in H. done.
    + specialize (H (OSend x 0) eq_refl). cbn in H. unfold send_step in H. rewrite E in H. done.
  - destruct (sent (peer (side x s))) as [|m ms] eqn:E; [done|]. specialize (H (OReceive (negb x)) eq_refl). cbn in H.
    by rewrite negb_involutive, E in H.
  - destruct (running (peer (side x s))) as [|m ms] eqn:E; [done|]. specialize (H (OFinish x 0 v) eq_refl). cbn in H.
    unfold finish_step, service_done in H. rewrite E in H. done.
Qed.

(** The calls of [p] are all completed. *)
Definition all_done p : Prop := outs p = ∅ /\ forall id c, calls p !! id = Some c -> id ∈ (completed p).*1.

Lemma quiet_done s x : Inv s -> quiet s -> all_done (side x s).
Proof.
  intros HI Hq. destruct (HI x) as (_ & _ & HD). destruct (Hq x) as (E1 & E2 & _). destruct (Hq (negb x)) as (_ & E3 & E4).
  assert (Hp : forall id, places (side x s) (side (negb x) s) id = 0%nat).
  { intros id. unfold places, reqs, resps. by rewrite E1, E2, E3, E4. }
  split.
  - apply map_eq. intros id. rewrite lookup_empty. pose proof (d_places _ _ HD id) as H. rewrite Hp in H. by destruct (outs _ !! id).
  - intros id c Hc. pose proof (d_total _ _ HD id) as H. rewrite Hp, E1 in H. apply (d_calls _ _ HD) in Hc.
    rewrite bool_decide_eq_true_2 in H by done. cbn [omap list_omap] in H. rewrite cnt_nil in H. cbn [one] in H. apply cnt_elem. lia.
Qed.

(** ** The destructor *)

(** Deleting one object of a list of distinct live ones. *)
Lemma delete_one {A} (hp : gmap positive A) (ls : list positive) (x : option positive) :
  (forall l, (cnt l (option_list x ++ ls) <= one (bool_decide (is_Some (hp !! l))))%nat) ->
  (forall l, x = Some l -> is_Some (hp !! l)) /\
  (forall l, (cnt l ls <= one (bool_decide (is_Some (without x hp !! l))))%nat) /\
  (forall l, (if decide (l ∈ ls) then None else without x hp !! l) = if decide (l ∈ option_list x ++ ls) then None else hp !! l).
Proof.
  intros H. destruct x as [d|]; cbn [option_list option_rect without app] in *; [|by split_and!].
  assert (Hd : is_Some (hp !! d)).
  { specialize (H d). rewrite cnt_cons, decide_True in H by done. unfold one in H. case_bool_decide; [done | lia]. }
  split_and!.
  - by intros l [= <-].
  - intros l. apply (live_without (Some d)). specialize (H l). rewrite cnt_cons in H.
    unfold one in *. repeat case_bool_decide; repeat destruct (decide _); simplify_eq; lia.
  - intros l. destruct (decide (d = l)) as [<-|Hn]; [rewrite lookup_delete_eq | rewrite lookup_delete_ne by done];
      repeat case_decide; try done; rewrite elem_of_cons in *; naive_solver.
Qed.

Lemma omap_cons_option {A B} (f : A -> option B) a (l : list A) : omap f (a :: l) = option_list (f a) ++ omap f l.
Proof. cbn. by destruct (f a). Qed.

Lemma delete_calls_ok (os : list OutstandingCall) (pe : Peer) :
  (forall l, (cnt l (omap response os) <= one (bool_decide (is_Some (heap pe !! l))))%nat) ->
  (forall l, (cnt l (omap done_ os) <= one (bool_decide (is_Some (closures pe !! l))))%nat) ->
  exists pe', delete_calls os pe = Ok pe' /\
    (forall l, heap pe' !! l = if decide (l ∈ omap response os) then None else heap pe !! l) /\
    (forall l, closures pe' !! l = if decide (l ∈ omap done_ os) then None else closures pe !! l).
Proof.
  revert pe. induction os as [|out os IH]; intros pe H1 H2; cbn [delete_calls].
  { exists pe. split; [done|]. split; intros l; rewrite decide_False; done || apply not_elem_of_nil. }
  rewrite !omap_cons_option in *. destruct (delete_one _ _ _ H1) as (L1 & H1' & E1), (delete_one _ _ _ H2) as (L2 & H2' & E2).
  assert (Hp : exists pe1, (p ← (match response out with None => Ok pe | Some d => delete_object d pe end);
    match done_ out with None => Ok p | Some k => delete_closure k p end) = Ok pe1 /\
    heap pe1 = without (response out) (heap pe) /\ closures pe1 = without (done_ out) (closures pe)).
  { unfold delete_object, read_object, delete_closure.
    destruct (response out) as [d|]; [destruct (L1 d eq_refl) as [? ->]|]; cbn [mbind res_bind];
      (destruct (done_ out) as [k|]; [destruct (L2 k eq_refl) as [? Hk]; cbn [closures set_heap]; rewrite Hk|]); by eexists. }
  destruct Hp as (pe1 & (p & Ep & Ek)%bind_inv & F1 & F2). rewrite Ep. cbn [mbind res_bind]. rewrite Ek. cbn [mbind res_bind].
  destruct (IH pe1) as (pe' & E & G1 & G2); [by rewrite F1 | by rewrite F2|]. exists pe'. split; [done|].
  split; intros l; rewrite ?G1, ?G2, ?F1, ?F2; [apply E1 | apply E2].
Qed.

Lemma locs_of_values f os : locs_of f os = omap f (map_to_list os).*2.
Proof. unfold locs_of. induction (map_to_list os) as [|o k IH]; [done|]. cbn [fmap list_fmap omap list_omap]. by rewrite IH. Qed.
End theorems.

(** ** Properties *)
Section properties.
Context {R : RpcRuntime}.
Context (services1 services2 : option (gmap bytes Service)).

(** C11: remote calls complete at most once, with their own answer. Run two
    connected channels in any interleaving of their threads, messages and
    services: no step fails (no assertion, no dangling pointer, no double
    delete), and on each side the answered calls are distinct, every answer is
    what the other side's service gave to exactly this request or the error its
    dispatch deserves, and the callbacks that ran are those of the answered
    calls, in order, each with its response filled from its own answer. *)
Theorem Rpc_exactly_once ops r : zlen ops < 2 ^ 63 -> run (init services1 services2) ops = Some r ->
  exists s, r = Ok s /\ forall x,
    NoDup (completed (side x s)).*1 /\
    (forall id m, (id, m) ∈ completed (side x s) -> exists c, calls (side x s) !! id = Some c /\ answers (side (negb x) s) id c m) /\
    ran (peer (side x s)) = omap (notice (calls (side x s))) (completed (side x s)).
Proof.
  intros Hlen Hr. destruct (rpc_run_ok (init services1 services2) ops r) as (s & -> & HI); [apply init_inv | | done|].
  { intros []; [destruct services2 | destruct services1]; cbn; lia. }
  exists s. split; [done|]. intros x. destruct (HI x) as (_ & _ & []). split_and!; [|done..].
  apply cnt_NoDup. intros id. specialize (d_total id). unfold one in d_total. case_bool_decide; lia.
Qed.

(** C13: every call completes when the rest of the system does its part. After
    any run, the steps that are not new calls (threads that go on, messages that
    arrive, services that answer) come to an end, and when none is left every
    call of both sides was answered and no call is outstanding. *)
Theorem Rpc_drains ops s (v : rmsg) : zlen ops < 2 ^ 63 -> run (init services1 services2) ops = Some (Ok s) ->
  (forall more s', Forall (fun o => is_begin o = false) more -> run s more = Some (Ok s') -> (length more <= weight s)%nat) /\
  ((forall o, is_begin o = false -> exec s o = None) -> forall x, all_done (side x s)).
Proof.
  intros Hlen Hr. split.
  - intros more s' Hm Hs. apply run_weight in Hs; [lia | done].
  - intros Hstuck x. destruct (rpc_run_ok (init services1 services2) ops (Ok s)) as (s' & [= <-] & HI); [apply init_inv | | done|].
    { intros []; [destruct services2 | destruct services1]; cbn; lia. }
    apply quiet_done; [done|]. by apply stuck_quiet.
Qed.

(** C38: the destructor of a channel frees what the callers left with it. In
    every reachable state it succeeds: it deletes exactly the response objects
    and the [done] closures of the outstanding calls, each of them live and
    deleted once, and no other object. *)
Theorem RpcChannel_dtor_frees ops s x : zlen ops < 2 ^ 63 -> run (init services1 services2) ops = Some (Ok s) ->
  exists p', RpcChannel_dtor (peer (side x s)) = Ok p' /\
  (forall l, heap p' !! l = if decide (l ∈ locs_of response (outs (side x s))) then None else heap (peer (side x s)) !! l) /\
  (forall l, closures p' !! l = if decide (l ∈ locs_of done_ (outs (side x s))) then None else closures (peer (side x s)) !! l).
Proof.
  intros Hlen Hr. destruct (rpc_run_ok (init services1 services2) ops (Ok s)) as (s' & [= <-] & HI); [apply init_inv | | done|].
  { intros []; [destruct services2 | destruct services1]; cbn; lia. }
  destruct (HI x) as ([Ha _] & Ho & _). unfold RpcChannel_dtor, this_channel. rewrite Ha. cbn [mbind res_bind].
  rewrite !locs_of_values. destruct (delete_calls_ok (map_to_list (outs (side x s))).*2 (peer (side x s))) as (p' & Hp & H1 & H2).
  { intros l. pose proof (Owned_heap _ Ho l) as H. unfold held in H. rewrite locs_of_values in H. lia. }
  { intros l. pose proof (Owned_closures _ Ho l) as H. unfold held in H. rewrite locs_of_values in H. lia. }
  unfold outs, chan in Hp. rewrite Hp. cbn [mbind res_bind]. eexists. split; [reflexivity|]. by split.
Qed.
End properties.

(** ** An echo service *)
Module RpcExample.
(** Messages are their bytes; "!" does not parse; a service is its name and methods. *)
#[local] Instance echo_runtime : RpcRuntime := {|
  rmsg := bytes;
  Service := bytes * list bytes;
  MethodDescriptor := bytes * bytes;
  SerializeAsString := fun m => m;
  ParseFromString := fun m d => if bool_decide (d = lit "!") then (false, m) else (true, d);
  rNew := fun _ => [];
  full_name := fst;
  FindMethodByName := fun s n => if bool_decide (n ∈ s.2) then Some (s.1, n) else None;
  GetRequestPrototype := fun _ _ => [];
  GetResponsePrototype := fun _ _ => [];
  method_name := snd;
  method_service_name := fst;
|}.

Definition echo : Service := (lit "Echo", [lit "say"]).
Definition only_echo : gmap bytes Service := registerService echo ∅.
Definition say : MethodDescriptor := (lit "Echo", lit "say").
Definition nothing : MethodDescriptor := (lit "Echo", lit "nothing").

(** Two calls by two threads of the left side, the second one stored and sent
    first; the service answers the good one; the other gets an error. *)
Definition day : list op := [
  OBegin false say (lit "hello") (Some []) (Some 7%positive); OBegin false nothing (lit "x") (Some (lit "old")) (Some 8%positive);
  OStore false 1; OSend false 1; OStore false 0; OSend false 0;
  OReceive true; OReceive true; OFinish true 0 (lit "hello yourself"); OReceive false; OReceive false].

Definition day_end : Sys := ended (run (init None (Some only_echo)) day) (init None None).

Lemma day_ran : run (init None (Some only_echo)) day = Some (Ok day_end).
Proof. apply ends_ended. vm_compute. reflexivity. Qed.

(** Both callbacks ran, in the order of the answers. *)
Example day_callbacks : ran (peer (left_ day_end)) = [(8%positive, lit "old"); (7%positive, lit "hello yourself")].
Proof. vm_compute. reflexivity. Qed.

Lemma Rpc_exactly_once_witness : exists s, Ok day_end = Ok s /\ NoDup (completed (side false s)).*1.
Proof.
  destruct (Rpc_exactly_once None (Some only_echo) day (Ok day_end)) as (s & Hs & H).
  - vm_compute. reflexivity.
  - apply day_ran.
  - exists s. split; [exact Hs|]. apply (H false).
Defined.

(** Nothing is left to do at the end of the day. *)
Lemma day_end_stuck o : is_begin o = false -> exec day_end o = None.
Proof.
  destruct o as [|x i|x i|x|x i v]; [done|..]; intros _; destruct x; cbn [exec side negb].
  1, 2: unfold store_step; replace (calling _) with (@nil Calling) by (vm_compute; reflexivity); done.
  1, 2: unfold send_step; replace (calling _) with (@nil Calling) by (vm_compute; reflexivity); done.
  1, 2: replace (sent _) with (@nil RpcMessage) by (vm_compute; reflexivity); done.
  1, 2: unfold finish_step; replace (running _) with (@nil Running) by (vm_compute; reflexivity); done.
Qed.

Lemma Rpc_drains_witness : all_done (side false day_end) /\ all_done (side true day_end).
Proof.
  destruct (Rpc_drains None (Some only_echo) day day_end []) as [_ H]; [vm_compute; reflexivity | apply day_ran|].
  split; [exact (H day_end_stuck false) | exact (H day_end_stuck true)].
Defined.

(** The left side goes away while both calls are outstanding. *)
Definition early : list op := take 8 day.
Definition early_end : Sys := ended (run (init None (Some only_echo)) early) (init None None).

Lemma early_ran : run (init None (Some only_echo)) early = Some (Ok early_end).
Proof. apply ends_ended. vm_compute. reflexivity. Qed.

Lemma RpcChannel_dtor_frees_witness : exists p', RpcChannel_dtor (peer (side false early_end)) = Ok p' /\
  locs_of response (outs (side false early_end)) <> [] /\ locs_of done_ (outs (side false early_end)) <> [] /\
  forall l, l ∈ locs_of done_ (outs (side false early_end)) -> closures p' !! l = None.
Proof.
  destruct (RpcChannel_dtor_frees None (Some only_echo) early early_end false) as (p' & Hp & _ & Hc).
  - vm_compute. reflexivity.
  - apply early_ran.
  - exists p'. split; [exact Hp|]. split; [vm_compute; discriminate|]. split; [vm_compute; discriminate|].
    intros l Hl. rewrite Hc. by apply decide_True.
Defined.

(** The connection goes down while a service works: [onConnection] drops the
    context and with it the channel; the closure the service runs later uses it. *)
Example done_after_close : match onConnection only_echo link false (peer (right_ early_end)) with
  | Ok p => service_done 0 (lit "late") p = Some (Fail FBounds)
  | Fail _ => False
  end.
Proof. vm_compute. reflexivity. Qed.

(** A response with neither a response nor an error, which any peer can send,
    fails an assertion. *)
Example bare_response_asserts : onRpcMessage link (mkRpcMessage RESPONSE 1 None None None None None) (peer (left_ early_end)) = Fail FAssert.
Proof. vm_compute. reflexivity. Qed.

(** A call with a [NULL] response never runs its callback, and its closure is
    never deleted. *)
Definition silent : list op := [OBegin false say (lit "hello") None (Some 7%positive); OStore false 0; OSend false 0; OReceive true;
  OFinish true 0 (lit "hi"); OReceive false].
Definition silent_end : Sys := ended (run (init None (Some only_echo)) silent) (init None None).
Example null_response_no_callback : (completed (left_ silent_end)).*1 = [1] /\ ran (peer (left_ silent_end)) = [] /\ map_to_list (closures (peer (left_ silent_end))) <> [] /\
  run (init None (Some only_echo)) silent = Some (Ok silent_end).
Proof. split_and!; [vm_compute; reflexivity.. | vm_compute; discriminate | apply ends_ended; vm_compute; reflexivity]. Qed.
End RpcExample.
