(* ===== verification/RpcWire.v ===== *)
(** * RPC channels over a byte stream

    The channels of [RpcSystem] exchange messages; here they exchange bytes:
    [codec_.send] appends a frame to what the connection carries, and a read of
    any number of bytes appends them to the input buffer of the other side and
    calls [RpcChannel::onMessage], that is the codec with [onRpcMessage] as its
    message callback. Every run over bytes is a run over messages. *)
From stdpp Require Import strings gmap.
From S2P Require Import Prelude Endian StringPiece Buffer MuduoBuffer Codec CodecProps CodecLite CodecLiteProps.
From S2P Require Import Rpc RpcSystem RpcProps RpcSteps RpcTheorems.

(** ** Messages that are already queued do not matter to a side *)
Section queue.
Context {R : RpcRuntime}.
Implicit Types (pre : list RpcMessage) (pe : Peer) (e : Side).

Definition ahead pre pe : Peer := set_sent (pre ++ sent pe) pe.
Definition under pre e : Side := set_peer (ahead pre (peer e)) e.

Lemma codec_send_ahead pre m pe : codec_send m (ahead pre pe) = ahead pre <$> codec_send m pe.
Proof. unfold codec_send, this_channel, ahead. fields. destruct (alive pe); [|done]. cbn. destruct (conn_ _); [|done]. cbn. by rewrite <- app_assoc. Qed.

Lemma delete_object_ahead pre l pe : delete_object l (ahead pre pe) = ahead pre <$> delete_object l pe.
Proof. unfold delete_object, read_object, ahead. fields. by destruct (heap pe !! l). Qed.

Lemma Run_ahead pre l v pe : Run l v (ahead pre pe) = ahead pre <$> Run l v pe.
Proof. unfold Run, delete_closure, ahead. fields. by destruct (closures pe !! l). Qed.

Lemma onResponse_ahead pre m pe : onResponse m (ahead pre pe) = ahead pre <$> onResponse m pe.
Proof.
  unfold onResponse, take_call, this_channel. fold (mid m).
  change (alive (ahead pre pe)) with (alive pe). change (channel (ahead pre pe)) with (channel pe).
  destruct (has_response m || has_error m); [|done]. destruct (alive pe); [|done]. cbn [assert_ check mbind res_bind].
  destruct (outstandings_ (channel pe) !! mid m) as [out|]; [|done]. cbn [mbind res_bind]. destruct (response out) as [l|]; [|done].
  unfold write_object, read_object, ahead. fields. destruct (heap pe !! l) as [v|]; [|done]. cbn [mbind res_bind].
  set (p1 := set_heap _ _). set (p2 := set_heap _ _). change p1 with (ahead pre p2).
  destruct (done_ out) as [k|]; cbn [mbind res_bind]; [|apply delete_object_ahead].
  rewrite Run_ahead. destruct (Run k _ p2); [apply delete_object_ahead | done].
Qed.

Lemma onRequest_ahead pre m pe : onRequest m (ahead pre pe) = ahead pre <$> onRequest m pe.
Proof.
  unfold onRequest, this_channel. change (alive (ahead pre pe)) with (alive pe). change (channel (ahead pre pe)) with (channel pe).
  destruct (alive pe); [|done]. cbn [mbind res_bind]. destruct (dispatch _ m) as [err|[[sv me] rq]]; [apply codec_send_ahead | done].
Qed.

Lemma receive_under pre m e : receive m (under pre e) = under pre <$> receive m e.
Proof.
  unfold receive, onRpcMessage, this_channel. change (alive (peer (under pre e))) with (alive (peer e)).
  change (channel (peer (under pre e))) with (channel (peer e)). change (peer (under pre e)) with (ahead pre (peer e)).
  destruct (alive (peer e)); [|done]. cbn [mbind res_bind]. destruct (bool_decide (Some link = _)); [|done]. cbn [assert_ check mbind res_bind].
  destruct (m_type m); [rewrite onRequest_ahead; by destruct (onRequest m (peer e)) | rewrite onResponse_ahead; by destruct (onResponse m (peer e)) | done].
Qed.

Lemma begin_call_under pre method request resp done e :
  begin_call method request resp done (under pre e) = under pre <$> begin_call method request resp done e.
Proof.
  unfold begin_call, new_object, new_closure, next_id, this_channel. destruct resp, done; cbn; by destruct (alive (peer e)).
Qed.

Lemma store_step_under pre i e : store_step i (under pre e) = fmap (M := res) (under pre) <$> store_step i e.
Proof.
  unfold store_step. change (calling (under pre e)) with (calling e). destruct (calling e !! i) as [[]|]; [|done..].
  cbn. unfold store_call, this_channel. cbn. by destruct (alive (peer e)).
Qed.

Lemma send_step_under pre i e : send_step i (under pre e) = fmap (M := res) (under pre) <$> send_step i e.
Proof.
  unfold send_step. change (calling (under pre e)) with (calling e). destruct (calling e !! i) as [[|id m]|]; [done| |done].
  change (peer (under pre e)) with (ahead pre (peer e)). rewrite codec_send_ahead. cbn. f_equal. by destruct (codec_send m (peer e)).
Qed.

Lemma finish_step_under pre i v e : finish_step i v (under pre e) = fmap (M := res) (under pre) <$> finish_step i v e.
Proof.
  unfold finish_step, service_done. change (peer (under pre e)) with (ahead pre (peer e)). change (running (ahead pre (peer e))) with (running (peer e)).
  destruct (running (peer e) !! i) as [r|]; [|done]. cbn. f_equal. unfold write_object, read_object. change (heap (ahead pre (peer e))) with (heap (peer e)).
  destruct (heap (peer e) !! r_response r); [|done]. cbn [mbind res_bind]. unfold doneCallback, read_object. fields. rewrite lookup_insert_eq. cbn [mbind res_bind].
  set (p1 := set_running _ _). set (p2 := set_running _ _).
  change p1 with (ahead pre p2). rewrite codec_send_ahead. destruct (codec_send _ p2) as [p3|]; [|done]. cbn [fmap res_fmap mbind res_bind].
  rewrite delete_object_ahead. by destruct (delete_object _ p3).
Qed.

Lemma under_under pre k e : under pre (under k e) = under (pre ++ k) e.
Proof. unfold under, ahead. cbn. by rewrite app_assoc. Qed.
End queue.

(** ** The system over bytes *)
Section wire.
Context {R : RpcRuntime} {h : Host} {Z_ : Zlib} {P : Protobuf} (codec : ProtobufCodecLite).

(** [RpcMessage] is a generated class: it is a message of protobuf, and
    [down_pointer_cast<RpcMessage>] gives it back. *)
Context (serializable : RpcMessage -> bool).
Context (up_cast : RpcMessage -> message) (down_pointer_cast : message -> RpcMessage).
Context (errorCallback_ : Side -> Buffer -> ErrorCode -> res (Side * Buffer)).

Record BSide := mkBSide {
  b_side : Side;
  b_in : Buffer;        (** [inputBuffer_] of the connection *)
  b_out : bytes;        (** sent and not yet read by the other side *)
}.
Record BSys := mkBSys { b_left : BSide; b_right : BSide }.
Definition bside (x : bool) (s : BSys) : BSide := if x then b_right s else b_left s.
Definition set_bside (x : bool) (e : BSide) (s : BSys) : BSys := if x then mkBSys (b_left s) e else mkBSys e (b_right s).

(** The messages a step handed to the codec go to the connection as frames. *)
Definition flush (e : Side) (buf : Buffer) (out : bytes) : res BSide :=
  out ← lite_send_all codec out (up_cast <$> sent (peer e));
  Ok (mkBSide (set_peer (set_sent [] (peer e)) e) buf out).

(** A step of a side that reads nothing. *)
Definition local_step (o : op) (e : Side) : option (res Side) :=
  match o with
  | OBegin _ method request resp done => Some (begin_call method request resp done e)
  | OStore _ i => store_step i e
  | OSend _ i => send_step i e
  | OReceive _ => None
  | OFinish _ i v => finish_step i v e
  end.
Definition op_side (o : op) : bool :=
  match o with OBegin x _ _ _ _ | OStore x _ | OSend x _ | OReceive x | OFinish x _ _ => x end.

(** [RpcChannel::onMessage]: the codec, whose message callback is [onRpcMessage]. *)
Definition rpc_onMessage (e : Side) (buf : Buffer) : option (res (Side * Buffer)) :=
  onMessage codec (fun e m => receive (down_pointer_cast m) e) None errorCallback_ e buf.

Inductive bop :=
  | BLocal (o : op)
  | BRead (x : bool) (n : Z).     (** [handleRead] of side [x] gets [n] bytes *)

Definition bop_side (o : bop) : bool := match o with BLocal o => op_side o | BRead x _ => x end.

(** The step up to the codec: the side with the messages it hands over, its
    input buffer and what is left to be read of the other's bytes. [None]: not
    possible in this state. A read gets what has arrived and fits into the
    arrays given to [readv]. *)
Definition act (s : BSys) (o : bop) : option (res (Side * Buffer * bytes)) :=
  let me := bside (bop_side o) s in
  let from := bside (negb (bop_side o)) s in
  match o with
  | BLocal o => r ← local_step o (b_side me); Some (e ← r; Ok (e, b_in me, b_out from))
  | BRead _ n =>
      if (0 <? n) && (n <=? zlen (b_out from)) && (n <=? readv_capacity (b_in me)) && (n <=? max_size) then
        match readFd (b_in me) (IoData (ztake n (b_out from))) with
        | Fail f => Some (Fail f)
        | Ok (buf, _, _) => r ← rpc_onMessage (b_side me) buf; Some ('(e, buf) ← r; Ok (e, buf, zdrop n (b_out from)))
        end
      else None
  end.

Definition bexec (s : BSys) (o : bop) : option (res BSys) :=
  let x := bop_side o in
  let from := bside (negb x) s in
  r ← act s o;
  Some ('(e, buf, rest) ← r;
        b ← flush e buf (b_out (bside x s));
        Ok (set_bside x b (set_bside (negb x) (mkBSide (b_side from) (b_in from) rest) s))).

Fixpoint brun (s : BSys) (ops : list bop) : option (res BSys) :=
  match ops with
  | [] => Some (Ok s)
  | o :: ops =>
      match bexec s o with
      | Some (Ok s) => brun s ops
      | r => r
      end
  end.

(** ** Messages the receiver takes

    [send] does not look at the size of a message. The receiver's codec takes
    frames of up to 64 MiB, and protobuf serialises what is shorter than 2 GB. *)
Definition fits_frame (m : RpcMessage) : bool := serializable m && (zlen (lite_body codec (up_cast m)) + 4 <=? kMaxMessageLen).

(** Every message that is sent in the run fits. *)
Definition handed (s : BSys) (o : bop) : list RpcMessage :=
  match act s o with Some (Ok (e, _, _)) => sent (peer e) | _ => [] end.
Fixpoint all_fit (s : BSys) (ops : list bop) : bool :=
  match ops with
  | [] => true
  | o :: ops => forallb fits_frame (handed s o) && match bexec s o with Some (Ok s) => all_fit s ops | _ => true end
  end.

(** ** Over bytes is over messages *)
Context `{!PrototypeLaws P (prototype_ codec)}.
Hypothesis Hok : codec_ok codec.
Hypothesis up_instance : forall m, serializable m = true -> instance_of (up_cast m).
Hypothesis down_up : forall m, down_pointer_cast (up_cast m) = m.

Definition on_wire (pend : list RpcMessage) (buf : Buffer) (out : bytes) : Prop :=
  wf buf /\ lite_incomplete codec (view buf) /\ view buf ++ out = lite_frames codec (up_cast <$> pend) /\ Forall (fun m => fits_frame m = true) pend.

(** [pend x] is on its way from side [x]. *)
Definition Sim (pend : bool -> list RpcMessage) (b : BSys) (s : Sys) : Prop := forall x,
  sent (peer (b_side (bside x b))) = [] /\ side x s = under (pend x) (b_side (bside x b)) /\
  on_wire (pend x) (b_in (bside (negb x) b)) (b_out (bside x b)).

Lemma fits_sendable pend : Forall (fun m => fits_frame m = true) pend -> Forall (lite_sendable codec) (up_cast <$> pend).
Proof using up_instance.
  intros H. rewrite Forall_fmap. eapply Forall_impl; [exact H|]. intros m [Hm ?]%andb_true_iff. split; [by apply up_instance | by apply Z.leb_le].
Qed.

Lemma lite_frames_app ms ks : lite_frames codec (ms ++ ks) = lite_frames codec ms ++ lite_frames codec ks.
Proof using. unfold lite_frames. by rewrite fmap_app, concat_app. Qed.

(** What [flush] does to the queue and the wire. *)
Lemma flush_ok e buf out : Forall (fun m => fits_frame m = true) (sent (peer e)) ->
  flush e buf out = Ok (mkBSide (set_peer (set_sent [] (peer e)) e) buf (out ++ lite_frames codec (up_cast <$> sent (peer e)))).
Proof using up_instance PrototypeLaws0.
  intros HF. unfold flush. by rewrite (lite_send_all_frames codec out _ (fits_sendable _ HF)).
Qed.

Lemma under_flush pre e : under pre e = under (pre ++ sent (peer e)) (set_peer (set_sent [] (peer e)) e).
Proof using. unfold under, ahead. cbn. by rewrite app_nil_r. Qed.

Lemma on_wire_more pend buf out ks : on_wire pend buf out -> Forall (fun m => fits_frame m = true) ks ->
  on_wire (pend ++ ks) buf (out ++ lite_frames codec (up_cast <$> ks)).
Proof using.
  intros (Hw & Hi & Hv & Hf) Hk. split_and!; [done | done | | by apply Forall_app].
  by rewrite app_assoc, Hv, fmap_app, lite_frames_app.
Qed.

(** *** Steps that read nothing *)
Lemma local_step_under pre o e : local_step o (under pre e) = fmap (M := res) (under pre) <$> local_step o e.
Proof using.
  destruct o; cbn [local_step]; [by rewrite begin_call_under | apply store_step_under | apply send_step_under | done | apply finish_step_under].
Qed.

Lemma exec_local s o r : local_step o (side (op_side o) s) = Some r -> exec s o = Some (on_side (op_side o) r s).
Proof using. destruct o; cbn [local_step op_side exec]; intros H; try (by injection H as <-); by rewrite ?H. Qed.

Lemma bside_same x e b : bside x (set_bside x e b) = e.
Proof using. by destruct x, b. Qed.
Lemma bside_other x e b : bside (negb x) (set_bside x e b) = bside (negb x) b.
Proof using. by destruct x, b. Qed.
Lemma bside_other' x e b : bside x (set_bside (negb x) e b) = bside x b.
Proof using. by destruct x, b. Qed.

Definition upd (x : bool) (l : list RpcMessage) (pend : bool -> list RpcMessage) : bool -> list RpcMessage :=
  fun y => if bool_decide (y = x) then l else pend y.

Lemma Sim_intro x pend b s :
  sent (peer (b_side (bside x b))) = [] -> side x s = under (pend x) (b_side (bside x b)) ->
  on_wire (pend x) (b_in (bside (negb x) b)) (b_out (bside x b)) ->
  sent (peer (b_side (bside (negb x) b))) = [] -> side (negb x) s = under (pend (negb x)) (b_side (bside (negb x) b)) ->
  on_wire (pend (negb x)) (b_in (bside x b)) (b_out (bside (negb x) b)) -> Sim pend b s.
Proof using.
  intros. intros y. destruct (decide (y = x)) as [->|Hn]; [done|]. assert (y = negb x) as -> by (by destruct x, y). by rewrite negb_involutive.
Qed.

(** What a step up to the codec stands for: steps over messages. *)
Definition acted (b0 : BSys) s k x pend (r : res (Side * Buffer * bytes)) : Prop := sat (fun '(e, buf, rest) => exists ms ops s',
  run s ops = Some (Ok s') /\ Inv s' /\ ids_left k s' /\ side x s' = under (pend x) e /\
  side (negb x) s' = under ms (b_side (bside (negb x) b0)) /\ on_wire ms buf rest) r.

Lemma local_acted pend b s o r k : Sim pend b s -> Inv s -> ids_left (k + uses o) s -> 0 <= k ->
  act b (BLocal o) = Some r -> acted b s k (op_side o) pend r.
Proof using.
  intros HS HI Hk Hk0 Hx. unfold act in Hx. cbn [bop_side] in Hx. set (x := op_side o) in *. destruct (HS x) as (Hs1 & Hs2 & Hw1).
  destruct (HS (negb x)) as (Hs3 & Hs4 & Hw2). rewrite negb_involutive in Hw2.
  destruct (local_step o (b_side (bside x b))) as [r0|] eqn:E; [|done]. cbn [mbind option_bind] in Hx. injection Hx as <-.
  pose proof (local_step_under (pend x) o (b_side (bside x b))) as HU. rewrite E, <- Hs2 in HU. cbn in HU. pose proof (exec_local _ _ _ HU) as HE.
  destruct (exec_ok s o _ k HI Hk Hk0 HE) as (s' & Hs' & HI' & Hk'). destruct r0 as [e|]; [|done]. cbn in Hs'. injection Hs' as <-.
  exists (pend (negb x)), [o]. eexists. split; [cbn [run]; rewrite HE; reflexivity|]. fold x in HI', Hk' |- *. rewrite side_same, side_other.
  by split_and!.
Qed.

(** *** A read *)
Abbreviation on_rpc := (fun (e : Side) (m : message) => receive (down_pointer_cast m) e).

Lemma receives_ok x px ms e s rest eo k : side x s = under px e -> side (negb x) s = under (ms ++ rest) eo -> sent (peer eo) = [] ->
  Inv s -> ids_left k s -> 0 <= k -> exists e' s',
  handle_all codec on_rpc None e (up_cast <$> ms) = Ok e' /\ run s (replicate (length ms) (OReceive x)) = Some (Ok s') /\
  side x s' = under px e' /\ side (negb x) s' = under rest eo /\ Inv s' /\ ids_left k s'.
Proof using down_up.
  intros Hx Hnx Heo HI Hk Hk0. revert e s Hx Hnx HI Hk. induction ms as [|m ms IH]; intros e s Hx Hnx HI Hk.
  { exists e, s. cbn. done. }
  cbn [fmap list_fmap handle_all length replicate run]. unfold handle, call_raw. cbn [mbind res_bind]. rewrite down_up.
  assert (HE : exec s (OReceive x) = Some (on_side x (under px <$> receive m e) (set_side (negb x) (under (ms ++ rest) eo) s))).
  { cbn [exec]. rewrite Hnx, Hx. cbn [peer under set_peer ahead set_sent sent app]. rewrite Heo, app_nil_r.
    rewrite receive_under. do 3 f_equal. unfold under, set_peer, ahead. cbn. by rewrite Heo, app_nil_r. }
  assert (Hk' : ids_left (k + uses (OReceive x)) s) by (unfold uses; cbn; by rewrite Z.add_0_r).
  destruct (exec_ok s (OReceive x) _ k HI Hk' Hk0 HE) as (s1 & Hs1 & HI1 & Hk1). rewrite HE, Hs1.
  destruct (receive m e) as [e1|]; [|done]. cbn in Hs1. injection Hs1 as <-. cbn [mbind res_bind].
  apply IH; [by rewrite side_same | by rewrite side_other, side_same | done | done].
Qed.

Lemma read_acted pend b s x n r k : Sim pend b s -> Inv s -> ids_left k s -> 0 <= k -> act b (BRead x n) = Some r -> acted b s k x pend r.
Proof using Hok up_instance down_up PrototypeLaws0.
  intros HS HI Hk Hk0 Hx. unfold act in Hx. cbn [bop_side] in Hx. destruct (HS x) as (Hs1 & Hs2 & Hw1). destruct (HS (negb x)) as (Hs3 & Hs4 & Hw2).
  rewrite negb_involutive in Hw2. destruct (_ && _ && _ && _)%bool eqn:En; [|done]. rewrite !andb_true_iff in En. destruct En as [[[Hn0 Hn] Hcap] Hmax]. unbool.
  destruct Hw2 as (Hwf & Hi & Hv & Hf). set (from := bside (negb x) b) in *. set (d := ztake n (b_out from)) in *.
  assert (Hd : zlen d = n) by (unfold d; rewrite zlen_take; lia).
  pose proof (readFd_sat (b_in (bside x b)) d Hwf ltac:(lia) ltac:(lia)) as HA.
  destruct (readFd (b_in (bside x b)) (IoData d)) as [[[buf n'] er]|f] eqn:Ea; [|by injection Hx as <-; destruct f].
  destruct HA as (Hwb & Hvb & _).
  assert (Hall : view buf ++ zdrop n (b_out from) = lite_frames codec (up_cast <$> pend (negb x))).
  { rewrite Hvb, <- app_assoc. unfold d. by rewrite ztake_zdrop. }
  destruct (lite_prefix_split codec Hok (up_cast <$> pend (negb x)) (view buf) (zdrop n (b_out from))) as (ms1 & ms2 & rest & Hm & Hs & Ht & Hr);
    [by apply fits_sendable | done|].
  apply fmap_app_inv in Hm as (k1 & k2 & -> & -> & Hkk). rewrite Hkk in Hf. apply Forall_app in Hf as [Hf1 Hf2].
  destruct (receives_ok x (pend x) k1 (b_side (bside x b)) s k2 (b_side from) k) as (e' & s' & Hh & Hrun & Hx' & Hnx' & HI' & Hk'); try done.
  { by rewrite <- Hkk. }
  pose proof (onMessage_frames codec Hok on_rpc None errorCallback_ (fun _ _ _ _ _ _ (H : None = Some _) => ltac:(discriminate H))
    (b_side (bside x b)) buf (up_cast <$> k1) rest Hwb (fits_sendable _ Hf1) Hs Hr) as HM.
  rewrite Hh in HM. destruct HM as (buf' & HM & Hwb' & Hvb' & _). unfold rpc_onMessage in Hx. rewrite HM in Hx. cbn [mbind option_bind] in Hx.
  injection Hx as <-. cbn [mbind res_bind acted sat]. exists k2, (replicate (length k1) (OReceive x)), s'. split_and!; try done.
  split_and!; [done | by rewrite Hvb' | by rewrite Hvb' | done].
Qed.

Lemma act_acted pend b s o r k : Sim pend b s -> Inv s -> ids_left (k + 1) s -> 0 <= k -> act b o = Some r -> acted b s k (bop_side o) pend r.
Proof using Hok up_instance down_up PrototypeLaws0.
  intros HS HI Hk Hk0 Hx. destruct o as [o|x n]; cbn [bop_side].
  - eapply local_acted; try done. intros x. specialize (Hk x). unfold uses. destruct (is_begin o); lia.
  - eapply read_acted; try done. intros y. specialize (Hk y). lia.
Qed.

(** *** All steps *)
Definition simulated s k (r : res BSys) : Prop := sat (fun b' => exists pend' ops s',
  run s ops = Some (Ok s') /\ Sim pend' b' s' /\ Inv s' /\ ids_left k s') r.

Lemma bexec_sim pend b s o r k : Sim pend b s -> Inv s -> ids_left (k + 1) s -> 0 <= k ->
  Forall (fun m => fits_frame m = true) (handed b o) -> bexec b o = Some r -> simulated s k r.
Proof using Hok up_instance down_up PrototypeLaws0.
  intros HS HI Hk Hk0 HF Hx. unfold bexec, handed in *. destruct (act b o) as [r0|] eqn:Ea; [|done]. cbn [mbind option_bind] in Hx. injection Hx as <-.
  pose proof (act_acted _ _ _ _ _ _ HS HI Hk Hk0 Ea) as HA. set (x := bop_side o) in *. destruct r0 as [[[e buf] rest]|f]; [|by destruct f].
  destruct HA as (ms & ops & s' & Hrun & HI' & Hk' & Hx' & Hnx' & Hw'). destruct (HS x) as (Hs1 & Hs2 & Hw1). destruct (HS (negb x)) as (Hs3 & Hs4 & _).
  cbn [mbind res_bind]. rewrite (flush_ok e buf _ HF). cbn [mbind res_bind simulated sat].
  exists (upd x (pend x ++ sent (peer e)) (upd (negb x) ms pend)), ops, s'. split; [done|]. split; [|done]. unfold upd.
  apply (Sim_intro x); rewrite ?bside_same, ?bside_other, ?bside_same, ?(bool_decide_eq_true_2 (x = x)), ?(bool_decide_eq_true_2 (negb x = negb x)),
    ?(bool_decide_eq_false_2 (negb x = x)) by (done || by destruct x); cbn [b_side b_in b_out]; try done.
  - rewrite Hx'. apply under_flush.
  - by apply on_wire_more.
Qed.

Lemma run_app s ops ops' : run s (ops ++ ops') = match run s ops with Some (Ok s') => run s' ops' | r => r end.
Proof using. revert s. induction ops as [|o ops IH]; intros s; [done|]. cbn. destruct (exec s o) as [[s'|]|]; [apply IH | done..]. Qed.

Lemma brun_sim pend b s ops r : Sim pend b s -> Inv s -> ids_left (zlen ops) s -> all_fit b ops = true -> brun b ops = Some r -> simulated s 0 r.
Proof using Hok up_instance down_up PrototypeLaws0.
  revert pend b s. induction ops as [|o ops IH]; intros pend b s HS HI Hk HF Hx; cbn [brun all_fit] in *.
  { injection Hx as <-. by exists pend, [], s. }
  apply andb_true_iff in HF as [HF1 HF]. rewrite forallb_forall in HF1. destruct (bexec b o) as [r1|] eqn:E; [|done]. rewrite zlen_cons in Hk.
  pose proof (bexec_sim pend b s o r1 (zlen ops) HS HI) as H1. destruct r1 as [b1|f]; [|injection Hx as <-; apply H1; try done; [by rewrite Z.add_comm | zlen_lia|]].
  2: { apply Forall_forall. intros m Hm. apply HF1. by apply list_elem_of_In. }
  destruct H1 as (pend1 & ops1 & s1 & Hr1 & HS1 & HI1 & Hk1); [by rewrite Z.add_comm | zlen_lia | | done |].
  { apply Forall_forall. intros m Hm. apply HF1. by apply list_elem_of_In. }
  pose proof (IH pend1 b1 s1 HS1 HI1 Hk1 HF Hx) as H2. destruct r as [b2|]; [|done]. destruct H2 as (pend2 & ops2 & s2 & Hr2 & ?).
  exists pend2, (ops1 ++ ops2), s2. split; [|done]. by rewrite run_app, Hr1.
Qed.
End wire.

(** ** Properties *)
Section properties.
Context {R : RpcRuntime} {h : Host} {Z_ : Zlib} {P : Protobuf} (codec : ProtobufCodecLite) `{!PrototypeLaws P (prototype_ codec)}.
Context (serializable : RpcMessage -> bool) (up_cast : RpcMessage -> message) (down_pointer_cast : message -> RpcMessage).
Context (errorCallback_ : Side -> Buffer -> ErrorCode -> res (Side * Buffer)).

Definition binit (services1 services2 : option (gmap bytes Service)) (buf : Buffer) : BSys :=
  mkBSys (mkBSide (init_side services1) buf []) (mkBSide (init_side services2) buf []).

(** C12: RPC over TCP is RPC over messages. Run two channels over a connection
    that carries bytes and delivers them in reads of any size, in a run in which
    every message sent fits ([all_fit]: its frame is at most 64 MiB, which
    [send] does not check). Then no step fails, but for the [length_error] of an
    input buffer that cannot grow, and the run is a run of the two channels over
    messages: the histories of both sides (calls, answers, services, callbacks)
    are the same, and the bytes on their way, in a buffer or in the network, are
    the frames of exactly the messages that are on their way. *)
Theorem RpcChannel_over_bytes services1 services2 buf ops r :
  codec_ok codec -> (forall m, serializable m = true -> instance_of (up_cast m)) -> (forall m, down_pointer_cast (up_cast m) = m) ->
  muduo_Buffer kInitialSize = Ok buf -> zlen ops < 2 ^ 63 ->
  all_fit codec serializable up_cast down_pointer_cast errorCallback_ (binit services1 services2 buf) ops = true ->
  brun codec up_cast down_pointer_cast errorCallback_ (binit services1 services2 buf) ops = Some r ->
  r = Fail FLength \/ exists b mops s, r = Ok b /\ run (init services1 services2) mops = Some (Ok s) /\
  forall x, side x s = under (sent (peer (side x s))) (b_side (bside x b)) /\
    view (b_in (bside (negb x) b)) ++ b_out (bside x b) = lite_frames codec (up_cast <$> sent (peer (side x s))).
Proof.
  intros Hok Hup Hdown Hbuf Hlen Hfit Hr. destruct new_Buffer_spec as (b0 & Hb0 & Hwf & Hv & _).
  assert (buf = b0) as -> by (change new_Buffer with (muduo_Buffer kInitialSize) in Hb0; congruence).
  assert (HS : Sim codec serializable up_cast (fun _ => []) (binit services1 services2 b0) (init services1 services2)).
  { intros x. split_and!; [by destruct x, services1, services2 | by destruct x, services1, services2|].
    destruct x; (split_and!; [done | cbn; rewrite Hv; by apply lite_incomplete_nil | cbn; by rewrite Hv | done]). }
  assert (Hids : ids_left (zlen ops) (init services1 services2)) by (intros []; [destruct services2 | destruct services1]; cbn; lia).
  pose proof (brun_sim codec serializable up_cast down_pointer_cast errorCallback_ Hok Hup Hdown _ _ _ _ _ HS (init_inv _ _) Hids Hfit Hr) as HM.
  destruct r as [b|f]; [right | left; by destruct f]. destruct HM as (pend & mops & s & Hrun & HS' & _ & _).
  exists b, mops, s. split_and!; [done..|]. intros x. destruct (HS' x) as (E & Hs & _ & _ & Hw & _).
  assert (Ep : sent (peer (side x s)) = pend x) by (rewrite Hs; cbn; by rewrite E, app_nil_r). by rewrite Ep.
Qed.
End properties.

(** ** The echo service over bytes *)
Module WireExample.
Import RpcExample.
#[local] Instance little : Host := LittleEndian.
#[local] Instance zlib : Zlib := Toy.adler.
#[local] Existing Instance echo_runtime.

(** A serialisation of [RpcMessage]: the digits of its number. *)
#[local] Instance MessageType_countable : Countable MessageType.
Proof.
  refine (inj_countable' (fun t => match t with REQUEST => 0%nat | RESPONSE => 1%nat | ERROR => 2%nat end)
    (fun n => match n with 0%nat => REQUEST | 1%nat => RESPONSE | _ => ERROR end) _). by intros [].
Defined.
#[local] Instance RpcErrorCode_countable : Countable RpcErrorCode.
Proof.
  refine (inj_countable' (fun t => match t with NO_ERROR => 0%nat | WRONG_PROTO => 1%nat | NO_SERVICE => 2%nat | NO_METHOD => 3%nat
    | INVALID_REQUEST => 4%nat | INVALID_RESPONSE => 5%nat | TIMEOUT => 6%nat end)
    (fun n => match n with 0%nat => NO_ERROR | 1%nat => WRONG_PROTO | 2%nat => NO_SERVICE | 3%nat => NO_METHOD
    | 4%nat => INVALID_REQUEST | 5%nat => INVALID_RESPONSE | _ => TIMEOUT end) _). by intros [].
Defined.
#[local] Instance RpcMessage_countable : Countable RpcMessage.
Proof.
  refine (inj_countable' (fun m => (m_type m, m_id m, m_service m, m_method m, m_request m, m_response m, m_error m))
    (fun '(t, i, s, n, q, r, e) => mkRpcMessage t i s n q r e) _). by intros [].
Defined.

Fixpoint digits (p : positive) : bytes := match p with xH => [] | xO p => Byte.x00 :: digits p | xI p => Byte.x01 :: digits p end.
Fixpoint undigits (d : bytes) : positive := match d with [] => xH | Byte.x00 :: d => xO (undigits d) | _ :: d => xI (undigits d) end.
Lemma undigits_digits p : undigits (digits p) = p.
Proof. induction p as [p IH|p IH|]; cbn; congruence. Qed.

Definition short (m : RpcMessage) : bool := zlen (digits (encode m)) <? 2 ^ 31.

#[local] Instance rpc_proto : Protobuf := {|
  message := RpcMessage;
  descriptor := unit;
  GetTypeName := fun _ => lit "muduo.net.RpcMessage";
  IsInitialized := fun _ => true;
  InitializationErrorString := fun _ => [];
  ByteSize := fun m => if short m then zlen (digits (encode m)) else 0;
  SerializeWithCachedSizesToArray := fun m => if short m then digits (encode m) else [];
  FindMessageTypeByName := fun _ => None;
  GetPrototype := fun _ => None;
  New := fun m => m;
  ParseFromArray := fun _ p n => d ← ptr_read p n; Ok (decode (undigits d));
|}.

Definition empty_message : @message rpc_proto := mkRpcMessage REQUEST 0 None None None None None.
Definition rpc_codec : ProtobufCodecLite := mkCodecLite (P := rpc_proto) empty_message (lit "RPC0") 8.

#[local] Instance rpc_laws : PrototypeLaws rpc_proto (prototype_ rpc_codec).
Proof.
  refine {| instance_of := fun m : @message rpc_proto => short m = true |}; cbn.
  - done.
  - intros m. unfold short. case_match eqn:E; unbool; zlen_lia.
  - intros m. by case_match.
  - intros m p ->. intros ->. cbn [mbind res_bind]. by rewrite undigits_digits, decode_encode.
Defined.

(** The calls of the day; their frames arrive in two reads, cut inside the second. *)
Definition bday : list bop := [
  BLocal (OBegin false say (lit "hello") (Some []) (Some 7%positive)); BLocal (OBegin false nothing (lit "x") (Some (lit "old")) (Some 8%positive));
  BLocal (OStore false 1); BLocal (OSend false 1); BLocal (OStore false 0); BLocal (OSend false 0);
  BRead true 2000; BRead true 1640; BLocal (OFinish true 0 (lit "hello yourself"));
  BRead false 400; BRead false 562].

Definition no_errors (e : Side) (b : Buffer) (c : ErrorCode) : res (Side * Buffer) := Ok (e, b).
Definition input : Buffer := match muduo_Buffer kInitialSize with Ok b => b | Fail _ => mkBuffer [] 0 0 end.
Definition bstart : BSys := binit None (Some only_echo) input.
Definition bday_end : BSys :=
  ended (brun (R := echo_runtime) (P := rpc_proto) rpc_codec (fun m => m) (fun m => m) no_errors bstart bday) bstart.

Lemma bday_ran : brun (R := echo_runtime) (P := rpc_proto) rpc_codec (fun m => m) (fun m => m) no_errors bstart bday = Some (Ok bday_end).
Proof. apply ends_ended. vm_compute. reflexivity. Qed.

(** The same callbacks ran as over messages. *)
Example bday_callbacks : ran (peer (b_side (b_left bday_end))) = ran (peer (left_ day_end)).
Proof. vm_compute. reflexivity. Qed.

Lemma RpcChannel_over_bytes_witness : exists b mops s, Ok bday_end = Ok b /\ run (init None (Some only_echo)) mops = Some (Ok s) /\
  calls (left_ s) = calls (b_side (b_left b)).
Proof.
  destruct (RpcChannel_over_bytes (R := echo_runtime) (P := rpc_proto) rpc_codec short (fun m => m) (fun m => m) no_errors
    None (Some only_echo) input bday (Ok bday_end)) as [Hf|(b & mops & s & Hb & Hrun & Hx)].
  - by split.
  - intros m Hm. exact Hm.
  - done.
  - vm_compute. reflexivity.
  - vm_compute. reflexivity.
  - vm_compute. reflexivity.
  - exact bday_ran.
  - discriminate Hf.
  - exists b, mops, s. split; [exact Hb|]. split; [exact Hrun|]. destruct (Hx false) as [E _]. cbn in E. by rewrite E.
Defined.
End WireExample.
