(* ===== verification/Channel.v ===== *)
(** * [muduo::net::Channel] ([3rd_party/muduo/muduo/net/Channel.{h,cc}])

    The interest set of one file descriptor and the dispatch of the events the
    poller reports. Event sets are the bit masks of [poll(2)]. A channel knows
    its loop only through [updateChannel] and [removeChannel]; their effect on
    the loop is an argument. *)
From stdpp Require Import strings.
From S2P Require Import Prelude.

Definition POLLIN : Z := 1.
Definition POLLPRI : Z := 2.
Definition POLLOUT : Z := 4.
Definition POLLERR : Z := 8.
Definition POLLHUP : Z := 16.
Definition POLLNVAL : Z := 32.
Definition POLLRDHUP : Z := 8192.

Definition kNoneEvent : Z := 0.
Definition kReadEvent : Z := Z.lor POLLIN POLLPRI.
Definition kWriteEvent : Z := POLLOUT.

(** [x & mask] as a condition. *)
Definition has (x mask : Z) : bool := negb (Z.land x mask =? 0).

Record Channel := mkChannel {
  fd_ : Z;
  events_ : Z;
  revents_ : Z;
  index_ : Z;
  logHup_ : bool;
  tied_ : bool;
  eventHandling_ : bool;
  addedToLoop_ : bool;
}.

Definition Channel_ctor (fd : Z) : Channel := mkChannel fd 0 0 (-1) true false false false.

(** [~Channel] in the loop's thread; [hasChannel] is the loop's answer. *)
Definition Channel_dtor (c : Channel) (hasChannel : bool) : res unit :=
  assert_ (negb (eventHandling_ c));;
  assert_ (negb (addedToLoop_ c));;
  assert_ (negb hasChannel).

Definition tie (c : Channel) : Channel :=
  mkChannel (fd_ c) (events_ c) (revents_ c) (index_ c) (logHup_ c) true (eventHandling_ c) (addedToLoop_ c).
Definition set_revents (c : Channel) (revt : Z) : Channel :=
  mkChannel (fd_ c) (events_ c) revt (index_ c) (logHup_ c) (tied_ c) (eventHandling_ c) (addedToLoop_ c).
Definition set_index (c : Channel) (idx : Z) : Channel :=
  mkChannel (fd_ c) (events_ c) (revents_ c) idx (logHup_ c) (tied_ c) (eventHandling_ c) (addedToLoop_ c).
Definition doNotLogHup (c : Channel) : Channel :=
  mkChannel (fd_ c) (events_ c) (revents_ c) (index_ c) false (tied_ c) (eventHandling_ c) (addedToLoop_ c).
Definition set_eventHandling (c : Channel) (b : bool) : Channel :=
  mkChannel (fd_ c) (events_ c) (revents_ c) (index_ c) (logHup_ c) (tied_ c) b (addedToLoop_ c).
Definition set_events (c : Channel) (ev : Z) : Channel :=
  mkChannel (fd_ c) ev (revents_ c) (index_ c) (logHup_ c) (tied_ c) (eventHandling_ c) (addedToLoop_ c).
Definition set_added (c : Channel) (b : bool) : Channel :=
  mkChannel (fd_ c) (events_ c) (revents_ c) (index_ c) (logHup_ c) (tied_ c) (eventHandling_ c) b.

Definition isNoneEvent (c : Channel) : bool := events_ c =? kNoneEvent.
Definition isWriting (c : Channel) : bool := has (events_ c) kWriteEvent.
Definition isReading (c : Channel) : bool := has (events_ c) kReadEvent.

(** [update] and [remove] hand the channel to the loop. *)
Section loop_calls.
Context (updateChannel removeChannel : Channel -> res Channel).

Definition update (c : Channel) : res Channel := updateChannel (set_added c true).
Definition remove (c : Channel) : res Channel :=
  assert_ (isNoneEvent c);;
  removeChannel (set_added c false).

Definition enableReading (c : Channel) : res Channel :=
  update (set_events c (Z.lor (events_ c) kReadEvent)).
Definition disableReading (c : Channel) : res Channel :=
  update (set_events c (Z.land (events_ c) (Z.lnot kReadEvent))).
Definition enableWriting (c : Channel) : res Channel :=
  update (set_events c (Z.lor (events_ c) kWriteEvent)).
Definition disableWriting (c : Channel) : res Channel :=
  update (set_events c (Z.land (events_ c) (Z.lnot kWriteEvent))).
Definition disableAll (c : Channel) : res Channel := update (set_events c kNoneEvent).
End loop_calls.

(** ** Event dispatch

    [W] is the state of the program; the callbacks may be empty. [getc] and
    [setc] access the channel inside the state. *)
Section dispatch.
Context {W : Type} (getc : W -> Channel) (setc : W -> Channel -> W).
Context (readCallback_ writeCallback_ closeCallback_ errorCallback_ : option (W -> res W)).

(** [if (cb) cb();] *)
Definition invoke (cb : option (W -> res W)) (w : W) : res W :=
  match cb with Some f => f w | None => Ok w end.
Definition when (b : bool) (cb : option (W -> res W)) (w : W) : res W :=
  if b then invoke cb w else Ok w.

(** [revents_] is a member: each condition reads it again. *)
Definition handleEventWithGuard (w : W) : res W :=
  let w := setc w (set_eventHandling (getc w) true) in
  let rev w := revents_ (getc w) in
  w ← when (has (rev w) POLLHUP && negb (has (rev w) POLLIN)) closeCallback_ w;
  w ← when (has (rev w) (Z.lor POLLERR POLLNVAL)) errorCallback_ w;
  w ← when (has (rev w) (Z.lor (Z.lor POLLIN POLLPRI) POLLRDHUP)) readCallback_ w;
  w ← when (has (rev w) POLLOUT) writeCallback_ w;
  Ok (setc w (set_eventHandling (getc w) false)).

(** [guard] is the result of [tie_.lock()]: whether the owner is alive. *)
Definition handleEvent (guard : bool) (w : W) : res W :=
  if tied_ (getc w) then (if guard then handleEventWithGuard w else Ok w)
  else handleEventWithGuard w.
End dispatch.

(** ** [eventsToString] *)
Definition eventsToString (show_fd : Z -> string) (fd ev : Z) : string :=
  let part (m : Z) (s : string) := if has ev m then s else "" in
  (show_fd fd +:+ ": " +:+ part POLLIN "IN " +:+ part POLLPRI "PRI " +:+ part POLLOUT "OUT " +:+
   part POLLHUP "HUP " +:+ part POLLRDHUP "RDHUP " +:+ part POLLERR "ERR " +:+ part POLLNVAL "NVAL ")%string.

(** ** Interest sets

    The masks a channel can have: subsets of the read and write events. *)
Definition interest (r w : bool) : Z :=
  Z.lor (if r then kReadEvent else 0) (if w then kWriteEvent else 0).

Lemma interest_isReading c r w : events_ c = interest r w -> isReading c = r.
Proof. unfold isReading. intros ->. by destruct r, w. Qed.
Lemma interest_isWriting c r w : events_ c = interest r w -> isWriting c = w.
Proof. unfold isWriting. intros ->. by destruct r, w. Qed.
Lemma interest_isNone c r w : events_ c = interest r w -> isNoneEvent c = negb (r || w).
Proof. unfold isNoneEvent. intros ->. by destruct r, w. Qed.
Lemma interest_enableReading r w : Z.lor (interest r w) kReadEvent = interest true w.
Proof. by destruct r, w. Qed.
Lemma interest_disableReading r w : Z.land (interest r w) (Z.lnot kReadEvent) = interest false w.
Proof. by destruct r, w. Qed.
Lemma interest_enableWriting r w : Z.lor (interest r w) kWriteEvent = interest r true.
Proof. by destruct r, w. Qed.
Lemma interest_disableWriting r w : Z.land (interest r w) (Z.lnot kWriteEvent) = interest r false.
Proof. by destruct r, w. Qed.
