(* ===== verification/TcpConnection.v ===== *)
(** * [muduo::net::TcpConnection] ([3rd_party/muduo/muduo/net/TcpConnection.{h,cc}])

    One connection in its event loop: the state machine, the output path with
    its buffer and high-water mark, the callbacks. The world around it is its
    socket (what the kernel accepted, what it answers to [write]), the loop's
    queue of functors, and the user's callbacks.

    User code is a closure [k : K]; [user k w] is the list of calls it makes on
    the connection when it runs in the world [w]. Calls of other threads are
    steps of their own. Logging is left out. *)
From stdpp Require Import strings.
From S2P Require Import Prelude Endian StringPiece Buffer MuduoBuffer Channel.

Inductive StateE := kDisconnected | kConnecting | kConnected | kDisconnecting.
#[global] Instance StateE_eq_dec : EqDecision StateE.
Proof. solve_decision. Defined.

Definition EPIPE : Z := 32.
Definition ECONNRESET : Z := 104.
Definition EWOULDBLOCK : Z := 11.

(** What the kernel answers to [write]: how much room the socket has, or an error. *)
Inductive wres := WSpace (n : nat) | WError (errno : Z).

Section tcp.
Context {K : Type}.

(** [closeCallback_] is set by the owner of the connection: [CloseServer] is
    [TcpServer::removeConnection], which queues [connectDestroyed]. *)
Inductive close_cb := CloseServer | CloseUser (k : K).

Record callbacks := mkCallbacks {
  connectionCallback_ : option K;
  messageCallback_ : option K;
  writeCompleteCallback_ : option K;
  highWaterMarkCallback_ : option K;
  closeCallback_ : option close_cb;
}.

Record TcpConnection := mkConn {
  state_ : StateE;
  reading_ : bool;
  channel_ : Channel;
  inputBuffer_ : Buffer;
  outputBuffer_ : Buffer;
  highWaterMark_ : Z;
  cbs : callbacks;
}.

(** Functors bound to the connection and queued in the loop. *)
Inductive functor :=
  | FConnectEstablished | FConnectDestroyed
  | FSendInLoop (message : bytes) | FShutdownInLoop | FForceCloseInLoop
  | FStartReadInLoop | FStopReadInLoop
  | FWriteComplete (k : K) | FHighWaterMark (k : K) (len : Z).

(** Callback invocations, in order (ghost). *)
Inductive event := EvUp | EvDown | EvClose | EvMessage | EvWriteComplete | EvHighWaterMark (len : Z).

(** [accepted]: the bytes [sendInLoop] took over (ghost). [shutw]: whether
    [shutdownWrite] was called, and then the state, wire and [accepted] at that
    moment (ghost). [timers]: armed delayed closes. *)
Record world := mkWorld {
  conn : TcpConnection;
  inLoop : bool;
  pendingFunctors_ : list functor;
  timers : nat;
  answers : list wres;
  wire : bytes;
  shutw : option (StateE * bytes * bytes);
  accepted : bytes;
  trace : list event;
}.

(** ** Field updates *)
Definition set_conn (w : world) (c : TcpConnection) : world :=
  mkWorld c (inLoop w) (pendingFunctors_ w) (timers w) (answers w) (wire w) (shutw w) (accepted w) (trace w).
Definition set_inLoop (w : world) (b : bool) : world :=
  mkWorld (conn w) b (pendingFunctors_ w) (timers w) (answers w) (wire w) (shutw w) (accepted w) (trace w).
Definition set_pending (w : world) (p : list functor) : world :=
  mkWorld (conn w) (inLoop w) p (timers w) (answers w) (wire w) (shutw w) (accepted w) (trace w).
Definition set_timers (w : world) (n : nat) : world :=
  mkWorld (conn w) (inLoop w) (pendingFunctors_ w) n (answers w) (wire w) (shutw w) (accepted w) (trace w).
Definition set_wire (w : world) (a : list wres) (d : bytes) : world :=
  mkWorld (conn w) (inLoop w) (pendingFunctors_ w) (timers w) a d (shutw w) (accepted w) (trace w).
Definition set_accepted (w : world) (d : bytes) : world :=
  mkWorld (conn w) (inLoop w) (pendingFunctors_ w) (timers w) (answers w) (wire w) (shutw w) d (trace w).
Definition log (w : world) (e : event) : world :=
  mkWorld (conn w) (inLoop w) (pendingFunctors_ w) (timers w) (answers w) (wire w) (shutw w) (accepted w) (trace w ++ [e]).

Definition setState (w : world) (s : StateE) : world :=
  let c := conn w in
  set_conn w (mkConn s (reading_ c) (channel_ c) (inputBuffer_ c) (outputBuffer_ c) (highWaterMark_ c) (cbs c)).
Definition set_reading (w : world) (b : bool) : world :=
  let c := conn w in
  set_conn w (mkConn (state_ c) b (channel_ c) (inputBuffer_ c) (outputBuffer_ c) (highWaterMark_ c) (cbs c)).
Definition set_channel (w : world) (ch : Channel) : world :=
  let c := conn w in
  set_conn w (mkConn (state_ c) (reading_ c) ch (inputBuffer_ c) (outputBuffer_ c) (highWaterMark_ c) (cbs c)).
Definition set_input (w : world) (b : Buffer) : world :=
  let c := conn w in
  set_conn w (mkConn (state_ c) (reading_ c) (channel_ c) b (outputBuffer_ c) (highWaterMark_ c) (cbs c)).
Definition set_output (w : world) (b : Buffer) : world :=
  let c := conn w in
  set_conn w (mkConn (state_ c) (reading_ c) (channel_ c) (inputBuffer_ c) b (highWaterMark_ c) (cbs c)).
Definition set_cbs (w : world) (mark : Z) (k : callbacks) : world :=
  let c := conn w in
  set_conn w (mkConn (state_ c) (reading_ c) (channel_ c) (inputBuffer_ c) (outputBuffer_ c) mark k).

Definition state (w : world) : StateE := state_ (conn w).
Definition chan (w : world) : Channel := channel_ (conn w).
Definition out (w : world) : Buffer := outputBuffer_ (conn w).

(** The loop keeps the channel it is given; what the poller does with it is
    the subject of the poller component. *)
Definition updateChannel (c : Channel) : res Channel := Ok c.
Definition removeChannel (c : Channel) : res Channel := Ok c.
Definition on_channel (f : Channel -> res Channel) (w : world) : res world :=
  c ← f (chan w); Ok (set_channel w c).

(** ** Construction *)
Definition TcpConnection_ctor (fd : Z) : res TcpConnection :=
  i ← muduo_Buffer kInitialSize;
  o ← muduo_Buffer kInitialSize;
  Ok (mkConn kConnecting true (Channel_ctor fd) i o (64 * 1024 * 1024) (mkCallbacks None None None None None)).

Definition TcpConnection_dtor (w : world) : res unit :=
  assert_ (bool_decide (state w = kDisconnected)).

Definition connected (w : world) : bool := bool_decide (state w = kConnected).
Definition disconnected (w : world) : bool := bool_decide (state w = kDisconnected).

Definition stateToString (s : StateE) : string :=
  match s with
  | kDisconnected => "kDisconnected"
  | kConnecting => "kConnecting"
  | kConnected => "kConnected"
  | kDisconnecting => "kDisconnecting"
  end.

(** ** The loop *)
Definition isInLoopThread (w : world) : bool := inLoop w.
Definition assertInLoopThread (w : world) : res unit := check (isInLoopThread w) FFatal.
Definition queueInLoop (w : world) (f : functor) : world := set_pending w (pendingFunctors_ w ++ [f]).
(** [runInLoop(cb)] where [direct] is what [cb] does. *)
Definition runInLoop (direct : world -> res world) (f : functor) (w : world) : res world :=
  if isInLoopThread w then direct w else Ok (queueInLoop w f).

(** ** The socket *)
Definition sock_write (w : world) (d : bytes) : Z * Z * world :=
  match shutw w, answers w with
  | Some _, _ => (-1, EPIPE, w)
  | None, [] => (-1, EWOULDBLOCK, w)
  | None, WSpace n :: a => (zlen (take n d), 0, set_wire w a (wire w ++ take n d))
  | None, WError e :: a => (-1, e, set_wire w a (wire w))
  end.

Definition shutdownWrite (w : world) : world :=
  mkWorld (conn w) (inLoop w) (pendingFunctors_ w) (timers w) (answers w) (wire w)
    (match shutw w with None => Some (state w, wire w, accepted w) | s => s end) (accepted w) (trace w).

(** ** Sending *)
Definition queue_write_complete (w : world) : world :=
  match writeCompleteCallback_ (cbs (conn w)) with
  | Some k => queueInLoop w (FWriteComplete k)
  | None => w
  end.

(** The direct write: [nwrote], [remaining], [faultError] and the world. *)
Definition try_write (w : world) (data : bytes) : Z * Z * bool * world :=
  let len := zlen data in
  if negb (isWriting (chan w)) && (readableBytes (out w) =? 0) then
    let '(nwrote, errno, w) := sock_write w data in
    if 0 <=? nwrote then
      let remaining := size_t (len - nwrote) in
      (nwrote, remaining, false, if remaining =? 0 then queue_write_complete w else w)
    else
      (0, len, negb (errno =? EWOULDBLOCK) && ((errno =? EPIPE) || (errno =? ECONNRESET)), w)
  else (0, len, false, w).

Definition queue_high_water (w : world) (oldLen remaining : Z) : world :=
  if (highWaterMark_ (conn w) <=? size_t (oldLen + remaining)) && (oldLen <? highWaterMark_ (conn w)) then
    match highWaterMarkCallback_ (cbs (conn w)) with
    | Some k => queueInLoop w (FHighWaterMark k (size_t (oldLen + remaining)))
    | None => w
    end
  else w.

Definition sendInLoop (data : bytes) (w : world) : res world :=
  assertInLoopThread w;;
  let len := zlen data in
  if bool_decide (state w = kDisconnected) then Ok w else
  let '(nwrote, remaining, faultError, w) := try_write w data in
  assert_ (remaining <=? len);;
  let w := if faultError then w else set_accepted w (accepted w ++ data) in
  if negb faultError && (0 <? remaining) then
    let w := queue_high_water w (readableBytes (out w)) remaining in
    b ← append (out w) (Ptr data nwrote) remaining;
    let w := set_output w b in
    if negb (isWriting (chan w)) then on_channel (enableWriting updateChannel) w else Ok w
  else Ok w.

(** [send(const StringPiece&)]; the [(const void*, int)] overload builds a piece. *)
Definition send (message : bytes) (w : world) : res world :=
  if bool_decide (state w = kConnected) then
    if isInLoopThread w then sendInLoop message w
    else runInLoop (sendInLoop message) (FSendInLoop message) w
  else Ok w.

(** [send(Buffer* buf)]: the buffer after the call, too. *)
Definition send_buffer (buf : Buffer) (w : world) : res (world * Buffer) :=
  if bool_decide (state w = kConnected) then
    if isInLoopThread w then
      d ← vec_read (buffer_ buf) (peek buf) (readableBytes buf);
      w ← sendInLoop d w;
      Ok (w, retrieveAll buf)
    else
      '(d, buf) ← retrieveAllAsString buf;
      w ← runInLoop (sendInLoop d) (FSendInLoop d) w;
      Ok (w, buf)
  else Ok (w, buf).

(** ** Closing from this side *)
Definition shutdownInLoop (w : world) : res world :=
  assertInLoopThread w;;
  Ok (if negb (isWriting (chan w)) then shutdownWrite w else w).

Definition shutdown (w : world) : res world :=
  if bool_decide (state w = kConnected) then
    runInLoop shutdownInLoop FShutdownInLoop (setState w kDisconnecting)
  else Ok w.

Definition closable (w : world) : bool :=
  bool_decide (state w = kConnected) || bool_decide (state w = kDisconnecting).

Definition forceClose (w : world) : res world :=
  if closable w then Ok (queueInLoop (setState w kDisconnecting) FForceCloseInLoop) else Ok w.

Definition forceCloseWithDelay (w : world) : res world :=
  if closable w then Ok (set_timers (setState w kDisconnecting) (S (timers w))) else Ok w.

(** ** Reading on and off *)
Definition startReadInLoop (w : world) : res world :=
  assertInLoopThread w;;
  if negb (reading_ (conn w)) || negb (isReading (chan w)) then
    w ← on_channel (enableReading updateChannel) w; Ok (set_reading w true)
  else Ok w.
Definition startRead (w : world) : res world := runInLoop startReadInLoop FStartReadInLoop w.

Definition stopReadInLoop (w : world) : res world :=
  assertInLoopThread w;;
  if reading_ (conn w) || isReading (chan w) then
    w ← on_channel (disableReading updateChannel) w; Ok (set_reading w false)
  else Ok w.
Definition stopRead (w : world) : res world := runInLoop stopReadInLoop FStopReadInLoop w.

(** ** Callback setters *)
Definition setConnectionCallback (w : world) (k : option K) : world :=
  let b := cbs (conn w) in
  set_cbs w (highWaterMark_ (conn w)) (mkCallbacks k (messageCallback_ b) (writeCompleteCallback_ b)
    (highWaterMarkCallback_ b) (closeCallback_ b)).
Definition setMessageCallback (w : world) (k : option K) : world :=
  let b := cbs (conn w) in
  set_cbs w (highWaterMark_ (conn w)) (mkCallbacks (connectionCallback_ b) k (writeCompleteCallback_ b)
    (highWaterMarkCallback_ b) (closeCallback_ b)).
Definition setWriteCompleteCallback (w : world) (k : option K) : world :=
  let b := cbs (conn w) in
  set_cbs w (highWaterMark_ (conn w)) (mkCallbacks (connectionCallback_ b) (messageCallback_ b) k
    (highWaterMarkCallback_ b) (closeCallback_ b)).
Definition setHighWaterMarkCallback (w : world) (k : option K) (mark : Z) : world :=
  let b := cbs (conn w) in
  set_cbs w mark (mkCallbacks (connectionCallback_ b) (messageCallback_ b) (writeCompleteCallback_ b) k
    (closeCallback_ b)).
Definition setCloseCallback (w : world) (k : option close_cb) : world :=
  let b := cbs (conn w) in
  set_cbs w (highWaterMark_ (conn w)) (mkCallbacks (connectionCallback_ b) (messageCallback_ b)
    (writeCompleteCallback_ b) (highWaterMarkCallback_ b) k).

(** ** User code: the calls it may make on the connection *)
Inductive api :=
  | ASend (message : bytes) | AShutdown | AForceClose | AForceCloseWithDelay
  | AStartRead | AStopRead
  | AConsume (n : nat)                       (** [buf->retrieve(n)], [n] at most what is there *)
  | ASetConnection (k : K) | ASetMessage (k : K) | ASetWriteComplete (k : option K)
  | ASetHighWaterMark (k : option K) (mark : Z).

Definition exec_api (w : world) (a : api) : res world :=
  match a with
  | ASend d => send d w
  | AShutdown => shutdown w
  | AForceClose => forceClose w
  | AForceCloseWithDelay => forceCloseWithDelay w
  | AStartRead => startRead w
  | AStopRead => stopRead w
  | AConsume n =>
      let b := inputBuffer_ (conn w) in
      b ← retrieve b (Z.min (Z.of_nat n) (readableBytes b)); Ok (set_input w b)
  | ASetConnection k => Ok (setConnectionCallback w (Some k))
  | ASetMessage k => Ok (setMessageCallback w (Some k))
  | ASetWriteComplete k => Ok (setWriteCompleteCallback w k)
  | ASetHighWaterMark k mark => Ok (setHighWaterMarkCallback w k mark)
  end.

Fixpoint exec_apis (w : world) (l : list api) : res world :=
  match l with [] => Ok w | a :: l => w ← exec_api w a; exec_apis w l end.

Context (user : K -> world -> list api).

(** Calling a [boost::function]: an empty one throws [bad_function_call]. *)
Definition call (k : option K) (e : event) (w : world) : res world :=
  match k with
  | Some k => let w := log w e in exec_apis w (user k w)
  | None => Fail FThrow
  end.

(** ** Handlers *)
Definition connectEstablished (w : world) : res world :=
  assertInLoopThread w;;
  assert_ (bool_decide (state w = kConnecting));;
  let w := setState w kConnected in
  let w := set_channel w (tie (chan w)) in
  w ← on_channel (enableReading updateChannel) w;
  call (connectionCallback_ (cbs (conn w))) EvUp w.

Definition connectDestroyed (w : world) : res world :=
  assertInLoopThread w;;
  w ← (if bool_decide (state w = kConnected) then
         w ← on_channel (disableAll updateChannel) (setState w kDisconnected);
         call (connectionCallback_ (cbs (conn w))) EvDown w
       else Ok w);
  on_channel (remove removeChannel) w.

Definition handleClose (w : world) : res world :=
  assertInLoopThread w;;
  assert_ (closable w);;
  w ← on_channel (disableAll updateChannel) (setState w kDisconnected);
  w ← call (connectionCallback_ (cbs (conn w))) EvDown w;
  match closeCallback_ (cbs (conn w)) with
  | Some CloseServer => Ok (queueInLoop (log w EvClose) FConnectDestroyed)
  | Some (CloseUser k) => call (Some k) EvClose w
  | None => Fail FThrow
  end.

(** [handleError] only logs [SO_ERROR]. *)
Definition handleError (w : world) : res world := Ok w.

(** [rd] is what [readv] delivers if it is called. *)
Definition handleRead (rd : io) (w : world) : res world :=
  assertInLoopThread w;;
  let b := inputBuffer_ (conn w) in
  let rd := match rd with IoData d => IoData (ztake (readv_capacity b) d) | e => e end in
  '(b, n, savedErrno) ← readFd b rd;
  let w := set_input w b in
  if 0 <? n then call (messageCallback_ (cbs (conn w))) EvMessage w
  else if n =? 0 then handleClose w
  else handleError w.

Definition handleWrite (w : world) : res world :=
  assertInLoopThread w;;
  if isWriting (chan w) then
    d ← vec_read (buffer_ (out w)) (peek (out w)) (readableBytes (out w));
    let '(n, errno, w) := sock_write w d in
    if 0 <? n then
      b ← retrieve (out w) n;
      let w := set_output w b in
      if readableBytes (out w) =? 0 then
        w ← on_channel (disableWriting updateChannel) w;
        let w := queue_write_complete w in
        if bool_decide (state w = kDisconnecting) then shutdownInLoop w else Ok w
      else Ok w
    else Ok w
  else Ok w.

Definition forceCloseInLoop (w : world) : res world :=
  assertInLoopThread w;;
  if closable w then handleClose w else Ok w.

(** ** Steps of the loop and of other threads *)
Definition run_functor (f : functor) (w : world) : res world :=
  match f with
  | FConnectEstablished => connectEstablished w
  | FConnectDestroyed => connectDestroyed w
  | FSendInLoop d => sendInLoop d w
  | FShutdownInLoop => shutdownInLoop w
  | FForceCloseInLoop => forceCloseInLoop w
  | FStartReadInLoop => startReadInLoop w
  | FStopReadInLoop => stopReadInLoop w
  | FWriteComplete k => call (Some k) EvWriteComplete w
  | FHighWaterMark k len => call (Some k) (EvHighWaterMark len) w
  end.

(** The channel callbacks the constructor installs. *)
Definition on_event (rd : io) (w : world) : res world :=
  handleEvent chan set_channel (Some (handleRead rd)) (Some handleWrite) (Some handleClose)
    (Some handleError) true w.

Inductive label :=
  | LPoll (revents : Z) (rd : io)    (** the poller reports events *)
  | LFunctor                         (** the loop runs the next functor *)
  | LTimer                           (** a delayed close expires *)
  | LForeign (a : api).              (** another thread calls *)

(** [epoll] reports only registered descriptors: the requested events, and
    errors and hang-ups. *)
Definition deliverable (w : world) (revents : Z) : bool :=
  negb (isNoneEvent (chan w)) &&
  (Z.land revents (Z.lnot (Z.lor (events_ (chan w)) (Z.lor POLLERR POLLHUP))) =? 0).

Definition exec_label (w : world) (l : label) : option (res world) :=
  match l with
  | LPoll revents rd =>
      if deliverable w revents then Some (on_event rd (set_channel w (set_revents (chan w) revents))) else None
  | LFunctor =>
      match pendingFunctors_ w with
      | [] => None
      | f :: p => Some (run_functor f (set_pending w p))
      end
  | LTimer =>
      match timers w with O => None | S n => Some (forceClose (set_timers w n)) end
  | LForeign a =>
      Some (w' ← exec_api (set_inLoop w false) a; Ok (set_inLoop w' true))
  end.

(** A new connection: the owner has set the callbacks and asked the loop to
    run [connectEstablished]. *)
Definition new_world (c : TcpConnection) (k : callbacks) (ans : list wres) : world :=
  mkWorld (mkConn (state_ c) (reading_ c) (channel_ c) (inputBuffer_ c) (outputBuffer_ c) (highWaterMark_ c) k)
    true [FConnectEstablished] 0 ans [] None [] [].
End tcp.
Arguments callbacks K : clear implicits.
Arguments TcpConnection K : clear implicits.
Arguments world K : clear implicits.
Arguments functor K : clear implicits.
Arguments api K : clear implicits.
Arguments label K : clear implicits.
Arguments close_cb K : clear implicits.
