(* ===== verification/TcpSafety.v ===== *)
(** * [TcpConnection]: the invariant and its preservation *)
From S2P Require Import Prelude Endian StringPiece Buffer MuduoBuffer Channel TcpConnection.

(** A state in which the connection is up. *)
Definition is_open (s : StateE) : Prop := s = kConnected \/ s = kDisconnecting.

(** User and foreign calls only ever start the shutdown. *)
Definition state_rel (s s' : StateE) : Prop := s' = s \/ (s = kConnected /\ s' = kDisconnecting).

Section safety.
Context {K : Type}.
Implicit Type w : world K.

(** Which functors may wait in the loop's queue. *)
Definition pend_ok (s : StateE) (f : functor K) : Prop :=
  match f with
  | FConnectEstablished => s = kConnecting
  | FConnectDestroyed => s = kDisconnected
  | FSendInLoop d => zlen d <= max_size /\ s <> kConnecting
  | FStartReadInLoop | FStopReadInLoop => False
  | _ => s <> kConnecting
  end.

(** Interest in the socket and the output buffer agree. *)
Definition interest_ok (s : StateE) (ev : Z) (output : bytes) : Prop :=
  exists r wr, ev = interest r wr /\
    match s with
    | kConnecting => r = false /\ wr = false /\ output = []
    | kDisconnected => r = false /\ wr = false
    | kConnected | kDisconnecting => wr = true <-> output <> []
    end.

Record core w : Prop := {
  c_in : wf (inputBuffer_ (conn w));
  c_out : wf (out w);
  c_stream : wire w ++ view (out w) = accepted w;
  c_events : interest_ok (state w) (events_ (chan w)) (view (out w));
  c_shut : forall st wi ac, shutw w = Some (st, wi, ac) -> wire w = wi /\ (st <> kDisconnected -> wi = ac);
  c_pend : Forall (pend_ok (state w)) (pendingFunctors_ w);
}.

(** What the calls of user code leave alone. *)
Record calls w w' : Prop := {
  r_trace : trace w' = trace w;
  r_loop : inLoop w' = inLoop w;
  r_state : state_rel (state w) (state w');
  r_revents : revents_ (chan w') = revents_ (chan w);
  r_close : closeCallback_ (cbs (conn w')) = closeCallback_ (cbs (conn w));
  r_conn : is_Some (connectionCallback_ (cbs (conn w))) -> is_Some (connectionCallback_ (cbs (conn w')));
  r_msg : is_Some (messageCallback_ (cbs (conn w))) -> is_Some (messageCallback_ (cbs (conn w')));
}.

Lemma calls_refl w : calls w w.
Proof. split; try done. by left. Qed.

Lemma state_rel_trans s1 s2 s3 : state_rel s1 s2 -> state_rel s2 s3 -> state_rel s1 s3.
Proof. unfold state_rel. intros [->|[-> ->]] [->|[? ->]]; auto; congruence. Qed.

Lemma calls_trans w1 w2 w3 : calls w1 w2 -> calls w2 w3 -> calls w1 w3.
Proof. intros [] []. split; eauto using state_rel_trans; congruence. Qed.

Lemma pend_ok_mono s s' f : state_rel s s' -> pend_ok s f -> pend_ok s' f.
Proof. intros [->|[-> ->]]; [done|]. destruct f; cbn; naive_solver. Qed.

Lemma interest_ok_writing s ev output c : events_ c = ev -> is_open s -> interest_ok s ev output ->
  isWriting c = negb (bool_decide (output = [])).
Proof.
  intros <- Hs (r & wr & Hev & Hm). rewrite (interest_isWriting c r wr Hev).
  assert (Hw : wr = true <-> output <> []) by (destruct Hs as [->| ->]; exact Hm).
  destruct wr; case_bool_decide; naive_solver.
Qed.

Lemma is_open_split s : s <> kConnecting -> s <> kDisconnected -> is_open s.
Proof. destruct s; unfold is_open; auto; done. Qed.

Lemma readable_empty b : wf b -> (readableBytes b =? 0) = bool_decide (view b = []).
Proof.
  intros Hwf. change (readableBytes b) with (ReadableBytes b). rewrite readable_view by done.
  case_bool_decide as E; [by rewrite E | apply Z.eqb_neq]. intros ?%zlen_0_nil. done.
Qed.

(** ** The socket and the queue *)
Lemma sock_write_spec w d n e w' : sock_write w d = (n, e, w') ->
  conn w' = conn w /\ pendingFunctors_ w' = pendingFunctors_ w /\ shutw w' = shutw w /\
  accepted w' = accepted w /\ trace w' = trace w /\ inLoop w' = inLoop w /\
  ((n = -1 /\ wire w' = wire w) \/
   (shutw w = None /\ 0 <= n <= zlen d /\ wire w' = wire w ++ ztake n d)).
Proof.
  unfold sock_write. destruct (shutw w) eqn:Es; [intros; simplify_eq; by auto 10|].
  destruct (answers w) as [|[m|e'] a]; intros; simplify_eq; cbn; rewrite ?Es; split_and!; try done; auto.
  right. split; [done|]. unfold ztake, zlen. rewrite length_take. split; [lia|].
  rewrite Nat2Z.id. f_equal. destruct (decide (m <= length d)%nat); [by rewrite Nat.min_l|].
  rewrite Nat.min_r by lia. by rewrite firstn_all, take_ge by lia.
Qed.

Lemma queue_write_complete_spec w : state w <> kConnecting ->
  exists l, queue_write_complete w = set_pending w (pendingFunctors_ w ++ l) /\ Forall (pend_ok (state w)) l.
Proof.
  intros Hs. unfold queue_write_complete, queueInLoop. case_match; [eexists; split; [done|]; by repeat constructor|].
  exists []. rewrite app_nil_r. split; [by destruct w | constructor].
Qed.

Lemma queue_high_water_spec w o r : state w <> kConnecting ->
  exists l, queue_high_water w o r = set_pending w (pendingFunctors_ w ++ l) /\ Forall (pend_ok (state w)) l.
Proof.
  intros Hs. unfold queue_high_water, queueInLoop.
  repeat case_match; try (eexists; split; [done|]; by repeat constructor);
    exists []; rewrite app_nil_r; (split; [by destruct w | constructor]).
Qed.

(** The direct write of [sendInLoop]. *)
Lemma try_write_spec w d n r fe w' : core w -> is_open (state w) -> zlen d <= max_size ->
  try_write w d = (n, r, fe, w') ->
  0 <= n <= zlen d /\ r = zlen d - n /\ (fe = true -> n = 0) /\ (n <> 0 -> view (out w) = []) /\
  wire w' = wire w ++ ztake n d /\ (shutw w <> None -> n = 0) /\
  conn w' = conn w /\ shutw w' = shutw w /\ accepted w' = accepted w /\ trace w' = trace w /\
  inLoop w' = inLoop w /\ Forall (pend_ok (state w)) (pendingFunctors_ w').
Proof.
  intros Hc Ho Hmax. unfold try_write. zlen_pos.
  rewrite (interest_ok_writing _ _ _ (chan w) eq_refl Ho (c_events _ Hc)), readable_empty by apply Hc.
  pose proof (c_pend _ Hc) as Hp.
  case_bool_decide as Hv; cbn [negb andb].
  2: { intros; simplify_eq. rewrite ztake_0, app_nil_r, Z.sub_0_r. split_and!; try done; lia. }
  destruct (sock_write w d) as [[m e] w1] eqn:Hsw.
  apply sock_write_spec in Hsw as (Hcn & Hpn & Hsh & Hac & Htr & Hil & [[-> Hw]|(Hn & Hm & Hw)]).
  - cbn. intros; simplify_eq. rewrite ztake_0, app_nil_r, Z.sub_0_r, Hpn. split_and!; try done; lia.
  - rewrite (proj2 (Z.leb_le 0 m)) by lia. rewrite size_t_id by (unfold max_size in *; lia).
    intros; simplify_eq.
    assert (Hst : state w1 = state w) by (unfold state; by rewrite Hcn).
    destruct (Z.eqb_spec (zlen d - n) 0).
    + destruct (queue_write_complete_spec w1) as (l & -> & Hl);
        [rewrite Hst; destruct Ho as [->| ->]; done|]. rewrite Hst in Hl.
      cbn. split_and!; try done; try lia; try congruence. rewrite Hpn. by apply Forall_app.
    + rewrite Hpn. split_and!; try done; try lia; congruence.
Qed.

Lemma interest_ok_write s ev l : is_open s -> interest_ok s ev l -> forall l' : bytes, l' <> [] ->
  interest_ok s (Z.lor ev kWriteEvent) l'.
Proof.
  intros Hs (r & wr & -> & _) l' Hl. exists r, true. rewrite interest_enableWriting. split; [done|].
  destruct Hs as [->| ->]; by split.
Qed.

(** What the direct write did: [n] bytes of [d] went out. *)
Record wrote w (d : bytes) (n : Z) w1 : Prop := {
  wr_n : 0 <= n <= zlen d;
  wr_empty : n <> 0 -> view (out w) = [];
  wr_wire : wire w1 = wire w ++ ztake n d;
  wr_closed : shutw w <> None -> n = 0;
  wr_conn : conn w1 = conn w;
  wr_shutw : shutw w1 = shutw w;
  wr_accepted : accepted w1 = accepted w;
  wr_trace : trace w1 = trace w;
  wr_loop : inLoop w1 = inLoop w;
  wr_pend : Forall (pend_ok (state w)) (pendingFunctors_ w1);
}.

Lemma wrote_calls w d n w1 a : wrote w d n w1 -> calls w (set_accepted w1 a).
Proof. intros []. split; unfold state, chan; cbn; rewrite ?wr_conn0; try done. by left. Qed.

(** The record of a shutdown stays right: nothing went out after it. *)
Lemma wrote_shut w d n w1 st wi ac : core w -> wrote w d n w1 -> shutw w = Some (st, wi, ac) ->
  wire w1 = wi /\ (st <> kDisconnected -> wi = ac).
Proof.
  intros Hc [] E. destruct (c_shut _ Hc st wi ac E) as [Hwi Hac]. split; [|done].
  rewrite wr_wire0, wr_closed0, ztake_0, app_nil_r by congruence. done.
Qed.

(** Everything went out. *)
Lemma wrote_all_core w d w1 : core w -> wrote w d (zlen d) w1 -> core (set_accepted w1 (accepted w1 ++ d)).
Proof.
  intros Hc Hwr. pose proof (fun st wi ac => wrote_shut w d (zlen d) w1 st wi ac Hc Hwr) as Hshut.
  destruct Hc as [Hin Hout Hst Hev _ _], Hwr. rewrite ztake_all in wr_wire0 by lia.
  split; unfold state, chan, out in *; cbn; rewrite ?wr_conn0, ?wr_accepted0, ?wr_shutw0; try done. rewrite wr_wire0.
  rewrite <- Hst. destruct (decide (zlen d = 0)) as [->%zlen_0_nil|Hne]; [by rewrite !app_nil_r | by rewrite (wr_empty0 Hne), !app_nil_r].
Qed.

(** The rest of [d] in buffer [b] continues the stream. *)
Lemma wrote_rest w d n w1 b : core w -> wrote w d n w1 -> view b = view (out w) ++ zdrop n d -> 0 < zlen d - n ->
  wire w1 ++ view b = accepted w1 ++ d /\ view b <> [].
Proof.
  intros Hc [] Hvb Hr. rewrite wr_wire0, wr_accepted0, Hvb, <- (c_stream _ Hc). split.
  - destruct (decide (n = 0)) as [->|Hn0]; [by rewrite ztake_0, app_nil_r, zdrop_0, app_assoc|].
    rewrite (wr_empty0 Hn0), app_nil_l, app_nil_r, <- app_assoc. by rewrite ztake_zdrop.
  - intros [_ E]%app_nil. apply (f_equal zlen) in E. revert E. rewrite zlen_drop, zlen_nil by lia. lia.
Qed.

(** ... and is put there. *)
Lemma buffer_rest_sat w d n w1 : core w -> is_open (state w) -> zlen d <= max_size -> wrote w d n w1 -> 0 < zlen d - n ->
  sat (fun w' => core w' /\ calls w w')
    (let w := set_accepted w1 (accepted w1 ++ d) in
     let w := queue_high_water w (readableBytes (out w)) (zlen d - n) in
     b ← append (out w) (Ptr d n) (zlen d - n);
     let w := set_output w b in
     if negb (isWriting (chan w)) then on_channel (enableWriting updateChannel) w else Ok w).
Proof.
  intros Hc Ho Hmax Hwr Hr. pose proof (fun st wi ac => wrote_shut w d n w1 st wi ac Hc Hwr) as Hshut.
  pose proof (fun b => wrote_rest w d n w1 b Hc Hwr) as Hrest. cbv zeta. set (w2 := set_accepted w1 (accepted w1 ++ d)).
  destruct Hc as [Hin Hout Hst Hev _ _], Hwr as [Hn Hemp Hw _ Hcn Hsh Hac Htr Hil Hp].
  destruct (queue_high_water_spec w2 (readableBytes (out w2)) (zlen d - n)) as (l & -> & Hl).
  { unfold w2, state in *. cbn. rewrite Hcn. destruct Ho as [->| ->]; done. }
  assert (Hrd : ptr_read (Ptr d n) (zlen d - n) = Ok (zdrop n d)).
  { rewrite ptr_read_ok by lia. rewrite ztake_all by zlen_lia. done. }
  apply sat_bind. change (out (set_pending _ _)) with (out w2).
  assert (Ho1 : outputBuffer_ (conn w1) = out w) by (unfold out; by rewrite Hcn).
  eapply sat_mono, append_sat; [| cbn; unfold out; cbn; rewrite Ho1; exact Hout | exact Hrd | lia].
  intros b [Hwb Hvb]. cbn in Hvb. unfold out in Hvb. cbn in Hvb. rewrite Ho1 in Hvb. destruct (Hrest b Hvb Hr) as [Hbuf Hvne].
  cbn in Hl. unfold state in Hl. cbn in Hl. rewrite Hcn in Hl.
  assert (Hpl : Forall (pend_ok (state_ (conn w))) (pendingFunctors_ w1 ++ l)) by by apply Forall_app.
  subst w2. unfold state, chan, out in *. cbn. rewrite Hcn.
  pose proof (interest_ok_writing _ _ _ (channel_ (conn w)) eq_refl Ho Hev) as HisW. rewrite HisW. rewrite <- Hsh in Hshut.
  case_bool_decide as Hv; cbn [negb]; split; split; cbn; unfold state, chan, out; cbn; rewrite ?Hcn; try done; try by left.
  - by eapply interest_ok_write.
  - destruct Hev as (r0 & wr & Hev & Hm). exists r0, wr. split; [done|]. destruct Ho as [Ho|Ho]; rewrite Ho in *; naive_solver.
Qed.

Lemma sendInLoop_sat w d : core w -> inLoop w = true -> zlen d <= max_size -> state w <> kConnecting ->
  sat (fun w' => core w' /\ calls w w') (sendInLoop d w).
Proof.
  intros Hc Hil Hmax Hs. unfold sendInLoop, assertInLoopThread, isInLoopThread. rewrite Hil. cbn [check mbind res_bind].
  case_bool_decide as Hd; [split; [done | apply calls_refl]|]. pose proof (is_open_split _ Hs Hd) as Ho.
  destruct (try_write w d) as [[[n r] fe] w1] eqn:Ht.
  pose proof (try_write_spec _ _ _ _ _ _ Hc Ho Hmax Ht) as (Hn & -> & Hfe & Hemp & Hw & Hsh0 & Hcn & Hsh & Hac & Htr & Hil1 & Hp).
  assert (Hwr : wrote w d n w1) by done. apply sat_assert; [apply Z.leb_le; zlen_lia|]. destruct fe; cbn [negb andb].
  { rewrite (Hfe eq_refl), ztake_0, app_nil_r in Hw. split.
    - destruct Hc. split; unfold state, chan, out in *; rewrite ?Hcn, ?Hw, ?Hac, ?Hsh; done.
    - split; unfold state, chan; rewrite ?Hcn; try done. by left. }
  destruct (Z.ltb_spec 0 (zlen d - n)) as [Hr|Hr]; [by apply buffer_rest_sat|].
  assert (n = zlen d) as -> by lia. split; [by eapply wrote_all_core | by eapply wrote_calls].
Qed.

(** ** The other calls *)
Ltac unw := unfold state, chan, out in *; cbn in *.

Lemma core_disconnecting w : core w -> is_open (state w) -> core (setState w kDisconnecting).
Proof.
  intros [Hin Hout Hst Hev Hsh Hp] Ho. split; unw; try done.
  - destruct Hev as (r & wr & ? & Hm). exists r, wr. split; [done|]. by destruct Ho as [E|E]; rewrite E in Hm.
  - eapply Forall_impl; [exact Hp|]. intros f Hf.
    destruct Ho as [E|E]; rewrite E in Hf; destruct f; cbn in *; naive_solver.
Qed.

Lemma core_queue w f : core w -> pend_ok (state w) f -> core (queueInLoop w f).
Proof. intros [] Hf. split; unw; try done. apply Forall_app; split; [done | by repeat constructor]. Qed.

Lemma calls_disconnecting w : is_open (state w) -> calls w (setState w kDisconnecting).
Proof. intros Ho. split; unw; try done. destruct Ho as [->| ->]; [by right | by left]. Qed.

Lemma shutdownInLoop_sat w : core w -> inLoop w = true ->
  sat (fun w' => core w' /\ calls w w') (shutdownInLoop w).
Proof.
  intros Hc Hil. unfold shutdownInLoop, assertInLoopThread, isInLoopThread. rewrite Hil. cbn [check mbind res_bind sat].
  destruct (isWriting (chan w)) eqn:HW; cbn [negb]; [split; [done | apply calls_refl]|].
  pose proof Hc as [Hin Hout Hst Hev Hsh Hp]. split; [|split; unw; try done; by left].
  split; unw; try done. intros st wi ac. destruct (shutw w) as [[[? ?] ?]|] eqn:E; [apply Hsh|].
  intros; simplify_eq. split; [done|]. intros Hne. rewrite <- Hst.
  destruct (decide (state_ (conn w) = kConnecting)) as [Ek|Ek].
  - rewrite Ek in Hev. destruct Hev as (? & ? & _ & _ & _ & ->). by rewrite app_nil_r.
  - pose proof (interest_ok_writing _ _ _ (channel_ (conn w)) eq_refl (is_open_split _ Ek Hne) Hev) as Hx.
    rewrite HW in Hx. case_bool_decide as Hv; [|done]. by rewrite Hv, app_nil_r.
Qed.

Lemma shutdown_sat w : core w -> sat (fun w' => core w' /\ calls w w') (shutdown w).
Proof.
  intros Hc. unfold shutdown. case_bool_decide as Hs; [|split; [done | apply calls_refl]].
  assert (Ho : is_open (state w)) by by left.
  pose proof (core_disconnecting w Hc Ho) as Hc'. pose proof (calls_disconnecting w Ho) as Hr.
  unfold runInLoop, isInLoopThread. destruct (inLoop (setState w kDisconnecting)) eqn:E.
  - eapply sat_mono; [|by apply shutdownInLoop_sat]. intros w' [? ?]. split; [done|]. by eapply calls_trans.
  - split; [by apply core_queue|]. eapply calls_trans; [exact Hr|]. split; unw; try done. by left.
Qed.

Lemma closable_open w : closable w = true <-> is_open (state w).
Proof. unfold closable, is_open. rewrite orb_true_iff, !bool_decide_eq_true. done. Qed.

Lemma forceClose_sat w : core w -> sat (fun w' => core w' /\ calls w w') (forceClose w).
Proof.
  intros Hc. unfold forceClose. destruct (closable w) eqn:E; [|split; [done | apply calls_refl]].
  apply closable_open in E. cbn [sat]. split.
  - apply core_queue; [by apply core_disconnecting | done].
  - eapply calls_trans; [by apply calls_disconnecting|]. split; unw; try done. by left.
Qed.

Lemma forceCloseWithDelay_sat w : core w -> sat (fun w' => core w' /\ calls w w') (forceCloseWithDelay w).
Proof.
  intros Hc. unfold forceCloseWithDelay. destruct (closable w) eqn:E; [|split; [done | apply calls_refl]].
  apply closable_open in E. cbn [sat]. pose proof (core_disconnecting w Hc E) as []. split; [by split; unw|].
  eapply calls_trans; [by apply calls_disconnecting|]. split; unw; try done. by left.
Qed.

(** Changing the read interest of an open connection. *)
Lemma core_interest w ev b : core w -> is_open (state w) ->
  (forall r wr, events_ (chan w) = interest r wr -> exists r', ev = interest r' wr) ->
  core (set_reading (set_channel w (set_added (set_events (chan w) ev) true)) b) /\
  calls w (set_reading (set_channel w (set_added (set_events (chan w) ev) true)) b).
Proof.
  intros [Hin Hout Hst Hev Hsh Hp] Ho Hi. split; split; unw; try done; [|by left].
  destruct Hev as (r & wr & E & Hm). destruct (Hi r wr E) as (r' & ->). exists r', wr. split; [done|].
  by destruct Ho as [Ho|Ho]; rewrite Ho in *.
Qed.

Lemma startReadInLoop_sat w : core w -> inLoop w = true -> is_open (state w) ->
  sat (fun w' => core w' /\ calls w w') (startReadInLoop w).
Proof.
  intros Hc Hil Ho. unfold startReadInLoop, assertInLoopThread, isInLoopThread. rewrite Hil. cbn [check mbind res_bind].
  destruct (_ || _)%bool; [|split; [done | apply calls_refl]].
  apply (core_interest w _ true Hc Ho). intros r wr ->. exists true. by rewrite interest_enableReading.
Qed.

Lemma stopReadInLoop_sat w : core w -> inLoop w = true -> is_open (state w) ->
  sat (fun w' => core w' /\ calls w w') (stopReadInLoop w).
Proof.
  intros Hc Hil Ho. unfold stopReadInLoop, assertInLoopThread, isInLoopThread. rewrite Hil. cbn [check mbind res_bind].
  destruct (_ || _)%bool; [|split; [done | apply calls_refl]].
  apply (core_interest w _ false Hc Ho). intros r wr ->. exists false. by rewrite interest_disableReading.
Qed.

(** ** User code *)

(** A call is admissible in state [s]: data that fits in memory, and the read
    interest of a connection that is down is left alone. *)
Definition api_ok (s : StateE) (a : api K) : Prop :=
  match a with
  | ASend d => zlen d <= max_size
  | AStartRead | AStopRead => s <> kDisconnected
  | _ => True
  end.

Lemma retrieve_min_sat b n : wf b -> 0 <= n ->
  sat (fun b' => wf b') (retrieve b (Z.min n (readableBytes b))).
Proof.
  intros Hwf Hn. rewrite retrieve_eq. change (readableBytes b) with (ReadableBytes b).
  rewrite readable_view by done. destruct (Retrieve_spec b (n `min` zlen (view b))) as (b' & -> & ? & _);
    [done | zlen_lia | done].
Qed.

Lemma send_sat w d : core w -> zlen d <= max_size -> state w <> kConnecting \/ state w <> kConnected ->
  sat (fun w' => core w' /\ calls w w') (send d w).
Proof.
  intros Hc Hd Hs. unfold send. case_bool_decide as Hk; [|split; [done | apply calls_refl]].
  assert (state w <> kConnecting) by congruence. unfold runInLoop, isInLoopThread.
  destruct (inLoop w) eqn:E; [by apply sendInLoop_sat|]. split.
  - by apply core_queue.
  - split; unw; try done. by left.
Qed.

Lemma exec_api_sat w a : core w -> inLoop w = true -> state w <> kConnecting -> api_ok (state w) a ->
  sat (fun w' => core w' /\ calls w w') (exec_api w a).
Proof.
  intros Hc Hil Hs Ha. pose proof Hc as [Hin Hout Hst Hev Hsh Hp].
  destruct a; cbn [exec_api api_ok] in *;
    try (by apply send_sat; auto); try (by apply shutdown_sat); try (by apply forceClose_sat);
    try (by apply forceCloseWithDelay_sat).
  - unfold startRead, runInLoop, isInLoopThread. rewrite Hil. apply startReadInLoop_sat; auto using is_open_split.
  - unfold stopRead, runInLoop, isInLoopThread. rewrite Hil. apply stopReadInLoop_sat; auto using is_open_split.
  - apply sat_bind. eapply sat_mono; [|apply retrieve_min_sat; [done | lia]].
    intros b Hb. split; split; unw; try done. by left.
  - split; split; unw; eauto; by left.
  - split; split; unw; eauto; by left.
  - split; split; unw; eauto; by left.
  - split; split; unw; eauto; by left.
Qed.

Lemma api_ok_mono s s' a : state_rel s s' -> api_ok s a -> api_ok s' a.
Proof. intros [->|[-> ->]]; [done|]. by destruct a. Qed.

Lemma exec_apis_sat w l : core w -> inLoop w = true -> state w <> kConnecting -> Forall (api_ok (state w)) l ->
  sat (fun w' => core w' /\ calls w w') (exec_apis w l).
Proof.
  revert w. induction l as [|a l IH]; intros w Hc Hil Hs Hl; cbn [exec_apis]; [split; [done | apply calls_refl]|].
  apply Forall_cons in Hl as [Ha Hl]. apply sat_bind.
  eapply sat_mono; [|by apply exec_api_sat]. intros w1 [Hc1 Hr1].
  eapply sat_mono; [|apply IH; try done].
  - intros w2 [? ?]. split; [done|]. by eapply calls_trans.
  - by rewrite (r_loop _ _ Hr1).
  - destruct (r_state _ _ Hr1) as [->|[_ ->]]; done.
  - eapply Forall_impl; [exact Hl|]. intros. by eapply api_ok_mono, H; apply Hr1.
Qed.
End safety.
