(* ===== verification/TcpProps.v ===== *)
(** * [TcpConnection]: handlers, steps and properties *)
From S2P Require Import Prelude Endian StringPiece Buffer MuduoBuffer Channel TcpConnection TcpSafety.

Section handlers.
Context {K : Type} (user : K -> world K -> list (api K)).
Implicit Type w : world K.

(** User code calls admissible operations only. *)
Definition user_ok : Prop := forall k w, Forall (api_ok (state w)) (user k w).
Context (Huser : user_ok).

(** The owner has set the callbacks every connection needs. *)
Definition cbs_ok (c : callbacks K) : Prop :=
  is_Some (connectionCallback_ c) /\ is_Some (messageCallback_ c) /\ is_Some (closeCallback_ c).

(** The protocol of callbacks: up, then messages and notifications, then down
    and close, then only notifications that were already queued. *)
Definition notification (e : event) : bool :=
  match e with EvWriteComplete | EvHighWaterMark _ => true | _ => false end.
Definition inner (e : event) : bool := match e with EvMessage => true | _ => notification e end.

Definition trace_ok (s : StateE) (tr : list event) : Prop :=
  match s with
  | kConnecting => tr = []
  | kConnected | kDisconnecting => exists l, tr = EvUp :: l /\ forallb inner l = true
  | kDisconnected => exists l l', tr = EvUp :: l ++ EvDown :: EvClose :: l' /\
      forallb inner l = true /\ forallb notification l' = true
  end.

Lemma trace_ok_rel s s' tr : state_rel s s' -> trace_ok s tr -> trace_ok s' tr.
Proof. by intros [->|[-> ->]]. Qed.

Lemma trace_ok_notify s tr e : s <> kConnecting -> notification e = true -> trace_ok s tr -> trace_ok s (tr ++ [e]).
Proof.
  intros Hs He. destruct s; cbn; try done.
  - intros (l & l' & -> & ? & Hl'). exists l, (l' ++ [e]). rewrite forallb_app, Hl'. cbn. rewrite He.
    split_and!; try done. by rewrite <- app_assoc.
  - intros (l & -> & Hl). exists (l ++ [e]). rewrite forallb_app, Hl. cbn.
    assert (inner e = true) as -> by by destruct e. done.
  - intros (l & -> & Hl). exists (l ++ [e]). rewrite forallb_app, Hl. cbn.
    assert (inner e = true) as -> by by destruct e. done.
Qed.

(** The invariant between the callbacks of one dispatch. *)
Record mid w : Prop := {
  m_core : core w;
  m_loop : inLoop w = true;
  m_cbs : cbs_ok (cbs (conn w));
  m_trace : trace_ok (state w) (trace w);
  m_state : state w <> kConnecting;
}.

Lemma mid_calls w w' : mid w -> core w' -> calls w w' -> mid w'.
Proof.
  intros [Hc Hl (H1 & H2 & H3) Ht Hs] Hc' Hr. split; [done | by rewrite (r_loop _ _ Hr) | | |].
  - split_and!; [by apply (r_conn _ _ Hr) | by apply (r_msg _ _ Hr) | by rewrite (r_close _ _ Hr)].
  - rewrite (r_trace _ _ Hr). eapply trace_ok_rel, Ht. apply Hr.
  - destruct (r_state _ _ Hr) as [->|[_ ->]]; done.
Qed.

(** Running a callback: the event is logged, then the user's calls. *)
Lemma call_sat w k e : core w -> inLoop w = true -> state w <> kConnecting -> is_Some k ->
  sat (fun w' => core w' /\ calls (log w e) w') (call user k e w).
Proof.
  intros Hc Hl Hs [k' ->]. cbn [call]. destruct Hc. apply exec_apis_sat; [by split | done | done | apply Huser].
Qed.

Lemma notify_sat w k e : mid w -> notification e = true ->
  sat mid (call user (Some k) e w).
Proof.
  intros Hm He. pose proof Hm as [Hc Hl Hcb Ht Hs]. eapply sat_mono; [|by apply call_sat].
  intros w' [Hc' Hr]. eapply (mid_calls (log w e)); [|done|done]. split; try done; [by destruct Hc|].
  by apply trace_ok_notify.
Qed.

(** ** Closing *)
Lemma core_closed w : core w -> is_open (state w) ->
  core (set_channel (setState w kDisconnected) (set_added (set_events (chan w) kNoneEvent) true)).
Proof.
  intros [Hin Hout Hst Hev Hsh Hp] Ho. split; unfold state, chan, out in *; cbn in *; try done.
  - by exists false, false.
  - eapply Forall_impl; [exact Hp|]. intros f Hf. destruct Ho as [E|E]; rewrite E in Hf; destruct f; cbn in *; naive_solver.
Qed.

Lemma handleClose_sat w : mid w -> is_open (state w) ->
  sat (fun w' => mid w' /\ state w' = kDisconnected /\ revents_ (chan w') = revents_ (chan w)) (handleClose user w).
Proof.
  intros [Hc Hl (Hcb1 & Hcb2 & [cb Hcb3]) Ht Hs] Ho.
  unfold handleClose, assertInLoopThread, isInLoopThread. rewrite Hl. cbn [check mbind res_bind].
  apply sat_assert; [by apply closable_open|]. apply sat_bind. cbn [disableAll update updateChannel on_channel mbind res_bind sat].
  set (w1 := set_channel _ _). assert (Hc1 : core w1) by exact (core_closed w Hc Ho).
  assert (Htr : exists l, trace w = EvUp :: l /\ forallb inner l = true)
    by (destruct Ho as [E|E]; rewrite E in Ht; exact Ht).
  apply sat_bind. eapply sat_mono; [|by apply (call_sat w1 _ EvDown)].
  intros w2 [Hc2 Hr2]. rewrite (r_close _ _ Hr2). change (closeCallback_ (cbs (conn (log w1 EvDown)))) with (closeCallback_ (cbs (conn w))).
  rewrite Hcb3.
  assert (Hs2 : state w2 = kDisconnected) by (destruct (r_state _ _ Hr2) as [H|[H _]]; exact H || discriminate H).
  assert (Ht2 : exists l, trace w2 = EvUp :: l ++ [EvDown] /\ forallb inner l = true).
  { destruct Htr as (l & Hl1 & Hl2). exists l. rewrite (r_trace _ _ Hr2). cbn. by rewrite Hl1. }
  assert (Hl2 : inLoop w2 = true) by (rewrite (r_loop _ _ Hr2); exact Hl).
  assert (Hcb : cbs_ok (cbs (conn w2))).
  { split_and!; [by apply (r_conn _ _ Hr2) | by apply (r_msg _ _ Hr2) | rewrite (r_close _ _ Hr2); exists cb; exact Hcb3]. }
  assert (Hrev : revents_ (chan w2) = revents_ (chan w)) by exact (r_revents _ _ Hr2).
  assert (Htc : trace_ok kDisconnected (trace w2 ++ [EvClose])).
  { destruct Ht2 as (l & -> & Hl'). exists l, []. split_and!; try done. cbn. by rewrite <- app_assoc. }
  destruct cb as [|k].
  - cbn [sat]. split; [|done]. split; try done; [|by unfold state in *; cbn; rewrite Hs2 | by unfold state in *; cbn; rewrite Hs2].
    apply core_queue; [by destruct Hc2|]. exact Hs2.
  - eapply sat_mono; [|apply (call_sat w2 (Some k) EvClose); try done; by rewrite Hs2].
    intros w3 [Hc3 Hr3].
    assert (Hm : mid (log w2 EvClose)) by (split; try done; [by destruct Hc2 | by unfold state in *; cbn; rewrite Hs2 | unfold state in *; cbn; by rewrite Hs2]).
    split; [by eapply mid_calls|]. split; [|by rewrite (r_revents _ _ Hr3)].
    destruct (r_state _ _ Hr3) as [->|[E _]]; [exact Hs2|]. unfold state in *; cbn in E. congruence.
Qed.

(** ** Reading and writing *)
Lemma core_input w b : core w -> wf b -> core (set_input w b).
Proof. intros [] Hb. by split. Qed.

Lemma trace_ok_message s tr : is_open s -> trace_ok s tr -> trace_ok s (tr ++ [EvMessage]).
Proof.
  intros [->| ->] (l & -> & Hl); exists (l ++ [EvMessage]); rewrite forallb_app, Hl; done.
Qed.

Lemma zlen_ztake_le {A} n (l : list A) : 0 <= n -> zlen (ztake n l) <= n.
Proof. intros. unfold zlen, ztake. rewrite length_take. lia. Qed.

Lemma readv_capacity_bounds b : wf b -> 0 <= readv_capacity b <= max_size.
Proof.
  intros Hwf. unfold readv_capacity, sizeof_extrabuf. change (writableBytes b) with (WritableBytes b).
  rewrite writable_wf by done. open_wf. destruct (Z.ltb_spec (zlen (buffer_ b) - writerIndex_ b) 65536); lia.
Qed.

Lemma handleRead_sat w rd : mid w -> is_open (state w) ->
  sat (fun w' => mid w' /\ revents_ (chan w') = revents_ (chan w)) (handleRead user rd w).
Proof.
  intros Hm Ho. pose proof Hm as [Hc Hl (Hcb1 & Hcb2 & Hcb3) Ht Hs].
  unfold handleRead, assertInLoopThread, isInLoopThread. rewrite Hl. cbn [check mbind res_bind].
  pose proof (c_in _ Hc) as Hin. destruct rd as [e|d].
  { cbn. split; [|done]. split; try done. by apply core_input. }
  pose proof (readv_capacity_bounds _ Hin) as Hcap.
  set (cap := readv_capacity (inputBuffer_ (conn w))) in *.
  pose proof (zlen_ztake_le cap d ltac:(lia)) as Hz.
  apply sat_bind. eapply sat_mono; [|by apply readFd_sat; [| |lia]].
  intros [[b n] se] (Hb & Hv & Hn & _).
  assert (Hm1 : mid (set_input w b)) by (split; try done; by apply core_input).
  destruct (Z.ltb_spec 0 n).
  - eapply sat_mono; [|apply call_sat; try done; by apply Hm1]. intros w' [Hc' Hr].
    split; [|by rewrite (r_revents _ _ Hr)]. eapply mid_calls; [|done|done].
    split; try done; [by destruct (m_core _ Hm1) | by apply trace_ok_message].
  - destruct (Z.eqb_spec n 0); [|by split].
    eapply sat_mono; [|by apply handleClose_sat]. intros w' (? & _ & ?). done.
Qed.

(** A channel that is written to belongs to an open connection. *)
Lemma writing_open w : core w -> isWriting (chan w) = true ->
  is_open (state w) /\ exists r, events_ (chan w) = interest r true /\ view (out w) <> [].
Proof.
  intros Hc HW. destruct (c_events _ Hc) as (r & wr & Ev & Hm). rewrite (interest_isWriting _ _ _ Ev) in HW. subst wr. split.
  - destruct (state w) eqn:E; [|naive_solver| by left | by right]. naive_solver.
  - exists r. split; [done|]. destruct (state w); naive_solver.
Qed.

(** Nothing is left to write. *)
Lemma drained_sat w w1 : core w1 -> calls w w1 -> is_open (state w1) -> inLoop w1 = true ->
  sat (fun w' => core w' /\ calls w w')
    (let w := queue_write_complete w1 in if bool_decide (state w = kDisconnecting) then shutdownInLoop w else Ok w).
Proof.
  intros Hc Hcall Ho Hl. cbv zeta. destruct (queue_write_complete_spec w1) as (l & -> & Hlp); [destruct Ho as [->| ->]; done|].
  set (w3 := set_pending _ _). assert (Hc3 : core w3) by (destruct Hc; split; try done; by apply Forall_app).
  assert (Hcall3 : calls w w3) by (eapply calls_trans; [exact Hcall|]; split; try done; by left).
  case_bool_decide; [|by split]. eapply sat_mono; [|by apply shutdownInLoop_sat].
  intros w4 [? ?]. split; [done | by eapply calls_trans].
Qed.

(** [n] bytes of the output went out and left the buffer. *)
Lemma retrieved_sat w w1 b n : core w -> is_open (state w) -> inLoop w = true ->
  (exists r, events_ (chan w) = interest r true) -> conn w1 = conn w -> pendingFunctors_ w1 = pendingFunctors_ w ->
  calls w w1 -> shutw w1 = None -> wire w1 = wire w ++ ztake n (view (out w)) -> accepted w1 = accepted w ->
  wf b -> view b = zdrop n (view (out w)) ->
  sat (fun w' => core w' /\ calls w w')
    (let w := set_output w1 b in
     if readableBytes (out w) =? 0 then
       w ← on_channel (disableWriting updateChannel) w;
       let w := queue_write_complete w in
       if bool_decide (state w = kDisconnecting) then shutdownInLoop w else Ok w
     else Ok w).
Proof.
  intros [Hin Hout Hst Hev Hsh Hp] Ho Hl (r & Ev) Hcn Hpn Hcalls Hnone Hw1 Hac Hb Hvb. cbv zeta.
  change (out (set_output w1 b)) with b. rewrite readable_empty by done.
  assert (Hstream : wire w1 ++ view b = accepted w1) by (by rewrite Hw1, Hvb, Hac, <- app_assoc, ztake_zdrop).
  assert (Hpw : Forall (pend_ok (state w1)) (pendingFunctors_ w1)) by (unfold state; rewrite Hcn, Hpn; exact Hp).
  assert (Hcw : calls w (set_output w1 b)) by (eapply calls_trans; [exact Hcalls|]; split; try done; by left).
  case_bool_decide as Hemp.
  2: { split; [|done]. split; unfold state, chan, out in *; cbn; try done; rewrite ?Hcn, ?Hnone in *; try done.
       exists r, true. split; [done|]. by destruct Ho as [Ho|Ho]; rewrite Ho. }
  apply sat_bind. cbn [disableWriting update updateChannel on_channel mbind res_bind sat]. set (w2 := set_channel _ _).
  assert (Hs2 : state w2 = state w) by (unfold state, w2; cbn; by rewrite Hcn).
  apply drained_sat; [| | by rewrite Hs2 | by rewrite <- Hl, <- (r_loop _ _ Hcalls)].
  - split; unfold w2, state, chan, out in *; cbn; try done; rewrite ?Hcn, ?Hnone in *; try done.
    exists r, false. rewrite Ev, interest_disableWriting. split; [done|]. destruct Ho as [Ho|Ho]; rewrite Ho, Hemp; naive_solver.
  - eapply calls_trans; [exact Hcw|]; split; try done; by left.
Qed.

Lemma handleWrite_sat w : core w -> inLoop w = true -> sat (fun w' => core w' /\ calls w w') (handleWrite w).
Proof.
  intros Hc Hl. unfold handleWrite, assertInLoopThread, isInLoopThread. rewrite Hl. cbn [check mbind res_bind].
  destruct (isWriting (chan w)) eqn:HW; [|split; [done | apply calls_refl]].
  destruct (writing_open w Hc HW) as (Ho & r & Ev & _). pose proof Hc as [Hin Hout Hst Hev Hsh Hp].
  pose proof (vec_read_view (out w) 0 (zlen (view (out w))) Hout) as Hr.
  rewrite Z.add_0_r, zdrop_0, ztake_all in Hr by lia. change (readableBytes (out w)) with (ReadableBytes (out w)).
  rewrite readable_view by done. unfold peek. rewrite Hr by zlen_lia. cbn [mbind res_bind].
  destruct (sock_write w (view (out w))) as [[n e] w1] eqn:Hsw.
  apply sock_write_spec in Hsw as (Hcn & Hpn & Hsh1 & Hac & Htr & Hil & Hcase).
  assert (Hcalls : calls w w1) by (split; unfold state, chan; rewrite ?Hcn; try done; by left).
  destruct (Z.ltb_spec 0 n) as [Hpos|Hneg]; last first.
  { split; [|done]. split; unfold state, chan, out in *; rewrite ?Hcn, ?Hpn, ?Hsh1, ?Hac; try done;
      destruct Hcase as [[_ ->]|(_ & Hn & ->)]; try done; assert (n = 0) as -> by lia;
      by rewrite ztake_0, app_nil_r. }
  destruct Hcase as [[-> _]|(Hnone & Hn & Hw1)]; [lia|].
  assert (Hout1 : out w1 = out w) by (unfold out; by rewrite Hcn). rewrite Hout1.
  rewrite retrieve_eq. destruct (Retrieve_spec (out w) n) as (b & -> & Hb & Hvb & _); [done | lia|].
  cbn [mbind res_bind]. eapply (retrieved_sat w w1 b n); try done; [by exists r | congruence].
Qed.

(** ** Dispatch *)
Lemma mid_chan w c : mid w -> events_ c = events_ (chan w) -> mid (set_channel w c).
Proof.
  intros [[] ? ? ? ?] He. split; try done. split; try done. unfold state, chan, out in *. cbn. by rewrite He.
Qed.

(** The events the poller may report to a connection: a hang-up without
    readable data does not come with urgent data. *)
Definition hup_ok (revents : Z) : bool :=
  negb (has revents POLLHUP && negb (has revents POLLIN) && has revents POLLPRI).

Lemma has_lor x a b : has x (Z.lor a b) = has x a || has x b.
Proof.
  unfold has. rewrite Z.land_lor_distr_r.
  destruct (Z.eqb_spec (Z.land x a) 0) as [Ea|Ea], (Z.eqb_spec (Z.land x b) 0) as [Eb|Eb]; cbn.
  1: rewrite Ea, Eb; done.
  all: rewrite (proj2 (Z.eqb_neq _ _)); [done|]; rewrite Z.lor_eq_0_iff; tauto.
Qed.

Lemma has_outside x m k : Z.land x (Z.lnot m) = 0 -> Z.land m k = 0 -> has x k = false.
Proof.
  intros H1 H2. unfold has. apply negb_false_iff, Z.eqb_eq.
  assert (Hx : Z.land x m = x).
  { rewrite <- (Z.lor_0_r (Z.land x m)), <- H1, <- Z.land_lor_distr_r, Z.lor_lnot_diag, Z.land_m1_r. done. }
  rewrite <- Hx, <- Z.land_assoc, H2. apply Z.land_0_r.
Qed.

Lemma deliverable_open w rev : core w -> deliverable w rev = true ->
  is_open (state w) /\ has rev POLLRDHUP = false.
Proof.
  intros Hc Hd. apply andb_true_iff in Hd as [Hn Hr]. apply negb_true_iff in Hn. apply Z.eqb_eq in Hr.
  destruct (c_events _ Hc) as (r & wr & Ev & Hm). rewrite (interest_isNone _ _ _ Ev) in Hn. split.
  - destruct (state w); [destruct Hm as [-> ->]; done | destruct Hm as (-> & -> & _); done | by left | by right].
  - eapply has_outside; [exact Hr|]. rewrite Ev. by destruct r, wr.
Qed.

Lemma handleWrite_mid w : mid w -> sat mid (handleWrite w).
Proof.
  intros Hm. eapply sat_mono; [|apply handleWrite_sat; apply Hm]. intros w' [? ?]. by eapply mid_calls.
Qed.

Lemma on_event_sat w rev rd : mid w -> deliverable w rev = true -> hup_ok rev = true ->
  sat mid (on_event user rd (set_channel w (set_revents (chan w) rev))).
Proof.
  intros Hm Hd Hh. destruct (deliverable_open w rev (m_core _ Hm) Hd) as [Ho Hrd].
  set (w0 := set_channel w _). assert (Hm0 : mid w0) by by apply mid_chan.
  assert (HG : sat mid (handleEventWithGuard chan set_channel (Some (handleRead user rd)) (Some handleWrite)
    (Some (handleClose user)) (Some handleError) w0)).
  2: { unfold on_event, handleEvent. by destruct (tied_ (chan w0)). }
  unfold handleEventWithGuard. set (w1 := set_channel w0 _).
  assert (Hm1 : mid w1) by by apply mid_chan.
  assert (Hrev1 : revents_ (chan w1) = rev) by done.
  apply sat_bind, (sat_mono (fun w2 => mid w2 /\ revents_ (chan w2) = rev /\
    (is_open (state w2) \/ has rev (Z.lor (Z.lor POLLIN POLLPRI) POLLRDHUP) = false))).
  2: { unfold when, invoke. rewrite Hrev1. destruct (has rev POLLHUP && negb (has rev POLLIN)) eqn:E.
       - eapply sat_mono; [|by apply handleClose_sat]. intros w2 (? & _ & ?). split_and!; [done | by congruence|]. right.
         unfold hup_ok in Hh. rewrite E in Hh. cbn in Hh. apply negb_true_iff in Hh.
         apply andb_true_iff in E as [_ E%negb_true_iff]. by rewrite !has_lor, E, Hh, Hrd.
       - split_and!; [done | done | by left]. }
  intros w2 (Hm2 & Hrev2 & Hcase). rewrite Hrev2.
  apply sat_bind, (sat_mono (fun w3 => w3 = w2)); [|by destruct (has rev (Z.lor POLLERR POLLNVAL))].
  intros w3 ->. rewrite Hrev2. apply sat_bind, (sat_mono (fun w3 => mid w3)).
  - intros w3 Hm3. apply sat_bind, (sat_mono mid).
    + intros w4 Hm4. by apply mid_chan.
    + unfold when. destruct (has (revents_ (chan w3)) POLLOUT); [by apply handleWrite_mid | done].
  - unfold when. destruct (has rev (Z.lor (Z.lor POLLIN POLLPRI) POLLRDHUP)) eqn:E; [|done]. destruct Hcase as [Ho2|Hf]; [|congruence].
    eapply sat_mono; [|by apply handleRead_sat]. by intros w' [? _].
Qed.

(** ** All steps *)
Record good w : Prop := {
  g_core : core w;
  g_loop : inLoop w = true;
  g_cbs : cbs_ok (cbs (conn w));
  g_trace : trace_ok (state w) (trace w);
  g_boot : state w = kConnecting -> pendingFunctors_ w = [FConnectEstablished];
}.

Lemma mid_good w : mid w -> good w.
Proof. intros [? ? ? ? Hs]. split; try done. Qed.

Lemma good_mid w : good w -> state w <> kConnecting -> mid w.
Proof. intros []. by split. Qed.

Lemma connectEstablished_sat w : core w -> inLoop w = true -> cbs_ok (cbs (conn w)) -> trace w = [] ->
  state w = kConnecting -> pendingFunctors_ w = [] ->
  sat (fun w' => mid w' /\ is_open (state w')) (connectEstablished user w).
Proof.
  intros Hc Hl Hcb Ht Hs Hp. unfold connectEstablished, assertInLoopThread, isInLoopThread. rewrite Hl.
  cbn [check mbind res_bind]. apply sat_assert; [by apply bool_decide_eq_true|].
  apply sat_bind. cbn [enableReading update updateChannel on_channel mbind res_bind sat].
  set (w1 := set_channel _ _). pose proof Hc as [Hin Hout Hst Hev Hsh _].
  assert (Hc1 : core w1).
  { split; unfold w1, state, chan, out in *; cbn; try done; [|by rewrite Hp].
    rewrite Hs in Hev. destruct Hev as (r & wr & -> & -> & -> & Hv). exists true, false.
    split; [done|]. rewrite Hv. done. }
  eapply sat_mono; [|apply (call_sat w1); try done; apply Hcb].
  intros w2 [Hc2 Hr]. split.
  - eapply (mid_calls (log w1 EvUp)); [|done|done].
    split; try done; [by destruct Hc1|]. cbn. rewrite Ht. by exists [].
  - destruct (r_state _ _ Hr) as [->|[_ ->]]; [by left | by right].
Qed.

Lemma connectDestroyed_sat w : mid w -> state w = kDisconnected -> sat mid (connectDestroyed user w).
Proof.
  intros Hm Hs. unfold connectDestroyed, assertInLoopThread, isInLoopThread. rewrite (m_loop _ Hm).
  cbn [check mbind res_bind]. rewrite bool_decide_eq_false_2 by by rewrite Hs. cbn [mbind res_bind].
  unfold on_channel, remove. destruct (c_events _ (m_core _ Hm)) as (r & wr & Ev & H).
  rewrite Hs in H. destruct H as [-> ->]. rewrite (interest_isNone _ _ _ Ev).
  cbn. by apply mid_chan.
Qed.

Lemma mid_popped w f p : mid w -> pendingFunctors_ w = f :: p -> mid (set_pending w p).
Proof.
  intros [[Hi Ho Hst He Hsh Hp] ? ? ? ?] E. rewrite E in Hp. apply Forall_cons in Hp as [_ Hp].
  by split; [split|..].
Qed.

Lemma run_functor_sat w f p : good w -> pendingFunctors_ w = f :: p ->
  sat mid (run_functor user f (set_pending w p)).
Proof.
  intros Hg E. pose proof (c_pend _ (g_core _ Hg)) as Hp. rewrite E in Hp. apply Forall_cons in Hp as [Hf Hp].
  destruct (decide (state w = kConnecting)) as [Hs|Hs].
  { rewrite (g_boot _ Hg Hs) in E. simplify_eq. pose proof Hg as [[] ? ? Ht _]. cbn [run_functor].
    eapply sat_mono; [|apply connectEstablished_sat; [by split | done | done | by rewrite Hs in Ht | done | done]].
    by intros w' [? _]. }
  assert (Hm : mid (set_pending w p)) by (eapply mid_popped; [by apply good_mid | done]).
  assert (Hto : forall m, sat (fun w' => core w' /\ calls (set_pending w p) w') m -> sat mid m).
  { intros m. apply sat_mono. intros w' [? ?]. by eapply mid_calls. }
  destruct f; cbn [run_functor pend_ok] in *; try done.
  - by apply connectDestroyed_sat.
  - apply Hto. apply sendInLoop_sat; try apply Hm. apply Hf.
  - apply Hto, shutdownInLoop_sat; apply Hm.
  - unfold forceCloseInLoop, assertInLoopThread, isInLoopThread. rewrite (m_loop _ Hm). cbn [check mbind res_bind].
    destruct (closable (set_pending w p)) eqn:Ec; [|done]. apply closable_open in Ec.
    eapply sat_mono; [|by apply handleClose_sat]. by intros w' [? _].
  - by apply notify_sat.
  - by apply notify_sat.
Qed.

(** What other threads may call: sends and closes. *)
Definition foreign_ok (a : api K) : Prop :=
  match a with
  | ASend d => zlen d <= max_size
  | AShutdown | AForceClose | AForceCloseWithDelay => True
  | _ => False
  end.

Definition label_ok (l : label K) : Prop :=
  match l with
  | LPoll revents _ => hup_ok revents = true
  | LForeign a => foreign_ok a
  | _ => True
  end.

Lemma core_inLoop w b : core w -> core (set_inLoop w b).
Proof. intros []. by split. Qed.

Lemma good_calls w w' : good w -> core w' -> calls w w' ->
  (state w = kConnecting -> pendingFunctors_ w' = pendingFunctors_ w) -> good w'.
Proof.
  intros Hg Hc Hr Hp. destruct (decide (state w = kConnecting)) as [Hs|Hs].
  - pose proof Hg as [_ Hl (H1 & H2 & H3) Ht Hb]. split; [done | by rewrite (r_loop _ _ Hr) | | |].
    + split_and!; [by apply (r_conn _ _ Hr) | by apply (r_msg _ _ Hr) | by rewrite (r_close _ _ Hr)].
    + rewrite (r_trace _ _ Hr). eapply trace_ok_rel, Ht. apply Hr.
    + intros _. rewrite Hp by done. auto.
  - apply mid_good. eapply mid_calls; [by apply good_mid | done | done].
Qed.

Lemma exec_foreign_sat w a : good w -> foreign_ok a ->
  sat (fun w' => core w' /\ calls (set_inLoop w false) w' /\
    (state w = kConnecting -> pendingFunctors_ w' = pendingFunctors_ w)) (exec_api (set_inLoop w false) a).
Proof.
  intros Hg Ha. pose proof (core_inLoop w false (g_core _ Hg)) as Hc.
  assert (Hcn : state w = kConnecting -> exec_api (set_inLoop w false) a = Ok (set_inLoop w false)).
  { intros Hs. destruct a; cbn [exec_api foreign_ok] in *; try done;
      unfold send, shutdown, forceClose, forceCloseWithDelay, closable, state in *; cbn; by rewrite Hs. }
  destruct (decide (state w = kConnecting)) as [Hs|Hs].
  { rewrite (Hcn Hs). split_and!; [done | apply calls_refl | done]. }
  eapply (sat_mono (fun w' => core w' /\ calls (set_inLoop w false) w')); [intros w' [? ?]; by split_and!|].
  destruct a; cbn [exec_api foreign_ok] in *; try done;
    [apply send_sat; auto | by apply shutdown_sat | by apply forceClose_sat | by apply forceCloseWithDelay_sat].
Qed.

Lemma exec_label_sat w l m : good w -> label_ok l -> exec_label user w l = Some m -> sat good m.
Proof.
  intros Hg Hl. destruct l as [rev rd| | |a]; cbn [exec_label label_ok] in *.
  - destruct (deliverable w rev) eqn:Hd; [|done]. intros [= <-].
    destruct (deliverable_open w rev (g_core _ Hg) Hd) as [Ho _].
    eapply sat_mono; [apply mid_good|]. apply on_event_sat; [|done|done].
    apply good_mid; [done|]. destruct Ho as [->| ->]; done.
  - destruct (pendingFunctors_ w) as [|f p] eqn:E; [done|]. intros [= <-].
    eapply sat_mono; [apply mid_good|]. by apply run_functor_sat.
  - destruct (timers w) as [|n] eqn:E; [done|]. intros [= <-].
    assert (Hg' : good (set_timers w n)) by (destruct Hg as [[] ? ? ? ?]; split; try done; by split).
    assert (Hb : state (set_timers w n) = kConnecting -> forceClose (set_timers w n) = Ok (set_timers w n)).
    { intros Hs. unfold forceClose, closable. by rewrite Hs. }
    destruct (decide (state (set_timers w n) = kConnecting)) as [Hs|Hs]; [by rewrite (Hb Hs)|].
    eapply sat_mono; [|by apply forceClose_sat, Hg']. intros w' [? ?]. by eapply good_calls.
  - intros [= <-]. apply sat_bind. eapply sat_mono; [|by apply exec_foreign_sat].
    intros w' (Hc' & Hr & Hp). cbn. eapply (good_calls w); [done | by apply core_inLoop | | by auto].
    destruct Hr. split; try done. cbn. by rewrite (g_loop _ Hg).
Qed.
End handlers.
