(* ===== verification/TcpTheorems.v ===== *)
(** * [TcpConnection]: theorems *)
From S2P Require Import Prelude Endian StringPiece Buffer MuduoBuffer Channel TcpConnection TcpSafety TcpProps.

Section reachable.
Context {K : Type} (user : K -> world K -> list (api K)).

(** A step that succeeds, with an event of the environment that can happen. *)
Definition tcp_step (w w' : world K) : Prop :=
  exists l, label_ok l /\ exec_label user w l = Some (Ok w').

(** The worlds a new connection reaches: any callbacks the owner installed,
    any answers of the kernel, any order of events, functors, timers and calls
    of other threads. *)
Definition reachable (w : world K) : Prop :=
  exists fd c k ans, TcpConnection_ctor (K := K) fd = Ok c /\ cbs_ok k /\
    rtc tcp_step (new_world c k ans) w.

Lemma new_world_good fd c k ans : TcpConnection_ctor (K := K) fd = Ok c -> cbs_ok k -> good (new_world c k ans).
Proof.
  intros Hctor Hk. unfold TcpConnection_ctor in Hctor. change (muduo_Buffer kInitialSize) with new_Buffer in Hctor.
  destruct new_Buffer_spec as (b & Hb & Hwf & Hv & _). rewrite Hb in Hctor. cbn in Hctor. injection Hctor as <-.
  split; try done. split; unfold state, chan, out; cbn; try done.
  - by exists false, false.
  - by repeat constructor.
Qed.

Lemma reachable_good w : user_ok user -> reachable w -> good w.
Proof.
  intros Hu (fd & c & k & ans & Hc & Hk & Hr). eapply rtc_invariant; [|exact Hr | by eapply new_world_good].
  intros a b Ha (l & Hl & He). exact (exec_label_sat user Hu a l (Ok b) Ha Hl He).
Qed.
End reachable.

Section theorems.
Context {K : Type} (user : K -> world K -> list (api K)).

(** ** Other threads that send

    [send] called by another thread tests [state_] and then queues
    [sendInLoop]; the loop can do anything in between. The second component
    holds the sends that have passed the test. *)
Inductive flabel :=
  | FLoop (l : label K)          (** a step of the loop's thread *)
  | FSendTest (d : bytes)
  | FSendQueue (i : nat).

Definition fexec (s : world K * list bytes) (l : flabel) : option (res (world K * list bytes)) :=
  let '(w, sending) := s in
  match l with
  | FLoop l => r ← exec_label user w l; Some (w ← r; Ok (w, sending))
  | FSendTest d => Some (Ok (w, if connected w then sending ++ [d] else sending))
  | FSendQueue i =>
      d ← sending !! i;
      Some (Ok (queueInLoop w (FSendInLoop d), delete i sending))
  end.

(** The loop's thread is not another thread; what is sent fits in memory. *)
Definition flabel_ok (l : flabel) : Prop :=
  match l with
  | FLoop (LForeign _) => False
  | FLoop l => label_ok l
  | FSendTest d => zlen d <= max_size
  | FSendQueue _ => True
  end.

Definition fstep (s s' : world K * list bytes) : Prop := exists l, flabel_ok l /\ fexec s l = Some (Ok s').
Definition freachable (s : world K * list bytes) : Prop :=
  exists fd c k ans, TcpConnection_ctor (K := K) fd = Ok c /\ cbs_ok k /\ rtc fstep (new_world c k ans, []) s.

(** A send is under way only on a connection that has been up. *)
Record sending_ok (s : world K * list bytes) : Prop := {
  s_good : good s.1;
  s_up : s.2 <> [] -> state s.1 <> kConnecting;
  s_fit : Forall (fun d => zlen d <= max_size) s.2;
}.

(** No step goes back to [kConnecting]. *)
Lemma exec_label_up w l w' : user_ok user -> good w -> state w <> kConnecting -> flabel_ok (FLoop l) ->
  exec_label user w l = Some (Ok w') -> state w' <> kConnecting.
Proof.
  intros Hu Hg Hs Hl He. destruct l as [rev rd| | |a]; cbn [exec_label flabel_ok label_ok] in *; try done.
  - destruct (deliverable w rev) eqn:Hd; [|done]. injection He as He.
    pose proof (on_event_sat user Hu w rev rd (good_mid w Hg Hs) Hd Hl) as H. rewrite He in H. apply H.
  - destruct (pendingFunctors_ w) as [|f p] eqn:E; [done|]. injection He as He.
    pose proof (run_functor_sat user Hu w f p Hg E) as H. rewrite He in H. apply H.
  - destruct (timers w) as [|n]; [done|]. injection He as He. unfold forceClose in He.
    destruct (closable _); injection He as <-; done.
Qed.

Lemma fexec_sat s l m : user_ok user -> sending_ok s -> flabel_ok l -> fexec s l = Some m -> sat sending_ok m.
Proof.
  destruct s as [w sending]. intros Hu [Hg Hs Hf] Hl He. cbn in Hg, Hs, Hf. destruct l as [l|d|i]; cbn [fexec] in He.
  - destruct (exec_label user w l) as [r|] eqn:E; [|done]. cbn in He. injection He as <-.
    assert (Hlo : label_ok l) by (by destruct l). pose proof (exec_label_sat user Hu w l r Hg Hlo E) as H.
    destruct r as [w'|]; [|done]. cbn. split; cbn; [exact H | | done].
    intros Hne. exact (exec_label_up w l w' Hu Hg (Hs Hne) Hl E).
  - injection He as <-. cbn. unfold connected. case_bool_decide as Hc; [|by split]. split; cbn; [done | congruence|].
    apply Forall_app. split; [done|]. by repeat constructor.
  - destruct (sending !! i) as [d|] eqn:Hi; [|done]. cbn in He. injection He as <-. cbn.
    assert (Hne : state w <> kConnecting) by (apply Hs; by destruct sending).
    rewrite Forall_lookup in Hf. pose proof (Hf i d Hi) as Hd. cbn in Hd. split; cbn.
    + apply mid_good. destruct (good_mid w Hg Hne). split; try done. by apply core_queue.
    + by intros _.
    + rewrite Forall_forall. intros d' Hd'%list_elem_of_delete_inv. apply list_elem_of_lookup in Hd' as [j Hj]. by apply (Hf j).
Qed.


(** C3: the output stream is exact. At every moment the bytes the kernel took
    followed by the bytes in the output buffer are the bytes [sendInLoop] took
    over, in order, nothing lost, repeated or reordered; and while the
    connection is up it waits for writability exactly when it has buffered
    output, so buffered output is never forgotten. *)
Theorem TcpConnection_stream w :
  user_ok user -> reachable user w ->
  wire w ++ view (out w) = accepted w /\
  (is_open (state w) -> (isWriting (chan w) = true <-> view (out w) <> [])).
Proof.
  intros Hu Hr. pose proof (g_core _ (reachable_good user w Hu Hr)) as Hc.
  split; [apply (c_stream _ Hc)|]. intros Ho.
  rewrite (interest_ok_writing _ _ _ (chan w) eq_refl Ho (c_events _ Hc)).
  case_bool_decide; naive_solver.
Qed.

(** C28: shutdown is graceful. When [shutdownWrite] is called on a connection
    that is still up, everything accepted so far has been handed to the
    kernel, and nothing is written after it. *)
Theorem TcpConnection_graceful w st wi ac :
  user_ok user -> reachable user w -> shutw w = Some (st, wi, ac) -> st <> kDisconnected ->
  wi = ac /\ wire w = wi.
Proof.
  intros Hu Hr Hs Hst. destruct (c_shut _ (g_core _ (reachable_good user w Hu Hr)) st wi ac Hs). auto.
Qed.

(** Callbacks follow a protocol. The callbacks of a connection come as:
    one connection callback when it is up; then message, write-complete and
    high-water callbacks; then, when it goes down, one connection callback
    immediately followed by one close callback; after that only notifications
    that were already queued, and never a message. *)
Theorem TcpConnection_callback_protocol w :
  user_ok user -> reachable user w -> trace_ok (state w) (trace w).
Proof. intros Hu Hr. apply (g_trace _ (reachable_good user w Hu Hr)). Qed.

(** [connectDestroyed] on a connection that is shutting down aborts. It
    only disables the channel when the state is [kConnected]; in
    [kDisconnecting] the channel still has its read interest and
    [Channel::remove] asserts that it has none. The destructor of [TcpServer]
    calls [connectDestroyed] on every connection, whatever its state. *)
Theorem connectDestroyed_while_disconnecting w :
  state w = kDisconnecting -> inLoop w = true -> isNoneEvent (chan w) = false ->
  connectDestroyed user w = Fail FAssert.
Proof.
  intros Hs Hl Hn. unfold connectDestroyed, assertInLoopThread, isInLoopThread. rewrite Hl.
  cbn [check mbind res_bind]. rewrite bool_decide_eq_false_2 by by rewrite Hs. cbn [mbind res_bind].
  unfold on_channel, remove. by rewrite Hn.
Qed.

(** Reading the end of the stream again after the connection went down. *)
Lemma handleRead_eof_closed w : mid w -> state w = kDisconnected -> handleRead user (IoData []) w = Fail FAssert.
Proof.
  intros Hm Hs. unfold handleRead, assertInLoopThread, isInLoopThread. rewrite (m_loop _ Hm). cbn [check mbind res_bind].
  pose proof (c_in _ (m_core _ Hm)) as Hin.
  replace (ztake (readv_capacity (inputBuffer_ (conn w))) []) with (@nil byte) by (unfold ztake; by rewrite take_nil).
  destruct (readFd_eof (inputBuffer_ (conn w)) Hin) as [b ->]. cbn.
  unfold handleClose, assertInLoopThread, isInLoopThread. cbn. rewrite (m_loop _ Hm). cbn.
  unfold closable, state in *. cbn. by rewrite Hs.
Qed.

(** A hang-up that comes with urgent data closes twice. If the poller
    reports [POLLHUP | POLLPRI] without [POLLIN], [Channel::handleEventWithGuard]
    runs the close callback and then the read callback; with an orderly end of
    stream the latter closes again, and [handleClose] asserts, for every
    connection that is up. *)
Theorem double_close w :
  user_ok user -> reachable user w -> is_open (state w) ->
  on_event user (IoData []) (set_channel w (set_revents (chan w) (Z.lor POLLHUP POLLPRI))) = Fail FAssert \/
  on_event user (IoData []) (set_channel w (set_revents (chan w) (Z.lor POLLHUP POLLPRI))) = Fail FLength.
Proof.
  intros Hu Hr Ho. pose proof (reachable_good user w Hu Hr) as Hg.
  assert (Hs : state w <> kConnecting) by (destruct Ho as [->| ->]; done).
  pose proof (good_mid w Hg Hs) as Hm.
  assert (HG : forall w0, w0 = set_channel w (set_revents (chan w) (Z.lor POLLHUP POLLPRI)) ->
    on_event user (IoData []) w0 = handleEventWithGuard chan set_channel (Some (handleRead user (IoData [])))
      (Some handleWrite) (Some (handleClose user)) (Some handleError) w0).
  { intros w0 _. unfold on_event, handleEvent. by destruct (tied_ _). }
  rewrite (HG _ eq_refl). clear HG. unfold handleEventWithGuard. set (w1 := set_channel (set_channel _ _) _).
  assert (Hm1 : mid w1) by (apply mid_chan; [by apply mid_chan | done]).
  change (revents_ (chan w1)) with (Z.lor POLLHUP POLLPRI). cbn [when has Z.land Z.lor POLLHUP POLLPRI POLLIN Z.eqb negb andb].
  change (when _ (Some (handleClose user)) w1) with (handleClose user w1).
  pose proof (handleClose_sat user Hu w1 Hm1 Ho) as Hcl.
  destruct (handleClose user w1) as [w2|[]]; cbn in Hcl; try done; [|by right]. left.
  destruct Hcl as (Hm2 & Hs2 & Hrev). cbn [mbind res_bind].
  assert (Hrev2 : revents_ (chan w2) = Z.lor POLLHUP POLLPRI) by exact Hrev. rewrite Hrev2.
  change (when (has (Z.lor POLLHUP POLLPRI) (Z.lor POLLERR POLLNVAL)) (Some handleError) w2) with (@Ok (world K) w2).
  cbn [mbind res_bind]. rewrite Hrev2.
  change (when _ (Some (handleRead user (IoData []))) w2) with (handleRead user (IoData []) w2).
  by rewrite (handleRead_eof_closed w2 Hm2 Hs2).
Qed.
End theorems.

(** ** A connection for the witnesses

    The user answers every message with two bytes, and consumes it. *)
Module Example.
Definition user (k : unit) (w : world unit) : list (api unit) :=
  match last (trace w) with
  | Some EvMessage => [AConsume 10; ASend [Byte.x68; Byte.x69]; AShutdown]
  | _ => []
  end.
Lemma user_is_ok : user_ok user.
Proof.
  intros [] w. unfold user. destruct (last (trace w)) as [[]|]; repeat constructor. vm_compute. discriminate.
Qed.

Definition cb : callbacks unit := mkCallbacks (Some tt) (Some tt) None None (Some CloseServer).
Lemma cb_ok : cbs_ok cb.
Proof. split_and!; eauto. Qed.

Definition fresh : TcpConnection unit :=
  match TcpConnection_ctor 5 with Ok c => c | Fail _ => mkConn kConnecting true (Channel_ctor 5) tight tight 0 cb end.

(** The kernel takes one byte at a time. *)
Definition w0 : world unit := new_world fresh cb [WSpace 1; WSpace 1].

Definition next (w : world unit) (l : label unit) : world unit :=
  match exec_label user w l with Some (Ok w') => w' | _ => w end.

Definition hello : io := IoData [Byte.x78].
Definition up : world unit := next w0 LFunctor.
Definition half : world unit := next up (LPoll POLLIN hello).
Definition flushed : world unit := next half (LPoll POLLOUT hello).

Lemma up_reachable : reachable user up.
Proof.
  exists 5, fresh, cb, [WSpace 1; WSpace 1]. split_and!; [vm_compute; reflexivity | apply cb_ok|].
  eapply rtc_l; [|constructor]. exists LFunctor. split; [exact I | vm_compute; reflexivity].
Qed.
Lemma half_reachable : reachable user half.
Proof.
  destruct up_reachable as (fd & c & k & ans & Hc & Hk & Hr). exists fd, c, k, ans. split_and!; [done | done|].
  eapply rtc_r; [exact Hr|]. exists (LPoll POLLIN hello). split; [reflexivity | vm_compute; reflexivity].
Qed.
Lemma flushed_reachable : reachable user flushed.
Proof.
  destruct half_reachable as (fd & c & k & ans & Hc & Hk & Hr). exists fd, c, k, ans. split_and!; [done | done|].
  eapply rtc_r; [exact Hr|]. exists (LPoll POLLOUT hello). split; [reflexivity | vm_compute; reflexivity].
Qed.

(** Another thread tests the state of the new connection, the connection closes,
    and the thread hands its bytes over: the loop drops them. *)
Definition closed : world unit := next up (LPoll POLLIN (IoData [])).
Definition late : world unit := queueInLoop closed (FSendInLoop [Byte.x61]).

Lemma late_reachable : freachable user (late, []).
Proof.
  exists 5, fresh, cb, [WSpace 1; WSpace 1]. split_and!; [vm_compute; reflexivity | apply cb_ok|].
  eapply rtc_l; [exists (FLoop LFunctor); split; [exact I | vm_compute; reflexivity]|].
  eapply rtc_l; [exists (FSendTest [Byte.x61]); split; [vm_compute; discriminate | vm_compute; reflexivity]|].
  eapply rtc_l; [exists (FLoop (LPoll POLLIN (IoData []))); split; [reflexivity | vm_compute; reflexivity]|].
  eapply rtc_l; [exists (FSendQueue 0); split; [exact I | vm_compute; reflexivity]|]. constructor.
Qed.


(** [shutdown] in another thread: it finds the connection up, the loop closes
    the connection, and the thread sets the state. The connection is then
    never down for its destructor. *)
Example shutdown_race : connected up = true /\ state closed = kDisconnected /\
  TcpConnection_dtor (queueInLoop (setState closed kDisconnecting) FShutdownInLoop) = Fail FAssert.
Proof. split_and!; vm_compute; reflexivity. Qed.

Lemma TcpConnection_stream_witness :
  state half = kDisconnecting /\ wire half = [Byte.x68] /\ wire half ++ view (out half) = accepted half /\
  isWriting (chan half) = true.
Proof.
  destruct (TcpConnection_stream user half user_is_ok half_reachable) as [H1 H2].
  split; [vm_compute; reflexivity | split; [vm_compute; reflexivity | split; [exact H1|]]].
  apply H2; [right; vm_compute; reflexivity | vm_compute; discriminate].
Defined.

Lemma TcpConnection_graceful_witness : wire flushed = [Byte.x68; Byte.x69].
Proof.
  destruct (TcpConnection_graceful user flushed kDisconnecting [Byte.x68; Byte.x69] [Byte.x68; Byte.x69]
    user_is_ok flushed_reachable) as [_ H]; [vm_compute; reflexivity | discriminate | exact H].
Defined.

Lemma TcpConnection_callback_protocol_witness :
  trace flushed = [EvUp; EvMessage] /\ trace_ok (state flushed) (trace flushed).
Proof.
  split; [vm_compute; reflexivity|].
  exact (TcpConnection_callback_protocol user flushed user_is_ok flushed_reachable).
Defined.

Lemma connectDestroyed_while_disconnecting_witness : connectDestroyed user flushed = Fail FAssert.
Proof. apply connectDestroyed_while_disconnecting; vm_compute; reflexivity. Defined.

Lemma double_close_witness :
  on_event user (IoData []) (set_channel up (set_revents (chan up) (Z.lor POLLHUP POLLPRI))) = Fail FAssert.
Proof.
  destruct (double_close user up user_is_ok up_reachable) as [H|H].
  - left. vm_compute. reflexivity.
  - exact H.
  - exfalso. vm_compute in H. discriminate H.
Defined.
End Example.
