(* ===== verification/EndToEnd.v ===== *)
(** * From one program's codec to the other's

    The composition of the codec, the connection and the decoder. The sender
    hands frames of [ProtobufCodec] to a [TcpConnection], whose kernel takes
    them in pieces; the receiver's decoder gets the bytes of the wire in other
    pieces. The first half shows that what a connection accepts is made of the
    payloads of [send]; the second that the messages the receiver decodes are
    those the sender sent, in order. *)
From S2P Require Import Prelude Endian StringPiece Buffer MuduoBuffer Channel TcpConnection TcpSafety TcpProps TcpTheorems.
From S2P Require Import Codec CodecProps.

(** ** What a connection accepts *)
Section accepted.
Context {K : Type} (user : K -> world K -> list (api K)).
Implicit Type w : world K.

(** [Q]: the payloads of [send]; [S]: what sequences of them are. *)
Context (Q S : bytes -> Prop).
Hypothesis S_nil : S [].
Hypothesis S_snoc : forall s d, S s -> Q d -> S (s ++ d).

Definition api_payload (a : api K) : Prop := match a with ASend d => Q d | _ => True end.
Definition functor_payload (f : functor K) : Prop := match f with FSendInLoop d => Q d | _ => True end.
Definition label_payload (l : label K) : Prop := match l with LForeign a => api_payload a | _ => True end.
Definition user_payload : Prop := forall k w, Forall api_payload (user k w).

Definition made_of w : Prop := S (accepted w) /\ Forall functor_payload (pendingFunctors_ w).

(** A computation that keeps the invariant. *)
Definition keeps (f : world K -> res (world K)) : Prop := forall w w', made_of w -> f w = Ok w' -> made_of w'.

Lemma made_of_queue w f : made_of w -> functor_payload f -> made_of (queueInLoop w f).
Proof using. intros [Hs Hp] Hf. split; [done|]. apply Forall_app. by split; [|repeat constructor]. Qed.

Lemma queue_write_complete_made w : made_of w -> made_of (queue_write_complete w).
Proof using. unfold queue_write_complete. case_match; [intros; by apply made_of_queue | done]. Qed.

Lemma queue_high_water_made w o r : made_of w -> made_of (queue_high_water w o r).
Proof using. unfold queue_high_water. repeat case_match; try done. intros. by apply made_of_queue. Qed.

Lemma sock_write_made w d n e w' : made_of w -> sock_write w d = (n, e, w') -> made_of w'.
Proof using. intros H. unfold sock_write. repeat case_match; intros; simplify_eq; exact H. Qed.

Lemma try_write_made w d n r fe w' : made_of w -> try_write w d = (n, r, fe, w') -> made_of w'.
Proof using.
  intros H. unfold try_write. destruct (_ && _)%bool; [|by intros; simplify_eq].
  destruct (sock_write w d) as [[m e] w1] eqn:E. apply (sock_write_made _ _ _ _ _ H) in E.
  repeat case_match; intros; simplify_eq; try done; by apply queue_write_complete_made.
Qed.

Lemma sendInLoop_made d : Q d -> keeps (sendInLoop d).
Proof using S_snoc.
  intros Hd w w' H. unfold sendInLoop. destruct (assertInLoopThread w); [cbn [mbind res_bind]|done].
  case_bool_decide; [by intros; simplify_eq|].
  destruct (try_write w d) as [[[n r] fe] w1] eqn:E. apply (try_write_made _ _ _ _ _ _ H) in E.
  destruct (assert_ _); [cbn [mbind res_bind]|done].
  set (w2 := if fe then w1 else _). assert (H2 : made_of w2).
  { subst w2. destruct fe; [done|]. destruct E as [Hs Hp]. split; [by apply S_snoc | done]. }
  destruct (_ && _)%bool; [|by intros; simplify_eq]. intros Hr. apply bind_inv in Hr as (b & _ & Hr).
  pose proof (queue_high_water_made w2 (readableBytes (out w2)) r H2) as H3.
  destruct (negb _); [|injection Hr as <-; exact H3]. unfold on_channel in Hr. inv_res. exact H3.
Qed.

Lemma on_channel_made f : keeps (on_channel f).
Proof using. intros w w' H Hr. unfold on_channel in Hr. inv_res. exact H. Qed.

Lemma exec_api_made a : api_payload a -> keeps (fun w => exec_api w a).
Proof using S_snoc.
  intros Ha w w' H Hr. destruct a; cbn [exec_api api_payload] in *.
  - unfold send, runInLoop in Hr. repeat case_match; simplify_eq; try done; [by eapply sendInLoop_made|].
    by apply made_of_queue.
  - unfold shutdown in Hr. case_bool_decide; [|by simplify_eq]. unfold runInLoop in Hr.
    destruct (isInLoopThread _); [|injection Hr as <-; by apply made_of_queue].
    unfold shutdownInLoop in Hr. apply bind_inv in Hr as ([] & _ & Hr). injection Hr as <-.
    destruct (negb _); exact H.
  - unfold forceClose in Hr. case_match; simplify_eq; [by apply made_of_queue | done].
  - unfold forceCloseWithDelay in Hr. case_match; simplify_eq; [exact H | done].
  - unfold startRead, runInLoop in Hr. destruct (isInLoopThread _); [|injection Hr as <-; by apply made_of_queue].
    unfold startReadInLoop, on_channel in Hr. apply bind_inv in Hr as ([] & _ & Hr).
    destruct (_ || _)%bool; inv_res; exact H.
  - unfold stopRead, runInLoop in Hr. destruct (isInLoopThread _); [|injection Hr as <-; by apply made_of_queue].
    unfold stopReadInLoop, on_channel in Hr. apply bind_inv in Hr as ([] & _ & Hr).
    destruct (_ || _)%bool; inv_res; exact H.
  - inv_res. exact H.
  - inv_res. exact H.
  - inv_res. exact H.
  - inv_res. exact H.
  - inv_res. exact H.
Qed.

Lemma exec_apis_made l : Forall api_payload l -> keeps (fun w => exec_apis w l).
Proof using S_snoc.
  induction 1 as [|a l Ha _ IH]; intros w w' H Hr; cbn [exec_apis] in Hr; [by simplify_eq|].
  apply bind_inv in Hr as (w1 & H1 & H2). eapply IH; [|exact H2]. by eapply exec_api_made.
Qed.

Hypothesis Huser : user_payload.

Lemma call_made k e : keeps (call user k e).
Proof using S_snoc Huser.
  intros w w' H Hr. destruct k as [k|]; [|done]. cbn [call] in Hr.
  apply (exec_apis_made (user k (log w e)) (Huser _ _) (log w e)); [exact H | exact Hr].
Qed.

Lemma connectEstablished_made : keeps (connectEstablished user).
Proof using S_snoc Huser.
  intros w w' H Hr. unfold connectEstablished in Hr.
  apply bind_inv in Hr as (_ & _ & Hr). apply bind_inv in Hr as (_ & _ & Hr).
  apply bind_inv in Hr as (w1 & H1 & Hr). apply on_channel_made in H1; [|exact H].
  by eapply call_made.
Qed.

Lemma connectDestroyed_made : keeps (connectDestroyed user).
Proof using S_snoc Huser.
  intros w w' H Hr. unfold connectDestroyed in Hr. apply bind_inv in Hr as (_ & _ & Hr).
  apply bind_inv in Hr as (w1 & H1 & Hr). apply on_channel_made in Hr; [done|].
  case_bool_decide; [|by simplify_eq]. apply bind_inv in H1 as (w2 & H2 & H1).
  apply on_channel_made in H2; [|exact H]. by eapply call_made.
Qed.

Lemma handleClose_made : keeps (handleClose user).
Proof using S_snoc Huser.
  intros w w' H Hr. unfold handleClose in Hr.
  apply bind_inv in Hr as (_ & _ & Hr). apply bind_inv in Hr as (_ & _ & Hr).
  apply bind_inv in Hr as (w1 & H1 & Hr). apply on_channel_made in H1; [|exact H].
  apply bind_inv in Hr as (w2 & H2 & Hr). apply call_made in H2; [|done].
  repeat case_match; simplify_eq; [by apply made_of_queue | by eapply (call_made (Some _))].
Qed.

Lemma handleRead_made rd : keeps (handleRead user rd).
Proof using S_snoc Huser.
  intros w w' H Hr. unfold handleRead in Hr. apply bind_inv in Hr as (_ & _ & Hr).
  apply bind_inv in Hr as ([[b n] e] & _ & Hr).
  assert (H1 : made_of (set_input w b)) by exact H.
  destruct (0 <? n); [by eapply call_made|]. destruct (n =? 0); [by eapply handleClose_made|].
  unfold handleError in Hr. by simplify_eq.
Qed.

Lemma handleWrite_made : keeps handleWrite.
Proof using.
  intros w w' H Hr. unfold handleWrite in Hr. apply bind_inv in Hr as (_ & _ & Hr).
  destruct (isWriting _); [|by simplify_eq]. apply bind_inv in Hr as (d & _ & Hr).
  destruct (sock_write w d) as [[n e] w1] eqn:E. apply (sock_write_made _ _ _ _ _ H) in E.
  destruct (0 <? n); [|by simplify_eq]. apply bind_inv in Hr as (b & _ & Hr).
  assert (H2 : made_of (set_output w1 b)) by exact E.
  destruct (_ =? 0); [|by simplify_eq]. apply bind_inv in Hr as (w2 & H3 & Hr).
  apply on_channel_made in H3; [|done]. apply queue_write_complete_made in H3.
  case_bool_decide; [|by simplify_eq]. unfold shutdownInLoop in Hr.
  apply bind_inv in Hr as ([] & _ & Hr). injection Hr as <-. destruct (negb _); exact H3.
Qed.

Lemma when_made b f : keeps f -> keeps (when b (Some f)).
Proof using. intros Hf w w' H Hr. destruct b; cbn in Hr; [by eapply Hf | by simplify_eq]. Qed.

Lemma on_event_made rd : keeps (on_event user rd).
Proof using S_snoc Huser.
  intros w w' H Hr. unfold on_event, handleEvent in Hr.
  assert (Hg : handleEventWithGuard chan set_channel (Some (handleRead user rd)) (Some handleWrite)
    (Some (handleClose user)) (Some handleError) w = Ok w') by (by destruct (tied_ _)).
  clear Hr. unfold handleEventWithGuard in Hg.
  apply bind_inv in Hg as (w1 & H1 & Hg). apply when_made in H1; [|apply handleClose_made | exact H].
  apply bind_inv in Hg as (w2 & H2 & Hg). apply when_made in H2; [| | exact H1].
  2: { intros ? ? ? [= <-]. done. }
  apply bind_inv in Hg as (w3 & H3 & Hg). apply when_made in H3; [|apply handleRead_made | exact H2].
  apply bind_inv in Hg as (w4 & H4 & Hg). apply when_made in H4; [|apply handleWrite_made | exact H3].
  injection Hg as <-. exact H4.
Qed.

Lemma run_functor_made f : functor_payload f -> keeps (run_functor user f).
Proof using S_snoc Huser.
  intros Hf w w' H Hr. destruct f; cbn [run_functor functor_payload] in *.
  - by eapply connectEstablished_made.
  - by eapply connectDestroyed_made.
  - by eapply sendInLoop_made.
  - unfold shutdownInLoop in Hr. inv_res. destruct (negb _); exact H.
  - unfold forceCloseInLoop in Hr. apply bind_inv in Hr as (_ & _ & Hr).
    destruct (closable w); [by eapply handleClose_made | by simplify_eq].
  - unfold startReadInLoop, on_channel in Hr. apply bind_inv in Hr as ([] & _ & Hr).
    destruct (_ || _)%bool; inv_res; exact H.
  - unfold stopReadInLoop, on_channel in Hr. apply bind_inv in Hr as ([] & _ & Hr).
    destruct (_ || _)%bool; inv_res; exact H.
  - by eapply (call_made (Some k)).
  - by eapply (call_made (Some k)).
Qed.

Lemma exec_label_made w l w' : label_payload l -> made_of w -> exec_label user w l = Some (Ok w') -> made_of w'.
Proof using S_snoc Huser.
  intros Hl H Hr. destruct l as [rev rd| | |a]; cbn [exec_label label_payload] in *.
  - case_match; [|done]. injection Hr as Hr. eapply on_event_made; [|exact Hr]. exact H.
  - destruct (pendingFunctors_ w) as [|f p] eqn:E; [done|]. injection Hr as Hr.
    destruct H as [Hs Hp]. rewrite E in Hp. apply Forall_cons in Hp as [Hf Hp].
    by eapply run_functor_made; [exact Hf | | exact Hr].
  - destruct (timers w) as [|n]; [done|]. injection Hr as Hr.
    eapply (exec_api_made AForceClose I (set_timers w n)); [exact H | exact Hr].
  - injection Hr as Hr. apply bind_inv in Hr as (w1 & H1 & Hr). injection Hr as <-.
    eapply (exec_api_made a Hl (set_inLoop w false)) in H1; [exact H1 | exact H].
Qed.

(** A step in which other threads send payloads only. *)
Definition payload_step w w' : Prop :=
  exists l, label_ok l /\ label_payload l /\ exec_label user w l = Some (Ok w').

Lemma payload_steps fd c k ans w : TcpConnection_ctor (K := K) fd = Ok c ->
  rtc payload_step (new_world c k ans) w -> made_of w.
Proof using S_nil S_snoc Huser.
  intros _ Hr. eapply rtc_invariant; [|exact Hr|].
  - intros a b Ha (l & _ & Hl & He). by eapply exec_label_made.
  - split; [exact S_nil | by repeat constructor].
Qed.
End accepted.

(** ** Delivery *)
Section delivery.
Context {h : Host} {Z_ : Zlib} {P : Protobuf} `{!ProtobufLaws P}.
Context {K : Type} (user : K -> world K -> list (api K)).
Context {conn_t : Type} (cb : conn_t -> Buffer -> ErrorCode -> conn_t * Buffer).

(** What [ProtobufCodec::SendMsg] hands to the connection. *)
Definition payload (d : bytes) : Prop := exists m, sendable m /\ encode_all [m] = Ok d.
Definition stream (s : bytes) : Prop := exists ms, Forall sendable ms /\ encode_all ms = Ok s.

Lemma stream_nil : stream [].
Proof using. by exists []. Qed.

Lemma stream_snoc s d : stream s -> payload d -> stream (s ++ d).
Proof using ProtobufLaws0.
  intros (ms & Hms & Es) (m & Hm & Ed). exists (ms ++ [m]).
  assert (Hall : Forall sendable (ms ++ [m])) by (apply Forall_app; split; [done | by apply Forall_singleton]).
  split; [done|]. rewrite encode_all_frames in Es by done. rewrite encode_all_frames in Ed by by apply Forall_singleton.
  rewrite encode_all_frames by done. rewrite frames_app. by injection Es as <-; injection Ed as <-.
Qed.

(** C1: messages arrive. A connection whose user code and other threads send
    messages through the codec, in any interleaving and with a kernel that
    takes any number of bytes at a time, has accepted the encoding of a list
    of messages [ms]. If a receiver gets any part of what was written to the
    wire, cut into any chunks, it decodes without an error a prefix of [ms], in
    order and complete; and when the sender's buffer is empty and everything
    on the wire has arrived, it has decoded all of [ms]. *)
Theorem end_to_end fd c k ans w conn chunks later :
  user_ok user -> user_payload user payload -> TcpConnection_ctor (K := K) fd = Ok c -> cbs_ok k ->
  rtc (payload_step user payload) (new_world c k ans) w ->
  wire w = concat chunks ++ later -> zlen (concat chunks) <= max_size - 8 ->
  exists ms ms1 ms2 b0 b', encode_all ms = Ok (accepted w) /\ ms = ms1 ++ ms2 /\
    new_Buffer = Ok b0 /\ feed cb conn b0 [] chunks = Some (Ok (mkOutcome 0 conn b' ms1)) /\
    (later = [] -> view (out w) = [] -> ms2 = []).
Proof using ProtobufLaws0.
  intros Hu Hp Hc Hk Hr Hw Hmax.
  destruct (payload_steps user payload stream stream_nil stream_snoc Hp fd c k ans w Hc Hr) as [(ms & Hms & Es) _].
  assert (Hreach : reachable user w).
  { exists fd, c, k, ans. split_and!; [done..|]. eapply rtc_subrel; [|exact Hr].
    intros a b (l & Hl & _ & He). by exists l. }
  pose proof (c_stream _ (g_core _ (reachable_good user w Hu Hreach))) as Hst.
  pose proof Es as Ef. rewrite encode_all_frames in Ef by done. injection Ef as Ef.
  destruct new_Buffer_spec as (b & Hb & Hwf & Hv & _ & Hwi).
  destruct (feed_prefix cb conn b [] ms chunks (later ++ view (out w)))
    as (b' & ms1 & ms2 & -> & Hf & _ & Hrest & Hinc); try done.
  - rewrite Hv. cbn [app]. by rewrite app_assoc, <- Hw, Hst.
  - rewrite Hv. by left.
  - rewrite Hwi. unfold kCheapPrepend. lia.
  - exists (ms1 ++ ms2), ms1, ms2, b, b'. split_and!; try done. intros -> Hout.
    rewrite Hout, app_nil_r in Hrest. rewrite Hrest in Hinc.
    apply (frames_incomplete ms2); [|done]. by apply Forall_app in Hms as [_ ?].
Qed.
End delivery.

Module Example.
Import CodecProps.Toy.
#[local] Existing Instances little zlib proto laws.

Definition m1 : message := (Byte.x41, [Byte.x01; Byte.x02]).
Definition m2 : message := (Byte.x42, []).

(** The user sends two messages as soon as the connection is up. *)
Definition user (k : unit) (w : world unit) : list (api unit) :=
  match last (trace w) with Some EvUp => [ASend (frame m1); ASend (frame m2)] | _ => [] end.

Lemma m_sendable : Forall sendable [m1; m2].
Proof. repeat constructor; vm_compute; congruence. Qed.

Lemma sender_is_ok : user_ok user.
Proof. intros [] w. unfold user. destruct (last (trace w)) as [[]|]; repeat constructor; vm_compute; discriminate. Qed.

Lemma user_sends_payloads : user_payload user payload.
Proof.
  pose proof m_sendable as H. apply Forall_cons in H as [H1 H2]. apply Forall_cons in H2 as [H2 _].
  intros [] w. unfold user. destruct (last (trace w)) as [[]|]; repeat constructor; cbn [api_payload].
  - exists m1. split; [done | vm_compute; reflexivity].
  - exists m2. split; [done | vm_compute; reflexivity].
Qed.

Definition callbacks : callbacks unit := mkCallbacks (Some tt) (Some tt) None None (Some CloseServer).
Definition fresh : TcpConnection unit :=
  match TcpConnection_ctor 5 with Ok c => c | Fail _ => mkConn kConnecting true (Channel_ctor 5) tight tight 0 callbacks end.

(** The kernel takes 5 bytes, then 20. *)
Definition w0 : world unit := new_world fresh callbacks [WSpace 5; WSpace 20].
Definition next (w : world unit) (l : label unit) : world unit :=
  match exec_label user w l with Some (Ok w') => w' | _ => w end.
Definition w2 : world unit := next (next w0 LFunctor) (LPoll POLLOUT (IoData [])).

Lemma w2_reached : rtc (payload_step user payload) w0 w2.
Proof.
  apply (rtc_l _ _ (next w0 LFunctor)); [|apply rtc_once].
  - exists LFunctor. split_and!; [exact I | exact I | vm_compute; reflexivity].
  - exists (LPoll POLLOUT (IoData [])). split_and!; [reflexivity | exact I | vm_compute; reflexivity].
Qed.

(** 25 bytes are on the wire; the receiver got 3 and then 21 of them: the first
    message and a part of the second. *)
Lemma end_to_end_witness :
  zlen (wire w2) = 25 /\
  exists ms ms1 ms2 b0 b', encode_all ms = Ok (accepted w2) /\ ms = ms1 ++ ms2 /\ new_Buffer = Ok b0 /\
    feed (fun c b _ => (c, b)) tt b0 [] [ztake 3 (wire w2); ztake 21 (zdrop 3 (wire w2))] =
      Some (Ok (mkOutcome 0 tt b' ms1)).
Proof.
  split; [vm_compute; reflexivity|].
  destruct (end_to_end user (fun c b _ => (c, b)) 5 fresh callbacks [WSpace 5; WSpace 20] w2 tt
    [ztake 3 (wire w2); ztake 21 (zdrop 3 (wire w2))] (zdrop 24 (wire w2)))
    as (ms & ms1 & ms2 & b0 & b' & H1 & H2 & H3 & H4 & _).
  - exact sender_is_ok.
  - exact user_sends_payloads.
  - vm_compute. reflexivity.
  - repeat split; eauto.
  - exact w2_reached.
  - vm_compute. reflexivity.
  - vm_compute. discriminate.
  - exists ms, ms1, ms2, b0, b'. auto.
Defined.
End Example.
