(* ===== verification/Session.v ===== *)
(** * [common::net::Session] ([src/common/net/session.{h,cpp}]) and
      [ProtobufSession] ([src/common/net/protobuf_session.{h,cpp}])

    A session installs itself as the callbacks of a connection and applies back
    pressure: it stops reading at the high-water mark and starts again when the
    output is written. [OnConnected], [OnMessage] and [OnClose] are pure
    virtual; what the subclass does in them is the argument [sub]. *)
From S2P Require Import Prelude Endian StringPiece Buffer MuduoBuffer Channel TcpConnection TcpSafety TcpProps TcpTheorems.

(** The closures the session binds. *)
Inductive session_cb := SOnConnected | SOnMessage | SOnClose | SOnHighWaterMark | SOnWriteCompleteWeak.
#[global] Instance session_cb_eq_dec : EqDecision session_cb.
Proof. solve_decision. Defined.

Abbreviation sworld := (world session_cb).
Abbreviation sapi := (api session_cb).

(** [shared_from_this()] throws [bad_weak_ptr] while no [shared_ptr] owns the
    object. *)
Definition shared_from_this (owned : bool) : res unit := check owned FThrow.

(** The constructor; [owned] says whether a [shared_ptr] to the session exists
    while it runs. *)
Definition Session_ctor (owned : bool) (watermark : Z) (conn_ : sworld) : res sworld :=
  shared_from_this owned;;
  let w := setConnectionCallback conn_ (Some SOnConnected) in
  shared_from_this owned;;
  let w := setMessageCallback w (Some SOnMessage) in
  shared_from_this owned;;
  let w := setCloseCallback w (Some (CloseUser SOnClose)) in
  shared_from_this owned;;
  let w := setHighWaterMarkCallback w (Some SOnHighWaterMark) watermark in
  Ok w.

Definition SendProtocol (encode : bytes) : list sapi := [ASend encode].

Definition OnWriteComplete : list sapi := [AStartRead; ASetWriteComplete None].

Definition OnHighWaterMark (w : sworld) : list sapi :=
  if 0 <? readableBytes (out w) then [AStopRead; ASetWriteComplete (Some SOnWriteCompleteWeak)] else [].

(** [alive]: whether [psess->lock()] yields the session. *)
Definition onWriteCompleteWeak (alive : bool) : list sapi := if alive then OnWriteComplete else [].

Section session.
Context (alive : bool) (sub : session_cb -> sworld -> list sapi).

Definition session_user (k : session_cb) (w : sworld) : list sapi :=
  match k with
  | SOnHighWaterMark => OnHighWaterMark w
  | SOnWriteCompleteWeak => onWriteCompleteWeak alive
  | SOnConnected | SOnMessage | SOnClose => sub k w
  end.

(** What the subclass may do: send, close, consume its input. *)
Definition quiet (a : sapi) : Prop :=
  match a with
  | ASend d => zlen d <= max_size
  | AShutdown | AForceClose | AForceCloseWithDelay | AConsume _ => True
  | _ => False
  end.
Definition sub_ok : Prop := forall k w, Forall quiet (sub k w).

(** ** [ProtobufSession] *)
Definition OnRecv (w : sworld) : list sapi := [].
Definition PacketDefaultHandler (w : sworld) : list sapi := [].

(** [ClearPacketVec]: release the pointer at the iterator and erase it, until
    the end; what is left and what was released, in order. *)
Fixpoint ClearPacketVec {M : Type} (fuel : nat) (vec_packets_ released : list M) : option (list M * list M) :=
  match vec_packets_, fuel with
  | [], _ => Some ([], released)
  | _, O => None
  | p :: rest, S fuel => ClearPacketVec fuel rest (released ++ [p])
  end.

Lemma ClearPacketVec_spec {M} (v r : list M) fuel : (length v <= fuel)%nat ->
  ClearPacketVec fuel v r = Some ([], r ++ v).
Proof.
  revert r fuel. induction v as [|p v IH]; intros r fuel Hf.
  - rewrite app_nil_r. by destruct fuel.
  - destruct fuel as [|fuel]; cbn in *; [lia|]. rewrite IH by lia. by rewrite <- app_assoc.
Qed.

(** ** The back-pressure invariant *)
Implicit Type w : sworld.

(** The session's callbacks are installed. *)
Definition installed (c : callbacks session_cb) : Prop :=
  connectionCallback_ c = Some SOnConnected /\ messageCallback_ c = Some SOnMessage /\
  closeCallback_ c = Some (CloseUser SOnClose) /\ highWaterMarkCallback_ c = Some SOnHighWaterMark /\
  (writeCompleteCallback_ c = None \/ writeCompleteCallback_ c = Some SOnWriteCompleteWeak).

(** While reading is off, a write-complete callback is registered and either
    output is waiting or its invocation is already queued. *)
Definition will_resume w : Prop :=
  reading_ (conn w) = false ->
  writeCompleteCallback_ (cbs (conn w)) = Some SOnWriteCompleteWeak /\
  (view (out w) <> [] \/ FWriteComplete SOnWriteCompleteWeak ∈ pendingFunctors_ w).

(** Only the session's closures are queued. *)
Definition own_functor (f : functor session_cb) : Prop :=
  match f with
  | FWriteComplete k => k = SOnWriteCompleteWeak
  | FHighWaterMark k _ => k = SOnHighWaterMark
  | _ => True
  end.

Record bp w : Prop := {
  b_cbs : installed (cbs (conn w));
  b_resume : will_resume w;
  b_own : Forall own_functor (pendingFunctors_ w);
}.

(** What the subclass' calls and the writing side keep. *)
Record kept w w' : Prop := {
  k_reading : reading_ (conn w') = reading_ (conn w);
  k_cbs : cbs (conn w') = cbs (conn w);
  k_out : view (out w) <> [] -> view (out w') <> [];
  k_pend : exists l, pendingFunctors_ w' = pendingFunctors_ w ++ l /\ (installed (cbs (conn w)) -> Forall own_functor l);
}.

Lemma kept_refl w : kept w w.
Proof. split; try done. exists []. rewrite app_nil_r. split; [done | constructor]. Qed.

Lemma kept_trans w1 w2 w3 : kept w1 w2 -> kept w2 w3 -> kept w1 w3.
Proof.
  intros [r1 c1 o1 (l1 & p1 & q1)] [r2 c2 o2 (l2 & p2 & q2)]. split; [congruence | congruence | by auto|].
  exists (l1 ++ l2). rewrite p2, p1, app_assoc. split; [done|]. intros Hi. apply Forall_app. rewrite c1 in q2. auto.
Qed.

Lemma kept_bp w w' : bp w -> kept w w' -> bp w'.
Proof.
  intros [Hc Hr Ho] [kr kc ko (l & kp & kq)]. split; [by rewrite kc | | rewrite kp; apply Forall_app; auto].
  unfold will_resume. rewrite kr, kc, kp. intros Hf. destruct (Hr Hf) as [H1 H2]. split; [done|].
  destruct H2 as [H2|H2]; [left; auto | right; apply elem_of_app; by left].
Qed.

(** Only the connection and the queue matter. *)
Lemma kept_same w w1 w2 : kept w w1 -> reading_ (conn w2) = reading_ (conn w1) -> cbs (conn w2) = cbs (conn w1) ->
  out w2 = out w1 -> pendingFunctors_ w2 = pendingFunctors_ w1 -> kept w w2.
Proof. intros [kr kc ko kp] H1 H2 H3 H4. split; rewrite ?H1, ?H2, ?H3, ?H4; done. Qed.

Lemma queue_write_complete_kept w : kept w (queue_write_complete w).
Proof.
  unfold queue_write_complete. destruct (writeCompleteCallback_ _) as [k|] eqn:E; [|apply kept_refl].
  split; try done. eexists; split; [done|]. intros (_ & _ & _ & _ & [H|H]); [congruence|].
  repeat constructor. cbn. congruence.
Qed.

Lemma queue_high_water_kept w o r : kept w (queue_high_water w o r).
Proof.
  unfold queue_high_water. destruct (_ && _)%bool; [|apply kept_refl].
  destruct (highWaterMarkCallback_ _) as [k|] eqn:E; [|apply kept_refl].
  split; try done. eexists; split; [done|]. intros (_ & _ & _ & H & _). repeat constructor. cbn. congruence.
Qed.

Lemma sock_write_kept w d n e w' : sock_write w d = (n, e, w') -> kept w w'.
Proof.
  intros H. apply sock_write_spec in H as (Hc & Hp & _). split; unfold out; rewrite ?Hc; try done.
  exists []. rewrite app_nil_r. split; [done | constructor].
Qed.

Lemma try_write_kept w d n r fe w' : try_write w d = (n, r, fe, w') -> kept w w'.
Proof.
  unfold try_write. destruct (_ && _)%bool; [|intros; simplify_eq; apply kept_refl].
  destruct (sock_write w d) as [[m e] w1] eqn:E. apply sock_write_kept in E.
  destruct (0 <=? m); intros; simplify_eq; [|done]. destruct (_ =? 0); [|done].
  eapply kept_trans; [exact E | apply queue_write_complete_kept].
Qed.

Lemma sendInLoop_kept w d w' : core w -> zlen d <= max_size -> state w <> kConnecting ->
  sendInLoop d w = Ok w' -> kept w w'.
Proof.
  intros Hc Hmax Hs. unfold sendInLoop, assertInLoopThread. destruct (isInLoopThread w); [|done]. cbn [check mbind res_bind].
  case_bool_decide as Hd; [intros [= <-]; apply kept_refl|].
  destruct (try_write w d) as [[[n r] fe] w1] eqn:Ht. pose proof (try_write_kept _ _ _ _ _ _ Ht) as Hk.
  apply try_write_spec in Ht as (Hn & -> & _ & _ & _ & _ & Hcn & _); [|done | by apply is_open_split | done].
  intros H. inv_res. destruct fe; cbn [negb andb] in H; [by simplify_eq|].
  destruct (0 <? zlen d - n) eqn:Er; [|by simplify_eq; eapply kept_same].
  apply bind_inv in H as (b & Ha & H).
  set (w2 := queue_high_water _ _ _) in *.
  assert (Hk2 : kept w w2).
  { eapply kept_trans; [exact Hk|]. eapply kept_trans; [|apply queue_high_water_kept].
    split; try done. exists []. rewrite app_nil_r. split; [done | constructor]. }
  assert (Hout2 : out w2 = out w).
  { unfold w2, queue_high_water. cbn. unfold out. repeat case_match; cbn; by rewrite Hcn. }
  rewrite Hout2 in Ha. unbool.
  assert (Hrd : ptr_read (Ptr d n) (zlen d - n) = Ok (zdrop n d)).
  { rewrite ptr_read_ok by lia. rewrite ztake_all by zlen_lia. done. }
  pose proof (append_sat (out w) _ _ _ (c_out _ Hc) Hrd ltac:(lia)) as Hsat. rewrite Ha in Hsat. destruct Hsat as [_ Hvb].
  assert (Hk3 : kept w (set_output w2 b)).
  { destruct Hk2. split; try done. cbn. intros Hne. change (out (set_output w2 b)) with b. rewrite Hvb. by destruct (view (out w)). }
  destruct (isWriting _); cbn in H; injection H as <-; [exact Hk3 | by eapply kept_same].
Qed.

Lemma quiet_kept w a w' : core w -> state w <> kConnecting -> quiet a -> exec_api w a = Ok w' -> kept w w'.
Proof.
  intros Hc Hs Hq H. destruct a; cbn [exec_api quiet] in *; try done.
  - unfold send, runInLoop in H. case_bool_decide; [|simplify_eq; apply kept_refl].
    destruct (isInLoopThread w); [by eapply sendInLoop_kept|]. simplify_eq. split; try done. eexists; split; [done|]. by repeat constructor.
  - unfold shutdown, runInLoop, shutdownInLoop, assertInLoopThread in H.
    case_bool_decide; [|simplify_eq; apply kept_refl].
    destruct (isInLoopThread (setState w kDisconnecting)) eqn:E.
    + cbn in H. simplify_eq. destruct (negb _); split; try done; exists []; rewrite app_nil_r; (split; [done | constructor]).
    + simplify_eq. split; try done. eexists; split; [done|]. by repeat constructor.
  - unfold forceClose in H. destruct (closable w); simplify_eq; [|apply kept_refl].
    split; try done. eexists; split; [done|]. by repeat constructor.
  - unfold forceCloseWithDelay in H. destruct (closable w); simplify_eq; [|apply kept_refl].
    split; try done. exists []. rewrite app_nil_r. split; [done | constructor].
  - apply bind_inv in H as (b & _ & H). simplify_eq. split; try done. exists []. rewrite app_nil_r. split; [done | constructor].
Qed.

Lemma quiet_api_ok s a : quiet a -> api_ok s a.
Proof. by destruct a. Qed.

Lemma quiets_kept w l w' : core w -> inLoop w = true -> state w <> kConnecting -> Forall quiet l ->
  exec_apis w l = Ok w' -> kept w w'.
Proof.
  revert w. induction l as [|a l IH]; intros w Hc Hil Hs Hl H; cbn in H; [simplify_eq; apply kept_refl|].
  apply Forall_cons in Hl as [Ha Hl]. apply bind_inv in H as (w1 & H1 & H2).
  pose proof (exec_api_sat w a Hc Hil Hs (quiet_api_ok _ _ Ha)) as Hsat. rewrite H1 in Hsat. destruct Hsat as [Hc1 Hr1].
  eapply kept_trans; [by eapply quiet_kept|]. apply IH; try done.
  - by rewrite (r_loop _ _ Hr1).
  - destruct (r_state _ _ Hr1) as [->|[_ ->]]; done.
Qed.

(** ** The session against a guarded copy

    The session's read toggles are not admissible once the connection is down.
    [guard_user] leaves them out there and agrees with the session as long as
    the connection is up. *)
Definition guard_user (k : session_cb) (w : sworld) : list sapi :=
  match k with
  | SOnHighWaterMark | SOnWriteCompleteWeak =>
      if decide (state w = kDisconnected) then [] else session_user k w
  | _ => session_user k w
  end.

Context (Hsub : sub_ok).

Lemma guard_user_ok : user_ok guard_user.
Proof.
  assert (Hq : forall k w, Forall (api_ok (state w)) (sub k w))
    by (intros k w; eapply Forall_impl; [apply Hsub | intros; by apply quiet_api_ok]).
  intros k w. destruct k; cbn; try apply Hq; case_decide; try constructor.
  - unfold OnHighWaterMark. destruct (0 <? _); by repeat constructor.
  - unfold onWriteCompleteWeak, OnWriteComplete. destruct alive; by repeat constructor.
Qed.

Lemma call_eq k e w : state w <> kDisconnected \/ k <> SOnHighWaterMark /\ k <> SOnWriteCompleteWeak ->
  call session_user (Some k) e w = call guard_user (Some k) e w.
Proof.
  intros H. cbn [call]. f_equal. unfold guard_user. change (state (log w e)) with (state w).
  destruct k; try done; rewrite decide_False by naive_solver; done.
Qed.

Lemma handleClose_eq w : mid w -> is_open (state w) -> installed (cbs (conn w)) ->
  handleClose session_user w = handleClose guard_user w.
Proof.
  intros Hm Ho (Hc & _ & Hcl & _). unfold handleClose, assertInLoopThread. destruct (isInLoopThread w) eqn:Hl; [|done].
  cbn [check mbind res_bind]. rewrite (proj2 (closable_open w) Ho).
  cbn [disableAll update updateChannel on_channel assert_ check mbind res_bind].
  set (w1 := set_channel _ _). assert (Hc1 : core w1) by exact (core_closed w (m_core _ Hm) Ho).
  change (cbs (conn w1)) with (cbs (conn w)). rewrite Hc, call_eq by naive_solver.
  pose proof (call_sat guard_user guard_user_ok w1 (Some SOnConnected) EvDown Hc1 Hl) as Hs.
  destruct (call guard_user (Some SOnConnected) EvDown w1) as [w2|f]; [|done]. cbn [mbind res_bind].
  destruct Hs as [_ Hr]; [done | eauto|].
  rewrite (r_close _ _ Hr). change (closeCallback_ _) with (closeCallback_ (cbs (conn w))). rewrite Hcl.
  apply call_eq. naive_solver.
Qed.

Lemma handleRead_eq w rd : mid w -> is_open (state w) -> installed (cbs (conn w)) ->
  handleRead session_user rd w = handleRead guard_user rd w.
Proof.
  intros Hm Ho Hi. unfold handleRead. destruct (assertInLoopThread w); [|done]. cbn [mbind res_bind].
  set (rd' := match rd with IoData d => _ | e => e end).
  destruct (readFd _ rd') as [[[b n] e]|] eqn:Hrd; [|done]. cbn [mbind res_bind].
  change (cbs (conn (set_input w b))) with (cbs (conn w)). pose proof Hi as (_ & -> & _).
  rewrite call_eq by naive_solver. destruct (0 <? n); [done|]. destruct (n =? 0) eqn:En; [|done].
  apply handleClose_eq; [|done|done]. destruct Hm as [Hc ? ? ? ?]. split; try done. apply core_input; [done|].
  subst rd'. destruct rd as [|d]; [cbn in Hrd; injection Hrd as <- <- <-; discriminate En|].
  pose proof (readv_capacity_bounds _ (c_in _ Hc)) as Hcap.
  pose proof (zlen_ztake_le (readv_capacity (inputBuffer_ (conn w))) d ltac:(lia)) as Hz.
  pose proof (readFd_sat (inputBuffer_ (conn w)) _ (c_in _ Hc) Hz ltac:(lia)) as Hs. rewrite Hrd in Hs. apply Hs.
Qed.

(** ** Preservation *)
Lemma mid_installed w k : mid w -> installed (cbs (conn w)) -> cbs (conn w) = k -> installed k.
Proof. by intros _ H <-. Qed.

Lemma call_quiet_bp k e w w' : mid w -> bp w -> k = SOnConnected \/ k = SOnMessage ->
  call session_user (Some k) e w = Ok w' -> bp w'.
Proof.
  intros Hm Hb Hk H. cbn [call] in H. pose proof (m_core _ Hm) as Hc.
  assert (Hbl : bp (log w e)) by (destruct Hb; by split).
  eapply kept_bp; [exact Hbl|]. eapply quiets_kept; [| | | | exact H].
  - by destruct Hc.
  - apply Hm.
  - apply Hm.
  - destruct Hk as [->| ->]; apply Hsub.
Qed.

Lemma handleWrite_bp w w' : mid w -> bp w -> handleWrite w = Ok w' -> bp w'.
Proof.
  intros Hm Hb H. pose proof (m_core _ Hm) as Hc. unfold handleWrite, assertInLoopThread, isInLoopThread in H.
  rewrite (m_loop _ Hm) in H. cbn [check mbind res_bind] in H.
  destruct (isWriting (chan w)); [|by simplify_eq]. apply bind_inv in H as (d & _ & H).
  destruct (sock_write w d) as [[n e] w1] eqn:Hw. pose proof (sock_write_kept _ _ _ _ _ Hw) as Hk.
  destruct (0 <? n) eqn:En; [|simplify_eq; by eapply kept_bp].
  apply bind_inv in H as (b & Hret & H). destruct (kept_bp _ _ Hb Hk) as [Hi Hr Hown].
  assert (Hbwf : wf b).
  { apply sock_write_spec in Hw as (Hcn & _). unfold out in Hret. rewrite Hcn in Hret.
    apply Z.ltb_lt in En. eapply retrieve_wf; [apply (c_out _ Hc) | | exact Hret]. lia. }
  change (out (set_output w1 b)) with b in H. rewrite readable_empty in H by done.
  case_bool_decide as Hv; cbn in H.
  2: { simplify_eq. split; try done. intros Hf. destruct (Hr Hf) as [H1 _]. split; [done | by left]. }
  set (w2 := set_channel _ _) in H.
  assert (Hb2 : bp (queue_write_complete w2)).
  { unfold queue_write_complete. change (writeCompleteCallback_ (cbs (conn w2))) with (writeCompleteCallback_ (cbs (conn w1))).
    destruct (writeCompleteCallback_ (cbs (conn w1))) as [k|] eqn:Ek.
    - destruct Hi as (? & ? & ? & ? & [Hi|Hi]); [congruence|]. rewrite Hi in Ek. injection Ek as <-.
      split; [split_and!; try done; by right | | cbn; apply Forall_app; split; [done | by repeat constructor]].
      intros Hf. split; [done|]. right. cbn. apply elem_of_app. right. by left.
    - split; try done. intros Hf. destruct (Hr Hf) as [H1 _]. congruence. }
  case_bool_decide; [|by simplify_eq].
  unfold shutdownInLoop in H. apply bind_inv in H as ([] & _ & H). injection H as <-.
  destruct (negb _); [|done]. destruct Hb2. by split.
Qed.

(** The session's own callbacks. *)
Lemma OnHighWaterMark_bp w w' len : mid w -> is_open (state w) -> bp w ->
  call session_user (Some SOnHighWaterMark) (EvHighWaterMark len) w = Ok w' -> bp w'.
Proof.
  intros Hm Ho [Hi Hr Hown] H. cbn [call session_user] in H. unfold OnHighWaterMark in H.
  change (out (log w (EvHighWaterMark len))) with (out w) in H.
  pose proof (c_out _ (m_core _ Hm)) as Hwf.
  assert (Hpos : (0 <? readableBytes (out w)) = true -> view (out w) <> []).
  { change (readableBytes (out w)) with (ReadableBytes (out w)). rewrite readable_view by done. intros Hx Hv. by rewrite Hv in Hx. }
  destruct (0 <? readableBytes (out w)); [|by cbn in H; simplify_eq]. specialize (Hpos eq_refl).
  cbn [exec_apis exec_api] in H. unfold stopRead, runInLoop, isInLoopThread, stopReadInLoop, assertInLoopThread, isInLoopThread in H.
  change (inLoop (log w (EvHighWaterMark len))) with (inLoop w) in H. rewrite (m_loop _ Hm) in H. cbn [check mbind res_bind] in H.
  destruct Hi as (? & ? & ? & ? & ?).
  destruct (_ || _)%bool eqn:E in H; cbn in H; injection H as <-.
  - split; [split_and!; try done; by right | | done]. intros _. split; [done | by left].
  - apply orb_false_iff in E as [E _]. split; [split_and!; try done; by right | | done]. intros _. split; [done | by left].
Qed.

Lemma OnWriteComplete_bp w w' : alive = true -> mid w -> is_open (state w) -> installed (cbs (conn w)) ->
  Forall own_functor (pendingFunctors_ w) ->
  call session_user (Some SOnWriteCompleteWeak) EvWriteComplete w = Ok w' -> bp w'.
Proof.
  intros Ha Hm Ho Hi Hown H. cbn [call session_user] in H. unfold onWriteCompleteWeak, OnWriteComplete in H. rewrite Ha in H.
  cbn [exec_apis exec_api] in H. unfold startRead, runInLoop, isInLoopThread, startReadInLoop, assertInLoopThread, isInLoopThread in H.
  change (inLoop (log w EvWriteComplete)) with (inLoop w) in H. rewrite (m_loop _ Hm) in H. cbn [check mbind res_bind] in H.
  destruct Hi as (? & ? & ? & ? & ?).
  destruct (_ || _)%bool eqn:E in H; cbn in H; injection H as <-.
  - split; [split_and!; try done; by left | | done]. by intros [=].
  - apply orb_false_iff in E as [E _]. apply negb_false_iff in E. split; [split_and!; try done; by left | | done].
    intros Hf. cbn in Hf. cbn in E. congruence.
Qed.
End session.
