(* ===== verification/SessionProps.v ===== *)
(** * Properties of [Session] *)
From S2P Require Import Prelude Endian StringPiece Buffer MuduoBuffer Channel TcpConnection TcpSafety TcpProps TcpTheorems Session.

Section steps.
Context (alive : bool) (sub : session_cb -> sworld -> list sapi) (Hsub : sub_ok sub) (Halive : alive = true).
Abbreviation user := (session_user alive sub).
Abbreviation guard := (guard_user alive sub).
Implicit Type w : sworld.

Let Hguard : user_ok guard := guard_user_ok alive sub Hsub.

(** Down, or up with both invariants. *)
Definition fine w : Prop := mid w /\ (state w = kDisconnected \/ bp w).

Lemma down_stays w w' : state w = kDisconnected -> calls w w' -> state w' = kDisconnected.
Proof. intros Hs Hr. destruct (r_state _ _ Hr) as [->|[H _]]; [done | congruence]. Qed.

Lemma handleClose_fine w w' : mid w -> is_open (state w) -> installed (cbs (conn w)) ->
  handleClose user w = Ok w' -> fine w' /\ state w' = kDisconnected /\ revents_ (chan w') = revents_ (chan w).
Proof.
  intros Hm Ho Hi H. rewrite (handleClose_eq alive sub Hsub) in H by done.
  pose proof (handleClose_sat guard Hguard w Hm Ho) as Hs. rewrite H in Hs. destruct Hs as (? & ? & ?).
  split_and!; try done. by split; [|left].
Qed.

Lemma handleRead_fine w rd w' : mid w -> is_open (state w) -> bp w ->
  handleRead user rd w = Ok w' -> fine w' /\ revents_ (chan w') = revents_ (chan w).
Proof.
  intros Hm Ho Hb H. pose proof (handleRead_sat guard Hguard w rd Hm Ho) as Hs.
  rewrite <- (handleRead_eq alive sub Hsub) in Hs by (done || apply Hb). rewrite H in Hs. destruct Hs as [Hm' Hrev].
  split; [|done]. split; [done|]. unfold handleRead in H.
  apply bind_inv in H as ([] & _ & H). apply bind_inv in H as ([[b n] e] & Hrd & H).
  assert (Hbi : bp (set_input w b)) by (destruct Hb; by split).
  assert (Hwb : n <> -1 -> wf b).
  { intros Hn. destruct rd as [|d]; [cbn in Hrd; congruence|].
    pose proof (c_in _ (m_core _ Hm)) as Hin. pose proof (readv_capacity_bounds _ Hin) as Hcap.
    pose proof (zlen_ztake_le (readv_capacity (inputBuffer_ (conn w))) d ltac:(lia)) as Hz.
    pose proof (readFd_sat (inputBuffer_ (conn w)) _ Hin Hz ltac:(lia)) as Hs. rewrite Hrd in Hs. apply Hs. }
  assert (Hmi : n <> -1 -> mid (set_input w b)).
  { intros Hn. destruct Hm. split; try done. apply core_input; auto. }
  destruct (Z.ltb_spec 0 n).
  - right. change (messageCallback_ (cbs (conn (set_input w b)))) with (messageCallback_ (cbs (conn w))) in H.
    rewrite (proj1 (proj2 (b_cbs _ Hb))) in H. eapply call_quiet_bp; [done | apply Hmi; lia | done | by right | exact H].
  - destruct (Z.eqb_spec n 0).
    + left. eapply handleClose_fine; [apply Hmi; lia | done | apply Hb | exact H].
    + right. by injection H as <-.
Qed.

Lemma handleWrite_fine w w' : fine w -> handleWrite w = Ok w' -> fine w'.
Proof.
  intros [Hm Hb] H. pose proof (handleWrite_sat w (m_core _ Hm) (m_loop _ Hm)) as Hs. rewrite H in Hs.
  destruct Hs as [Hc Hr]. split; [by eapply mid_calls|]. destruct Hb as [Hd|Hb].
  - left. by eapply down_stays.
  - right. by eapply handleWrite_bp.
Qed.

Lemma on_event_fine w rev rd w' : mid w -> bp w -> deliverable w rev = true -> hup_ok rev = true ->
  on_event user rd (set_channel w (set_revents (chan w) rev)) = Ok w' -> fine w'.
Proof.
  intros Hm Hb Hd Hh H. destruct (deliverable_open w rev (m_core _ Hm) Hd) as [Ho Hrd].
  set (w0 := set_channel w _) in H.
  assert (HG : handleEventWithGuard chan set_channel (Some (handleRead user rd)) (Some handleWrite)
    (Some (handleClose user)) (Some handleError) w0 = Ok w').
  { unfold on_event, handleEvent in H. by destruct (tied_ (chan w0)). }
  clear H. unfold handleEventWithGuard in HG. set (w1 := set_channel w0 _) in HG.
  assert (Hm1 : mid w1) by (apply mid_chan; [by apply mid_chan | done]).
  assert (Hb1 : bp w1) by (destruct Hb; by split).
  assert (Hrev1 : revents_ (chan w1) = rev) by done.
  apply bind_inv in HG as (w2 & H1 & HG). apply bind_inv in HG as (w3 & H2 & HG).
  assert (w3 = w2) as -> by (unfold when, invoke, handleError in H2; case_match; by injection H2).
  apply bind_inv in HG as (w4 & H3 & HG). apply bind_inv in HG as (w5 & H4 & HG). injection HG as <-.
  assert (Hf4 : fine w4).
  { unfold when, invoke in H1, H3. rewrite Hrev1 in H1.
    destruct (has rev POLLHUP && negb (has rev POLLIN)) eqn:E.
    - apply handleClose_fine in H1 as (Hf & Hs2 & Hrev2); [|done|done|apply Hb1].
      rewrite Hrev2, Hrev1 in H3. unfold hup_ok in Hh. rewrite E in Hh. cbn in Hh. apply negb_true_iff in Hh.
      apply andb_true_iff in E as [_ E%negb_true_iff]. rewrite !has_lor, E, Hh, Hrd in H3. cbn in H3. by injection H3 as <-.
    - injection H1 as <-. case_match; [by apply handleRead_fine in H3 as [? _]|]. injection H3 as <-.
      split; [done | by right]. }
  assert (Hf5 : fine w5).
  { unfold when, invoke in H4. case_match; [by eapply handleWrite_fine|]. by injection H4 as <-. }
  destruct Hf5 as [Hm5 Hb5]. split; [by apply mid_chan|]. destruct Hb5 as [?|Hb5]; [by left | right]. destruct Hb5. by split.
Qed.

Lemma bp_pop w f p : bp w -> pendingFunctors_ w = f :: p -> f <> FWriteComplete SOnWriteCompleteWeak ->
  bp (set_pending w p).
Proof.
  intros [Hi Hr Ho] E Hf. rewrite E in Ho. apply Forall_cons in Ho as [_ Ho]. split; [done | | done].
  intros Hrd. destruct (Hr Hrd) as [H1 H2]. split; [done|]. destruct H2 as [?|H2]; [by left | right].
  rewrite E in H2. apply elem_of_cons in H2 as [<-|?]; done.
Qed.

Lemma run_functor_fine w f p w' : good w -> state w <> kDisconnected -> bp w -> pendingFunctors_ w = f :: p ->
  run_functor user f (set_pending w p) = Ok w' -> fine w'.
Proof.
  intros Hg Hnd Hb E H. pose proof (c_pend _ (g_core _ Hg)) as Hp. rewrite E in Hp. apply Forall_cons in Hp as [Hf Hp].
  pose proof (b_own _ Hb) as Hown. rewrite E in Hown. apply Forall_cons in Hown as [Hown Hownp].
  assert (Hpop : f <> FWriteComplete SOnWriteCompleteWeak -> bp (set_pending w p)) by (intros; by eapply bp_pop).
  destruct (decide (state w = kConnecting)) as [Hs|Hs].
  { rewrite (g_boot _ Hg Hs) in E. injection E as <- <-. pose proof Hg as [[] Hl Hcb Ht _].
    pose proof (connectEstablished_sat guard Hguard (set_pending w [])) as Hsat. cbn [run_functor] in H.
    assert (Heq : connectEstablished user (set_pending w []) = connectEstablished guard (set_pending w [])).
    { unfold connectEstablished, assertInLoopThread, isInLoopThread. cbn. rewrite Hl. cbn.
      case_bool_decide; [|done]. cbn. rewrite (proj1 (b_cbs _ Hb)). apply call_eq. naive_solver. }
    rewrite <- Heq, H in Hsat. assert (Hm' : mid w').
    { apply Hsat; [by split | done | done | by rewrite Hs in Ht | done | done]. }
    split; [done|]. right. clear Heq Hsat.
    unfold connectEstablished, assertInLoopThread, isInLoopThread in H. cbn in H. rewrite Hl in H. cbn in H.
    case_bool_decide; [|done]. cbn in H. rewrite (proj1 (b_cbs _ Hb)) in H.
    set (w1 := set_channel _ _) in H. cbn [call] in H.
    eapply (kept_bp (log w1 EvUp)); [destruct (Hpop ltac:(done)); by split|].
    eapply quiets_kept; [| exact Hl | done | apply Hsub | exact H].
    rewrite Hs in *. split; unfold w1, state, chan, out in *; cbn; try done.
    destruct c_events as (r & wr & -> & -> & -> & Hv). exists true, false. split; [done|]. by rewrite Hv. }
  assert (Hm : mid (set_pending w p)) by (eapply mid_popped; [by apply good_mid | done]).
  assert (Ho : is_open (state (set_pending w p))) by by apply is_open_split.
  assert (Hcalls : forall m, sat (fun w' => core w' /\ calls (set_pending w p) w') m -> m = Ok w' -> mid w').
  { intros m Hsat ->. destruct Hsat. by eapply mid_calls. }
  destruct f; cbn [run_functor pend_ok own_functor] in *; try done.
  - split.
    + eapply Hcalls; [|exact H]. apply sendInLoop_sat; try apply Hm. apply Hf.
    + right. eapply kept_bp; [by apply Hpop|]. eapply sendInLoop_kept; [apply Hm | apply Hf | apply Hm | exact H].
  - split.
    + eapply Hcalls; [|exact H]. apply shutdownInLoop_sat; apply Hm.
    + right. unfold shutdownInLoop in H. apply bind_inv in H as ([] & _ & H). injection H as <-.
      destruct (negb _); [|by apply Hpop]. destruct (Hpop ltac:(done)). by split.
  - unfold forceCloseInLoop in H. apply bind_inv in H as ([] & _ & H).
    rewrite (proj2 (closable_open _) Ho) in H. by eapply handleClose_fine; [| | apply (Hpop ltac:(done)) | exact H].
  - subst k. pose proof (notify_sat guard Hguard (set_pending w p) SOnWriteCompleteWeak EvWriteComplete Hm eq_refl) as Hsat.
    rewrite <- call_eq, H in Hsat by by left. split; [exact Hsat|]. right.
    eapply OnWriteComplete_bp; [exact Halive | exact Hm | exact Ho | apply (b_cbs _ Hb) | exact Hownp | exact H].
  - subst k. pose proof (notify_sat guard Hguard (set_pending w p) SOnHighWaterMark (EvHighWaterMark len) Hm eq_refl) as Hsat.
    rewrite <- call_eq, H in Hsat by by left. split; [exact Hsat|]. right. eapply OnHighWaterMark_bp; [exact Hm | exact Ho | by apply Hpop | exact H].
Qed.

Lemma foreign_quiet (a : sapi) : foreign_ok a -> quiet a.
Proof. by destruct a. Qed.

(** A step of the session that leaves the connection up. *)
Definition up_step w w' : Prop := tcp_step user w w' /\ state w' <> kDisconnected.

Definition up_inv w : Prop := good w /\ bp w /\ state w <> kDisconnected.

Lemma fine_up w : fine w -> state w <> kDisconnected -> up_inv w.
Proof. intros [Hm [?|Hb]] Hs; [done|]. split_and!; [by apply mid_good | done | done]. Qed.

Lemma up_step_inv w w' : up_inv w -> up_step w w' -> up_inv w'.
Proof.
  intros (Hg & Hb & Hs) [(l & Hl & He) Hs']. destruct l as [rev rd| | |a]; cbn [exec_label label_ok] in *.
  - destruct (deliverable w rev) eqn:Hd; [|done]. injection He as He.
    destruct (deliverable_open w rev (g_core _ Hg) Hd) as [Ho _]. apply fine_up; [|done].
    eapply on_event_fine; [|exact Hb | exact Hd | exact Hl | exact He].
    apply good_mid; [done|]. destruct Ho as [->| ->]; done.
  - destruct (pendingFunctors_ w) as [|f p] eqn:E; [done|]. injection He as He.
    apply fine_up; [|done]. by eapply run_functor_fine.
  - pose proof (exec_label_sat guard Hguard w LTimer (Ok w') Hg I He) as Hg'. cbn in Hg'.
    destruct (timers w) as [|n]; [done|]. injection He as He. split_and!; [done | | done].
    unfold forceClose in He. destruct (closable _); injection He as <-.
    + destruct Hb as [Hi Hr Ho]. split; [done | | apply Forall_app; split; [done | by repeat constructor]].
      intros Hf. destruct (Hr Hf) as [? [?|?]]; (split; [done|]); [by left | right; apply elem_of_app; by left].
    + destruct Hb. by split.
  - pose proof (exec_label_sat guard Hguard w (LForeign a) (Ok w') Hg Hl He) as Hg'. cbn in Hg'.
    injection He as He. apply bind_inv in He as (w1 & H1 & He). injection He as <-. split_and!; [done | | done].
    assert (Hb0 : bp (set_inLoop w false)) by (destruct Hb; by split).
    assert (Hb1 : bp w1).
    { destruct (decide (state w = kConnecting)) as [Hc|Hc].
      - assert (w1 = set_inLoop w false) as ->; [|done]. destruct a; cbn [exec_api foreign_ok] in *; try done;
          unfold send, shutdown, forceClose, forceCloseWithDelay, closable, state in *; cbn in H1; rewrite Hc in H1; by injection H1.
      - eapply kept_bp; [exact Hb0|]. eapply quiet_kept; [by apply core_inLoop, Hg | done | by apply foreign_quiet | exact H1]. }
    destruct Hb1. by split.
Qed.
End steps.

(** Constructing a [Session] throws. The constructor calls
    [shared_from_this()] while no [shared_ptr] can own the object yet, so
    [bad_weak_ptr] leaves the constructor before any callback is installed. *)
Theorem Session_ctor_throws watermark w :
  Session_ctor false watermark w = Fail FThrow.
Proof. done. Qed.

(** The callbacks of a session do not get stuck. The constructor throws, so no
    session of the program gets so far; take one whose callbacks are installed
    on a new connection all the same (any high-water mark, any subclass that only
    sends, closes and consumes). In every state it reaches while the
    connection is up, if reading is switched off then the write-complete
    callback is registered, and either output is still waiting to be written or
    the callback is already queued in the loop: reading will be resumed. *)
Theorem Session_backpressure sub fd c k ans mark w0 w :
  sub_ok sub -> TcpConnection_ctor fd = Ok c -> k.(writeCompleteCallback_) = None ->
  Session_ctor true mark (new_world c k ans) = Ok w0 ->
  rtc (up_step true sub) w0 w ->
  reading_ (conn w) = false ->
  writeCompleteCallback_ (cbs (conn w)) = Some SOnWriteCompleteWeak /\
  (view (out w) <> [] \/ FWriteComplete SOnWriteCompleteWeak ∈ pendingFunctors_ w).
Proof.
  intros Hsub Hc Hk H0 Hr. cbn in H0. injection H0 as <-.
  enough (up_inv w) as (_ & Hb & _) by exact (b_resume _ Hb).
  eapply rtc_invariant; [intros a b; by apply (up_step_inv true sub Hsub) | exact Hr|].
  set (w0 := setHighWaterMarkCallback _ _ _).
  assert (Hcbs : installed (cbs (conn w0))) by (split_and!; try done; by left).
  assert (Hg0 : good (new_world c (cbs (conn w0)) ans)) by (eapply new_world_good; [exact Hc | split_and!; eauto]).
  unfold TcpConnection_ctor in Hc. destruct (muduo_Buffer kInitialSize) as [b|]; [|done]. cbn in Hc. injection Hc as <-.
  split_and!; [|split; [done | by intros [=] | by repeat constructor] | done].
  destruct Hg0 as [[] ? ? ? ?]. by split; [split|..].
Qed.

(** ** A session that sends, over a socket that blocks at first *)
Module Example.
Definition sub (k : session_cb) (w : sworld) : list sapi :=
  match k with SOnMessage => [AConsume 10; ASend [Byte.x68; Byte.x69]] | _ => [] end.
Lemma sub_is_ok : sub_ok sub.
Proof. intros k w. destruct k; repeat constructor. vm_compute. discriminate. Qed.

Definition no_cbs : callbacks session_cb := mkCallbacks None None None None None.
Definition fresh : TcpConnection session_cb :=
  match TcpConnection_ctor 5 with Ok c => c | Fail _ => mkConn kConnecting true (Channel_ctor 5) tight tight 0 no_cbs end.
(** The high-water mark is one byte; the first write would block, the second takes all. *)
Definition w0 : sworld :=
  match Session_ctor true 1 (new_world fresh no_cbs [WError EWOULDBLOCK; WSpace 10]) with
  | Ok w => w | Fail _ => new_world fresh no_cbs [] end.

Abbreviation user := (session_user true sub).
Definition next (w : sworld) (l : label session_cb) : sworld :=
  match exec_label user w l with Some (Ok w') => w' | _ => w end.

(** Up, a message answered, the high-water callback run: reading is off. *)
Definition up : sworld := next w0 LFunctor.
Definition answered : sworld := next up (LPoll POLLIN (IoData [Byte.x78])).
Definition stopped : sworld := next answered LFunctor.

Lemma stopped_reachable : rtc (up_step true sub) w0 stopped.
Proof.
  apply (rtc_l _ _ up); [split; [exists LFunctor; split; [exact I | vm_compute; reflexivity] | vm_compute; discriminate]|].
  apply (rtc_l _ _ answered).
  { split; [exists (LPoll POLLIN (IoData [Byte.x78])); split; vm_compute; reflexivity | vm_compute; discriminate]. }
  apply (rtc_l _ _ stopped); [|constructor].
  split; [exists LFunctor; split; [exact I | vm_compute; reflexivity] | vm_compute; discriminate].
Qed.

Lemma Session_backpressure_witness :
  reading_ (conn stopped) = false /\
  writeCompleteCallback_ (cbs (conn stopped)) = Some SOnWriteCompleteWeak /\
  (view (out stopped) <> [] \/ FWriteComplete SOnWriteCompleteWeak ∈ pendingFunctors_ stopped).
Proof.
  split; [vm_compute; reflexivity|].
  apply (Session_backpressure sub 5 fresh no_cbs [WError EWOULDBLOCK; WSpace 10] 1 w0 stopped sub_is_ok).
  - vm_compute. reflexivity.
  - reflexivity.
  - vm_compute. reflexivity.
  - exact stopped_reachable.
  - vm_compute. reflexivity.
Defined.

(** Another thread closes the connection; the output drains, so the
    write-complete callback is queued behind the close. *)
Definition closing : sworld := next stopped (LForeign AForceClose).
Definition drained : sworld := next closing (LPoll POLLOUT (IoData [])).
Definition closed : sworld := next drained LFunctor.
Definition revived : sworld := next closed LFunctor.

Lemma revived_reachable : rtc (tcp_step user) w0 revived.
Proof.
  transitivity stopped.
  { assert (H := stopped_reachable). induction H as [|a b c [Hab _] _ IH]; [constructor | by eapply rtc_l]. }
  apply (rtc_l _ _ closing); [exists (LForeign AForceClose); split; [exact I | vm_compute; reflexivity]|].
  apply (rtc_l _ _ drained); [exists (LPoll POLLOUT (IoData [])); split; vm_compute; reflexivity|].
  apply (rtc_l _ _ closed); [exists LFunctor; split; [exact I | vm_compute; reflexivity]|].
  apply (rtc_l _ _ revived); [exists LFunctor; split; [exact I | vm_compute; reflexivity] | constructor].
Qed.
End Example.

(** The session revives a closed connection. [OnWriteComplete] calls
    [startRead()] without looking at the state, and the callback may run after
    the connection was closed: the channel of the dead connection is armed
    again, the poller reports the end of the stream once more, and
    [handleClose] fails its assertion. The run: reading is stopped at the
    high-water mark, another thread calls [forceClose()], the output drains,
    the close runs, then the write-complete callback. *)
Theorem Session_startRead_after_close :
  exists w, rtc (tcp_step (session_user true Example.sub)) Example.w0 w /\
    state w = kDisconnected /\ isReading (chan w) = true /\
    deliverable w POLLIN = true /\
    exec_label (session_user true Example.sub) w (LPoll POLLIN (IoData [])) = Some (Fail FAssert).
Proof.
  exists Example.revived. split; [apply Example.revived_reachable|]. vm_compute. split_and!; reflexivity.
Qed.
