(* ===== verification/EventLoop.v ===== *)
(** * [muduo::net::EventLoop] ([3rd_party/muduo/muduo/net/EventLoop.{h,cc}])

    The loop thread and the threads that hand it functors. Every access to
    shared state is one step: pushing under [mutex_], writing the eventfd,
    setting [quit_], swapping the queue. [F] is the type of functors;
    [body f] is what [f] does to the loop when it runs. *)
From S2P Require Import Prelude Monitor.

Section eventloop.
Context {F : Type}.

(** What code running in the loop thread does to the loop. *)
Inductive laction := LQueue (f : F) | LQuit.

Context (body : F -> list laction).

(** Where the loop thread is. *)
Inductive pc :=
  | NotStarted
  | AtWhile                                  (** before [while (!quit_)] *)
  | AtPoll                                   (** in [poller_->poll] *)
  | AtActive (todo : list (option (list laction))) (** dispatching: [None] is the wakeup channel,
                                                 [Some l] another channel whose handler does [l] *)
  | AtSwap                                   (** [doPendingFunctors], before the swap *)
  | AtRun (functors : list F)                (** ... the functors still to run *)
  | Stopped.

(** What another thread does. *)
Inductive finstr := IPush (f : F) | IWake | ISetQuit.

Record loop_state := mkLoop {
  looping_ : bool;
  quit_ : bool;
  eventHandling_ : bool;
  callingPendingFunctors_ : bool;
  iteration_ : Z;
  pendingFunctors_ : list F;
  wakeups : Z;                         (** the counter of [wakeupFd_] *)
  where_ : pc;
  others : gmap tid_t (list finstr);
  pushed : list F;                     (** ghost: everything ever queued *)
  executed : list F;                   (** ghost: everything run, in order *)
}.

(** ** Methods *)
Definition EventLoop_ctor (progs : gmap tid_t (list finstr)) : loop_state :=
  mkLoop false false false false 0 [] 0 NotStarted progs [] [].

(** An eventfd holds at most 2^64-2; a write that would exceed it fails. *)
Definition wakeup (s : loop_state) : loop_state :=
  mkLoop (looping_ s) (quit_ s) (eventHandling_ s) (callingPendingFunctors_ s) (iteration_ s) (pendingFunctors_ s)
    (if wakeups s + 1 <=? 2 ^ 64 - 2 then wakeups s + 1 else wakeups s) (where_ s) (others s) (pushed s) (executed s).

(** [handleRead]: reading an eventfd resets it. *)
Definition handleRead (s : loop_state) : loop_state :=
  mkLoop (looping_ s) (quit_ s) (eventHandling_ s) (callingPendingFunctors_ s) (iteration_ s) (pendingFunctors_ s)
    0 (where_ s) (others s) (pushed s) (executed s).

Definition push (s : loop_state) (f : F) : loop_state :=
  mkLoop (looping_ s) (quit_ s) (eventHandling_ s) (callingPendingFunctors_ s) (iteration_ s) (pendingFunctors_ s ++ [f])
    (wakeups s) (where_ s) (others s) (pushed s ++ [f]) (executed s).

(** [queueInLoop] called by the loop thread. *)
Definition queueInLoop (s : loop_state) (f : F) : loop_state :=
  let s := push s f in
  if callingPendingFunctors_ s then wakeup s else s.

(** [queueInLoop] and [quit] called by another thread. *)
Definition queueInLoop_foreign (f : F) : list finstr := [IPush f; IWake].
Definition quit_foreign : list finstr := [ISetQuit; IWake].

Definition set_quit (s : loop_state) (b : bool) : loop_state :=
  mkLoop (looping_ s) b (eventHandling_ s) (callingPendingFunctors_ s) (iteration_ s) (pendingFunctors_ s)
    (wakeups s) (where_ s) (others s) (pushed s) (executed s).
Definition set_where (s : loop_state) (p : pc) : loop_state :=
  mkLoop (looping_ s) (quit_ s) (eventHandling_ s) (callingPendingFunctors_ s) (iteration_ s) (pendingFunctors_ s)
    (wakeups s) p (others s) (pushed s) (executed s).
Definition set_flags (s : loop_state) (looping handling calling : bool) (it : Z) : loop_state :=
  mkLoop looping (quit_ s) handling calling it (pendingFunctors_ s)
    (wakeups s) (where_ s) (others s) (pushed s) (executed s).
Definition set_others (s : loop_state) (o : gmap tid_t (list finstr)) : loop_state :=
  mkLoop (looping_ s) (quit_ s) (eventHandling_ s) (callingPendingFunctors_ s) (iteration_ s) (pendingFunctors_ s)
    (wakeups s) (where_ s) o (pushed s) (executed s).

(** [quit] in the loop thread does not wake itself up. *)
Definition quit (s : loop_state) : loop_state := set_quit s true.
Definition run_action (s : loop_state) (a : laction) : loop_state :=
  match a with LQueue f => queueInLoop s f | LQuit => quit s end.
Definition run_actions (s : loop_state) (l : list laction) : loop_state := fold_left run_action l s.

(** ** Steps of the loop thread

    [active] is what [poll] returns: the wakeup channel only if the eventfd is
    readable, nothing on a timeout. The thread calls [loop] first: what it
    queues before that is not a step (see [queued_before_loop_waits]). *)
Definition loop_step (s : loop_state) (active : list (option (list laction))) : res (option loop_state) :=
  match where_ s with
  | NotStarted =>
      (* loop(): assert(!looping_); looping_ = true; quit_ = false *)
      assert_ (negb (looping_ s));;
      Ok (Some (set_where (set_quit (set_flags s true (eventHandling_ s) (callingPendingFunctors_ s) (iteration_ s)) false) AtWhile))
  | AtWhile =>
      Ok (Some (if quit_ s then set_where (set_flags s false (eventHandling_ s) (callingPendingFunctors_ s) (iteration_ s)) Stopped
                else set_where s AtPoll))
  | AtPoll =>
      if forallb (fun a => match a with None => 0 <? wakeups s | Some _ => true end) active
      then Ok (Some (set_where (set_flags s (looping_ s) true (callingPendingFunctors_ s) (iteration_ s + 1)) (AtActive active)))
      else Ok None
  | AtActive (None :: todo) => Ok (Some (set_where (handleRead s) (AtActive todo)))
  | AtActive (Some l :: todo) => Ok (Some (set_where (run_actions s l) (AtActive todo)))
  | AtActive [] => Ok (Some (set_where (set_flags s (looping_ s) false (callingPendingFunctors_ s) (iteration_ s)) AtSwap))
  | AtSwap =>
      (* callingPendingFunctors_ = true; functors.swap(pendingFunctors_) *)
      Ok (Some (mkLoop (looping_ s) (quit_ s) (eventHandling_ s) true (iteration_ s) []
        (wakeups s) (AtRun (pendingFunctors_ s)) (others s) (pushed s) (executed s)))
  | AtRun (f :: functors) =>
      let s := mkLoop (looping_ s) (quit_ s) (eventHandling_ s) (callingPendingFunctors_ s) (iteration_ s) (pendingFunctors_ s)
        (wakeups s) (AtRun functors) (others s) (pushed s) (executed s ++ [f]) in
      Ok (Some (run_actions s (body f)))
  | AtRun [] => Ok (Some (set_where (set_flags s (looping_ s) (eventHandling_ s) false (iteration_ s)) AtWhile))
  | Stopped => Ok None
  end.

(** ** Steps of another thread *)
Definition foreign_step (s : loop_state) (t : tid_t) : option loop_state :=
  match others s !! t with
  | Some (i :: k) =>
      let s := set_others s (<[t := k]> (others s)) in
      Some match i with
      | IPush f => push s f
      | IWake => wakeup s
      | ISetQuit => set_quit s true
      end
  | _ => None
  end.

Inductive lstep (s s' : loop_state) : Prop :=
  | step_loop active : loop_step s active = Ok (Some s') -> lstep s s'
  | step_foreign t : foreign_step s t = Some s' -> lstep s s'.

(** Programs of other threads: sequences of [queueInLoop] and [quit]. *)
Inductive fcall := CQueue (f : F) | CQuit.
Definition fprogram (cs : list fcall) : list finstr :=
  concat ((fun c => match c with CQueue f => queueInLoop_foreign f | CQuit => quit_foreign end) <$> cs).

(** A thread about to write the eventfd. *)
Definition about_to_wake (k : list finstr) : bool := match k with IWake :: _ => true | _ => false end.
Definition wake_coming (s : loop_state) : Prop :=
  0 < wakeups s \/ exists t k, others s !! t = Some k /\ about_to_wake k = true.

(** ** Invariants *)

(** Code of another thread: pushes and quits are followed by a wakeup. *)
Fixpoint wakes (k : list finstr) : Prop :=
  match k with
  | [] => True
  | IWake :: k => wakes k
  | (IPush _ | ISetQuit) :: k => about_to_wake k = true /\ wakes k
  end.

(** The loop has passed the point where it would notice new work by itself. *)
Definition unaware (p : pc) : bool :=
  match p with NotStarted | AtWhile | AtPoll | AtRun _ => true | _ => false end.

Definition to_run (p : pc) : list F := match p with AtRun fs => fs | _ => [] end.

Record linv (s : loop_state) : Prop := {
  l_code : map_Forall (fun _ k => wakes k) (others s);
  l_count : 0 <= wakeups s;
  l_wake : unaware (where_ s) = true -> pendingFunctors_ s <> [] -> wake_coming s;
  l_calling : callingPendingFunctors_ s = match where_ s with AtRun _ => true | _ => false end;
  l_quit : where_ s = AtPoll -> quit_ s = true -> wake_coming s;
  l_fifo : pushed s = executed s ++ to_run (where_ s) ++ pendingFunctors_ s;
  l_looping : where_ s = NotStarted -> looping_ s = false;
}.

Lemma wakes_program cs : wakes (fprogram cs).
Proof. induction cs as [|[f|] cs IH]; cbn; auto. Qed.

Lemma wakeup_pos s : 0 <= wakeups s -> 0 < wakeups (wakeup s).
Proof. intros. cbn. case_cmp; lia. Qed.

(** What code in the loop thread changes: it appends functors, and while
    functors are being run it also wakes the loop. *)
Definition acted (s s' : loop_state) (fs : list F) : Prop :=
  pendingFunctors_ s' = pendingFunctors_ s ++ fs /\ pushed s' = pushed s ++ fs /\
  executed s' = executed s /\ where_ s' = where_ s /\ others s' = others s /\
  callingPendingFunctors_ s' = callingPendingFunctors_ s /\ looping_ s' = looping_ s /\
  (0 <= wakeups s -> 0 <= wakeups s') /\ (0 < wakeups s -> 0 < wakeups s') /\
  (callingPendingFunctors_ s = true -> fs <> [] -> 0 <= wakeups s -> 0 < wakeups s').

Lemma run_action_spec s a : exists fs, acted s (run_action s a) fs.
Proof.
  destruct a as [f|]; cbn.
  - exists [f]. unfold acted, queueInLoop. cbn. destruct (callingPendingFunctors_ s) eqn:E; cbn; rewrite ?E;
      split_and!; try done; intros; repeat case_cmp; lia.
  - exists []. unfold acted. cbn. rewrite !app_nil_r. naive_solver.
Qed.

Lemma acted_trans s1 s2 s3 fs gs : acted s1 s2 fs -> acted s2 s3 gs -> acted s1 s3 (fs ++ gs).
Proof.
  intros (p1 & q1 & e1 & w1 & o1 & c1 & l1 & n1 & m1 & k1) (p2 & q2 & e2 & w2 & o2 & c2 & l2 & n2 & m2 & k2).
  unfold acted. rewrite p2, p1, q2, q1, !app_assoc. split_and!; try congruence; auto.
  intros Hc Hne Hn. destruct (decide (fs = [])) as [->|Hfs]; [apply k2; [congruence | done | auto] | auto].
Qed.

Lemma run_actions_spec l s : exists fs, acted s (run_actions s l) fs.
Proof.
  revert s. induction l as [|a l IH]; intros s.
  - exists []. unfold acted. cbn. rewrite !app_nil_r. naive_solver.
  - destruct (run_action_spec s a) as [fs H1]. destruct (IH (run_action s a)) as [gs H2].
    exists (fs ++ gs). eapply acted_trans; [exact H1 | exact H2].
Qed.

Lemma wake_coming_mono s s' : others s' = others s -> (0 < wakeups s -> 0 < wakeups s') -> wake_coming s -> wake_coming s'.
Proof. intros Ho Hw [H|(t & k & H & ?)]; [left; auto | right; exists t, k; by rewrite Ho]. Qed.

Lemma loop_step_inv s active s' : linv s -> loop_step s active = Ok (Some s') -> linv s'.
Proof.
  intros [Hc Hn Hw Hcall Hq Hf Hl] H. unfold loop_step in H.
  destruct (where_ s) as [| | |[|[acts|] todo]| |[|f fs]|] eqn:Ew; cbn in Hw, Hf; try done.
  - rewrite (Hl eq_refl) in H. injection H as <-. split; cbn; try done.
  - injection H as <-. destruct (quit_ s) eqn:Eq; split; cbn; try done. by rewrite Eq.
  - destruct (forallb _ _); [|done]. injection H as <-. by split.
  - injection H as <-. by split.
  - injection H as <-. destruct (run_actions_spec acts s) as (fs & Hp & Hpu & Hex & Hwh & Hot & Hca & Hlo & Hnn & _ & _).
    split; cbn; rewrite ?Hp, ?Hpu, ?Hex, ?Hot, ?Hca, ?Hlo; try done; [by auto | by rewrite Hf, app_assoc].
  - injection H as <-. by split.
  - injection H as <-. split; cbn; try done. by rewrite app_nil_r.
  - injection H as <-. by split.
  - set (s1 := mkLoop _ _ _ _ _ _ _ _ _ _ _) in H.
    destruct (run_actions_spec (body f) s1) as (gs & Hp & Hpu & Hex & Hwh & Hot & Hca & Hlo & Hnn & Hpos & Hwk).
    injection H as <-. split; rewrite ?Hp, ?Hpu, ?Hex, ?Hot, ?Hca, ?Hlo, ?Hwh; cbn; try done; [by auto | |].
    + intros _ Hne. destruct (decide (gs = [])) as [->|Hg].
      * rewrite app_nil_r in Hne. eapply (wake_coming_mono s); [done | exact Hpos | by apply Hw].
      * left. by apply Hwk.
    + rewrite Hf, <- !app_assoc. cbn. by rewrite <- !app_assoc.
Qed.

Lemma foreign_step_inv s t s' : linv s -> foreign_step s t = Some s' -> linv s'.
Proof.
  intros [Hc Hn Hw Hcall Hq Hf Hl] H. unfold foreign_step in H.
  destruct (others s !! t) as [[|i k]|] eqn:Et; try done. injection H as <-.
  pose proof (Hc t _ Et) as Hk.
  destruct i as [f| |]; cbn in Hk.
  - destruct Hk as [Ha Hk].
    assert (Hwc : wake_coming (push (set_others s (<[t := k]> (others s))) f)).
    { right. exists t, k. cbn. by rewrite lookup_insert_eq. }
    split; cbn; try done; [by apply map_Forall_insert_2 | by rewrite Hf, <- !app_assoc].
  - pose proof (wakeup_pos s Hn) as Hpos. cbn in Hpos.
    split; cbn; try done; [by apply map_Forall_insert_2 | lia | by left | by left].
  - destruct Hk as [Ha Hk].
    assert (Hwc : wake_coming (set_quit (set_others s (<[t := k]> (others s))) true)).
    { right. exists t, k. cbn. by rewrite lookup_insert_eq. }
    split; cbn; try done. by apply map_Forall_insert_2.
Qed.

Lemma lstep_inv s s' : linv s -> lstep s s' -> linv s'.
Proof. intros Hi []; [by eapply loop_step_inv | by eapply foreign_step_inv]. Qed.

Lemma ctor_inv progs : linv (EventLoop_ctor (fprogram <$> progs)).
Proof.
  split; cbn; try done. intros t k. rewrite lookup_fmap, fmap_Some. intros (cs & _ & ->). apply wakes_program.
Qed.
End eventloop.
Arguments fcall F : clear implicits.
Arguments loop_state F : clear implicits.
Arguments laction F : clear implicits.

Section properties.
Context {F : Type} (body : F -> list (laction F)).

(** C16: no wakeup is lost. Any number of threads call [queueInLoop] and
    [quit], functors and channel handlers queue more functors and quit, in any
    interleaving with the loop. Whenever the loop sits in [poll] (or is about
    to enter it) with functors pending, or with [quit_] set, the eventfd is
    readable or some thread is about to write it: [poll] returns instead of
    sleeping on work that is already there. (Functors the loop's own thread
    queues before it calls [loop] are outside: they wait for the first event.) *)
Theorem EventLoop_no_lost_wakeup (progs : gmap tid_t (list (fcall F))) s :
  rtc (lstep body) (EventLoop_ctor (fprogram <$> progs)) s -> where_ s = AtPoll ->
  (pendingFunctors_ s <> [] \/ quit_ s = true) -> wake_coming s.
Proof.
  intros Hr Hp. assert (Hi : linv s) by (eapply rtc_invariant; [apply lstep_inv | exact Hr | apply ctor_inv]).
  intros [H|H]; [apply (l_wake _ Hi); [by rewrite Hp | done] | by apply (l_quit _ Hi)].
Qed.

(** C30: functors run exactly once, in the order they were queued. At every
    moment the functors ever queued are, in order, those already run, those of
    the batch being run, and those still pending; and starting the loop never
    fails its assertion. *)
Theorem EventLoop_fifo (progs : gmap tid_t (list (fcall F))) s :
  rtc (lstep body) (EventLoop_ctor (fprogram <$> progs)) s ->
  pushed s = executed s ++ to_run (where_ s) ++ pendingFunctors_ s /\
  forall active, is_ok (loop_step body s active).
Proof.
  intros Hr. assert (Hi : linv s) by (eapply rtc_invariant; [apply lstep_inv | exact Hr | apply ctor_inv]).
  split; [apply (l_fifo _ Hi)|]. intros active. unfold loop_step.
  destruct (where_ s) as [| | |[|[fs|] todo]| |[|f fs]|] eqn:E; try (by eexists).
  - rewrite (l_looping _ Hi E). by eexists.
  - case_match; by eexists.
Qed.

(** A [quit] before [loop] is lost. [loop] starts by clearing [quit_]: if
    another thread's [quit] completes first, the loop enters [poll] with
    [quit_] false, and nothing will stop it. *)
Theorem quit_before_loop_lost :
  exists s : loop_state F, rtc (lstep body) (EventLoop_ctor {[1 := fprogram [CQuit]]}) s /\
    others s !! 1 = Some [] /\ where_ s = AtPoll /\ quit_ s = false.
Proof.
  eexists. split.
  - eapply rtc_l; [apply (step_foreign _ _ _ 1); reflexivity|].
    eapply rtc_l; [apply (step_foreign _ _ _ 1); reflexivity|].
    eapply rtc_l; [apply (step_loop _ _ _ []); reflexivity|].
    eapply rtc_l; [apply (step_loop _ _ _ []); reflexivity|]. constructor.
  - vm_compute. split_and!; reflexivity.
Qed.

(** What the loop's own thread queues before [loop] wakes nobody: the loop goes
    to sleep in [poll] on a pending functor. *)
Theorem queued_before_loop_waits (f : F) :
  exists s : loop_state F, rtc (lstep body) (queueInLoop (EventLoop_ctor ∅) f) s /\
    where_ s = AtPoll /\ pendingFunctors_ s = [f] /\ wakeups s = 0 /\ others s = ∅.
Proof.
  eexists. split; [|split; [|split; [|split]]].
  - eapply rtc_l; [apply (step_loop _ _ _ []); reflexivity|].
    eapply rtc_l; [apply (step_loop _ _ _ []); reflexivity|]. constructor.
  - reflexivity.
  - reflexivity.
  - reflexivity.
  - reflexivity.
Qed.

(** Run a schedule: [None] is the loop thread, with nothing to poll. *)
Fixpoint lrun (s : loop_state F) (sched : list (option tid_t)) : option (loop_state F) :=
  match sched with
  | [] => Some s
  | m :: sched =>
      s' ← match m with
           | Some t => foreign_step s t
           | None => match loop_step body s [] with Ok o => o | Fail _ => None end
           end;
      lrun s' sched
  end.

Lemma lrun_rtc sched s s' : lrun s sched = Some s' -> rtc (lstep body) s s'.
Proof.
  revert s. induction sched as [|[t|] sched IH]; cbn; intros s H; [by simplify_eq|..];
    apply bind_Some in H as (s1 & H1 & H2); (eapply rtc_l; [|by apply IH]).
  - by apply (step_foreign _ _ _ t).
  - apply (step_loop _ _ _ []). destruct (loop_step body s []); [by subst | done].
Qed.

(** A functor queued before [quit], by the same thread, may never run: when
    the loop is past the swap of [doPendingFunctors], it next looks at [quit_].
    [TcpServer] destroys its connections in just this way, queueing
    [connectDestroyed] to the loops of its pool and then quitting them. *)
Theorem queued_before_quit_not_run (f : F) :
  exists s : loop_state F, rtc (lstep body) (EventLoop_ctor {[1 := fprogram [CQueue f; CQuit]]}) s /\
    others s !! 1 = Some [] /\ where_ s = Stopped /\ pendingFunctors_ s = [f] /\ executed s = [].
Proof.
  destruct (lrun (EventLoop_ctor {[1 := fprogram [CQueue f; CQuit]]})
    (replicate 5 None ++ replicate 4 (Some 1) ++ replicate 2 None)) as [s|] eqn:E;
    [|exfalso; revert E; vm_compute; discriminate].
  exists s. split; [by eapply lrun_rtc|]. revert E. vm_compute. intros [= <-]. split_and!; reflexivity.
Qed.
End properties.

(** ** Witnesses: a functor queued while the loop is in [poll] *)
Module Example.
Definition body (f : Z) : list (laction Z) := if f =? 1 then [LQueue 2] else [].
Definition progs : gmap tid_t (list (fcall Z)) := {[7 := [CQueue 1]]}.
Definition force (r : res (option (loop_state Z))) (d : loop_state Z) : loop_state Z :=
  match r with Ok (Some s) => s | _ => d end.
Definition s0 := EventLoop_ctor (fprogram <$> progs).
Definition s1 := force (loop_step body s0 []) s0.
Definition s2 := force (loop_step body s1 []) s1.
Definition s3 := default s2 (foreign_step s2 7).
Definition s4 := default s3 (foreign_step s3 7).
Definition s5 := force (loop_step body s4 [None]) s4.

Lemma s4_reachable : rtc (lstep body) s0 s4.
Proof.
  apply (rtc_l _ _ s1); [apply (step_loop _ _ _ []); reflexivity|].
  apply (rtc_l _ _ s2); [apply (step_loop _ _ _ []); reflexivity|].
  apply (rtc_l _ _ s3); [apply (step_foreign _ _ _ 7); reflexivity|].
  apply (rtc_l _ _ s4); [apply (step_foreign _ _ _ 7); reflexivity | constructor].
Qed.

Lemma EventLoop_no_lost_wakeup_witness :
  where_ s4 = AtPoll /\ pendingFunctors_ s4 = [1] /\ wake_coming s4.
Proof.
  split; [reflexivity | split; [reflexivity|]].
  apply (EventLoop_no_lost_wakeup body progs s4 s4_reachable); [reflexivity | left; discriminate].
Defined.

Lemma EventLoop_fifo_witness : pushed s4 = executed s4 ++ to_run (where_ s4) ++ pendingFunctors_ s4.
Proof. exact (proj1 (EventLoop_fifo body progs s4 s4_reachable)). Defined.
End Example.
