(* ===== verification/Poller.v ===== *)
(** * [Poller], [EPollPoller] and [PollPoller]
      ([3rd_party/muduo/muduo/net/Poller.{h,cc}], [poller/EPollPoller.cc],
      [poller/PollPoller.cc])

    A poller maps descriptors to channels and tells the kernel what to watch.
    Channels are shared objects: [heap] maps their addresses to their current
    state, and the pollers write [index_] through it. Both pollers implement
    the interface [PollerImpl]; a client that updates and removes channels is
    a sequence of [pop]. *)
From S2P Require Import Prelude Channel.

(** Address of a channel. *)
Definition cid := Z.
Abbreviation heap := (gmap cid Channel).

(** [Poller::hasChannel] *)
Definition hasChannel (channels_ : gmap Z cid) (h : heap) (c : cid) : bool :=
  match h !! c with
  | Some ch => bool_decide (channels_ !! fd_ ch = Some c)
  | None => false
  end.

(** Dereferencing a channel pointer. *)
Definition deref (h : heap) (c : cid) : res Channel :=
  match h !! c with Some ch => Ok ch | None => Fail FBounds end.

(** ** Interface *)
Class PollerImpl (P : Type) := {
  updateChannel : P -> heap -> cid -> res (P * heap);
  removeChannel : P -> heap -> cid -> res (P * heap);
  (** what the kernel watches: events by descriptor *)
  watched : P -> gmap Z Z;
  registered : P -> gmap Z cid;
}.

(** ** [EPollPoller] *)
Module EPoll.
Definition kNew : Z := -1.
Definition kAdded : Z := 1.
Definition kDeleted : Z := 2.

(** [epoll] is the kernel's interest list: events and the channel pointer. *)
Record EPollPoller := mkEPoll {
  channels_ : gmap Z cid;
  epoll : gmap Z (Z * cid);
  events_size : Z;
}.
Definition kInitEventListSize : Z := 16.
Definition EPollPoller_ctor : EPollPoller := mkEPoll ∅ ∅ kInitEventListSize.

Inductive ctl := EPOLL_CTL_ADD | EPOLL_CTL_MOD | EPOLL_CTL_DEL.

(** [update]: [epoll_ctl] fails with [EEXIST] or [ENOENT]; a failed ADD or MOD
    is fatal, a failed DEL is logged. *)
Definition update (p : EPollPoller) (operation : ctl) (c : cid) (ch : Channel) : res EPollPoller :=
  let fd := fd_ ch in
  match operation, epoll p !! fd with
  | EPOLL_CTL_ADD, None | EPOLL_CTL_MOD, Some _ =>
      Ok (mkEPoll (channels_ p) (<[fd := (Channel.events_ ch, c)]> (epoll p)) (events_size p))
  | EPOLL_CTL_DEL, Some _ => Ok (mkEPoll (channels_ p) (delete fd (epoll p)) (events_size p))
  | EPOLL_CTL_DEL, None => Ok p
  | _, _ => Fail FFatal
  end.

Definition updateChannel (p : EPollPoller) (h : heap) (c : cid) : res (EPollPoller * heap) :=
  ch ← deref h c;
  let index := index_ ch in
  let fd := fd_ ch in
  if (index =? kNew) || (index =? kDeleted) then
    p ← (if index =? kNew then
           assert_ (bool_decide (channels_ p !! fd = None));;
           Ok (mkEPoll (<[fd := c]> (channels_ p)) (epoll p) (events_size p))
         else
           assert_ (negb (bool_decide (channels_ p !! fd = None)));;
           assert_ (bool_decide (channels_ p !! fd = Some c));;
           Ok p);
    let ch := set_index ch kAdded in
    p ← update p EPOLL_CTL_ADD c ch;
    Ok (p, <[c := ch]> h)
  else
    assert_ (negb (bool_decide (channels_ p !! fd = None)));;
    assert_ (bool_decide (channels_ p !! fd = Some c));;
    assert_ (index =? kAdded);;
    if isNoneEvent ch then
      p ← update p EPOLL_CTL_DEL c ch;
      Ok (p, <[c := set_index ch kDeleted]> h)
    else
      p ← update p EPOLL_CTL_MOD c ch;
      Ok (p, h).

Definition removeChannel (p : EPollPoller) (h : heap) (c : cid) : res (EPollPoller * heap) :=
  ch ← deref h c;
  let fd := fd_ ch in
  assert_ (negb (bool_decide (channels_ p !! fd = None)));;
  assert_ (bool_decide (channels_ p !! fd = Some c));;
  assert_ (isNoneEvent ch);;
  let index := index_ ch in
  assert_ ((index =? kAdded) || (index =? kDeleted));;
  let p := mkEPoll (delete fd (channels_ p)) (epoll p) (events_size p) in
  p ← (if index =? kAdded then update p EPOLL_CTL_DEL c ch else Ok p);
  Ok (p, <[c := set_index ch kNew]> h).

(** [fillActiveChannels] on the events the kernel returned. *)
Fixpoint fillActiveChannels (p : EPollPoller) (h : heap) (evs : list (Z * cid)) (active : list cid)
  : res (heap * list cid) :=
  match evs with
  | [] => Ok (h, active)
  | (ev, c) :: evs =>
      ch ← deref h c;
      assert_ (negb (bool_decide (channels_ p !! fd_ ch = None)));;
      assert_ (bool_decide (channels_ p !! fd_ ch = Some c));;
      fillActiveChannels p (<[c := set_revents ch ev]> h) evs (active ++ [c])
  end.

(** [poll]; [evs] is what [epoll_wait] stored, [None] an error. *)
Definition poll (p : EPollPoller) (h : heap) (evs : option (list (Z * cid))) : res (EPollPoller * heap * list cid) :=
  match evs with
  | Some ((_ :: _) as l) =>
      let numEvents := zlen l in
      assert_ (numEvents <=? events_size p);;
      '(h, active) ← fillActiveChannels p h l [];
      let size := if numEvents =? events_size p then events_size p * 2 else events_size p in
      Ok (mkEPoll (channels_ p) (epoll p) size, h, active)
  | _ => Ok (p, h, [])
  end.

#[global] Instance epoll_impl : PollerImpl EPollPoller := {|
  Poller.updateChannel := updateChannel;
  Poller.removeChannel := removeChannel;
  watched := fun p => fst <$> epoll p;
  registered := channels_;
|}.
End EPoll.

(** ** [PollPoller] *)
Module Poll.
Record pollfd := mkPollfd { pfd : Z; pevents : Z; prevents : Z }.
Record PollPoller := mkPoll { channels_ : gmap Z cid; pollfds_ : list pollfd }.
Definition PollPoller_ctor : PollPoller := mkPoll ∅ [].

Definition short := swrap 16.

Definition updateChannel (p : PollPoller) (h : heap) (c : cid) : res (PollPoller * heap) :=
  ch ← deref h c;
  let fd := fd_ ch in
  if index_ ch <? 0 then
    assert_ (bool_decide (channels_ p !! fd = None));;
    let pollfds := pollfds_ p ++ [mkPollfd fd (short (events_ ch)) 0] in
    let idx := zlen pollfds - 1 in
    Ok (mkPoll (<[fd := c]> (channels_ p)) pollfds, <[c := set_index ch idx]> h)
  else
    assert_ (negb (bool_decide (channels_ p !! fd = None)));;
    assert_ (bool_decide (channels_ p !! fd = Some c));;
    let idx := index_ ch in
    assert_ ((0 <=? idx) && (idx <? zlen (pollfds_ p)));;
    match pollfds_ p !! Z.to_nat idx with
    | None => Fail FBounds
    | Some x =>
        assert_ ((pfd x =? fd) || (pfd x =? - fd - 1));;
        let y := mkPollfd (if isNoneEvent ch then - fd - 1 else fd) (short (events_ ch)) 0 in
        Ok (mkPoll (channels_ p) (<[Z.to_nat idx := y]> (pollfds_ p)), h)
    end.

(** [pollfds_.back()]; the last element is swapped into the hole. *)
Definition removeChannel (p : PollPoller) (h : heap) (c : cid) : res (PollPoller * heap) :=
  ch ← deref h c;
  let fd := fd_ ch in
  assert_ (negb (bool_decide (channels_ p !! fd = None)));;
  assert_ (bool_decide (channels_ p !! fd = Some c));;
  assert_ (isNoneEvent ch);;
  let idx := index_ ch in
  assert_ ((0 <=? idx) && (idx <? zlen (pollfds_ p)));;
  match pollfds_ p !! Z.to_nat idx with
  | None => Fail FBounds
  | Some x =>
      assert_ ((pfd x =? - fd - 1) && (pevents x =? events_ ch));;
      let channels := delete fd (channels_ p) in
      let last_ := (length (pollfds_ p) - 1)%nat in
      if idx =? zlen (pollfds_ p) - 1 then
        Ok (mkPoll channels (take last_ (pollfds_ p)), h)
      else
        match pollfds_ p !! last_ with
        | None => Fail FBounds
        | Some y =>
            let channelAtEnd := if pfd y <? 0 then - pfd y - 1 else pfd y in
            match channels !! channelAtEnd with
            | None => Fail FBounds
            | Some c' =>
                ch' ← deref h c';
                Ok (mkPoll channels (take last_ (<[Z.to_nat idx := y]> (pollfds_ p))),
                    <[c' := set_index ch' idx]> h)
            end
        end
  end.

(** [fillActiveChannels]: the vector after the kernel wrote [revents]. *)
Fixpoint fillActiveChannels (channels : gmap Z cid) (h : heap) (fds : list pollfd) (numEvents : Z) (active : list cid)
  : res (heap * list cid) :=
  match fds with
  | [] => Ok (h, active)
  | x :: fds =>
      if 0 <? numEvents then
        if 0 <? prevents x then
          match channels !! pfd x with
          | None => Fail FAssert
          | Some c =>
              ch ← deref h c;
              assert_ (fd_ ch =? pfd x);;
              fillActiveChannels channels (<[c := set_revents ch (prevents x)]> h) fds (numEvents - 1) (active ++ [c])
          end
        else fillActiveChannels channels h fds numEvents active
      else Ok (h, active)
  end.

(** [poll]; [revents] and [numEvents] are what [::poll] stored and returned. *)
Definition poll (p : PollPoller) (h : heap) (revents : list Z) (numEvents : Z) : res (PollPoller * heap * list cid) :=
  let p := mkPoll (channels_ p) (zip_with (fun x r => mkPollfd (pfd x) (pevents x) r) (pollfds_ p) revents) in
  if 0 <? numEvents then
    '(h, active) ← fillActiveChannels (channels_ p) h (pollfds_ p) numEvents [];
    Ok (p, h, active)
  else Ok (p, h, []).

#[global] Instance poll_impl : PollerImpl PollPoller := {|
  Poller.updateChannel := updateChannel;
  Poller.removeChannel := removeChannel;
  watched := fun p => list_to_map ((fun x => (pfd x, pevents x)) <$> filter (fun x => 0 <= pfd x) (pollfds_ p));
  registered := channels_;
|}.
End Poll.

(** ** Clients

    A channel changes its interest and calls [update], or is removed. *)
Inductive pop := PUpdate (c : cid) (ev : Z) | PRemove (c : cid).

Definition pexec `{PollerImpl P} (s : P * heap) (o : pop) : res (P * heap) :=
  match o with
  | PUpdate c ev =>
      ch ← deref s.2 c;
      updateChannel s.1 (<[c := set_events ch ev]> s.2) c
  | PRemove c => removeChannel s.1 s.2 c
  end.
Fixpoint pexecs `{PollerImpl P} (s : P * heap) (os : list pop) : res (P * heap) :=
  match os with [] => Ok s | o :: os => s ← pexec s o; pexecs s os end.

(** ** Specification

    What the clients declared, by channel: its interest, or that it is gone.
    A channel first asks for something, on a descriptor no live channel uses;
    then its interest changes as often as wanted, also from nothing to nothing;
    it is removed without interest, and is not used afterwards. Its descriptor
    may be given to another channel. *)
Inductive declared := Live (ev : Z) | Gone.
Abbreviation interests := (gmap cid declared).

(** The masks channels use. *)
Definition mask (ev : Z) : bool := (0 <=? ev) && (ev <? 2 ^ 15).

(** A live channel has this descriptor. *)
Definition in_use (fds : gmap cid Z) (a : interests) (fd : Z) : bool :=
  existsb (fun '(c, d) => match d with Live _ => bool_decide (fds !! c = Some fd) | Gone => false end) (map_to_list a).

Definition pspec (fds : gmap cid Z) (a : interests) (o : pop) : option interests :=
  match o with
  | PUpdate c ev =>
      if mask ev then
        match fds !! c, a !! c with
        | Some fd, None => if (ev =? 0) || in_use fds a fd then None else Some (<[c := Live ev]> a)
        | Some _, Some (Live _) => Some (<[c := Live ev]> a)
        | _, _ => None
        end
      else None
  | PRemove c =>
      match a !! c with
      | Some (Live ev) => if ev =? 0 then Some (<[c := Gone]> a) else None
      | _ => None
      end
  end.
Fixpoint pspecs (fds : gmap cid Z) (a : interests) (os : list pop) : option interests :=
  match os with [] => Some a | o :: os => a ← pspec fds a o; pspecs fds a os end.

(** Descriptors are not negative. *)
Definition fds_ok (fds : gmap cid Z) : Prop := forall c fd, fds !! c = Some fd -> 0 <= fd.

(** No other live channel has the descriptor of [c]; this holds of all. *)
Definition alone (fds : gmap cid Z) (a : interests) (c : cid) (fd : Z) : Prop :=
  forall c' ev, a !! c' = Some (Live ev) -> fds !! c' = Some fd -> c' = c.
Definition apart (fds : gmap cid Z) (a : interests) : Prop :=
  forall c fd ev, fds !! c = Some fd -> a !! c = Some (Live ev) -> alone fds a c fd.

(** What a poller promises: descriptors with interest are watched with exactly
    that interest; what else is watched, with an empty mask, is a channel
    without interest; and live channels, no others, can be found. *)
Definition promises (fds : gmap cid Z) (a : interests) (reg : gmap Z cid) (w : gmap Z Z) : Prop :=
  (forall fd ev, ev <> 0 -> w !! fd = Some ev <-> exists c, fds !! c = Some fd /\ a !! c = Some (Live ev)) /\
  (forall fd, w !! fd = Some 0 -> exists c, fds !! c = Some fd /\ a !! c = Some (Live 0)) /\
  (forall fd c, reg !! fd = Some c <-> fds !! c = Some fd /\ exists ev, a !! c = Some (Live ev)).

(** New channels, as their constructor makes them. *)
Definition new_heap (fds : gmap cid Z) : heap := Channel_ctor <$> fds.

Class PollerLaws (P : Type) `{PollerImpl P} := {
  empty_poller : P;
  (** representation invariant *)
  rep : gmap cid Z -> interests -> P * heap -> Prop;
  rep_empty fds : rep fds ∅ (empty_poller, new_heap fds);
  rep_promises fds a s : fds_ok fds -> apart fds a -> rep fds a s -> promises fds a (registered s.1) (watched s.1);
  rep_step fds a s o a' : fds_ok fds -> apart fds a -> rep fds a s -> pspec fds a o = Some a' ->
    exists s', pexec s o = Ok s' /\ rep fds a' s';
}.

Lemma in_use_alone fds a c fd : in_use fds a fd = false -> alone fds a c fd.
Proof.
  intros Hf c' ev Ha Hfd. exfalso. apply not_true_iff_false in Hf. apply Hf, existsb_exists. exists (c', Live ev).
  split; [by apply list_elem_of_In, elem_of_map_to_list | by apply bool_decide_eq_true_2].
Qed.

Lemma alone_live fds a c fd ev : fds !! c = Some fd -> alone fds a c fd -> apart fds a -> apart fds (<[c := Live ev]> a).
Proof.
  intros Hc Hal Hap c1 fd1 ev1 H1 Ha1 c2 ev2 Ha2 H2. rewrite lookup_insert_Some in Ha1, Ha2.
  destruct Ha1 as [[<- _]|[Hn1 Ha1]], Ha2 as [[<- _]|[Hn2 Ha2]]; [done | | |by eapply (Hap c1)].
  - rewrite Hc in H1. injection H1 as <-. by eapply Hal.
  - rewrite Hc in H2. injection H2 as <-. symmetry. by eapply Hal.
Qed.

Lemma pspec_apart fds a o a' : apart fds a -> pspec fds a o = Some a' -> apart fds a'.
Proof.
  intros Hap Hs. destruct o as [c ev|c]; cbn in Hs.
  - destruct (mask ev); [|done]. destruct (fds !! c) as [fd|] eqn:Hfd; [|done]. destruct (a !! c) as [[ev'|]|] eqn:Ea; [|done|].
    + injection Hs as <-. eapply alone_live; [done | by eapply Hap | done].
    + destruct (ev =? 0); [done|]. destruct (in_use fds a fd) eqn:Eu; [done|]. injection Hs as <-.
      eapply alone_live; [done | by eapply in_use_alone | done].
  - destruct (a !! c) as [[ev|]|]; try done. destruct (ev =? 0); [|done]. injection Hs as <-.
    intros c1 fd1 ev1 H1 [[_ ?]|[_ Ha1]]%lookup_insert_Some c2 ev2 [[_ ?]|[_ Ha2]]%lookup_insert_Some; try done. by eapply Hap.
Qed.

Lemma rep_steps `{PollerLaws P} fds a s os a' : fds_ok fds -> apart fds a -> rep fds a s -> pspecs fds a os = Some a' ->
  exists s', pexecs s os = Ok s' /\ rep fds a' s' /\ apart fds a'.
Proof.
  intros Hok. revert a s. induction os as [|o os IH]; intros a s Hap Hr Hs; cbn in *.
  { simplify_eq. by exists s. }
  apply bind_Some in Hs as (a1 & Ha1 & Hs). destruct (rep_step fds a s o a1) as (s1 & -> & Hr1); [done..|].
  cbn. apply (IH a1); [by eapply pspec_apart | done | done].
Qed.
