(* ===== verification/PollerProps.v ===== *)
(** * The pollers implement their interface *)
From S2P Require Import Prelude Channel Poller.

(** ** [EPollPoller] *)
Section epoll.
Import EPoll.

(** What [index_] says of a live channel: it is in the kernel's list, or left
    out because it has no interest. *)
Definition placed (ch : Channel) (d : option declared) : Prop :=
  match d with
  | Some (Live ev) => Channel.events_ ch = ev /\ (index_ ch = kAdded \/ index_ ch = kDeleted /\ ev = 0)
  | _ => index_ ch = kNew
  end.

(** The kernel's list. *)
Definition watches (fds : gmap cid Z) (a : interests) (h : heap) (m : gmap Z (Z * cid)) : Prop := forall fd x,
  m !! fd = Some x <->
  exists c ch ev, fds !! c = Some fd /\ a !! c = Some (Live ev) /\ h !! c = Some ch /\ index_ ch = kAdded /\ x = (ev, c).
(** The map of live channels. *)
Definition lives (fds : gmap cid Z) (a : interests) (m : gmap Z cid) : Prop := forall fd c,
  m !! fd = Some c <-> fds !! c = Some fd /\ exists ev, a !! c = Some (Live ev).

Record epoll_rep (fds : gmap cid Z) (a : interests) (s : EPollPoller * heap) : Prop := {
  e_heap : forall c fd, fds !! c = Some fd -> exists ch, s.2 !! c = Some ch /\ fd_ ch = fd /\ placed ch (a !! c);
  e_dom : forall c d, a !! c = Some d -> is_Some (fds !! c);
  e_chan : lives fds a (channels_ s.1);
  e_epoll : watches fds a s.2 (epoll s.1);
}.

Lemma epoll_empty fds : epoll_rep fds ∅ (EPollPoller_ctor, new_heap fds).
Proof.
  split; cbn.
  - intros c fd Hc. exists (Channel_ctor fd). unfold new_heap. rewrite lookup_fmap, Hc, lookup_empty. done.
  - intros c d. by rewrite lookup_empty.
  - intros fd c. rewrite lookup_empty. split; [done|]. intros (_ & ev & H). by rewrite lookup_empty in H.
  - intros fd x. rewrite lookup_empty. split; [done|]. intros (c & ch & ev & _ & H & _). by rewrite lookup_empty in H.
Qed.

Lemma epoll_promises fds a s : epoll_rep fds a s -> promises fds a (registered s.1) (watched s.1).
Proof.
  intros [Hh Hd Hc He]. split_and!; [| |exact Hc].
  - intros fd ev Hne. cbn. rewrite lookup_fmap, fmap_Some. split.
    + intros ([ev' c] & Hx & ->). apply He in Hx as (c' & ch & ev & ? & ? & ? & ? & [= <- <-]). by exists c.
    + intros (c & Hf & Ha). exists (ev, c). split; [|done]. apply He. destruct (Hh c fd Hf) as (ch & Hch & _ & Hp). rewrite Ha in Hp.
      exists c, ch, ev. split_and!; try done. by destruct Hp as [_ [?|[_ ?]]].
  - intros fd. cbn. rewrite lookup_fmap, fmap_Some. intros ([ev' c] & Hx & Hev). apply He in Hx as (c' & ch & ev & ? & ? & ? & ? & [= <- <-]).
    cbn in Hev. subst ev'. by exists c.
Qed.

(** The heap after a channel [c] changed. *)
Lemma epoll_heap_update (fds : gmap cid Z) (a : interests) (h : heap) c ch d :
  (forall c fd, fds !! c = Some fd -> exists ch, h !! c = Some ch /\ fd_ ch = fd /\ placed ch (a !! c)) ->
  fds !! c = Some (fd_ ch) -> placed ch (Some d) ->
  forall c' fd, fds !! c' = Some fd -> exists ch', <[c := ch]> h !! c' = Some ch' /\ fd_ ch' = fd /\ placed ch' (<[c := d]> a !! c').
Proof.
  intros Hh Hc Hd c' fd Hc'. destruct (decide (c = c')) as [<-|Hne].
  - exists ch. rewrite !lookup_insert_eq. split_and!; [done | congruence | done].
  - rewrite !lookup_insert_ne by done. by apply Hh.
Qed.

Lemma dom_insert_ok (fds : gmap cid Z) (a : interests) c d' :
  (forall c d, a !! c = Some d -> is_Some (fds !! c)) -> is_Some (fds !! c) ->
  forall c' d, <[c := d']> a !! c' = Some d -> is_Some (fds !! c').
Proof. intros H Hc c' d. rewrite lookup_insert_Some. intros [[<- _]|[_ ?]]; eauto. Qed.

(** The kernel's list after [c] was added or modified. *)
Lemma watches_insert fds (a : interests) h m c fd ev ch : alone fds a c fd -> watches fds a h m -> fds !! c = Some fd ->
  index_ ch = kAdded -> watches fds (<[c := Live ev]> a) (<[c := ch]> h) (<[fd := (ev, c)]> m).
Proof.
  intros Hal He Hfd Hix fd' x. rewrite lookup_insert_Some, (He fd' x). split.
  - intros [[<- <-]|[Hf (c0 & ch0 & ev0 & H1 & H2 & H3 & H4 & ->)]].
    + exists c, ch, ev. by rewrite !lookup_insert_eq.
    + exists c0, ch0, ev0. rewrite !lookup_insert_ne; [done | |]; intros <-; congruence.
  - intros (c0 & ch0 & ev0 & H1 & H2 & H3 & H4 & ->). destruct (decide (c = c0)) as [<-|Hn].
    + rewrite lookup_insert_eq in H2. left. split; congruence.
    + rewrite lookup_insert_ne in H2 by done. rewrite lookup_insert_ne in H3 by done. right. split; [|by exists c0, ch0, ev0]. intros <-.
      apply Hn. symmetry. by eapply Hal.
Qed.

(** ... and after it was deleted. *)
Lemma watches_delete fds (a : interests) h m c fd d ch : alone fds a c fd -> watches fds a h m -> fds !! c = Some fd ->
  index_ ch <> kAdded -> watches fds (<[c := d]> a) (<[c := ch]> h) (delete fd m).
Proof.
  intros Hal He Hfd Hd fd' x. rewrite lookup_delete_Some, (He fd' x). split.
  - intros [Hne (c0 & ch0 & ev0 & H1 & H2 & H3 & H4 & ->)]. exists c0, ch0, ev0. rewrite !lookup_insert_ne; [done | |]; intros <-; congruence.
  - intros (c0 & ch0 & ev0 & H1 & H2 & H3 & H4 & ->). destruct (decide (c = c0)) as [<-|Hn];
      [rewrite lookup_insert_eq in H3; congruence|].
    rewrite lookup_insert_ne in H2 by done. rewrite lookup_insert_ne in H3 by done. split; [|by exists c0, ch0, ev0]. intros <-. apply Hn. symmetry. by eapply Hal.
Qed.

Lemma watches_none fds (a : interests) h m c fd : alone fds a c fd -> watches fds a h m ->
  (forall ev ch, a !! c = Some (Live ev) -> h !! c = Some ch -> index_ ch <> kAdded) -> m !! fd = None.
Proof.
  intros Hal He Hn. destruct (m !! fd) as [x|] eqn:E; [|done].
  apply He in E as (c' & ch & ev & E1 & E2 & E3 & E4 & _). assert (c' = c) as -> by by eapply Hal. by eapply Hn in E4.
Qed.

Lemma lives_none fds (a : interests) m c fd : alone fds a c fd -> lives fds a m ->
  (forall ev, a !! c <> Some (Live ev)) -> m !! fd = None.
Proof.
  intros Hal Hc Hn. destruct (m !! fd) as [c'|] eqn:E; [|done].
  apply Hc in E as [E1 [ev1 E2]]. assert (c' = c) as -> by by eapply Hal. by apply Hn in E2.
Qed.

Lemma lives_insert fds (a : interests) m c fd ev : alone fds a c fd -> lives fds a m -> fds !! c = Some fd ->
  lives fds (<[c := Live ev]> a) (<[fd := c]> m).
Proof.
  intros Hal Hc Hfd fd' c0. rewrite lookup_insert_Some, (Hc fd' c0). split.
  - intros [[<- <-]|[Hne [H1 [ev0 H2]]]]; [rewrite lookup_insert_eq; eauto|]. split; [done|].
    rewrite lookup_insert_ne; [eauto|]. intros <-. congruence.
  - intros [H1 [ev0 H2]]. destruct (decide (c = c0)) as [<-|Hn]; [left; split; congruence | right].
    rewrite lookup_insert_ne in H2 by done. split; [|eauto]. intros <-. apply Hn. symmetry. by eapply Hal.
Qed.

Lemma lives_same fds (a : interests) m c fd ev : alone fds a c fd -> lives fds a m -> m !! fd = Some c ->
  lives fds (<[c := Live ev]> a) m.
Proof.
  intros Hal Hc Hm. apply Hc in Hm as Hfd. destruct Hfd as [Hfd _].
  rewrite <- (insert_id m fd c Hm). by apply lives_insert.
Qed.

Lemma lives_delete fds (a : interests) m c fd : alone fds a c fd -> lives fds a m -> fds !! c = Some fd ->
  lives fds (<[c := Gone]> a) (delete fd m).
Proof.
  intros Hal Hc Hfd fd' c0. rewrite lookup_delete_Some, (Hc fd' c0). split.
  - intros [Hne [H1 [ev0 H2]]]. split; [done|]. rewrite lookup_insert_ne; [eauto|]. intros <-. congruence.
  - intros [H1 [ev0 H2]]. destruct (decide (c = c0)) as [<-|Hn]; [by rewrite lookup_insert_eq in H2|].
    rewrite lookup_insert_ne in H2 by done. split; [|eauto]. intros <-. apply Hn. symmetry. by eapply Hal.
Qed.

(** An update that leaves the channel in the kernel's list. *)
Lemma epoll_added fds a p h c ch ev m : alone fds a c (fd_ ch) -> epoll_rep fds a (p, h) -> fds !! c = Some (fd_ ch) ->
  lives fds (<[c := Live ev]> a) m ->
  epoll_rep fds (<[c := Live ev]> a)
    (mkEPoll m (<[fd_ ch := (ev, c)]> (epoll p)) (events_size p), <[c := set_index (set_events ch ev) kAdded]> h).
Proof.
  intros Hal [Hh Hd Hc He] Hfd Hm. split; cbn in *; [| by apply dom_insert_ok; eauto | exact Hm | by apply watches_insert].
  apply epoll_heap_update; [done | done|]. cbn. auto.
Qed.

Lemma epoll_update_step fds a s c ev a' : apart fds a -> epoll_rep fds a s ->
  pspec fds a (PUpdate c ev) = Some a' -> exists s', pexec s (PUpdate c ev) = Ok s' /\ epoll_rep fds a' s'.
Proof.
  intros Hap Hrep Hs. destruct s as [p h]. pose proof Hrep as [Hh Hd Hc He]. cbn [fst snd] in *. cbn in Hs.
  destruct (mask ev); [|done]. destruct (fds !! c) as [fd|] eqn:Hfd; [|done].
  destruct (Hh c fd Hfd) as (ch & Hch & Hf & Hix). subst fd.
  cbn. unfold deref at 1. rewrite Hch. cbn [mbind res_bind]. unfold updateChannel, deref.
  rewrite lookup_insert_eq. cbn [mbind res_bind index_ fd_ set_events].
  destruct (a !! c) as [[ev'|]|] eqn:Ea; [|done|].
  - destruct Hix as [Hev Hix]. injection Hs as <-. pose proof (Hap c _ _ Hfd Ea) as Hal.
    assert (Hcc : channels_ p !! fd_ ch = Some c) by (apply Hc; eauto). rewrite Hcc.
    destruct Hix as [Hix|[Hix ->]]; rewrite Hix; cbn [kAdded kDeleted kNew Z.eqb Pos.eqb orb];
      rewrite (bool_decide_eq_false_2 (Some c = None)), (bool_decide_eq_true_2 (Some c = Some c)) by done; cbn [negb assert_ check mbind res_bind Z.eqb Pos.eqb].
    + assert (Hin : epoll p !! fd_ ch = Some (ev', c)) by (apply He; eauto 10).
      destruct (isNoneEvent (set_events ch ev)) eqn:En; unfold isNoneEvent, kNoneEvent in En; cbn in En; unbool;
        cbn; rewrite Hin; (eexists; split; [reflexivity|]).
      * subst ev. rewrite insert_insert_eq. split; cbn; [apply epoll_heap_update; cbn; auto | by apply dom_insert_ok; eauto
          | by eapply lives_same | by apply watches_delete].
      * replace (set_events ch ev) with (set_index (set_events ch ev) kAdded) by (unfold set_index, set_events; cbn; by rewrite <- Hix).
        apply epoll_added; try done. by eapply lives_same.
    + cbn. rewrite (watches_none fds a h (epoll p) c) by (done || intros; simplify_eq; rewrite Hix; done). eexists; split; [reflexivity|].
      rewrite insert_insert_eq. apply epoll_added; try done. by eapply lives_same.
  - destruct (ev =? 0); [done|]. destruct (in_use _ _ _) eqn:Eu; [done|]. injection Hs as <-. apply (in_use_alone _ _ c) in Eu as Hal.
    cbn in Hix. rewrite Hix. cbn [kNew Z.eqb Pos.eqb orb].
    rewrite (lives_none fds a (channels_ p) c) by (done || congruence). rewrite bool_decide_eq_true_2 by done. cbn.
    rewrite (watches_none fds a h (epoll p) c) by (done || congruence). eexists; split; [reflexivity|].
    rewrite insert_insert_eq. apply epoll_added; try done. by apply lives_insert.
Qed.

Lemma epoll_remove_step fds a s c a' : apart fds a -> epoll_rep fds a s ->
  pspec fds a (PRemove c) = Some a' -> exists s', pexec s (PRemove c) = Ok s' /\ epoll_rep fds a' s'.
Proof.
  intros Hap [Hh Hd Hc He] Hs. destruct s as [p h]. cbn [fst snd] in *. cbn in Hs.
  destruct (a !! c) as [[ev|]|] eqn:Ea; try done. destruct (Z.eqb_spec ev 0) as [->|]; [|done]. injection Hs as <-.
  destruct (Hd c _ Ea) as [fd Hfd]. destruct (Hh c fd Hfd) as (ch & Hch & <- & Hix). rewrite Ea in Hix. destruct Hix as [Hev Hix].
  pose proof (Hap c _ _ Hfd Ea) as Hal. assert (Hcc : channels_ p !! fd_ ch = Some c) by (apply Hc; eauto).
  assert (Hrep : forall sz, epoll_rep fds (<[c := Gone]> a) (mkEPoll (delete (fd_ ch) (channels_ p)) (delete (fd_ ch) (epoll p)) sz, <[c := set_index ch kNew]> h)).
  { intros sz. split; cbn; [by apply epoll_heap_update | by apply dom_insert_ok; eauto | by apply lives_delete | by apply watches_delete]. }
  cbn. unfold removeChannel, deref. rewrite Hch. cbn [mbind res_bind]. rewrite Hcc.
  rewrite (bool_decide_eq_false_2 (Some c = None)), (bool_decide_eq_true_2 (Some c = Some c)) by done. unfold isNoneEvent. rewrite Hev.
  destruct Hix as [Hix|[Hix _]]; rewrite Hix; cbn.
  - assert (Hin : epoll p !! fd_ ch = Some (0, c)) by (apply He; eauto 10). rewrite Hin. eexists; split; [reflexivity|]. apply Hrep.
  - eexists; split; [reflexivity|]. rewrite <- (delete_id (epoll p) (fd_ ch)); [apply Hrep|].
    eapply watches_none; [done | done|]. intros; simplify_eq. by rewrite Hix.
Qed.

#[global] Instance epoll_laws : PollerLaws EPollPoller := {|
  empty_poller := EPollPoller_ctor;
  rep := epoll_rep;
  rep_empty := epoll_empty;
  rep_promises := fun fds a s _ _ => epoll_promises fds a s;
  rep_step := fun fds a s o a' _ Hap Hr =>
    match o with
    | PUpdate c ev => epoll_update_step fds a s c ev a' Hap Hr
    | PRemove c => epoll_remove_step fds a s c a' Hap Hr
    end;
|}.
End epoll.

(** ** [PollPoller] *)
Section poll.
Import Poll.

(** The entry of a channel: ignored descriptors are stored as [-fd-1]. *)
Definition entry (fd ev : Z) : pollfd := mkPollfd (if ev =? 0 then - fd - 1 else fd) ev 0.

(** Index [idx] of the vector is the entry of a live channel. *)
Definition slot (l : list pollfd) (ch : Channel) (fd ev : Z) : Prop :=
  events_ ch = ev /\ mask ev = true /\ 0 <= index_ ch /\ l !! Z.to_nat (index_ ch) = Some (entry fd ev).

Record poll_rep (fds : gmap cid Z) (a : interests) (s : PollPoller * heap) : Prop := {
  p_heap : forall c fd, fds !! c = Some fd -> exists ch, s.2 !! c = Some ch /\ fd_ ch = fd /\
    match a !! c with
    | Some (Live ev) => slot (pollfds_ s.1) ch fd ev
    | Some Gone => True
    | None => index_ ch = -1
    end;
  p_slots : forall i x, pollfds_ s.1 !! i = Some x ->
    exists c ch fd ev, fds !! c = Some fd /\ a !! c = Some (Live ev) /\ s.2 !! c = Some ch /\ Z.to_nat (index_ ch) = i;
  p_dom : forall c d, a !! c = Some d -> is_Some (fds !! c);
  p_chan : lives fds a (channels_ s.1);
}.

Lemma short_mask ev : mask ev = true -> short ev = ev.
Proof. intros H. unfold mask in H. unbool. apply swrap_id; [done | split; cbn; lia]. Qed.

Lemma entry_inj fd fd' ev ev' : 0 <= fd -> 0 <= fd' -> pfd (entry fd ev) = pfd (entry fd' ev') -> fd = fd'.
Proof. unfold entry. cbn. intros. destruct (ev =? 0), (ev' =? 0); lia. Qed.

Lemma entry_fd fd ev : 0 <= fd -> (if pfd (entry fd ev) <? 0 then - pfd (entry fd ev) - 1 else pfd (entry fd ev)) = fd.
Proof. unfold entry. cbn. intros. destruct (ev =? 0); case_cmp; lia. Qed.

(** Two live channels never share an index. *)
Lemma slot_inj fds a s c c' fd fd' ch ch' ev ev' : fds_ok fds -> apart fds a -> poll_rep fds a s ->
  fds !! c = Some fd -> fds !! c' = Some fd' -> a !! c = Some (Live ev) -> a !! c' = Some (Live ev') ->
  s.2 !! c = Some ch -> s.2 !! c' = Some ch' -> slot (pollfds_ s.1) ch fd ev -> slot (pollfds_ s.1) ch' fd' ev' -> index_ ch = index_ ch' -> c = c'.
Proof.
  intros Hpos Hap _ Hf Hf' Ha Ha' _ _ (_ & _ & _ & Hs) (_ & _ & _ & Hs') Hi. rewrite Hi, Hs' in Hs.
  assert (fd' = fd) as -> by (eapply entry_inj; [by eapply Hpos | by eapply Hpos | injection Hs as Hs _; exact Hs]).
  symmetry. by eapply (Hap c).
Qed.

Lemma poll_empty fds : poll_rep fds ∅ (PollPoller_ctor, new_heap fds).
Proof.
  split; cbn.
  - intros c fd Hc. exists (Channel_ctor fd). unfold new_heap. by rewrite lookup_fmap, Hc, lookup_empty.
  - intros i x H. by rewrite lookup_nil in H.
  - intros c d. by rewrite lookup_empty.
  - intros fd c. rewrite lookup_empty. split; [done|]. intros (_ & ev & H). by rewrite lookup_empty in H.
Qed.

Lemma slots_entries fds a s i x : fds_ok fds -> apart fds a -> poll_rep fds a s -> pollfds_ s.1 !! i = Some x ->
  exists c fd ev, fds !! c = Some fd /\ a !! c = Some (Live ev) /\ x = entry fd ev.
Proof.
  intros Hok Hap Hr Hx. destruct (p_slots _ _ _ Hr i x Hx) as (c & ch & fd & ev & Hf & Ha & Hch & Hi).
  destruct (p_heap _ _ _ Hr c fd Hf) as (ch' & Hch' & _ & Hsl). rewrite Ha in Hsl. rewrite Hch in Hch'. injection Hch' as <-.
  destruct Hsl as (_ & _ & _ & Hl). rewrite Hi, Hx in Hl. exists c, fd, ev. by simplify_eq.
Qed.

Lemma NoDup_fmap_filter {A B} (f : A -> B) (Q : A -> Prop) `{!forall x, Decision (Q x)} (l : list A) :
  NoDup (f <$> l) -> NoDup (f <$> filter Q l).
Proof.
  induction l as [|x l IH]; [done|]. rewrite fmap_cons, filter_cons. intros [Hx Hl]%NoDup_cons. case_decide; [|auto].
  rewrite fmap_cons. apply NoDup_cons. split; [|auto]. intros (y & Hxy & [_ Hy]%list_elem_of_filter)%list_elem_of_fmap.
  apply Hx. rewrite Hxy. by apply list_elem_of_fmap_2.
Qed.

Lemma NoDup_pfds fds a s : fds_ok fds -> apart fds a -> poll_rep fds a s -> NoDup (pfd <$> pollfds_ s.1).
Proof.
  intros Hok Hap Hr. apply NoDup_alt. intros i j f Hi Hj. apply list_lookup_fmap_Some in Hi as (x & -> & Hx).
  apply list_lookup_fmap_Some in Hj as (y & Hxy & Hy).
  destruct (p_slots _ _ _ Hr i x Hx) as (c & ch & fd & ev & Hf & Ha & Hch & Hci).
  destruct (p_slots _ _ _ Hr j y Hy) as (c' & ch' & fd' & ev' & Hf' & Ha' & Hch' & Hcj).
  destruct (p_heap _ _ _ Hr c fd Hf) as (ch1 & H1 & _ & Hsl). rewrite Ha in Hsl. rewrite Hch in H1. injection H1 as <-.
  destruct (p_heap _ _ _ Hr c' fd' Hf') as (ch1 & H1 & _ & Hsl'). rewrite Ha' in Hsl'. rewrite Hch' in H1. injection H1 as <-.
  destruct Hsl as (_ & _ & _ & Hl), Hsl' as (_ & _ & _ & Hl'). rewrite Hci, Hx in Hl. rewrite Hcj, Hy in Hl'. injection Hl as ->. injection Hl' as ->.
  assert (fd = fd') as <- by (eapply entry_inj; [by eapply Hok | by eapply Hok | exact Hxy]).
  assert (c' = c) as -> by by eapply (Hap c). congruence.
Qed.

(** An ignored entry is not watched. *)
Lemma poll_watched fds a s fd ev : fds_ok fds -> apart fds a -> poll_rep fds a s ->
  watched s.1 !! fd = Some ev <-> exists c, fds !! c = Some fd /\ a !! c = Some (Live ev) /\ ev <> 0.
Proof.
  intros Hok Hap Hr. cbn. rewrite <- elem_of_list_to_map.
  2: { rewrite <- list_fmap_compose. apply NoDup_fmap_filter. by eapply NoDup_pfds. }
  rewrite list_elem_of_fmap. split.
  - intros (x & [= -> ->] & [Hp Hx]%list_elem_of_filter). apply list_elem_of_lookup in Hx as [i Hi].
    destruct (slots_entries fds a s i x Hok Hap Hr Hi) as (c & fd & ev & Hf & Ha & ->).
    pose proof (Hok c fd Hf). unfold entry in *. cbn in *. destruct (Z.eqb_spec ev 0); [lia|]. by exists c.
  - intros (c & Hf & Ha & Hne). exists (entry fd ev). unfold entry. rewrite (proj2 (Z.eqb_neq ev 0)) by done. cbn. split; [done|].
    apply list_elem_of_filter. split; [cbn; by eapply Hok|].
    destruct (p_heap _ _ _ Hr c fd Hf) as (ch & _ & _ & Hsl). rewrite Ha in Hsl. destruct Hsl as (_ & _ & _ & Hl).
    unfold entry in Hl. rewrite (proj2 (Z.eqb_neq ev 0)) in Hl by done. by eapply list_elem_of_lookup_2.
Qed.

Lemma poll_promises fds a s : fds_ok fds -> apart fds a -> poll_rep fds a s -> promises fds a (registered s.1) (watched s.1).
Proof.
  intros Hok Hap Hr. split_and!; [| |apply (p_chan _ _ _ Hr)].
  { intros fd ev Hne. rewrite (poll_watched fds a s) by done. naive_solver. }
  intros fd H. apply (poll_watched fds a s) in H as (c & _ & _ & ?); done.
Qed.

(** Every entry belongs to a live channel that knows its index. *)
Lemma live_at fds a s i x : poll_rep fds a s -> pollfds_ s.1 !! i = Some x ->
  exists c ch ev, fds !! c = Some (fd_ ch) /\ a !! c = Some (Live ev) /\ s.2 !! c = Some ch /\
    index_ ch = Z.of_nat i /\ slot (pollfds_ s.1) ch (fd_ ch) ev /\ x = entry (fd_ ch) ev.
Proof.
  intros Hr Hx. destruct (p_slots _ _ _ Hr i x Hx) as (c & ch & fd & ev & Hf & Ha & Hch & Hi).
  destruct (p_heap _ _ _ Hr c fd Hf) as (ch' & Hch' & <- & Hsl). rewrite Ha in Hsl. rewrite Hch in Hch'. injection Hch' as <-.
  exists c, ch, ev. pose proof Hsl as (_ & _ & H0 & Hl). rewrite Hi, Hx in Hl. split_and!; try done; [lia | congruence].
Qed.

(** Changing one entry in place. *)
Lemma slot_other fds a p h c ch ev l' : fds_ok fds -> apart fds a -> poll_rep fds a (p, h) -> h !! c = Some ch ->
  fds !! c = Some (fd_ ch) -> a !! c = Some (Live ev) ->
  (forall j, j <> Z.to_nat (index_ ch) -> is_Some (pollfds_ p !! j) -> l' !! j = pollfds_ p !! j) ->
  forall c' ch' ev', c' <> c -> h !! c' = Some ch' -> fds !! c' = Some (fd_ ch') -> a !! c' = Some (Live ev') ->
  slot l' ch' (fd_ ch') ev'.
Proof.
  intros Hok Hap Hr Hch Hfd Ha Hl c' ch' ev' Hne Hch' Hfd' Ha'.
  destruct (p_heap _ _ _ Hr c _ Hfd) as (x & Hx & _ & Hs). cbn in Hx, Hs. rewrite Hch in Hx. injection Hx as <-. rewrite Ha in Hs.
  destruct (p_heap _ _ _ Hr c' _ Hfd') as (x & Hx & _ & Hs'). cbn in Hx, Hs'. rewrite Hch' in Hx. injection Hx as <-. rewrite Ha' in Hs'.
  pose proof Hs' as (E & Hm & H0 & Hl'). split_and!; try done. rewrite Hl; [done | | by eexists].
  intros Hj. apply Hne. symmetry.
  eapply (slot_inj fds a (p, h) c c' _ _ ch ch' ev ev'); try done. destruct Hs as (_ & _ & ? & _). lia.
Qed.

Lemma poll_new fds a p h c ch ev : alone fds a c (fd_ ch) -> poll_rep fds a (p, h) -> fds !! c = Some (fd_ ch) ->
  h !! c = Some ch -> a !! c = None -> mask ev = true -> ev <> 0 ->
  poll_rep fds (<[c := Live ev]> a)
    (mkPoll (<[fd_ ch := c]> (channels_ p)) (pollfds_ p ++ [entry (fd_ ch) ev]),
     <[c := set_index (set_events ch ev) (zlen (pollfds_ p))]> h).
Proof.
  intros Hal Hr Hfd Hch Ha Hm Hne. pose proof Hr as [Hh Hs Hd Hc]. cbn [fst snd] in *. unfold zlen. split; cbn [fst snd channels_ pollfds_].
  - intros c' fd' Hf'. destruct (decide (c = c')) as [<-|Hn].
    + rewrite !lookup_insert_eq. eexists; split_and!; [done | cbn; congruence|]. unfold slot; cbn. split_and!; [done..|lia|].
      rewrite Nat2Z.id. rewrite Hfd in Hf'. injection Hf' as <-. by apply list_lookup_middle.
    + rewrite !lookup_insert_ne by done. destruct (Hh c' fd' Hf') as (ch' & ? & ? & Hx). exists ch'. split_and!; [done..|].
      destruct (a !! c') as [[ev'|]|]; try done. destruct Hx as (? & ? & ? & Hl). split_and!; try done.
      by apply lookup_app_l_Some.
  - intros i x [Hi|[Hi Hx]]%lookup_app_Some.
    + destruct (Hs i x Hi) as (c' & ch' & fd' & ev' & ? & ? & ? & ?). exists c', ch', fd', ev'.
      rewrite !lookup_insert_ne by (intros <-; congruence). done.
    + apply list_lookup_singleton_Some in Hx as [Hx _]. eexists c, _, (fd_ ch), ev. rewrite !lookup_insert_eq. cbn.
      split_and!; [done..|]. cbn. lia.
  - apply dom_insert_ok; eauto.
  - by apply lives_insert.
Qed.

Lemma poll_change fds a p h c ch ev ev0 : fds_ok fds -> apart fds a -> poll_rep fds a (p, h) -> fds !! c = Some (fd_ ch) ->
  h !! c = Some ch -> a !! c = Some (Live ev0) -> mask ev = true ->
  poll_rep fds (<[c := Live ev]> a)
    (mkPoll (channels_ p) (<[Z.to_nat (index_ ch) := entry (fd_ ch) ev]> (pollfds_ p)), <[c := set_events ch ev]> h).
Proof.
  intros Hok Hap Hr Hfd Hch Ha Hm. pose proof Hr as [Hh Hs Hd Hc]. cbn [fst snd] in *. split; cbn [fst snd channels_ pollfds_].
  - intros c' fd' Hf'. destruct (Hh c' fd' Hf') as (ch' & Hch' & <- & Hx). destruct (decide (c = c')) as [<-|Hn].
    + rewrite !lookup_insert_eq. rewrite Hch in Hch'. injection Hch' as <-. rewrite Ha in Hx. destruct Hx as (_ & _ & H0 & Hl).
      eexists; split_and!; [done..|]. unfold slot; cbn. split_and!; [done..|]. apply list_lookup_insert_eq. by eapply lookup_lt_Some.
    + rewrite !lookup_insert_ne by done. exists ch'. split_and!; [done..|].
      destruct (a !! c') as [[ev'|]|] eqn:Ea'; try done. eapply (slot_other fds a p h c ch ev0); try done.
      intros j Hj _. by apply list_lookup_insert_ne.
  - intros i x Hi. assert (is_Some (pollfds_ p !! i)) as [y Hy].
    { apply lookup_lt_is_Some. apply lookup_lt_Some in Hi. by rewrite length_insert in Hi. }
    destruct (Hs i y Hy) as (c' & ch' & fd' & ev' & H1 & H2 & H3 & H4). destruct (decide (c = c')) as [<-|Hn].
    + exists c, (set_events ch ev), fd', ev. rewrite !lookup_insert_eq. cbn. split_and!; congruence.
    + exists c', ch', fd', ev'. by rewrite !lookup_insert_ne.
  - apply dom_insert_ok; eauto.
  - eapply lives_same; [by eapply Hap | done |]. apply Hc. eauto.
Qed.

Lemma poll_update_step fds a s c ev a' : fds_ok fds -> apart fds a -> poll_rep fds a s ->
  pspec fds a (PUpdate c ev) = Some a' -> exists s', pexec s (PUpdate c ev) = Ok s' /\ poll_rep fds a' s'.
Proof.
  intros Hok Hap Hr Hs. destruct s as [p h]. pose proof Hr as [Hh Hsl Hd Hc]. cbn [fst snd] in *. cbn in Hs.
  destruct (mask ev) eqn:Hm; [|done]. destruct (fds !! c) as [fd|] eqn:Hfd; [|done].
  destruct (Hh c fd Hfd) as (ch & Hch & Hf & Hix). subst fd.
  cbn. unfold deref at 1. rewrite Hch. cbn [mbind res_bind]. unfold updateChannel, deref.
  rewrite lookup_insert_eq. cbn [mbind res_bind index_ fd_ set_events events_]. rewrite short_mask by done.
  destruct (a !! c) as [[ev'|]|] eqn:Ea; [|done|].
  - injection Hs as <-. destruct Hix as (_ & _ & H0 & Hl).
    rewrite (proj2 (Z.ltb_ge (index_ ch) 0)) by done.
    assert (Hcc : channels_ p !! fd_ ch = Some c) by (apply Hc; eauto). rewrite Hcc.
    rewrite (bool_decide_eq_false_2 (Some c = None)), (bool_decide_eq_true_2 (Some c = Some c)) by done.
    pose proof (lookup_lt_Some _ _ _ Hl). unfold zlen. rewrite (proj2 (Z.leb_le 0 _)), (proj2 (Z.ltb_lt (index_ ch) _)) by lia. rewrite Hl.
    cbn [negb assert_ check mbind res_bind andb].
    replace (_ || _)%bool with true by (unfold entry; cbn; destruct (ev' =? 0); rewrite Z.eqb_refl; by rewrite ?orb_true_r).
    cbn. eexists; split; [reflexivity|]. by eapply poll_change.
  - destruct (Z.eqb_spec ev 0) as [|Hne]; [done|]. destruct (in_use _ _ _) eqn:Eu; [done|]. injection Hs as <-. apply (in_use_alone _ _ c) in Eu as Hal.
    rewrite Hix. cbn [Z.ltb Z.compare].
    rewrite (lives_none fds a (channels_ p) c) by (done || congruence). rewrite bool_decide_eq_true_2 by done. cbn [assert_ check mbind res_bind].
    eexists; split; [reflexivity|]. rewrite insert_insert_eq. unfold zlen. rewrite length_app. cbn [length].
    replace (mkPollfd (fd_ ch) ev 0) with (entry (fd_ ch) ev) by (unfold entry; by rewrite (proj2 (Z.eqb_neq ev 0))).
    replace (_ - 1) with (zlen (pollfds_ p)) by (unfold zlen; lia). by apply poll_new.
Qed.

(** The last entry is dropped. *)
Lemma poll_pop fds a p h c ch ev : fds_ok fds -> apart fds a -> poll_rep fds a (p, h) -> fds !! c = Some (fd_ ch) ->
  h !! c = Some ch -> a !! c = Some (Live ev) -> Z.to_nat (index_ ch) = (length (pollfds_ p) - 1)%nat ->
  poll_rep fds (<[c := Gone]> a)
    (mkPoll (delete (fd_ ch) (channels_ p)) (take (length (pollfds_ p) - 1) (pollfds_ p)), h).
Proof.
  intros Hok Hap Hr Hfd Hch Ha Hidx. pose proof Hr as [Hh Hs Hd Hc]. cbn [fst snd] in *. split; cbn [fst snd channels_ pollfds_].
  - intros c' fd' Hf'. destruct (Hh c' fd' Hf') as (ch' & Hch' & <- & Hx). exists ch'. split_and!; [done..|].
    destruct (decide (c = c')) as [<-|Hn]; [by rewrite lookup_insert_eq|]. rewrite lookup_insert_ne by done.
    destruct (a !! c') as [[ev'|]|] eqn:Ea'; try done. eapply (slot_other fds a p h c ch ev); try done.
    intros j Hj [x Hjx]. apply lookup_lt_Some in Hjx. apply lookup_take_lt. lia.
  - intros i x [Hi Hlt]%lookup_take_Some. destruct (Hs i x Hi) as (c' & ch' & fd' & ev' & H1 & H2 & H3 & H4).
    exists c', ch', fd', ev'. rewrite lookup_insert_ne; [done|]. intros <-. rewrite Hch in H3. injection H3 as <-. lia.
  - apply dom_insert_ok; eauto.
  - apply lives_delete; [by eapply Hap | done | done].
Qed.

(** The last entry moves into the hole, and its channel learns its new index. *)
Lemma poll_swap fds a p h c ch ev c' ch' ev' : fds_ok fds -> apart fds a -> poll_rep fds a (p, h) ->
  fds !! c = Some (fd_ ch) -> h !! c = Some ch -> a !! c = Some (Live ev) ->
  fds !! c' = Some (fd_ ch') -> h !! c' = Some ch' -> a !! c' = Some (Live ev') ->
  Z.to_nat (index_ ch') = (length (pollfds_ p) - 1)%nat -> index_ ch <> index_ ch' ->
  poll_rep fds (<[c := Gone]> a)
    (mkPoll (delete (fd_ ch) (channels_ p))
       (take (length (pollfds_ p) - 1) (<[Z.to_nat (index_ ch) := entry (fd_ ch') ev']> (pollfds_ p))),
     <[c' := set_index ch' (index_ ch)]> h).
Proof.
  intros Hok Hap Hr Hfd Hch Ha Hfd' Hch' Ha' Hidx Hne. pose proof Hr as [Hh Hs Hd Hc]. cbn [fst snd] in *.
  assert (Hcc : c <> c') by (intros <-; congruence).
  destruct (Hh c _ Hfd) as (x & Hx & _ & Hsl). rewrite Hch in Hx. injection Hx as <-. rewrite Ha in Hsl. pose proof Hsl as (_ & _ & H0 & Hl).
  destruct (Hh c' _ Hfd') as (x & Hx & _ & Hsl'). rewrite Hch' in Hx. injection Hx as <-. rewrite Ha' in Hsl'. pose proof Hsl' as (He & Hm & H0' & Hl').
  pose proof (lookup_lt_Some _ _ _ Hl). pose proof (lookup_lt_Some _ _ _ Hl'). split; cbn [fst snd channels_ pollfds_].
  - intros d fd Hf. destruct (Hh d fd Hf) as (chd & Hd1 & <- & Hx). destruct (decide (d = c')) as [->|Hdc].
    + rewrite Hch' in Hd1. injection Hd1 as <-. rewrite lookup_insert_eq, (lookup_insert_ne a), Ha' by done.
      eexists; split_and!; [done..|]. unfold slot; cbn. split_and!; [done..|]. rewrite lookup_take_lt by lia.
      apply list_lookup_insert_eq. lia.
    + rewrite lookup_insert_ne by done. exists chd. split_and!; [done..|].
      destruct (decide (c = d)) as [<-|Hn]; [by rewrite lookup_insert_eq|]. rewrite lookup_insert_ne by done.
      destruct (a !! d) as [[evd|]|] eqn:Ead; try done.
      assert (index_ chd <> index_ ch) by (intros E; apply Hn; symmetry; by eapply (slot_inj fds a (p, h))).
      assert (index_ chd <> index_ ch') by (intros E; apply Hdc; by eapply (slot_inj fds a (p, h))).
      pose proof Hx as (? & ? & H0d & Hld). pose proof (lookup_lt_Some _ _ _ Hld). split_and!; try done.
      rewrite lookup_take_lt by lia. rewrite list_lookup_insert_ne by lia. done.
  - intros i x [Hi Hlt]%lookup_take_Some. destruct (decide (i = Z.to_nat (index_ ch))) as [->|Hni].
    + exists c', (set_index ch' (index_ ch)), (fd_ ch'), ev'. by rewrite lookup_insert_ne, lookup_insert_eq.
    + rewrite list_lookup_insert_ne in Hi by done. destruct (Hs i x Hi) as (d & chd & fd & evd & ? & ? & ? & ?).
      exists d, chd, fd, evd. rewrite !lookup_insert_ne; [done| |]; intros <-; simplify_eq; lia.
  - apply dom_insert_ok; eauto.
  - apply lives_delete; [by eapply Hap | done | done].
Qed.

Lemma poll_remove_step fds a s c a' : fds_ok fds -> apart fds a -> poll_rep fds a s ->
  pspec fds a (PRemove c) = Some a' -> exists s', pexec s (PRemove c) = Ok s' /\ poll_rep fds a' s'.
Proof.
  intros Hok Hap Hr Hs. destruct s as [p h]. pose proof Hr as [Hh Hsl Hd Hc]. cbn [fst snd] in *. cbn in Hs.
  destruct (a !! c) as [[ev|]|] eqn:Ea; try done. destruct (Z.eqb_spec ev 0) as [->|]; [|done]. injection Hs as <-.
  destruct (Hd c _ Ea) as [fd Hfd]. destruct (Hh c fd Hfd) as (ch & Hch & <- & Hix). rewrite Ea in Hix. destruct Hix as (Hev & _ & H0 & Hl).
  assert (Hcc : channels_ p !! fd_ ch = Some c) by (apply Hc; eauto). pose proof (lookup_lt_Some _ _ _ Hl) as Hlt.
  cbn. unfold removeChannel, deref. rewrite Hch. cbn [mbind res_bind]. rewrite Hcc.
  rewrite (bool_decide_eq_false_2 (Some c = None)), (bool_decide_eq_true_2 (Some c = Some c)) by done. unfold isNoneEvent, zlen.
  rewrite (proj2 (Z.leb_le 0 _)), (proj2 (Z.ltb_lt (index_ ch) _)) by lia. rewrite Hev, Hl. unfold entry at 1 2.
  cbn [Z.eqb kNoneEvent negb assert_ check mbind res_bind andb pfd pevents]. rewrite Z.eqb_refl. cbn [andb assert_ check mbind res_bind].
  destruct (Z.eqb_spec (index_ ch) (Z.of_nat (length (pollfds_ p)) - 1)) as [E|E].
  { eexists; split; [reflexivity|]. eapply poll_pop; try done. lia. }
  destruct (lookup_lt_is_Some_2 (pollfds_ p) (length (pollfds_ p) - 1)) as [y Hy]; [lia|]. rewrite Hy.
  destruct (live_at _ _ _ _ _ Hr Hy) as (c' & ch' & ev' & Hf' & Ha' & Hch' & Hi' & Hs' & ->). cbn [fst snd] in *.
  rewrite entry_fd by (by eapply Hok). rewrite lookup_delete_ne by (intros E'; rewrite <- E' in Hf'; apply E; replace c' with c in * by (by eapply (Hap c')); simplify_eq; lia).
  rewrite (proj2 (Hc (fd_ ch') c')) by eauto. rewrite Hch'. cbn [mbind res_bind]. eexists; split; [reflexivity|].
  eapply poll_swap; try done; lia.
Qed.

#[global] Instance poll_laws : PollerLaws PollPoller := {|
  empty_poller := PollPoller_ctor;
  rep := poll_rep;
  rep_empty := poll_empty;
  rep_promises := poll_promises;
  rep_step := fun fds a s o a' Hok Hap Hr =>
    match o with
    | PUpdate c ev => poll_update_step fds a s c ev a' Hok Hap Hr
    | PRemove c => poll_remove_step fds a s c a' Hok Hap Hr
    end;
|}.
End poll.

(** ** The client, against the interface *)
Lemma apart_empty fds : apart fds ∅.
Proof. intros c fd ev _ H. by rewrite lookup_empty in H. Qed.

Lemma poller_correct `{PollerLaws P} fds os a : fds_ok fds -> pspecs fds ∅ os = Some a ->
  exists s, pexecs (empty_poller, new_heap fds) os = Ok s /\ promises fds a (registered s.1) (watched s.1).
Proof.
  intros Hok Hs.
  destruct (rep_steps fds ∅ (empty_poller, new_heap fds) os a Hok (apart_empty fds) (rep_empty fds) Hs) as (s & He & Hr & Hap).
  exists s. split; [done|]. by apply rep_promises.
Qed.

(** The descriptors watched for some event. *)
Definition asked (w : gmap Z Z) : gmap Z Z := filter (fun x => x.2 <> 0) w.

Lemma promises_agree fds a reg reg' w w' : promises fds a reg w -> promises fds a reg' w' -> asked w = asked w' /\ reg = reg'.
Proof.
  intros (Hw & _ & Hr) (Hw' & _ & Hr'). split; apply map_eq; intros fd; apply option_eq.
  - intros ev. unfold asked. rewrite !map_lookup_filter_Some. cbn. split; intros [H Hne]; (split; [|done]); apply Hw, Hw' in H || apply Hw', Hw in H; done.
  - intros c. by rewrite Hr, Hr'.
Qed.

(** C27: a program that follows the protocol of [Channel] (first ask for
    something on a descriptor no live channel has, then change the interest as
    often as wanted, remove without interest, and not use the channel again)
    runs without a failing assertion or a fatal error on either poller, and both
    then watch the same descriptors with the same events, exactly those the
    channels asked for. Descriptors may be reused by later channels. [PollPoller]
    watches nothing else; [EPollPoller] may also watch, with an empty mask, the
    descriptor of a channel that gave up its interest twice, for which the
    kernel reports errors and hang-ups only. *)
Theorem pollers_agree (fds : gmap cid Z) (os : list pop) (a : interests) :
  fds_ok fds -> pspecs fds ∅ os = Some a ->
  exists se sp, pexecs (EPoll.EPollPoller_ctor, new_heap fds) os = Ok se /\
    pexecs (Poll.PollPoller_ctor, new_heap fds) os = Ok sp /\
    promises fds a (registered se.1) (watched se.1) /\
    asked (watched se.1) = watched sp.1 /\ registered se.1 = registered sp.1.
Proof.
  intros Hok Hs. destruct (poller_correct (P := EPoll.EPollPoller) fds os a Hok Hs) as (se & He & Hpe).
  destruct (rep_steps (P := Poll.PollPoller) fds ∅ (empty_poller, new_heap fds) os a Hok (apart_empty fds) (rep_empty fds) Hs) as (sp & Hp & Hr & Hap).
  pose proof (rep_promises fds a sp Hok Hap Hr) as Hpp. destruct (promises_agree _ _ _ _ _ _ Hpe Hpp) as [Hw Hreg].
  exists se, sp. split_and!; [exact He | exact Hp | done | | done]. rewrite Hw. apply map_filter_id.
  intros fd ev Hf. apply (poll_watched fds a sp) in Hf as (c & _ & _ & Hne); done.
Qed.

Module Example.
(** Three connections on descriptors 5, 6 and 7; the first one goes away and
    its slot is filled by the last one, its descriptor goes to a fourth; the
    second one is disabled twice. *)
Definition fds4 : gmap cid Z := {[ 1 := 5; 2 := 6; 3 := 7; 4 := 5 ]}.
Definition session : list pop :=
  [PUpdate 1 3; PUpdate 2 3; PUpdate 3 3; PUpdate 2 7; PUpdate 1 0; PRemove 1; PUpdate 3 7; PUpdate 2 0; PUpdate 4 3; PUpdate 2 0].

Lemma fds4_ok : fds_ok fds4.
Proof. intros c fd. unfold fds4. rewrite !lookup_insert_Some, !lookup_singleton_Some. lia. Qed.

Definition declared4 : interests := {[ 1 := Gone; 2 := Live 0; 3 := Live 7; 4 := Live 3 ]}.

Lemma pollers_agree_witness : exists se sp,
  pexecs (EPoll.EPollPoller_ctor, new_heap fds4) session = Ok se /\
  pexecs (Poll.PollPoller_ctor, new_heap fds4) session = Ok sp /\
  promises fds4 declared4 (registered se.1) (watched se.1) /\
  asked (watched se.1) = watched sp.1 /\ registered se.1 = registered sp.1.
Proof. apply (pollers_agree fds4 session declared4 fds4_ok). vm_compute. reflexivity. Defined.

Definition fds1 : gmap cid Z := {[ 1 := 5 ]}.
End Example.

(** An update that leaves a channel without interest a second time makes
    [EPollPoller] add it to the kernel's list again, with an empty mask, for
    which the kernel still reports errors and hang-ups; [PollPoller] keeps
    ignoring it. *)
Theorem epoll_readds_disabled_channel :
  let os := [PUpdate 1 3; PUpdate 1 0; PUpdate 1 0] in
  (fun s => watched s.1) <$> pexecs (EPoll.EPollPoller_ctor, new_heap Example.fds1) os = Ok {[ 5 := 0 ]} /\
  (fun s => watched s.1) <$> pexecs (Poll.PollPoller_ctor, new_heap Example.fds1) os = Ok ∅.
Proof. split; vm_compute; reflexivity. Qed.

(** A channel whose first update asks for nothing can be removed from
    [EPollPoller], but fails an assertion in [PollPoller]: a new entry keeps
    the descriptor itself, and [removeChannel] expects the ignored form. *)
Theorem poll_rejects_never_enabled_channel :
  let os := [PUpdate 1 0; PRemove 1] in
  (fun s => watched s.1) <$> pexecs (EPoll.EPollPoller_ctor, new_heap Example.fds1) os = Ok ∅ /\
  pexecs (Poll.PollPoller_ctor, new_heap Example.fds1) os = Fail FAssert.
Proof. split; vm_compute; reflexivity. Qed.

(** A removed channel can be added again to [EPollPoller] and not to
    [PollPoller], whose [removeChannel] leaves the old index in the channel. *)
Theorem poll_rejects_readded_channel :
  let os := [PUpdate 1 3; PUpdate 1 0; PRemove 1; PUpdate 1 3] in
  (fun s => watched s.1) <$> pexecs (EPoll.EPollPoller_ctor, new_heap Example.fds1) os = Ok {[ 5 := 3 ]} /\
  pexecs (Poll.PollPoller_ctor, new_heap Example.fds1) os = Fail FAssert.
Proof. split; vm_compute; reflexivity. Qed.
