(* ===== verification/Date.v ===== *)
(** * Calendar dates ([3rd_party/muduo/muduo/base/Date.{h,cc}])

    [Date] stores a Julian day number; the conversions use integer formulas.
    They are compared with the Gregorian calendar as one would define it: leap
    years, lengths of months, the next day. *)
From S2P Require Import Prelude.

(** [int] arithmetic: overflow is undefined. *)
Definition int_ (z : Z) : res Z := if bool_decide (- 2 ^ 31 <= z < 2 ^ 31) then Ok z else Fail FOverflow.

Record YearMonthDay := mkYmd { year : Z; month : Z; day : Z }.

Definition getJulianDayNumber (year month day : Z) : res Z :=
  t ← int_ (14 - month);
  let a := Z.quot t 12 in
  t ← int_ (year + 4800);
  y ← int_ (t - a);
  t ← int_ (12 * a);
  t ← int_ (month + t);
  m ← int_ (t - 3);
  t ← int_ (153 * m);
  t ← int_ (t + 2);
  s ← int_ (day + Z.quot t 5);
  t ← int_ (y * 365);
  s ← int_ (s + t);
  s ← int_ (s + Z.quot y 4);
  s ← int_ (s - Z.quot y 100);
  s ← int_ (s + Z.quot y 400);
  int_ (s - 32045).

Definition getYearMonthDay (julianDayNumber : Z) : res YearMonthDay :=
  a ← int_ (julianDayNumber + 32044);
  t ← int_ (4 * a);
  t ← int_ (t + 3);
  let b := Z.quot t 146097 in
  t ← int_ (b * 146097);
  c ← int_ (a - Z.quot t 4);
  t ← int_ (4 * c);
  t ← int_ (t + 3);
  let d := Z.quot t 1461 in
  t ← int_ (1461 * d);
  e ← int_ (c - Z.quot t 4);
  t ← int_ (5 * e);
  t ← int_ (t + 2);
  let m := Z.quot t 153 in
  t ← int_ (153 * m);
  t ← int_ (t + 2);
  t ← int_ (e - Z.quot t 5);
  day ← int_ (t + 1);
  t ← int_ (m + 3);
  u ← int_ (12 * Z.quot m 10);
  month ← int_ (t - u);
  t ← int_ (b * 100);
  t ← int_ (t + d);
  t ← int_ (t - 4800);
  year ← int_ (t + Z.quot m 10);
  Ok (mkYmd year month day).

(** [Date], its constructors and accessors. *)
Definition Date := Z.
Definition Date_default : Date := 0.
Definition Date_ymd (y m d : Z) : res Date := getJulianDayNumber y m d.
Definition Date_tm (tm_year tm_mon tm_mday : Z) : res Date :=
  y ← int_ (tm_year + 1900); m ← int_ (tm_mon + 1); getJulianDayNumber y m tm_mday.
Definition valid (d : Date) : bool := 0 <? d.
Definition yearMonthDay (d : Date) : res YearMonthDay := getYearMonthDay d.
Definition kDaysPerWeek : Z := 7.
Definition weekDay (d : Date) : res Z := t ← int_ (d + 1); Ok (Z.rem t kDaysPerWeek).
Definition date_lt (x y : Date) : bool := x <? y.
Definition date_eq (x y : Date) : bool := x =? y.

(** ** The calendar *)
Definition leap (y : Z) : bool := (y mod 4 =? 0) && (negb (y mod 100 =? 0) || (y mod 400 =? 0)).
Definition days_in_month (y m : Z) : Z :=
  if m =? 2 then (if leap y then 29 else 28)
  else if (m =? 4) || (m =? 6) || (m =? 9) || (m =? 11) then 30 else 31.
Definition gregorian (d : YearMonthDay) : Prop :=
  1 <= month d <= 12 /\ 1 <= day d <= days_in_month (year d) (month d).
Definition next_day (d : YearMonthDay) : YearMonthDay :=
  if day d <? days_in_month (year d) (month d) then mkYmd (year d) (month d) (day d + 1)
  else if month d <? 12 then mkYmd (year d) (month d + 1) 1
  else mkYmd (year d + 1) 1 1.

(** ** The formulas in exact arithmetic *)
(** Years that begin in March. *)
Definition march_year (y m : Z) : Z := if m <? 3 then y + 4799 else y + 4800.
Definition march_month (m : Z) : Z := if m <? 3 then m + 9 else m - 3.
Definition days_before (m : Z) : Z := (153 * m + 2) / 5.
Definition julian (d : YearMonthDay) : Z :=
  let y := march_year (year d) (month d) in
  day d + days_before (march_month (month d)) + y * 365 + y / 4 - y / 100 + y / 400 - 32045.

Lemma int_ok z : - 2 ^ 31 <= z < 2 ^ 31 -> int_ z = Ok z.
Proof. intros H. unfold int_. by rewrite bool_decide_eq_true_2. Qed.

Lemma int_bind {A} z (k : Z -> res A) : - 2 ^ 31 <= z < 2 ^ 31 -> (int_ z ≫= k) = k z.
Proof. intros H. by rewrite int_ok. Qed.

Lemma quot_div a b : 0 <= a -> 0 < b -> Z.quot a b = a / b.
Proof. intros. by apply Z.quot_div_nonneg. Qed.

(** Bounds of quotients by constants. *)
Lemma div_bounds a b lo hi : 0 < b -> b * lo <= a <= b * hi + (b - 1) -> lo <= a / b <= hi.
Proof. intros. split; [apply Z.div_le_lower_bound | apply Z.lt_succ_r, Z.div_lt_upper_bound]; lia. Qed.

(** Executes checked operations whose operands are bounded by hypotheses. *)
Ltac int_steps := repeat (rewrite int_bind by lia; cbv beta zeta).

Lemma getJulianDayNumber_exact d : gregorian d -> -4800 < year d <= 1400000 ->
  getJulianDayNumber (year d) (month d) (day d) = Ok (julian d).
Proof.
  destruct d as [y m d]. intros [Hm Hd] Hy. cbn [year month day] in *. unfold getJulianDayNumber.
  assert (Hd31 : 1 <= d <= 31) by (unfold days_in_month in Hd; repeat case_match; lia). clear Hd.
  rewrite int_bind by lia. cbv beta zeta.
  assert (Ha : Z.quot (14 - m) 12 = if m <? 3 then 1 else 0) by (case_cmp; Z.to_euclidean_division_equations; lia).
  rewrite Ha. assert (Hmm : march_month m = m + 12 * (if m <? 3 then 1 else 0) - 3) by (unfold march_month; case_cmp; lia).
  assert (Hmy : march_year y m = y + 4800 - (if m <? 3 then 1 else 0)) by (unfold march_year; case_cmp; lia).
  assert (0 <= m + 12 * (if m <? 3 then 1 else 0) - 3 <= 11) by (case_cmp; lia).
  unfold julian. cbn [year month day]. rewrite Hmm, Hmy. unfold days_before. clear Ha Hmm Hmy.
  assert (0 <= (if m <? 3 then 1 else 0) <= 1) by (case_match; lia). set (a := if m <? 3 then 1 else 0) in *. clearbody a.
  int_steps. set (mm := m + 12 * a - 3) in *. set (yy := y + 4800 - a) in *. assert (0 <= yy <= 1404800) by lia. clearbody mm yy.
  rewrite !quot_div by lia. pose proof (div_bounds (153 * mm + 2) 5 0 400 ltac:(lia) ltac:(lia)).
  pose proof (div_bounds yy 4 0 400000 ltac:(lia) ltac:(lia)). pose proof (div_bounds yy 100 0 20000 ltac:(lia) ltac:(lia)).
  pose proof (div_bounds yy 400 0 20000 ltac:(lia) ltac:(lia)). int_steps. rewrite int_ok by lia. done.
Qed.

(** A day of a March-based year: the day of the year runs up to 365 only when
    the next civil year is a leap year. *)
Record march_day (y e : Z) : Prop := {
  md_year : 0 <= y;
  md_day : 0 <= e <= 364 \/ e = 365 /\ leap (y + 1) = true;
}.

(** Centuries and years are recovered by the divisions of the code. *)
Definition march_number (y e : Z) : Z := e + y * 365 + y / 4 - y / 100 + y / 400.

Lemma march_century y e : march_day y e ->
  exists b r, y = 100 * b + r /\ 0 <= r <= 99 /\ 0 <= b /\
    march_number y e = b * 146097 / 4 + (365 * r + r / 4 + e) /\ (4 * march_number y e + 3) / 146097 = b.
Proof.
  intros [Hy He]. exists (y / 100), (y mod 100). unfold march_number.
  pose proof (Z.div_mod y 100 ltac:(lia)) as Hdm. pose proof (Z.mod_pos_bound y 100 ltac:(lia)).
  set (b := y / 100) in *. set (r := y mod 100) in *. assert (0 <= b) by (apply Z.div_pos; lia).
  assert (H4 : y / 4 = 25 * b + r / 4) by (rewrite Hdm; replace (100 * b + r) with (r + 25 * b * 4) by lia; rewrite Z.div_add; lia).
  assert (H400 : y / 400 = b / 4) by (change 400 with (100 * 4); rewrite <- Z.div_div by lia; done).
  assert (Hc : b * 146097 / 4 = 36524 * b + b / 4) by (replace (b * 146097) with (b + 36524 * b * 4) by lia; rewrite Z.div_add; lia).
  assert (Hl : leap (y + 1) = true -> r = 99 -> b mod 4 = 3).
  { unfold leap. intros Hl Hr. assert (Hy1 : y + 1 = 100 * (b + 1)) by lia.
    assert ((y + 1) mod 100 = 0) as E by (rewrite Hy1, Z.mul_comm, Z.mod_mul; lia). rewrite E in Hl. cbn in Hl.
    apply andb_true_iff in Hl as [_ Hl]. apply Z.eqb_eq in Hl. Z.to_euclidean_division_equations. lia. }
  assert (Hl2 : leap (y + 1) = true -> r mod 4 = 3).
  { unfold leap. intros [Hl' _]%andb_true_iff. apply Z.eqb_eq in Hl'. Z.to_euclidean_division_equations. lia. }
  split_and!; try lia. symmetry. apply (Z.div_unique _ _ b (4 * (e + y * 365 + y / 4 - b + y / 400) + 3 - 146097 * b)); [left|lia].
  rewrite H4, H400. destruct He as [He|[-> Hlp]].
  - Z.to_euclidean_division_equations. lia.
  - specialize (Hl Hlp). specialize (Hl2 Hlp). Z.to_euclidean_division_equations. lia.
Qed.

Lemma march_of_century y e b r : march_day y e -> y = 100 * b + r -> 0 <= r <= 99 -> 0 <= b ->
  (4 * (365 * r + r / 4 + e) + 3) / 1461 = r /\ (365 * r + r / 4 + e) - 1461 * r / 4 = e.
Proof.
  intros [Hy He] Hyb Hr Hb. assert (1461 * r / 4 = 365 * r + r / 4) as E.
  { replace (1461 * r) with (r + 365 * r * 4) by lia. rewrite Z.div_add; lia. }
  assert (Hl2 : leap (y + 1) = true -> r mod 4 = 3).
  { unfold leap. intros [Hl' _]%andb_true_iff. apply Z.eqb_eq in Hl'. Z.to_euclidean_division_equations. lia. }
  split; [|lia]. symmetry. apply (Z.div_unique _ _ r (4 * (365 * r + r / 4 + e) + 3 - 1461 * r)); [left|lia].
  destruct He as [He|[-> Hlp]]; [|specialize (Hl2 Hlp)]; Z.to_euclidean_division_equations; lia.
Qed.

(** Month and day of a day of the year. *)
Lemma march_of_date d : gregorian d -> -4800 < year d ->
  let y := march_year (year d) (month d) in
  let mm := march_month (month d) in
  let e := day d - 1 + days_before mm in
  march_day y e /\ 0 <= e <= 365 /\ 0 <= mm <= 11 /\ (5 * e + 2) / 153 = mm /\
  mm + 3 - 12 * (mm / 10) = month d /\ y - 4800 + mm / 10 = year d /\ julian d = march_number y e + 1 - 32045.
Proof.
  destruct d as [y m d]. unfold gregorian. cbn [year month day]. intros [Hm Hd] Hy.
  assert (Hc : m = 1 \/ m = 2 \/ m = 3 \/ m = 4 \/ m = 5 \/ m = 6 \/ m = 7 \/ m = 8 \/ m = 9 \/ m = 10 \/ m = 11 \/ m = 12) by lia.
  unfold julian, march_number. cbn [year month day].
  assert (Hl : forall e, e <= 364 \/ e = 365 /\ leap y = true -> 0 <= e -> m < 3 -> march_day (march_year y m) e).
  { intros e He H0 Hm3. unfold march_year. rewrite (proj2 (Z.ltb_lt m 3)) by lia. split; [lia|].
    replace (y + 4799 + 1) with (y + 12 * 400) by lia. unfold leap.
    replace ((y + 12 * 400) mod 4) with (y mod 4) by (Z.to_euclidean_division_equations; lia).
    replace ((y + 12 * 400) mod 100) with (y mod 100) by (Z.to_euclidean_division_equations; lia).
    rewrite Z.mod_add by lia. unfold leap in He. destruct He; [left; lia | by right]. }
  assert (Hl' : forall e, 0 <= e <= 364 -> 3 <= m -> march_day (march_year y m) e).
  { intros e He Hm3. unfold march_year. rewrite (proj2 (Z.ltb_ge m 3)) by lia. split; [lia | by left]. }
  destruct Hc as [->|[->|[->|[->|[->|[->|[->|[->|[->|[->|[->| ->]]]]]]]]]]];
    cbn in Hd; unfold march_month, march_year, days_before in *; cbn in Hl, Hl' |- *.
  all: repeat match goal with |- context [(153 * ?a + 2) / 5] =>
    let v := eval compute in ((153 * a + 2) / 5) in change ((153 * a + 2) / 5) with v end.
  all: split; [first [apply Hl'; lia | apply Hl; [first [left; lia | destruct (leap y); [|left; lia]; destruct (decide (d = 29)); [right; split; [lia | done] | left; lia]]|lia..]]|].
  all: assert (d <= 31) by (destruct (leap y); lia); split_and!; try lia.
  all: Z.to_euclidean_division_equations; try lia.
  all: destruct (leap y); lia.
Qed.

(** The code's computation on a March-based day. *)
Lemma getYearMonthDay_march y e mm : march_day y e -> y <= 1404800 -> 0 <= e <= 365 -> 0 <= mm <= 11 -> (5 * e + 2) / 153 = mm ->
  getYearMonthDay (march_number y e + 1 - 32045) =
  Ok (mkYmd (y - 4800 + mm / 10) (mm + 3 - 12 * (mm / 10)) (e - days_before mm + 1)).
Proof.
  intros Hmd Hy He Hmm Hm. destruct (march_century y e Hmd) as (b & r & Hyr & Hr & Hb & Hn & Hdb).
  destruct (march_of_century y e b r Hmd Hyr Hr Hb) as [Hd Hc].
  pose proof (md_year _ _ Hmd) as Hy0. unfold getYearMonthDay.
  assert (Hrange : 0 <= march_number y e <= 530000000).
  { unfold march_number. pose proof (div_bounds y 4 0 400000 ltac:(lia) ltac:(lia)).
    pose proof (div_bounds y 100 0 20000 ltac:(lia) ltac:(lia)). pose proof (div_bounds y 400 0 20000 ltac:(lia) ltac:(lia)).
    pose proof (Z.div_le_compat_l y 4 100 ltac:(lia) ltac:(lia)). lia. }
  set (n := march_number y e) in *. int_steps. replace (n + 1 - 32045 + 32044) with n by lia. int_steps.
  rewrite (quot_div (4 * n + 3)) by lia. rewrite Hdb. int_steps. rewrite (quot_div (b * 146097)) by lia.
  pose proof (div_bounds r 4 0 30 ltac:(lia) ltac:(lia)). replace (n - b * 146097 / 4) with (365 * r + r / 4 + e) by lia. int_steps.
  rewrite (quot_div (4 * _ + 3)) by lia. rewrite Hd. int_steps. rewrite (quot_div (1461 * r)) by lia. rewrite Hc. int_steps.
  rewrite (quot_div (5 * e + 2)) by lia. rewrite Hm. int_steps. rewrite (quot_div (153 * mm + 2)), (quot_div mm) by lia.
  pose proof (div_bounds (153 * mm + 2) 5 0 400 ltac:(lia) ltac:(lia)). pose proof (div_bounds mm 10 0 1 ltac:(lia) ltac:(lia)).
  int_steps. unfold days_before. do 2 f_equal; lia.
Qed.

Lemma getYearMonthDay_julian d : gregorian d -> -4800 < year d <= 1400000 -> getYearMonthDay (julian d) = Ok d.
Proof.
  intros Hg Hy. destruct (march_of_date d Hg ltac:(lia)) as (Hmd & He & Hmm & Hm & Emonth & Eyear & ->).
  assert (march_year (year d) (month d) <= 1404800) by (unfold march_year; case_match; lia).
  rewrite (getYearMonthDay_march _ _ (march_month (month d)) Hmd) by done. rewrite Emonth, Eyear. destruct d; cbn.
  do 2 f_equal. lia.
Qed.

Lemma gregorian_next d : gregorian d -> gregorian (next_day d).
Proof.
  intros [Hm Hd]. unfold next_day. case_cmp; [split; cbn; lia|]. case_cmp; (split; cbn; [lia|]); unfold days_in_month; repeat case_match; lia.
Qed.

Lemma julian_next d : gregorian d -> julian (next_day d) = julian d + 1.
Proof.
  destruct d as [y m d]. intros [Hm Hd]. unfold next_day, julian, march_year, march_month, days_before in *. cbn [year month day] in *.
  destruct (Z.ltb_spec d (days_in_month y m)); [cbn [year month day]; lia|]. assert (d = days_in_month y m) as -> by lia. clear Hd H.
  assert (Hc : m = 1 \/ m = 2 \/ m = 3 \/ m = 4 \/ m = 5 \/ m = 6 \/ m = 7 \/ m = 8 \/ m = 9 \/ m = 10 \/ m = 11 \/ m = 12) by lia.
  destruct Hc as [->|[->|[->|[->|[->|[->|[->|[->|[->|[->|[->| ->]]]]]]]]]]]; cbn -[Z.mul Z.add Z.sub Z.div]; unfold days_in_month; cbn [Z.eqb Pos.eqb orb].
  all: repeat match goal with |- context [(153 * ?a + 2) / 5] =>
    let v := eval compute in ((153 * a + 2) / 5) in change ((153 * a + 2) / 5) with v end.
  all: repeat match goal with |- context [?a + 1 <? 3] =>
    let v := eval compute in (a + 1 <? 3) in change (a + 1 <? 3) with v; cbv match end.
  all: try (replace (y + 1 + 4799) with (y + 4800) by lia; lia); try lia.
  unfold leap. case_match; Z.to_euclidean_division_equations; lia.
Qed.

(** The Julian day number of a date of the Gregorian calendar, from the
    year -4799 to the year 1400000, is computed without overflow, converts back
    to the same date, grows by exactly one with each day of the calendar (leap
    years and month lengths included), and the day of the week advances with it. *)
Theorem Date_counts_days (d : YearMonthDay) : gregorian d -> -4800 < year d < 1400000 ->
  exists n, Date_ymd (year d) (month d) (day d) = Ok n /\ yearMonthDay n = Ok d /\
    Date_ymd (year (next_day d)) (month (next_day d)) (day (next_day d)) = Ok (n + 1) /\
    (0 <= n -> exists w w', weekDay n = Ok w /\ weekDay (n + 1) = Ok w' /\ 0 <= w < 7 /\ w' = (w + 1) mod 7).
Proof.
  intros Hg Hy. exists (julian d). assert (Hj : getYearMonthDay (julian d) = Ok d) by (apply getYearMonthDay_julian; [done | lia]).
  assert (Hle : julian d < 2 ^ 31 - 2).
  { destruct (march_of_date d Hg ltac:(lia)) as (Hmd & He & _ & _ & _ & _ & ->). unfold march_number.
    assert (0 <= march_year (year d) (month d) <= 1404800) by (unfold march_year; case_match; lia).
    set (y := march_year _ _) in *. pose proof (div_bounds y 4 0 400000 ltac:(lia) ltac:(lia)).
    pose proof (div_bounds y 100 0 20000 ltac:(lia) ltac:(lia)). pose proof (div_bounds y 400 0 20000 ltac:(lia) ltac:(lia)). lia. }
  split_and!.
  - apply getJulianDayNumber_exact; [done | lia].
  - exact Hj.
  - unfold Date_ymd. rewrite getJulianDayNumber_exact, julian_next; [done..| |]; [by apply gregorian_next|].
    unfold next_day. repeat case_match; cbn; lia.
  - intros H0. unfold weekDay, kDaysPerWeek. int_steps. exists ((julian d + 1) mod 7), ((julian d + 1 + 1) mod 7).
    rewrite !Z.rem_mod_nonneg by lia. rewrite Zplus_mod_idemp_l. pose proof (Z.mod_pos_bound (julian d + 1) 7 ltac:(lia)). done.
Qed.

(** The end of February in the leap year 2000. *)
Lemma Date_counts_days_witness : exists n, Date_ymd 2000 2 29 = Ok n /\ yearMonthDay n = Ok (mkYmd 2000 2 29) /\
  Date_ymd 2000 3 1 = Ok (n + 1).
Proof.
  destruct (Date_counts_days (mkYmd 2000 2 29)) as (n & H1 & H2 & H3 & _);
    [split; cbn [year month day]; change (days_in_month 2000 2) with 29; lia | cbn; lia | by exists n].
Defined.

(** [Date::kJulianDayOf1970_01_01], a Thursday. *)
Example kJulianDayOf1970_01_01 : getJulianDayNumber 1970 1 1 = Ok 2440588 /\ weekDay 2440588 = Ok 4.
Proof. split; reflexivity. Qed.
