(* ===== verification/TimeZone.v ===== *)
(** * Time zones ([3rd_party/muduo/muduo/base/TimeZone.{h,cc}])

    Conversion between seconds and broken-down time, zones with transitions,
    and the reader of zone files. [gmtime_r] and [timegm] are the C library's:
    they count on the proleptic Gregorian calendar in exact arithmetic. *)
From stdpp Require Import strings.
From S2P Require Import Prelude Endian Date.

(** [time_t] arithmetic: 64 bits, overflow is undefined. *)
Definition time_ (z : Z) : res Z := if bool_decide (- 2 ^ 63 <= z < 2 ^ 63) then Ok z else Fail FOverflow.

(** The fields of [struct tm] that are set; [tm_zone] as a string. *)
Record tm := mkTm {
  tm_sec : Z; tm_min : Z; tm_hour : Z;
  tm_mday : Z; tm_mon : Z; tm_year : Z;
  tm_wday : Z; tm_yday : Z; tm_isdst : bool;
  tm_gmtoff : Z; tm_zone : bytes;
}.
Definition zero_tm : tm := mkTm 0 0 0 0 0 0 0 0 false 0 [].

Definition kSecondsPerDay : Z := 24 * 60 * 60.
Definition kJulianDayOf1970 : Z := 2440588.

(** ** Universal time *)

(** [fillHMS(seconds, utc)] *)
Definition fillHMS (seconds : Z) (utc : tm) : tm :=
  let minutes := uint32 seconds / 60 in
  mkTm (uint32 seconds mod 60) (minutes mod 60) (minutes / 60) (tm_mday utc) (tm_mon utc) (tm_year utc)
    (tm_wday utc) (tm_yday utc) (tm_isdst utc) (tm_gmtoff utc) (tm_zone utc).

Definition toUtcTime (secondsSinceEpoch : Z) (yday : bool) : res tm :=
  let seconds := int32 (Z.rem secondsSinceEpoch kSecondsPerDay) in
  let days := int32 (Z.quot secondsSinceEpoch kSecondsPerDay) in
  seconds_days ← (if seconds <? 0 then
                    seconds ← int_ (seconds + kSecondsPerDay); days ← int_ (days - 1); Ok (seconds, days)
                  else Ok (seconds, days));
  let '(seconds, days) := seconds_days in
  let utc := fillHMS seconds (mkTm 0 0 0 0 0 0 0 0 false 0 (lit "GMT")) in
  date ← int_ (days + kJulianDayOf1970);
  ymd ← yearMonthDay date;
  tm_year ← int_ (year ymd - 1900);
  tm_mon ← int_ (month ymd - 1);
  tm_wday ← weekDay date;
  tm_yday ← (if yday then startOfYear ← Date_ymd (year ymd) 1 1; int_ (date - startOfYear) else Ok 0);
  Ok (mkTm (tm_sec utc) (tm_min utc) (tm_hour utc) (day ymd) tm_mon tm_year tm_wday tm_yday false 0 (tm_zone utc)).

(** [fromUtcTime(year, month, day, hour, minute, seconds)] *)
Definition fromUtcTime_fields (year month day hour minute seconds : Z) : res Z :=
  date ← Date_ymd year month day;
  h ← int_ (hour * 3600);
  m ← int_ (minute * 60);
  hm ← int_ (h + m);
  secondsInDay ← int_ (hm + seconds);
  days ← int_ (date - kJulianDayOf1970);
  s ← time_ (days * kSecondsPerDay);
  time_ (s + secondsInDay).

Definition fromUtcTime (utc : tm) : res Z :=
  y ← int_ (tm_year utc + 1900);
  m ← int_ (tm_mon utc + 1);
  fromUtcTime_fields y m (tm_mday utc) (tm_hour utc) (tm_min utc) (tm_sec utc).

(** ** The C library's calendar *)

(** The date of a Julian day. *)
Definition civil (n : Z) : YearMonthDay :=
  let a := n + 32044 in
  let b := (4 * a + 3) / 146097 in
  let c := a - b * 146097 / 4 in
  let d := (4 * c + 3) / 1461 in
  let e := c - 1461 * d / 4 in
  let m := (5 * e + 2) / 153 in
  mkYmd (b * 100 + d - 4800 + m / 10) (m + 3 - 12 * (m / 10)) (e - (153 * m + 2) / 5 + 1).

(** The broken-down time of a second. *)
Definition utc_tm (s : Z) : tm :=
  let n := s / kSecondsPerDay + kJulianDayOf1970 in
  let r := s mod kSecondsPerDay in
  let d := civil n in
  mkTm (r mod 60) (r / 60 mod 60) (r / 3600) (day d) (month d - 1) (year d - 1900)
    ((n + 1) mod 7) (n - julian (mkYmd (year d) 1 1)) false 0 (lit "GMT").

(** [tm_year] is an [int]: beyond, [gmtime_r] fails and the structure holds
    nothing specified; no caller looks at the result. *)
Definition gmtime_r (s : Z) : res tm :=
  if bool_decide (- 2 ^ 31 <= tm_year (utc_tm s) < 2 ^ 31) then Ok (utc_tm s) else Fail FOverflow.

(** For a broken-down time in range. *)
Definition timegm (t : tm) : Z :=
  (julian (mkYmd (tm_year t + 1900) (tm_mon t + 1) (tm_mday t)) - kJulianDayOf1970) * kSecondsPerDay +
  tm_hour t * 3600 + tm_min t * 60 + tm_sec t.

(** ** Zones *)
Record Transition := mkTransition { gmttime : Z; localtime : Z; localtimeIdx : Z }.
Record Localtime := mkLocaltime { gmtOffset : Z; isDst : bool; arrbIdx : Z }.
Record Data := mkData {
  transitions : list Transition;
  localtimes : list Localtime;
  names : list bytes;
  abbreviation : bytes;
}.
Definition Data_ctor : Data := mkData [] [] [] [].

(** [struct Comp] *)
Definition comp (compareGmt : bool) (lhs rhs : Transition) : bool :=
  if compareGmt then gmttime lhs <? gmttime rhs else localtime lhs <? localtime rhs.
Definition comp_equal (compareGmt : bool) (lhs rhs : Transition) : bool :=
  if compareGmt then gmttime lhs =? gmttime rhs else localtime lhs =? localtime rhs.

(** [v[i]] *)
Definition at_ {A} (v : list A) (i : Z) : res A :=
  if i <? 0 then Fail FBounds else
  match v !! Z.to_nat i with Some x => Ok x | None => Fail FBounds end.

(** [std::lower_bound(v.begin(), v.end(), x, less)] as an index: the interval
    of [len] elements at [first] is halved. *)
Fixpoint lower_bound {A} (fuel : nat) (less : A -> A -> bool) (v : list A) (x : A) (first len : nat) : res nat :=
  match len with
  | O => Ok first
  | S _ =>
      match fuel with
      | O => Fail FFuel
      | S fuel =>
          let half := Nat.div2 len in
          y ← at_ v (Z.of_nat (first + half));
          if less y x then lower_bound fuel less v x (first + half + 1) (len - half - 1)
          else lower_bound fuel less v x first half
      end
  end.

Definition findLocaltime (data : Data) (sentry : Transition) (gmt : bool) : res Localtime :=
  let n := length (transitions data) in
  first ← (match transitions data with [] => Ok true | t :: _ => Ok (comp gmt sentry t) end);
  if (first : bool) then at_ (localtimes data) 0
  else
    transI ← lower_bound n (comp gmt) (transitions data) sentry 0 n;
    if negb (transI =? n)%nat then
      t ← at_ (transitions data) (Z.of_nat transI);
      transI ← (if negb (comp_equal gmt sentry t) then
                  assert_ (negb (transI =? 0)%nat);; Ok (Z.of_nat transI - 1)
                else Ok (Z.of_nat transI));
      t ← at_ (transitions data) transI;
      at_ (localtimes data) (localtimeIdx t)
    else
      t ← at_ (transitions data) (Z.of_nat n - 1);
      at_ (localtimes data) (localtimeIdx t).

(** A [TimeZone] is its [data_] pointer. *)
Definition TimeZone := option Data.

Definition TimeZone_fixed (eastOfUtc : Z) (name : bytes) : TimeZone :=
  Some (mkData [] [mkLocaltime eastOfUtc false 0] [] name).
Definition valid (z : TimeZone) : bool := match z with Some _ => true | None => false end.

(** The zero-terminated string at [&abbreviation[i]]. *)
Fixpoint c_string (l : bytes) : bytes :=
  match l with [] => [] | Byte.x00 :: _ => [] | c :: l => c :: c_string l end.

Definition toLocalTime (z : TimeZone) (seconds : Z) : res tm :=
  match z with
  | None => Fail FAssert
  | Some data =>
      let sentry := mkTransition seconds 0 0 in
      local ← findLocaltime data sentry true;
      localSeconds ← time_ (seconds + gmtOffset local);
      t ← gmtime_r localSeconds;
      (* the string ends at the terminator behind [abbreviation] at the latest *)
      check ((0 <=? arrbIdx local) && (arrbIdx local <=? zlen (abbreviation data))) FBounds;;
      Ok (mkTm (tm_sec t) (tm_min t) (tm_hour t) (tm_mday t) (tm_mon t) (tm_year t) (tm_wday t) (tm_yday t)
            (isDst local) (gmtOffset local) (c_string (zdrop (arrbIdx local) (abbreviation data))))
  end.

Definition fromLocalTime (z : TimeZone) (localTm : tm) : res Z :=
  match z with
  | None => Fail FAssert
  | Some data =>
      let seconds := timegm localTm in
      let sentry := mkTransition 0 seconds 0 in
      local ← findLocaltime data sentry false;
      seconds ←
        (if tm_isdst localTm then
           s ← time_ (seconds - gmtOffset local);
           tryTm ← toLocalTime z s;
           if negb (tm_isdst tryTm) && (tm_hour tryTm =? tm_hour localTm) && (tm_min tryTm =? tm_min localTm)
           then time_ (seconds - 3600) else Ok seconds
         else Ok seconds);
      time_ (seconds - gmtOffset local)
  end.

(** ** Zone files

    The reader works on the rest of the file and the [Data] it fills. A
    [logic_error] ends it and is caught by [readTimeZoneFile], which keeps what
    has been filled in so far. *)
Record reading := mkReading { rest : bytes; data : Data }.

Inductive outcome (A : Type) :=
  | Read (a : A) (s : reading)
  | LogicError (s : reading).
Arguments Read {A} a s.
Arguments LogicError {A} s.

Definition reader (A : Type) : Type := reading -> res (outcome A).
#[global] Instance reader_ret : MRet reader := fun A a s => Ok (Read a s).
#[global] Instance reader_bind : MBind reader := fun A B k m s =>
  o ← m s; match o with Read a s => k a s | LogicError s => Ok (LogicError s) end.

Definition throw_logic_error {A} : reader A := fun s => Ok (LogicError s).
Definition with_data (f : Data -> Data) : reader unit := fun s => Ok (Read tt (mkReading (rest s) (f (data s)))).
Definition get_data : reader Data := fun s => Ok (Read (data s) s).
Definition lift {A} (m : res A) : reader A := fun s => a ← m; Ok (Read a s).

(** [fread] of [n] bytes: what is there is consumed even if it is too little. *)
Definition fread (n : Z) : reader bytes := fun s =>
  if zlen (rest s) <? n then Ok (LogicError (mkReading [] (data s)))
  else Ok (Read (ztake n (rest s)) (mkReading (zdrop n (rest s)) (data s))).

(** [readBytes(n)]: an array of negative size is undefined. *)
Definition readBytes (n : Z) : reader bytes := fun s => check (0 <=? n) FBounds;; fread n s.

Section file.
Context {h : Host}.

Definition readInt32 : reader Z :=
  x ← fread 4; mret (int32 (betoh 4 (load_int x))).

Definition readUInt8 : reader Z :=
  x ← fread 1; mret (load_int x).

(** [for (int i = 0; i < n; ++i) v.push_back(body)] *)
Fixpoint read_n {A} (n : nat) (body : reader A) : reader (list A) :=
  match n with
  | O => mret []
  | S n => a ← body; l ← read_n n body; mret (a :: l)
  end.

Definition push_localtime (l : Localtime) (d : Data) : Data :=
  mkData (transitions d) (localtimes d ++ [l]) (names d) (abbreviation d).
Definition push_transition (t : Transition) (d : Data) : Data :=
  mkData (transitions d ++ [t]) (localtimes d) (names d) (abbreviation d).
Definition set_abbreviation (a : bytes) (d : Data) : Data :=
  mkData (transitions d) (localtimes d) (names d) a.

(** One entry of the table of local time types. *)
Definition read_localtime : reader unit :=
  gmtoff ← readInt32;
  isdst ← readUInt8;
  abbrind ← readUInt8;
  with_data (push_localtime (mkLocaltime gmtoff (negb (isdst =? 0)) abbrind)).

(** One transition, from its time and the index of its type. *)
Definition add_transition (x : Z * Z) : reader unit :=
  let '(trans, localIdx) := x in
  d ← get_data;
  l ← lift (at_ (localtimes d) localIdx);
  localtime ← lift (time_ (trans + gmtOffset l));
  with_data (push_transition (mkTransition trans localtime localIdx)).

Fixpoint for_each {A} (l : list A) (body : A -> reader unit) : reader unit :=
  match l with
  | [] => mret tt
  | a :: l => body a;; for_each l body
  end.

(** The [try] block. [vector::reserve] of a negative number throws
    [std::length_error], which is a [logic_error]. *)
Definition read_zone : reader unit :=
  head ← readBytes 4;
  (if bool_decide (head = lit "TZif") then mret tt else throw_logic_error);;
  version ← readBytes 1;
  readBytes 15;;
  isgmtcnt ← readInt32;
  isstdcnt ← readInt32;
  leapcnt ← readInt32;
  timecnt ← readInt32;
  typecnt ← readInt32;
  charcnt ← readInt32;
  (if timecnt <? 0 then throw_logic_error else mret tt);;
  trans ← read_n (Z.to_nat timecnt) readInt32;
  locals ← read_n (Z.to_nat timecnt) readUInt8;
  read_n (Z.to_nat typecnt) read_localtime;;
  for_each (zip trans locals) add_transition;;
  abbreviation ← readBytes charcnt;
  with_data (set_abbreviation abbreviation).

(** [readTimeZoneFile]: the file is its content, if it can be opened. *)
Definition readTimeZoneFile (zonefile : option bytes) (d : Data) : res (bool * Data) :=
  match zonefile with
  | Some content =>
      o ← read_zone (mkReading content d);
      Ok (true, data match o with Read _ s => s | LogicError s => s end)
  | None => Ok (true, d)
  end.

(** [TimeZone(const char* zonefile)] *)
Definition TimeZone_file (zonefile : option bytes) : res TimeZone :=
  '(ok, d) ← readTimeZoneFile zonefile Data_ctor;
  Ok (if (ok : bool) then Some d else None).
End file.
