(* ===== verification/TimeZoneProps.v ===== *)
(** * Time zones: conversions are exact

    Universal time against the calendar, the search for the local time type
    against a scan of the transitions, and the round trip through local time. *)
From stdpp Require Import strings sorting.
From S2P Require Import Prelude Endian Date TimeZone.

Lemma time_ok z : - 2 ^ 63 <= z < 2 ^ 63 -> time_ z = Ok z.
Proof. intros H. unfold time_. by rewrite bool_decide_eq_true_2. Qed.

Lemma time_bind {A} z (k : Z -> res A) : - 2 ^ 63 <= z < 2 ^ 63 -> (time_ z ≫= k) = k z.
Proof. intros H. by rewrite time_ok. Qed.

(** ** The calendar *)
Lemma civil_julian d : gregorian d -> -4800 < year d -> civil (julian d) = d.
Proof.
  intros Hg Hy. destruct (march_of_date d Hg Hy) as (Hmd & He & Hmm & Hm & Emonth & Eyear & ->).
  set (y := march_year _ _) in *. set (mm := march_month _) in *. set (e := day d - 1 + days_before mm) in *.
  destruct (march_century y e Hmd) as (b & r & Hyr & Hr & Hb & Hn & Hdb).
  destruct (march_of_century y e b r Hmd Hyr Hr Hb) as [Hd Hc]. unfold civil.
  replace (march_number y e + 1 - 32045 + 32044) with (march_number y e) by lia. rewrite Hdb.
  replace (march_number y e - b * 146097 / 4) with (365 * r + r / 4 + e) by lia. rewrite Hd, Hc, Hm.
  destruct d as [y0 m0 d0]. cbn [year month day] in *. unfold days_before in *. f_equal; lia.
Qed.

(** Every Julian day is a date. *)
Lemma julian_surj n : 0 <= n -> exists d, gregorian d /\ -4800 < year d /\ julian d = n.
Proof.
  intros Hn. pattern n. apply natlike_ind; [| |done].
  - exists (mkYmd (-4713) 11 24). split_and!; [|done..]. split; cbn [year month day]; [lia|].
    change (days_in_month (-4713) 11) with 30. lia.
  - intros k Hk (d & Hg & Hy & Hj). exists (next_day d). split_and!; [by apply gregorian_next | | rewrite julian_next by done; lia].
    unfold next_day. repeat case_match; cbn; lia.
Qed.

(** Dates up to a day that the formulas handle in 32 bits. *)
Definition last_day : Z := 513000000.

Lemma julian_year d : gregorian d -> -4800 < year d -> julian d <= last_day -> year d < 1400000.
Proof.
  intros Hg Hy Hj. destruct (march_of_date d Hg Hy) as (Hmd & He & Hmm & _ & _ & Eyear & E).
  destruct (decide (year d < 1400000)) as [|Hge]; [done|]. exfalso. rewrite E in Hj. unfold march_number, last_day in Hj.
  pose proof (div_bounds (march_month (month d)) 10 0 1 ltac:(lia) ltac:(lia)).
  assert (1404799 <= march_year (year d) (month d)) by lia. set (y := march_year _ _) in *.
  Z.to_euclidean_division_equations. lia.
Qed.

(** A broken-down time of the calendar. *)
Record valid_tm (t : tm) : Prop := {
  vt_date : gregorian (mkYmd (tm_year t + 1900) (tm_mon t + 1) (tm_mday t));
  vt_year : -4800 < tm_year t + 1900;
  vt_hour : 0 <= tm_hour t < 24;
  vt_min : 0 <= tm_min t < 60;
  vt_sec : 0 <= tm_sec t < 60;
}.

(** [gmtime_r] works for a thousand million years. *)
Lemma gmtime_r_ok s : - kJulianDayOf1970 * kSecondsPerDay <= s <= 2 ^ 55 -> gmtime_r s = Ok (utc_tm s).
Proof.
  intros Hs. assert (Hn : 0 <= s / kSecondsPerDay + kJulianDayOf1970 <= 2 ^ 39)
    by (unfold kSecondsPerDay, kJulianDayOf1970 in *; Z.to_euclidean_division_equations; lia).
  destruct (julian_surj _ (proj1 Hn)) as (d & Hg & Hy & Hj). unfold gmtime_r. rewrite bool_decide_eq_true_2; [done|].
  unfold utc_tm. rewrite <- Hj, civil_julian by done. cbn [tm_year]. split; [lia|].
  destruct (march_of_date d Hg Hy) as (Hmd & He & Hmm & _ & _ & Eyear & E). rewrite Hj in E. rewrite E in Hn. unfold march_number in Hn.
  pose proof (div_bounds (march_month (month d)) 10 0 1 ltac:(lia) ltac:(lia)).
  set (y := march_year _ _) in *. assert (y <= 2 ^ 31); [|lia]. Z.to_euclidean_division_equations. lia.
Qed.

Lemma hms r : 0 <= r < kSecondsPerDay ->
  0 <= r / 3600 < 24 /\ 0 <= r / 60 mod 60 < 60 /\ 0 <= r mod 60 < 60 /\ r / 60 / 60 = r / 3600 /\
  r / 3600 * 3600 + r / 60 mod 60 * 60 + r mod 60 = r.
Proof.
  unfold kSecondsPerDay. intros Hr. rewrite Z.div_div by lia. split_and!; Z.to_euclidean_division_equations; lia.
Qed.

Lemma gmtime_valid s : 0 <= s / kSecondsPerDay + kJulianDayOf1970 -> valid_tm (utc_tm s) /\ timegm (utc_tm s) = s.
Proof.
  intros Hn. destruct (julian_surj _ Hn) as (d & Hg & Hy & Hj). unfold utc_tm, timegm.
  rewrite <- Hj, civil_julian by done. destruct d as [y m d]. cbn [tm_year tm_mon tm_mday tm_hour tm_min tm_sec year month day] in *.
  replace (y - 1900 + 1900) with y by lia. replace (m - 1 + 1) with m by lia.
  pose proof (Z.mod_pos_bound s kSecondsPerDay ltac:(done)) as Hr. destruct (hms _ Hr) as (H1 & H2 & H3 & _ & H4).
  split; [split; cbn [tm_year tm_mon tm_mday tm_hour tm_min tm_sec]; try done; [|lia]|].
  - by replace (y - 1900 + 1900) with y by lia; replace (m - 1 + 1) with m by lia.
  - rewrite Hj. pose proof (Z.div_mod s kSecondsPerDay ltac:(done)). lia.
Qed.

(** [timegm] is injective on broken-down times of the calendar. *)
Lemma gmtime_timegm t : valid_tm t -> 
  let u := utc_tm (timegm t) in
  tm_year u = tm_year t /\ tm_mon u = tm_mon t /\ tm_mday u = tm_mday t /\ tm_hour u = tm_hour t /\ tm_min u = tm_min t /\ tm_sec u = tm_sec t.
Proof.
  intros [Hg Hy Hh Hm Hs]. cbn zeta. unfold utc_tm, timegm. set (j := julian _). set (r := tm_hour t * 3600 + tm_min t * 60 + tm_sec t).
  replace ((j - kJulianDayOf1970) * kSecondsPerDay + tm_hour t * 3600 + tm_min t * 60 + tm_sec t)
    with (r + (j - kJulianDayOf1970) * kSecondsPerDay) by lia.
  assert (0 <= r < kSecondsPerDay) by (unfold kSecondsPerDay; lia).
  rewrite Z.div_add, Z.mod_add by done. rewrite (Z.div_small r kSecondsPerDay), (Z.mod_small r kSecondsPerDay) by done.
  replace (0 + (j - kJulianDayOf1970) + kJulianDayOf1970) with j by lia. subst j. rewrite civil_julian by done.
  cbn [tm_year tm_mon tm_mday tm_hour tm_min tm_sec year month day]. subst r. split_and!; try lia; Z.to_euclidean_division_equations; lia.
Qed.

(** ** Universal time *)

(** Seconds of the days the formulas handle. *)
Definition in_range (s : Z) : Prop := 0 <= s / kSecondsPerDay + kJulianDayOf1970 <= last_day.

(** Truncated division, corrected for negative remainders, is floored division. *)
Lemma floor_days s : in_range s ->
  let seconds := int32 (Z.rem s kSecondsPerDay) in
  let days := int32 (Z.quot s kSecondsPerDay) in
  (if seconds <? 0 then
     seconds ← int_ (seconds + kSecondsPerDay); days ← int_ (days - 1); Ok (seconds, days)
   else Ok (seconds, days)) = Ok (s mod kSecondsPerDay, s / kSecondsPerDay).
Proof.
  unfold in_range, kSecondsPerDay, kJulianDayOf1970, last_day. change (24 * 60 * 60) with 86400. intros Hs. cbn zeta.
  assert (-86400 < Z.rem s 86400 < 86400) by (Z.to_euclidean_division_equations; lia).
  assert (-3000000 <= Z.quot s 86400 <= 513000000) by (Z.to_euclidean_division_equations; lia).
  rewrite !int32_id by lia. destruct (Z.ltb_spec (Z.rem s 86400) 0).
  - int_steps. do 2 f_equal; Z.to_euclidean_division_equations; lia.
  - do 2 f_equal; Z.to_euclidean_division_equations; lia.
Qed.

Lemma start_of_year y : gregorian (mkYmd y 1 1).
Proof. split; cbn [year month day]; [lia|]. change (days_in_month y 1) with 31. lia. Qed.

Lemma yday_range d : gregorian d -> -4800 < year d -> 0 <= julian d - julian (mkYmd (year d) 1 1) <= 366.
Proof.
  destruct d as [y m d]. intros [Hm Hd] Hy. cbn [year month day] in *. unfold julian, march_year, march_month, days_before. cbn [year month day].
  change (1 <? 3) with true. cbv match. destruct (Z.ltb_spec m 3); unfold days_in_month in Hd.
  - assert (m = 1 \/ m = 2) as [->| ->] by lia; repeat case_match; Z.to_euclidean_division_equations; lia.
  - assert (d <= 31) by (repeat case_match; lia). Z.to_euclidean_division_equations. lia.
Qed.

Lemma toUtcTime_gmtime s : in_range s -> toUtcTime s true = Ok (utc_tm s).
Proof.
  intros Hs. unfold toUtcTime. rewrite floor_days by done. cbn [mbind res_bind].
  pose proof Hs as [Hn Hl]. destruct (julian_surj _ Hn) as (d & Hg & Hy & Hj).
  pose proof (Z.mod_pos_bound s kSecondsPerDay ltac:(done)) as Hr.
  assert (Hyy : year d < 1400000) by (apply julian_year; [done..|lia]).
  unfold utc_tm. rewrite <- Hj. unfold last_day, kSecondsPerDay in *. rewrite civil_julian by done.
  rewrite int_bind by lia. cbv beta. unfold yearMonthDay. rewrite getYearMonthDay_julian by (done || lia). cbn [mbind res_bind].
  assert (1 <= month d <= 12) by apply Hg. rewrite !int_bind by lia. cbv beta. unfold weekDay, kDaysPerWeek.
  rewrite int_bind by lia. cbv beta. cbn [mbind res_bind].
  change (Date_ymd (year d) 1 1) with (getJulianDayNumber (year (mkYmd (year d) 1 1)) (month (mkYmd (year d) 1 1)) (day (mkYmd (year d) 1 1))).
  rewrite getJulianDayNumber_exact by (first [apply start_of_year | cbn; lia]). cbn [mbind res_bind].
  pose proof (yday_range d Hg Hy). rewrite int_bind by lia. cbv beta.
  unfold fillHMS. cbn [tm_sec tm_min tm_hour tm_zone]. rewrite !uint32_id by lia.
  rewrite Z.rem_mod_nonneg by lia. destruct (hms _ Hr) as (_ & _ & _ & -> & _). done.
Qed.

Lemma fromUtcTime_timegm t : valid_tm t -> tm_year t + 1900 <= 1400000 -> fromUtcTime t = Ok (timegm t).
Proof.
  intros [Hg Hy Hh Hm Hs] Hyy. unfold fromUtcTime, fromUtcTime_fields, Date_ymd.
  assert (1 <= tm_mon t + 1 <= 12) by apply Hg. rewrite !int_bind by lia. cbv beta.
  pose proof (getJulianDayNumber_exact _ Hg ltac:(cbn; lia)) as E. cbn [year month day] in E. rewrite E. cbn [mbind res_bind].
  rewrite !int_bind by lia. cbv beta.
  assert (Hj : -32045 <= julian (mkYmd (tm_year t + 1900) (tm_mon t + 1) (tm_mday t)) <= 600000000).
  { destruct (march_of_date _ Hg Hy) as (Hmd & He & _ & _ & _ & _ & ->). unfold march_number. pose proof (md_year _ _ Hmd).
    assert (march_year (tm_year t + 1900) (tm_mon t + 1) <= 1404800) by (unfold march_year; case_match; lia).
    cbn [year month] in *. set (y := march_year _ _) in *.
    pose proof (div_bounds y 4 0 400000 ltac:(lia) ltac:(lia)). pose proof (div_bounds y 100 0 20000 ltac:(lia) ltac:(lia)).
    pose proof (div_bounds y 400 0 20000 ltac:(lia) ltac:(lia)). pose proof (Z.div_le_compat_l y 4 100 ltac:(lia) ltac:(lia)). lia. }
  unfold timegm. set (j := julian _) in *. unfold kJulianDayOf1970, kSecondsPerDay. rewrite int_bind by lia. cbv beta.
  rewrite time_bind by lia. cbv beta. rewrite time_ok by lia. f_equal. lia.
Qed.

(** Universal time is exact. For every second from the year -4713 to beyond
    the year 1390000, negative ones included, [toUtcTime] computes without
    overflow what [gmtime_r] does: the date of the Gregorian calendar, the
    time of day, the day of the week and of the year; and [fromUtcTime] gives
    the second back. Conversely any date and time of the calendar in that range
    survives the conversion to seconds. *)
Theorem UtcTime_roundtrip s t :
  in_range s -> valid_tm t -> in_range (timegm t) ->
  (toUtcTime s true = gmtime_r s /\ toUtcTime s true = Ok (utc_tm s) /\ valid_tm (utc_tm s) /\ fromUtcTime (utc_tm s) = Ok s) /\
  (exists u, fromUtcTime t = Ok (timegm t) /\ toUtcTime (timegm t) true = Ok u /\
    tm_year u = tm_year t /\ tm_mon u = tm_mon t /\ tm_mday u = tm_mday t /\
    tm_hour u = tm_hour t /\ tm_min u = tm_min t /\ tm_sec u = tm_sec t).
Proof.
  intros Hs Ht Hr.
  assert (Hy : forall x, in_range x -> tm_year (utc_tm x) + 1900 <= 1400000).
  { intros x [Hx1 Hx2]. destruct (julian_surj _ Hx1) as (d & Hg & Hyd & Hj). unfold utc_tm. rewrite <- Hj, civil_julian by done.
    cbn [tm_year]. pose proof (julian_year d Hg Hyd ltac:(lia)). lia. }
  split.
  - destruct (gmtime_valid s (proj1 Hs)) as [Hv Hg]. split_and!; [rewrite gmtime_r_ok; [by apply toUtcTime_gmtime|] | by apply toUtcTime_gmtime | done|].
    { destruct Hs. unfold last_day, kSecondsPerDay, kJulianDayOf1970 in *. Z.to_euclidean_division_equations. lia. }
    rewrite fromUtcTime_timegm by auto. by rewrite Hg.
  - pose proof (gmtime_timegm t Ht) as Hg. exists (utc_tm (timegm t)). split_and!; try apply Hg; [|by apply toUtcTime_gmtime].
    apply fromUtcTime_timegm; [done|]. destruct Hg as (<- & _). by apply Hy.
Qed.

(** ** Finding the local time type *)
Definition key (gmt : bool) (t : Transition) : Z := if gmt then gmttime t else localtime t.

Lemma comp_key gmt a b : comp gmt a b = (key gmt a <? key gmt b).
Proof. by destruct gmt. Qed.
Lemma comp_equal_key gmt a b : comp_equal gmt a b = (key gmt a =? key gmt b).
Proof. by destruct gmt. Qed.

Lemma at_lookup {A} (v : list A) (i : nat) x : v !! i = Some x -> at_ v (Z.of_nat i) = Ok x.
Proof. intros H. unfold at_. rewrite (proj2 (Z.ltb_ge _ _)), Nat2Z.id, H by lia. done. Qed.

(** On a partitioned vector the halving loop ends at the partition point. *)
Lemma lower_bound_spec {A} (less : A -> A -> bool) v x k fuel first len :
  (first <= k <= first + len)%nat -> (first + len <= length v)%nat -> (len <= fuel)%nat ->
  (forall i y, v !! i = Some y -> less y x = bool_decide (i < k)%nat) ->
  lower_bound fuel less v x first len = Ok k.
Proof.
  revert first len. induction fuel as [|fuel IH]; intros first len Hk Hlen Hf Hp.
  { assert (len = 0)%nat as -> by lia. cbn. f_equal. lia. }
  destruct len as [|len]; [cbn; f_equal; lia|]. cbn [lower_bound]. set (half := Nat.div2 (S len)).
  assert (Hh : (half < S len)%nat) by (apply Nat.lt_div2; lia).
  destruct (lookup_lt_is_Some_2 v (first + half)) as [y Hy]; [lia|]. rewrite (at_lookup _ _ _ Hy). cbn [mbind res_bind].
  rewrite (Hp _ _ Hy). case_bool_decide; apply IH; try done; lia.
Qed.

(** Transitions in order, an hour apart at least on both clocks. *)
Definition spaced (ts : list Transition) : Prop :=
  StronglySorted (fun u v => gmttime u + 3600 <= gmttime v /\ localtime u + 3600 <= localtime v) ts.

Lemma spaced_key gmt ts : spaced ts -> StronglySorted (fun u v => key gmt u < key gmt v) ts.
Proof.
  induction 1 as [|u ts _ IH Hu]; constructor; [done|]. eapply Forall_impl; [exact Hu|].
  intros v [? ?]. destruct gmt; cbn in *; lia.
Qed.

(** The type in force: that of the last transition at or before the given time,
    or the first type. *)
Definition in_force (pre : list Transition) : Z := match last pre with Some t => localtimeIdx t | None => 0 end.

Lemma search_stops gmt x pre t0 post : Forall (fun t => key gmt t < key gmt x) pre -> Forall (fun t => key gmt x < key gmt t) post ->
  let ts := pre ++ t0 :: post in
  lower_bound (length ts) (comp gmt) ts x 0 (length ts) =
  Ok (if key gmt t0 <? key gmt x then S (length pre) else length pre).
Proof.
  intros Hlt Hpost ts. assert (length ts = (length pre + S (length post))%nat) by (subst ts; rewrite length_app; done).
  apply lower_bound_spec; [case_match; lia | lia | lia|]. intros i y Hi. rewrite comp_key. subst ts.
  rewrite lookup_app in Hi. destruct (pre !! i) as [y'|] eqn:Ei.
  - injection Hi as ->. rewrite Forall_lookup in Hlt. rewrite (proj2 (Z.ltb_lt _ _)) by (by eapply Hlt).
    apply lookup_lt_Some in Ei. symmetry. apply bool_decide_eq_true. case_match; lia.
  - apply lookup_ge_None in Ei. destruct (i - length pre)%nat as [|j] eqn:Ej; cbn in Hi.
    + injection Hi as <-. assert (i = length pre) as -> by lia.
      case_match; symmetry; [apply bool_decide_eq_true | apply bool_decide_eq_false]; lia.
    + rewrite Forall_lookup in Hpost. specialize (Hpost _ _ Hi). cbn in Hpost. rewrite (proj2 (Z.ltb_ge _ _)) by lia.
      symmetry. apply bool_decide_eq_false. case_match; lia.
Qed.

Lemma findLocaltime_split d x gmt pre post : StronglySorted (fun u v => key gmt u < key gmt v) (pre ++ post) ->
  transitions d = pre ++ post -> Forall (fun t => key gmt t <= key gmt x) pre -> Forall (fun t => key gmt x < key gmt t) post ->
  findLocaltime d x gmt = at_ (localtimes d) (in_force pre).
Proof.
  intros Hs Ht Hpre Hpost. unfold findLocaltime, in_force. rewrite Ht. destruct pre as [|t0 pre _] using rev_ind.
  { cbn [app last]. destruct Hpost as [|t ts Hlt _]; [done|]. by rewrite comp_key, (proj2 (Z.ltb_lt _ _)). }
  rewrite last_snoc. apply Forall_app in Hpre as [Hpre Ht0]. rewrite Forall_singleton in Ht0.
  assert (Hfirst : (match (pre ++ [t0]) ++ post with [] => Ok true | t :: _ => Ok (comp gmt x t) end) = Ok false).
  { destruct pre as [|t1 pre]; cbn [app]; rewrite comp_key; f_equal; apply Z.ltb_ge; [exact Ht0|]. apply Forall_cons in Hpre as [Hp1 _]. exact Hp1. }
  rewrite Hfirst. cbn [mbind res_bind]. rewrite <- app_assoc in *. cbn [app] in *. set (ts := pre ++ t0 :: post) in *.
  assert (Hlt : Forall (fun t => key gmt t < key gmt x) pre).
  { apply Forall_forall. intros t Hin. pose proof (StronglySorted_app_1_elem_of _ _ _ t t0 Hs Hin ltac:(by left)). cbn in *. lia. }
  assert (Hlen : length ts = (length pre + S (length post))%nat) by (subst ts; rewrite length_app; done).
  assert (Hmid : ts !! length pre = Some t0) by (subst ts; apply list_lookup_middle; done).
  pose proof (search_stops gmt x pre t0 post Hlt Hpost) as Hk. cbn zeta in Hk. fold ts in Hk. rewrite Hk. cbn [mbind res_bind]. destruct (Z.ltb_spec (key gmt t0) (key gmt x)) as [Hl|Hg].
  - destruct post as [|u post].
    + cbn [length] in Hlen. rewrite Hlen, (proj2 (Nat.eqb_eq _ _)) by lia. cbn [negb].
      replace (Z.of_nat (length pre + 1) - 1) with (Z.of_nat (length pre)) by lia. by rewrite (at_lookup _ _ _ Hmid).
    + cbn [length] in Hlen. rewrite (proj2 (Nat.eqb_neq _ _)) by lia. cbn [negb].
      assert (Hu : ts !! S (length pre) = Some u) by (subst ts; rewrite lookup_app_r by lia; by replace (S (length pre) - length pre)%nat with 1%nat by lia).
      rewrite (at_lookup _ _ _ Hu). cbn [mbind res_bind]. apply Forall_cons in Hpost as [Hpu _].
      rewrite comp_equal_key, (proj2 (Z.eqb_neq _ _)) by lia. cbn [negb]. rewrite assert_bind_true by done. cbn [mbind res_bind].
      replace (Z.of_nat (S (length pre)) - 1) with (Z.of_nat (length pre)) by lia. by rewrite (at_lookup _ _ _ Hmid).
  - rewrite (proj2 (Nat.eqb_neq _ _)) by lia. cbn [negb]. rewrite (at_lookup _ _ _ Hmid). cbn [mbind res_bind].
    rewrite comp_equal_key, (proj2 (Z.eqb_eq _ _)) by lia. cbn [negb mbind res_bind]. by rewrite (at_lookup _ _ _ Hmid).
Qed.

(** The transitions before and after a point in time. *)
Lemma split_key gmt x ts : StronglySorted (fun u v => key gmt u < key gmt v) ts ->
  exists pre post, ts = pre ++ post /\ Forall (fun t => key gmt t <= x) pre /\ Forall (fun t => x < key gmt t) post.
Proof.
  induction 1 as [|t ts _ (pre & post & -> & H1 & H2) Ht]; [by exists [], []|].
  destruct (decide (key gmt t <= x)).
  - exists (t :: pre), post. split_and!; [done | by constructor | done].
  - exists [], (t :: pre ++ post). split_and!; [done | done|]. constructor; [lia|].
    eapply Forall_impl; [exact Ht|]. intros u. cbn. lia.
Qed.

(** A scan of the transitions. *)
Fixpoint scan (gmt : bool) (ts : list Transition) (x : Z) (current : Z) : Z :=
  match ts with
  | [] => current
  | t :: ts => if key gmt t <=? x then scan gmt ts x (localtimeIdx t) else current
  end.

Lemma scan_split gmt pre post x current : Forall (fun t => key gmt t <= x) pre -> Forall (fun t => x < key gmt t) post ->
  scan gmt (pre ++ post) x current = match last pre with Some t => localtimeIdx t | None => current end.
Proof.
  intros Hpre Hpost. revert current. induction Hpre as [|t pre Ht _ IH]; intros current; cbn [app scan].
  - destruct Hpost as [|u post Hu _]; [done|]. cbn. by rewrite (proj2 (Z.leb_gt _ _) Hu).
  - rewrite (proj2 (Z.leb_le _ _) Ht), IH. destruct pre as [|u pre]; [done|].
    change (last (t :: u :: pre)) with (last (u :: pre)). destruct (last (u :: pre)) eqn:E; [done|]. by apply last_None in E.
Qed.

(** The binary search finds what a scan finds. On transitions in order, the
    type [findLocaltime] returns for any time, on either clock, is that of the
    last transition that is not later, and the first type if there is none;
    no transition is read outside the table. *)
Theorem findLocaltime_scan d x gmt : StronglySorted (fun u v => key gmt u < key gmt v) (transitions d) ->
  findLocaltime d x gmt = at_ (localtimes d) (scan gmt (transitions d) (key gmt x) 0).
Proof.
  intros Hs. destruct (split_key gmt (key gmt x) _ Hs) as (pre & post & Ht & H1 & H2).
  rewrite (findLocaltime_split d x gmt pre post) by (try done; by rewrite <- Ht). by rewrite Ht, scan_split.
Qed.

(** ** Round trip through local time *)

(** How the offset may change: forward, or from summer time back by an hour. *)
Definition shift_ok (l l' : Localtime) : Prop :=
  gmtOffset l <= gmtOffset l' \/ (gmtOffset l = gmtOffset l' + 3600 /\ isDst l = true /\ isDst l' = false).

Record local_ok (d : Data) (l : Localtime) : Prop := {
  lo_offset : -86400 <= gmtOffset l <= 86400;
  lo_abbr : 0 <= arrbIdx l <= zlen (abbreviation d);
}.

(** The transitions from type [l] on. *)
Fixpoint shifts (d : Data) (l : Localtime) (ts : list Transition) : Prop :=
  match ts with
  | [] => True
  | t :: ts => exists l', at_ (localtimes d) (localtimeIdx t) = Ok l' /\ local_ok d l' /\
      localtime t = gmttime t + gmtOffset l' /\ shift_ok l l' /\ shifts d l' ts
  end.

(** A zone as the database has them. *)
Record zone_ok (d : Data) (l0 : Localtime) : Prop := {
  zo_first : at_ (localtimes d) 0 = Ok l0;
  zo_local : local_ok d l0;
  zo_spaced : spaced (transitions d);
  zo_shifts : shifts d l0 (transitions d);
}.

Lemma shifts_split d l pre post : shifts d l (pre ++ post) ->
  exists l', match last pre with Some t => at_ (localtimes d) (localtimeIdx t) = Ok l' /\ localtime t = gmttime t + gmtOffset l' /\ local_ok d l'
             | None => l' = l end /\ shifts d l' post.
Proof.
  revert l. induction pre as [|t pre IH]; intros l Hs; [by exists l|].
  cbn [app shifts] in Hs. destruct Hs as (l1 & H1 & H2 & H3 & _ & Hs). destruct (IH l1 Hs) as (l' & Hl & Hs').
  exists l'. split; [|done]. destruct pre as [|u pre]; [cbn in *; by subst|].
  change (last (t :: u :: pre)) with (last (u :: pre)). destruct (last (u :: pre)) eqn:E; [done|]. by apply last_None in E.
Qed.

(** The type in force at a second. *)
Lemma zone_at d l0 s : zone_ok d l0 -> exists pre post l,
  transitions d = pre ++ post /\ Forall (fun t => gmttime t <= s) pre /\ Forall (fun t => s < gmttime t) post /\
  at_ (localtimes d) (in_force pre) = Ok l /\ local_ok d l /\ shifts d l post /\
  Forall (fun t => localtime t <= s + gmtOffset l) pre.
Proof.
  intros [Hf Hl Hsp Hsh]. destruct (split_key true s _ (spaced_key true _ Hsp)) as (pre & post & Ht & H1 & H2).
  rewrite Ht in Hsh. destruct (shifts_split d l0 pre post Hsh) as (l & Hlast & Hsh'). exists pre, post, l.
  unfold in_force. destruct pre as [|t pre _] using rev_ind.
  { cbn in *. subst l. by split_and!. }
  rewrite last_snoc in *. destruct Hlast as (Hat & Hloc & Hok). split_and!; try done.
  apply Forall_app in H1 as [_ H1]. rewrite Forall_singleton in H1. cbn in H1.
  apply Forall_app. split; [|apply Forall_singleton; lia]. rewrite Ht, <- app_assoc in Hsp.
  apply Forall_forall. intros u Hu. destruct (StronglySorted_app_1_elem_of _ _ _ u t Hsp Hu) as [_ ?]; [by left|]. lia.
Qed.

Definition local_tm (d : Data) (l : Localtime) (s : Z) : tm :=
  let t := utc_tm (s + gmtOffset l) in
  mkTm (tm_sec t) (tm_min t) (tm_hour t) (tm_mday t) (tm_mon t) (tm_year t) (tm_wday t) (tm_yday t)
    (isDst l) (gmtOffset l) (c_string (zdrop (arrbIdx l) (abbreviation d))).

(** From the beginning of the Julian days to a thousand million years: the year
    fits [tm_year]. *)
Definition representable (s : Z) : Prop := - (kJulianDayOf1970 - 2) * kSecondsPerDay <= s < 2 ^ 55 - 2 * kSecondsPerDay.

Lemma toLocalTime_split d s pre post l : spaced (transitions d) -> transitions d = pre ++ post ->
  Forall (fun t => gmttime t <= s) pre -> Forall (fun t => s < gmttime t) post ->
  at_ (localtimes d) (in_force pre) = Ok l -> local_ok d l -> - (kJulianDayOf1970 - 2) * kSecondsPerDay <= s < 2 ^ 55 - kSecondsPerDay ->
  toLocalTime (Some d) s = Ok (local_tm d l s).
Proof.
  intros Hsp Ht H1 H2 Hat [Hoff Ha] Hs. unfold toLocalTime.
  rewrite (findLocaltime_split d (mkTransition s 0 0) true pre post) by (try done; rewrite <- Ht; by apply (spaced_key true)).
  rewrite Hat. cbn [mbind res_bind]. unfold kSecondsPerDay, kJulianDayOf1970 in Hs. rewrite time_bind by lia. cbv beta.
  rewrite gmtime_r_ok by (unfold kSecondsPerDay, kJulianDayOf1970; lia). cbn [mbind res_bind].
  rewrite (proj2 (Z.leb_le 0 _)), (proj2 (Z.leb_le (arrbIdx l) _)) by lia. done.
Qed.

Lemma timegm_fields t b o z :
  timegm (mkTm (tm_sec t) (tm_min t) (tm_hour t) (tm_mday t) (tm_mon t) (tm_year t) (tm_wday t) (tm_yday t) b o z) = timegm t.
Proof. done. Qed.

Lemma timegm_local d l s : local_ok d l -> representable s -> timegm (local_tm d l s) = s + gmtOffset l.
Proof.
  intros [Ho _] [Hs _]. unfold local_tm. cbn zeta. rewrite timegm_fields. apply gmtime_valid.
  unfold kSecondsPerDay, kJulianDayOf1970 in *. Z.to_euclidean_division_equations. lia.
Qed.

(** The second occurrence of an hour: the local clock has passed the transition
    [u] back to winter time, which is still to come. *)
Lemma fromLocalTime_repeated d s pre u post l l' : spaced (transitions d) -> transitions d = pre ++ u :: post ->
  Forall (fun t => gmttime t <= s) pre -> s < gmttime u -> Forall (fun t => localtime t <= s + gmtOffset l) pre ->
  local_ok d l -> at_ (localtimes d) (localtimeIdx u) = Ok l' -> local_ok d l' -> localtime u = gmttime u + gmtOffset l' ->
  gmtOffset l = gmtOffset l' + 3600 -> isDst l = true -> isDst l' = false -> localtime u <= s + gmtOffset l -> representable s ->
  fromLocalTime (Some d) (local_tm d l s) = Ok s.
Proof.
  intros Hsp Ht H1 Hu Hl Hok Hat Hok' Hlu Ho Hd Hd' Hle Hs. unfold fromLocalTime. rewrite (timegm_local d l s) by done.
  assert (Ht' : transitions d = (pre ++ [u]) ++ post) by (by rewrite <- app_assoc).
  assert (Hpost : Forall (fun t => gmttime u + 3600 <= gmttime t /\ localtime u + 3600 <= localtime t) post).
  { rewrite Ht in Hsp. apply StronglySorted_app_1_r in Hsp. by apply StronglySorted_inv in Hsp as [_ ?]. }
  assert (Hin : in_force (pre ++ [u]) = localtimeIdx u) by (unfold in_force; by rewrite last_snoc).
  rewrite (findLocaltime_split d (mkTransition 0 (s + gmtOffset l) 0) false (pre ++ [u]) post);
    [|rewrite <- Ht'; by apply (spaced_key false) | done | apply Forall_app; split; [done | by apply Forall_singleton] |
      eapply Forall_impl; [exact Hpost | cbn; intros; lia]].
  rewrite Hin, Hat. cbn [mbind res_bind]. unfold local_tm at 1. cbn [tm_isdst]. rewrite Hd.
  destruct Hs as [Hs1 Hs2]. unfold kSecondsPerDay, kJulianDayOf1970 in *. pose proof (lo_offset _ _ Hok).
  rewrite time_bind by lia. cbv beta. replace (s + gmtOffset l - gmtOffset l') with (s + 3600) by lia.
  rewrite (toLocalTime_split d (s + 3600) (pre ++ [u]) post l'); try done.
  - cbn [mbind res_bind]. unfold local_tm. cbn [tm_isdst tm_hour tm_min]. rewrite Hd'.
    replace (s + 3600 + gmtOffset l') with (s + gmtOffset l) by lia. rewrite !Z.eqb_refl. cbn [negb andb].
    rewrite time_bind by lia. cbv beta. rewrite time_ok by lia. f_equal. lia.
  - apply Forall_app. split; [|apply Forall_singleton; lia]. eapply Forall_impl; [exact H1 | cbn; intros; lia].
  - eapply Forall_impl; [exact Hpost | cbn; intros; lia].
  - by rewrite Hin.
  - unfold kSecondsPerDay, kJulianDayOf1970; lia.
Qed.

(** Otherwise the local clock finds the same type. *)
Lemma fromLocalTime_plain d s pre post l : spaced (transitions d) -> transitions d = pre ++ post ->
  Forall (fun t => gmttime t <= s) pre -> Forall (fun t => s < gmttime t) post ->
  Forall (fun t => localtime t <= s + gmtOffset l) pre -> Forall (fun t => s + gmtOffset l < localtime t) post ->
  at_ (localtimes d) (in_force pre) = Ok l -> local_ok d l -> representable s ->
  fromLocalTime (Some d) (local_tm d l s) = Ok s.
Proof.
  intros Hsp Ht H1 H2 H3 H4 Hat Hok Hs. unfold fromLocalTime. rewrite (timegm_local d l s) by done.
  rewrite (findLocaltime_split d (mkTransition 0 (s + gmtOffset l) 0) false pre post) by (try done; rewrite <- Ht; by apply (spaced_key false)).
  rewrite Hat. cbn [mbind res_bind]. destruct Hs as [Hs1 Hs2]. unfold kSecondsPerDay, kJulianDayOf1970 in *. pose proof (lo_offset _ _ Hok).
  unfold local_tm at 1. cbn [tm_isdst]. destruct (isDst l) eqn:Hd.
  - rewrite time_bind by lia. cbv beta. replace (s + gmtOffset l - gmtOffset l) with s by lia.
    rewrite (toLocalTime_split d s pre post l) by (done || unfold kSecondsPerDay, kJulianDayOf1970; lia). cbn [mbind res_bind]. unfold local_tm. cbn [tm_isdst]. rewrite Hd.
    cbn [negb andb mbind res_bind]. rewrite time_ok by lia. f_equal. lia.
  - cbn [mbind res_bind]. rewrite time_ok by lia. f_equal. lia.
Qed.

(** C26: local time is exact. In a zone whose transitions are an hour apart at
    least and move the clock forward, or back by an hour at the end of summer
    time, every second from the year -4713 on, for a thousand million years (so
    long the year fits the [int] [tm_year] and [gmtime_r] succeeds), converts to
    its local time, with the offset in force, and [fromLocalTime] gives the
    second back; also in the hour that the clocks show twice. *)
Theorem LocalTime_roundtrip d l0 s : zone_ok d l0 -> representable s ->
  exists t l, toLocalTime (Some d) s = Ok t /\ at_ (localtimes d) (scan true (transitions d) s 0) = Ok l /\
    tm_gmtoff t = gmtOffset l /\ tm_isdst t = isDst l /\ timegm t = s + gmtOffset l /\
    fromLocalTime (Some d) t = Ok s.
Proof.
  intros Hz Hs. destruct (zone_at d l0 s Hz) as (pre & post & l & Ht & H1 & H2 & Hat & Hok & Hsh & H3).
  pose proof (zo_spaced _ _ Hz) as Hsp. exists (local_tm d l s), l.
  split_and!; [| |done..|by apply timegm_local|].
  { eapply toLocalTime_split; try done. destruct Hs. unfold kSecondsPerDay, kJulianDayOf1970 in *. lia. }
  { rewrite Ht, scan_split by done. exact Hat. }
  destruct post as [|u post]; [by eapply fromLocalTime_plain|].
  destruct Hsh as (l' & Hat' & Hok' & Hlu & Hshift & _).
  assert (Hpost : Forall (fun t => localtime u + 3600 <= localtime t) post).
  { rewrite Ht in Hsp. apply StronglySorted_app_1_r in Hsp. apply StronglySorted_inv in Hsp as [_ Hsp].
    eapply Forall_impl; [exact Hsp|]. by intros ? []. }
  apply Forall_cons in H2 as H2'. destruct H2' as [Hu _].
  destruct (decide (localtime u <= s + gmtOffset l)) as [Hle|Hgt].
  - destruct Hshift as [Hf|(Ho & Hd & Hd')]; [lia|]. by eapply fromLocalTime_repeated.
  - eapply fromLocalTime_plain; try done. constructor; [lia|]. eapply Forall_impl; [exact Hpost | cbn; intros; lia].
Qed.
