(* ===== verification/TimeZoneFile.v ===== *)
(** * Zone files are read back

    The encoding of a zone in the format of the time zone database (version 1),
    and the reader on it; then what the reader does with files it should
    refuse. *)
From stdpp Require Import strings sorting.
From S2P Require Import Prelude Endian Date TimeZone TimeZoneProps.

(** What a file says: transition times with the index of their type, types,
    abbreviations. *)
Record table := mkTable {
  t_transitions : list (Z * Z);
  t_types : list Localtime;
  t_abbreviation : bytes;
}.

Definition encode_type (l : Localtime) : bytes :=
  be_bytes 4 (gmtOffset l) ++ [byte.of_Z (if isDst l then 1 else 0)] ++ [byte.of_Z (arrbIdx l)].

(** [counts]: the two numbers the reader does not use, and that of leap seconds. *)
Definition encode (version : byte) (unused : bytes) (counts : Z * Z * Z) (z : table) : bytes :=
  lit "TZif" ++ [version] ++ unused ++
  be_bytes 4 counts.1.1 ++ be_bytes 4 counts.1.2 ++ be_bytes 4 counts.2 ++
  be_bytes 4 (zlen (t_transitions z)) ++ be_bytes 4 (zlen (t_types z)) ++ be_bytes 4 (zlen (t_abbreviation z)) ++
  concat (be_bytes 4 <$> (t_transitions z).*1) ++ concat ((fun i => [byte.of_Z i]) <$> (t_transitions z).*2) ++
  concat (encode_type <$> t_types z) ++ t_abbreviation z.

Definition transition_of (types : list Localtime) (x : Z * Z) : Transition :=
  mkTransition x.1 (match types !! Z.to_nat x.2 with Some l => x.1 + gmtOffset l | None => 0 end) x.2.
Definition data_of (z : table) : Data :=
  mkData (transition_of (t_types z) <$> t_transitions z) (t_types z) [] (t_abbreviation z).

Record table_ok (z : table) : Prop := {
  tk_transitions : Forall (fun x => in_s 32 x.1 /\ 0 <= x.2 < zlen (t_types z) `min` 256) (t_transitions z);
  tk_types : Forall (fun l => in_s 32 (gmtOffset l) /\ 0 <= arrbIdx l < 256) (t_types z);
  tk_counts : zlen (t_transitions z) < 2 ^ 31 /\ zlen (t_types z) < 2 ^ 31 /\ zlen (t_abbreviation z) < 2 ^ 31;
}.

(** ** The reader on encoded parts *)
Section file.
Context {h : Host}.

(** [m] reads [bs], returns [a] and changes the data by [f]. *)
Definition reads {A} (m : reader A) (bs : bytes) (f : Data -> Data) (a : A) : Prop :=
  forall r d, m (mkReading (bs ++ r) d) = Ok (Read a (mkReading r (f d))).

Lemma bind_read {A B} (m : reader A) (k : A -> reader B) s a s' : m s = Ok (Read a s') -> (m ≫= k) s = k a s'.
Proof. intros H. unfold mbind, reader_bind. by rewrite H. Qed.

Lemma reads_ret {A} (a : A) : reads (mret a) [] id a.
Proof. intros r d. done. Qed.

Lemma reads_bind {A B} (m : reader A) (k : A -> reader B) bs1 bs2 f g a b :
  reads m bs1 f a -> reads (k a) bs2 g b -> reads (m ≫= k) (bs1 ++ bs2) (g ∘ f) b.
Proof. intros H1 H2 r d. unfold mbind, reader_bind. rewrite <- app_assoc, H1. cbn. apply H2. Qed.

Lemma reads_data f : reads (with_data f) [] f tt.
Proof. intros r d. done. Qed.

Lemma reads_fread n bs : zlen bs = n -> reads (fread n) bs id bs.
Proof.
  intros <- r d. unfold fread. cbn [rest data]. pose proof (zlen_nonneg r). rewrite (proj2 (Z.ltb_ge _ _)) by zlen_side.
  by rewrite ztake_app_l, ztake_all, zdrop_app_r, Z.sub_diag, zdrop_0 by lia.
Qed.

Lemma reads_bytes n bs : zlen bs = n -> reads (readBytes n) bs id bs.
Proof.
  intros Hn r d. unfold readBytes. zlen_pos. rewrite (proj2 (Z.leb_le 0 n)) by lia. by apply reads_fread.
Qed.

Lemma reads_int32 x : in_s 32 x -> reads readInt32 (be_bytes 4 x) id x.
Proof.
  intros Hx. unfold readInt32. rewrite <- (app_nil_r (be_bytes 4 x)).
  eapply (reads_bind _ _ _ _ id id); [apply reads_fread, zlen_be_bytes|].
  assert (int32 (betoh 4 (load_int (be_bytes 4 x))) = x) as ->; [|apply reads_ret].
  rewrite <- (length_be_bytes 4 x) at 1. rewrite betoh_load, be_value_bytes.
  change (int32 (uint32 x) = x). rewrite int32_uint32. by apply (swrap_id 32).
Qed.

Lemma reads_uint8 x : 0 <= x < 256 -> reads readUInt8 [byte.of_Z x] id x.
Proof.
  intros Hx. unfold readUInt8. rewrite <- (app_nil_r [_]). eapply (reads_bind _ _ _ _ id id); [by apply reads_fread|].
  assert (load_int [byte.of_Z x] = x) as ->; [|apply reads_ret].
  assert (le_combine [byte.of_Z x] = x) by (change [byte.of_Z x] with (le_split 1 x); rewrite le_combine_split; apply Z.mod_small; cbn; lia).
  unfold load_int. by destruct host.
Qed.

Lemma reads_n {A X} (l : list X) (body : reader A) enc (f : X -> Data -> Data) (g : X -> A) :
  Forall (fun x => reads body (enc x) (f x) (g x)) l ->
  reads (read_n (length l) body) (concat (enc <$> l)) (fun d => fold_left (fun d x => f x d) l d) (g <$> l).
Proof.
  induction 1 as [|x l Hx _ IH]; [apply reads_ret|]. cbn [length read_n fmap list_fmap concat].
  eapply (reads_bind _ _ _ _ (f x) _); [exact Hx|]. rewrite <- (app_nil_r (concat _)).
  eapply (reads_bind _ _ _ _ _ id); [exact IH | apply reads_ret].
Qed.

Lemma reads_values (l : list Z) (body : reader Z) enc :
  Forall (fun x => reads body (enc x) id x) l -> reads (read_n (length l) body) (concat (enc <$> l)) id l.
Proof.
  intros Hl r d. pose proof (reads_n l body enc (fun _ => @id Data) (@id Z) Hl r d) as H. rewrite list_fmap_id in H.
  replace (fold_left _ l d) with d in H; [exact H|]. clear. by induction l.
Qed.

Lemma reads_type l : in_s 32 (gmtOffset l) -> 0 <= arrbIdx l < 256 -> reads read_localtime (encode_type l) (push_localtime l) tt.
Proof.
  intros Ho Ha. unfold read_localtime, encode_type. eapply (reads_bind _ _ _ _ id (push_localtime l)); [by apply reads_int32|].
  eapply (reads_bind _ _ _ _ id (push_localtime l)); [apply reads_uint8; by destruct (isDst l)|]. rewrite <- (app_nil_r [byte.of_Z (arrbIdx l)]).
  eapply (reads_bind _ _ _ _ id (push_localtime l)); [by apply reads_uint8|].
  replace (mkLocaltime _ _ _) with l; [apply reads_data|]. by destruct l as [o [] a].
Qed.

Lemma push_localtimes l d : fold_left (fun d x => push_localtime x d) l d =
  mkData (transitions d) (localtimes d ++ l) (names d) (abbreviation d).
Proof.
  revert d. induction l as [|x l IH]; intros d; cbn [fold_left]; [rewrite app_nil_r; by destruct d|].
  rewrite IH. cbn. by rewrite <- app_assoc.
Qed.

(** The transitions, once the types are known. *)
Lemma add_transitions xs r d : Forall (fun x => in_s 32 x.1 /\ 0 <= x.2 < zlen (localtimes d)) xs ->
  Forall (fun l => in_s 32 (gmtOffset l)) (localtimes d) ->
  for_each xs add_transition (mkReading r d) =
  Ok (Read tt (mkReading r (mkData (transitions d ++ (transition_of (localtimes d) <$> xs)) (localtimes d) (names d) (abbreviation d)))).
Proof.
  intros Hxs Hls. revert d Hxs Hls. induction xs as [|[t i] xs IH]; intros d Hxs Hls.
  { cbn. rewrite app_nil_r. by destruct d. }
  apply Forall_cons in Hxs as [[Ht Hi] Hxs]. cbn [fst snd] in *.
  destruct (lookup_lt_is_Some_2 (localtimes d) (Z.to_nat i)) as [l Hl]; [unfold zlen in Hi; lia|].
  assert (Hat : at_ (localtimes d) i = Ok l) by (unfold at_; by rewrite (proj2 (Z.ltb_ge _ _)), Hl by lia).
  rewrite Forall_lookup in Hls. pose proof (Hls _ _ Hl) as Ho. rewrite <- Forall_lookup in Hls.
  assert (Hadd : add_transition (t, i) (mkReading r d) = Ok (Read tt (mkReading r (push_transition (mkTransition t (t + gmtOffset l) i) d)))).
  { unfold add_transition, mbind, reader_bind, get_data, lift. cbn [data mbind res_bind]. rewrite Hat. cbn [mbind res_bind].
    unfold in_s in *. rewrite time_ok by lia. done. }
  cbn [for_each]. rewrite (bind_read _ _ _ _ _ Hadd). rewrite IH by done. cbn.
  unfold transition_of at 2. cbn [fst snd]. rewrite Hl, <- app_assoc. done.
Qed.

Lemma zip_fst_snd {X Y} (l : list (X * Y)) : zip l.*1 l.*2 = l.
Proof. induction l as [|[x y] l IH]; [done|]. cbn. by f_equal. Qed.

Lemma reads_step {A B} (m : reader A) (k : A -> reader B) bs f a r d :
  reads m bs f a -> (m ≫= k) (mkReading (bs ++ r) d) = k a (mkReading r (f d)).
Proof. intros H. by apply bind_read. Qed.

(** Zone files are read correctly. Whatever the byte order of the host, the
    encoding of any table of transitions, types and abbreviations is read back
    as that table, with the local times of the transitions computed; whatever
    follows it in the file (version 2 data, say) is ignored. *)
Theorem readTimeZoneFile_roundtrip z version unused counts trailing :
  table_ok z -> zlen unused = 15 -> in_s 32 counts.1.1 -> in_s 32 counts.1.2 -> in_s 32 counts.2 ->
  readTimeZoneFile (Some (encode version unused counts z ++ trailing)) Data_ctor = Ok (true, data_of z).
Proof.
  intros [Htr Hty (Hn1 & Hn2 & Hn3)] Hun H1 H2 H3. destruct counts as [[c1 c2] c3]. cbn [fst snd] in *.
  unfold readTimeZoneFile, read_zone, encode. cbn [fst snd]. rewrite <- !app_assoc. zlen_pos.
  rewrite (reads_step _ _ (lit "TZif") id (lit "TZif")) by by apply reads_bytes.
  rewrite bool_decide_eq_true_2 by done. rewrite <- (app_nil_l ([version] ++ _)).
  rewrite (reads_step _ _ [] id tt) by apply reads_ret.
  rewrite (reads_step _ _ [version] id [version]) by by apply reads_bytes.
  rewrite (reads_step _ _ unused id unused) by by apply reads_bytes.
  assert (Hc : forall x, 0 <= x < 2 ^ 31 -> in_s 32 x) by (unfold in_s; intros; lia).
  do 3 (erewrite (reads_step readInt32) by (apply reads_int32; first [exact H1 | exact H2 | exact H3])).
  do 3 (erewrite (reads_step readInt32) by (apply reads_int32, Hc; lia)).
  rewrite (proj2 (Z.ltb_ge _ 0)) by lia. rewrite <- (app_nil_l (concat _ ++ _)).
  rewrite (reads_step _ _ [] id tt) by apply reads_ret.
  replace (Z.to_nat (zlen (t_transitions z))) with (length (t_transitions z)) by (unfold zlen; lia).
  replace (Z.to_nat (zlen (t_types z))) with (length (t_types z)) by (unfold zlen; lia).
  rewrite <- (length_fmap fst (t_transitions z)) at 1.
  rewrite (reads_step _ _ _ _ _ _ _ (reads_values (t_transitions z).*1 readInt32 (be_bytes 4)
    ltac:(apply Forall_fmap; eapply Forall_impl; [exact Htr|]; intros ? [? _]; by apply reads_int32))).
  rewrite <- (length_fmap snd (t_transitions z)) at 1.
  rewrite (reads_step _ _ _ _ _ _ _ (reads_values (t_transitions z).*2 readUInt8 (fun i => [byte.of_Z i])
    ltac:(apply Forall_fmap; eapply Forall_impl; [exact Htr|]; intros ? [_ ?]; apply reads_uint8; cbn; lia))).
  rewrite (reads_step _ _ _ _ _ _ _ (reads_n (t_types z) read_localtime encode_type push_localtime (fun _ => tt)
    ltac:(eapply Forall_impl; [exact Hty|]; intros ? [? ?]; by apply reads_type))).
  rewrite push_localtimes, zip_fst_snd. cbn [id Data_ctor transitions localtimes names abbreviation app].
  erewrite bind_read; [|apply add_transitions].
  2: { eapply Forall_impl; [exact Htr|]. cbn. intros ? [? ?]. split; [done | lia]. }
  2: { eapply Forall_impl; [exact Hty|]. by intros ? [? _]. }
  cbn [mbind res_bind transitions localtimes names abbreviation app].
  rewrite (reads_step _ _ _ _ _ _ _ (reads_bytes (zlen (t_abbreviation z)) (t_abbreviation z) eq_refl)). done.
Qed.
End file.

(** ** Files the reader should refuse *)

(** A missing file makes a valid zone. [readTimeZoneFile] returns [true] in
    every case, so the zone of a file that cannot be opened claims to be valid,
    and its first use takes the front of an empty vector. *)
Theorem TimeZone_missing_file {h : Host} (seconds : Z) : exists z,
  TimeZone_file None = Ok z /\ valid z = true /\ toLocalTime z seconds = Fail FBounds.
Proof. by exists (Some Data_ctor). Qed.

Module Example.
#[local] Instance little : Host := LittleEndian.

(** New York in 2007: an hour forward in March, back in November. *)
Definition new_york : table :=
  mkTable [(1173596400, 1); (1194156000, 0)] [mkLocaltime (-18000) false 0; mkLocaltime (-14400) true 4]
    (lit "EST" ++ [Byte.x00] ++ lit "EDT" ++ [Byte.x00]).

Lemma new_york_table : table_ok new_york.
Proof. repeat constructor; vm_compute; (discriminate || reflexivity). Qed.

Lemma readTimeZoneFile_roundtrip_witness :
  readTimeZoneFile (Some (encode Byte.x32 (repeat Byte.x00 15) (0, 0, 0) new_york ++ lit "TZif2")) Data_ctor =
    Ok (true, data_of new_york) /\ data_of new_york <> Data_ctor.
Proof.
  split; [|discriminate].
  apply (readTimeZoneFile_roundtrip new_york Byte.x32 (repeat Byte.x00 15) (0, 0, 0) (lit "TZif2") new_york_table);
    [reflexivity | split; vm_compute; (discriminate || reflexivity)..].
Defined.

Lemma new_york_zone : zone_ok (data_of new_york) (mkLocaltime (-18000) false 0).
Proof.
  assert (H0 : local_ok (data_of new_york) (mkLocaltime (-18000) false 0)) by (split; vm_compute; split; discriminate).
  assert (H1 : local_ok (data_of new_york) (mkLocaltime (-14400) true 4)) by (split; vm_compute; split; discriminate).
  split; [reflexivity | exact H0 | |].
  - repeat constructor; vm_compute; discriminate.
  - exists (mkLocaltime (-14400) true 4). split_and!; [reflexivity | exact H1 | reflexivity | left; vm_compute; discriminate|].
    exists (mkLocaltime (-18000) false 0). split_and!; [reflexivity | exact H0 | reflexivity | by right | exact I].
Qed.

(** Half past one, before the clocks go back. *)
Lemma LocalTime_roundtrip_witness : exists t, toLocalTime (Some (data_of new_york)) 1194154200 = Ok t /\
  timegm t = 1194154200 - 14400 /\ fromLocalTime (Some (data_of new_york)) t = Ok 1194154200.
Proof.
  destruct (LocalTime_roundtrip (data_of new_york) _ 1194154200 new_york_zone) as (t & l & H1 & H2 & H3 & H4 & H5 & H6).
  - split; vm_compute; (discriminate || reflexivity).
  - exists t. split; [exact H1|]. split; [|exact H6]. rewrite H5. vm_compute in H2. injection H2 as <-. reflexivity.
Defined.

Lemma findLocaltime_scan_witness : findLocaltime (data_of new_york) (mkTransition 1180000000 0 0) true =
  at_ (localtimes (data_of new_york)) (scan true (transitions (data_of new_york)) 1180000000 0).
Proof. apply findLocaltime_scan, spaced_key, new_york_zone. Defined.

(** A second before the epoch, and the end of February 2000. *)
Definition feb29 : tm := mkTm 59 59 23 29 1 100 2 59 false 0 (lit "GMT").
Lemma UtcTime_roundtrip_witness : toUtcTime (-1) true = Ok (utc_tm (-1)) /\ fromUtcTime feb29 = Ok 951868799.
Proof.
  destruct (UtcTime_roundtrip (-1) feb29) as [(H1 & _) (u & H2 & _)].
  - split; vm_compute; discriminate.
  - repeat split; vm_compute; (discriminate || reflexivity).
  - split; vm_compute; discriminate.
  - split; [exact H1|]. rewrite H2. vm_compute. reflexivity.
Defined.

(** A file whose only transition names a type it does not have: the table of
    types is read outside its bounds. *)
Example zone_file_bad_index :
  readTimeZoneFile (Some (lit "TZif" ++ repeat Byte.x00 16 ++ repeat Byte.x00 12 ++ be_bytes 4 1 ++ be_bytes 4 0 ++ be_bytes 4 0 ++
    be_bytes 4 7 ++ [Byte.x00])) Data_ctor = Fail FBounds.
Proof. vm_compute. reflexivity. Qed.
End Example.
