(* ===== verification/TimerQueue.v ===== *)
(** * Timers ([3rd_party/muduo/muduo/net/TimerQueue.{h,cc}], [net/Timer.{h,cc}],
      [base/Timestamp.h])

    Timers are heap objects: [heap] maps addresses to live timers, [new] takes
    an address from the allocator, which may reuse one that was freed, and
    [delete] removes it. [timers_] is a [std::set] ordered by expiration and
    address, a sorted list here. Callbacks are user code: [body] says which
    timers a callback adds and cancels. *)
From Stdlib Require Import SpecFloat.
From S2P Require Import Prelude.
#[local] Open Scope Z_scope.

(** ** [Timestamp]: microseconds since the epoch *)
Abbreviation Timestamp := Z.
Definition kMicroSecondsPerSecond : Z := 1000 * 1000.
(** [int64_t] arithmetic: overflow is undefined. *)
Definition int64_ (z : Z) : res Z := if bool_decide (- 2 ^ 63 <= z < 2 ^ 63) then Ok z else Fail FOverflow.
Definition Timestamp_valid (t : Timestamp) : bool := 0 <? t.
Definition Timestamp_invalid : Timestamp := 0.
Definition secondsSinceEpoch (t : Timestamp) : Z := Z.quot t kMicroSecondsPerSecond.
Definition fromUnixTime (t microseconds : Z) : res Timestamp :=
  s ← int64_ (t * kMicroSecondsPerSecond); int64_ (s + microseconds).
(** [double]: IEEE 754 binary64, rounded to nearest even. *)
Abbreviation double := spec_float.
Definition double_of_Z (z : Z) : double := binary_normalize 53 1024 z 0 false.
Definition double_mul (x y : double) : double := SFmul 53 1024 x y.
(** [static_cast<int64_t>]: truncation; what does not fit is undefined. *)
Definition double_to_int64 (x : double) : res Z :=
  match x with
  | S754_zero _ => Ok 0
  | S754_finite neg m e =>
      let a := if 0 <=? e then Zpos m * 2 ^ e else Zpos m / 2 ^ (- e) in
      int64_ (if (neg : bool) then - a else a)
  | S754_infinity _ | S754_nan => Fail FOverflow
  end.
Definition addTime (timestamp : Timestamp) (seconds : double) : res Timestamp :=
  delta ← double_to_int64 (double_mul seconds (double_of_Z kMicroSecondsPerSecond));
  int64_ (timestamp + delta).

(** ** [Timer] *)
Abbreviation addr := Z.
Record Timer := mkTimer {
  callback_ : Z;
  expiration_ : Timestamp;
  interval_ : double;
  repeat_ : bool;
  sequence_ : Z;
}.
Definition Timer_ctor (cb : Z) (when : Timestamp) (interval : double) (sequence : Z) : Timer :=
  mkTimer cb when interval (SFltb (S754_zero false) interval) sequence.
Definition restart (t : Timer) (now : Timestamp) : res Timer :=
  if repeat_ t then
    e ← addTime now (interval_ t);
    Ok (mkTimer (callback_ t) e (interval_ t) (repeat_ t) (sequence_ t))
  else Ok (mkTimer (callback_ t) Timestamp_invalid (interval_ t) (repeat_ t) (sequence_ t)).

(** ** [howMuchTimeFromNow]: seconds and nanoseconds *)
Definition howMuchTimeFromNow (when now : Timestamp) : res (Z * Z) :=
  d ← int64_ (when - now);
  let microseconds := if d <? 100 then 100 else d in
  Ok (Z.quot microseconds kMicroSecondsPerSecond, Z.rem microseconds kMicroSecondsPerSecond * 1000).

(** ** [std::set<Entry>] *)
Definition Entry : Type := Timestamp * addr.
Definition entry_ltb (x y : Entry) : bool := (x.1 <? y.1) || ((x.1 =? y.1) && (x.2 <? y.2)).
Fixpoint set_insert (e : Entry) (l : list Entry) : list Entry * bool :=
  match l with
  | [] => ([e], true)
  | x :: l' =>
      if entry_ltb e x then (e :: l, true)
      else if entry_ltb x e then let '(r, b) := set_insert e l' in (x :: r, b)
      else (l, false)
  end.
(** [erase(key)]: the number of elements removed. *)
Fixpoint set_erase (e : Entry) (l : list Entry) : list Entry * Z :=
  match l with
  | [] => ([], 0)
  | x :: l' => if bool_decide (x = e) then (l', 1) else let '(r, n) := set_erase e l' in (x :: r, n)
  end.
(** The elements before [lower_bound(key)], and from it on. *)
Fixpoint set_split (key : Entry) (l : list Entry) : list Entry * list Entry :=
  match l with
  | [] => ([], [])
  | x :: l' => if entry_ltb x key then let '(a, b) := set_split key l' in (x :: a, b) else ([], l)
  end.

(** ** The queue *)
Definition ActiveTimer : Type := addr * Z.
(** Functors in the loop's queue. *)
Inductive tfunctor := FAddTimerInLoop (p : addr) | FCancelInLoop (id : ActiveTimer).

Record TimerQueue := mkTQ {
  heap : gmap addr Timer;
  timers_ : list Entry;
  activeTimers_ : gset ActiveTimer;
  callingExpiredTimers_ : bool;
  cancelingTimers_ : gset ActiveTimer;
  s_numCreated_ : Z;
  (** the timerfd: expiration it was set for and the delay, if armed *)
  timerfd : option (Timestamp * (Z * Z));
  pending : list tfunctor;
  (** the timers run so far, by sequence number *)
  ran : list Z;
  (** calls of [addTimer] by other threads that have handed their timer to the
      loop and not returned yet: the timer's address and number *)
  calls : list ActiveTimer;
}.
Definition TimerQueue_ctor : TimerQueue := mkTQ ∅ [] ∅ false ∅ 0 None [] [] [].

Definition set_heap (s : TimerQueue) h := mkTQ h (timers_ s) (activeTimers_ s) (callingExpiredTimers_ s) (cancelingTimers_ s) (s_numCreated_ s) (timerfd s) (pending s) (ran s) (calls s).
Definition set_timers (s : TimerQueue) t a := mkTQ (heap s) t a (callingExpiredTimers_ s) (cancelingTimers_ s) (s_numCreated_ s) (timerfd s) (pending s) (ran s) (calls s).
Definition set_calling (s : TimerQueue) b c := mkTQ (heap s) (timers_ s) (activeTimers_ s) b c (s_numCreated_ s) (timerfd s) (pending s) (ran s) (calls s).
Definition set_created (s : TimerQueue) n := mkTQ (heap s) (timers_ s) (activeTimers_ s) (callingExpiredTimers_ s) (cancelingTimers_ s) n (timerfd s) (pending s) (ran s) (calls s).
Definition set_timerfd (s : TimerQueue) f := mkTQ (heap s) (timers_ s) (activeTimers_ s) (callingExpiredTimers_ s) (cancelingTimers_ s) (s_numCreated_ s) f (pending s) (ran s) (calls s).
Definition set_pending (s : TimerQueue) p := mkTQ (heap s) (timers_ s) (activeTimers_ s) (callingExpiredTimers_ s) (cancelingTimers_ s) (s_numCreated_ s) (timerfd s) p (ran s) (calls s).
Definition set_ran (s : TimerQueue) r := mkTQ (heap s) (timers_ s) (activeTimers_ s) (callingExpiredTimers_ s) (cancelingTimers_ s) (s_numCreated_ s) (timerfd s) (pending s) r (calls s).
Definition set_calls (s : TimerQueue) c := mkTQ (heap s) (timers_ s) (activeTimers_ s) (callingExpiredTimers_ s) (cancelingTimers_ s) (s_numCreated_ s) (timerfd s) (pending s) (ran s) c.

(** Dereferencing a [Timer*]. *)
Definition timer_at (s : TimerQueue) (p : addr) : res Timer :=
  match heap s !! p with Some t => Ok t | None => Fail FBounds end.
Definition delete_ (s : TimerQueue) (p : addr) : res TimerQueue :=
  t ← timer_at s p; Ok (set_heap s (delete p (heap s))).

Definition same_size (s : TimerQueue) : bool := zlen (timers_ s) =? Z.of_nat (size (activeTimers_ s)).

Definition readTimerfd (s : TimerQueue) : TimerQueue := set_timerfd s None.
Definition resetTimerfd (s : TimerQueue) (expiration now : Timestamp) : res TimerQueue :=
  d ← howMuchTimeFromNow expiration now;
  Ok (set_timerfd s (Some (expiration, d))).

Definition insert (s : TimerQueue) (p : addr) : res (TimerQueue * bool) :=
  assert_ (same_size s);;
  t ← timer_at s p;
  let when := expiration_ t in
  let earliestChanged := match timers_ s with [] => true | (w, _) :: _ => when <? w end in
  let '(l, inserted) := set_insert (when, p) (timers_ s) in
  assert_ inserted;;
  assert_ (negb (bool_decide ((p, sequence_ t) ∈ activeTimers_ s)));;
  let s := set_timers s l ({[(p, sequence_ t)]} ∪ activeTimers_ s) in
  assert_ (same_size s);;
  Ok (s, earliestChanged).

Definition addTimerInLoop (s : TimerQueue) (p : addr) (now : Timestamp) : res TimerQueue :=
  '(s, earliestChanged) ← insert s p;
  if (earliestChanged : bool) then
    t ← timer_at s p;
    resetTimerfd s (expiration_ t) now
  else Ok s.

Definition cancelInLoop (s : TimerQueue) (timer : ActiveTimer) : res TimerQueue :=
  assert_ (same_size s);;
  s ← (if bool_decide (timer ∈ activeTimers_ s) then
         t ← timer_at s timer.1;
         let '(l, n) := set_erase (expiration_ t, timer.1) (timers_ s) in
         assert_ (n =? 1);;
         s ← delete_ (set_timers s l (activeTimers_ s)) timer.1;
         Ok (set_timers s (timers_ s) (activeTimers_ s ∖ {[timer]}))
       else if callingExpiredTimers_ s then Ok (set_calling s true ({[timer]} ∪ cancelingTimers_ s))
       else Ok s);
  assert_ (same_size s);;
  Ok s.

Definition UINTPTR_MAX : Z := 2 ^ 64 - 1.

(** The loop that erases the expired timers from [activeTimers_]. *)
Fixpoint erase_active (s : TimerQueue) (expired : list Entry) : res TimerQueue :=
  match expired with
  | [] => Ok s
  | (_, p) :: l =>
      t ← timer_at s p;
      assert_ (bool_decide ((p, sequence_ t) ∈ activeTimers_ s));;
      erase_active (set_timers s (timers_ s) (activeTimers_ s ∖ {[(p, sequence_ t)]})) l
  end.

Definition getExpired (s : TimerQueue) (now : Timestamp) : res (TimerQueue * list Entry) :=
  assert_ (same_size s);;
  let '(expired, rest) := set_split (now, UINTPTR_MAX) (timers_ s) in
  assert_ (match rest with [] => true | (w, _) :: _ => now <? w end);;
  s ← erase_active (set_timers s rest (activeTimers_ s)) expired;
  assert_ (same_size s);;
  Ok (s, expired).

Fixpoint reset_loop (s : TimerQueue) (expired : list Entry) (now : Timestamp) : res TimerQueue :=
  match expired with
  | [] => Ok s
  | (_, p) :: l =>
      t ← timer_at s p;
      s ← (if repeat_ t && negb (bool_decide ((p, sequence_ t) ∈ cancelingTimers_ s)) then
             t ← restart t now;
             '(s, _) ← insert (set_heap s (<[p := t]> (heap s))) p;
             Ok s
           else delete_ s p);
      reset_loop s l now
  end.

(** [reset]; [now'] is the clock when the timerfd is set. *)
Definition reset (s : TimerQueue) (expired : list Entry) (now now' : Timestamp) : res TimerQueue :=
  s ← reset_loop s expired now;
  nextExpire ← (match timers_ s with
                | [] => Ok Timestamp_invalid
                | (_, p) :: _ => t ← timer_at s p; Ok (expiration_ t)
                end);
  if Timestamp_valid nextExpire then resetTimerfd s nextExpire now' else Ok s.

Section queue.
(** The allocator, [None] when memory is exhausted, and the callbacks: what a
    callback does when it runs in a given state. *)
Context (alloc : Z -> gmap addr Timer -> option addr).
Inductive taction := ActAdd (cb : Z) (when : Timestamp) (interval : double) (now : Timestamp) | ActCancel (id : ActiveTimer).
Context (body : Z -> TimerQueue -> list taction).

(** [new Timer]: the sequence number is [s_numCreated_.incrementAndGet()]. *)
Definition new_timer (s : TimerQueue) (cb : Z) (when : Timestamp) (interval : double) : res (TimerQueue * addr) :=
  match alloc (s_numCreated_ s) (heap s) with
  | None => Fail FThrow
  | Some p =>
      n ← int64_ (s_numCreated_ s + 1);
      Ok (set_created (set_heap s (<[p := Timer_ctor cb when interval n]> (heap s))) n, p)
  end.

(** [TimerId(timer, timer->sequence())], the end of [addTimer]: [timer] is the
    one made by this call, number [n]. If it is gone the pointer dangles, even
    when another timer lives at the address. *)
Definition timerId (s : TimerQueue) (p : addr) (n : Z) : res ActiveTimer :=
  t ← timer_at s p; if sequence_ t =? n then Ok (p, sequence_ t) else Fail FBounds.

(** [addTimer] and [cancel]: from the loop's thread they run at once, from
    another thread they are queued. [addTimer] of another thread is two steps:
    the timer is handed to the loop, and [addTimer_return] reads it again for
    the identifier it returns, whatever the loop has done meanwhile. *)
Definition addTimer (s : TimerQueue) (cb : Z) (when : Timestamp) (interval : double) (now : Timestamp) : res (TimerQueue * ActiveTimer) :=
  '(s, p) ← new_timer s cb when interval;
  let n := s_numCreated_ s in
  s ← addTimerInLoop s p now;
  id ← timerId s p n;
  Ok (s, id).
Definition addTimer_queue (s : TimerQueue) (cb : Z) (when : Timestamp) (interval : double) : res TimerQueue :=
  '(s, p) ← new_timer s cb when interval;
  Ok (set_calls (set_pending s (pending s ++ [FAddTimerInLoop p])) (calls s ++ [(p, s_numCreated_ s)])).
Definition addTimer_return (s : TimerQueue) (i : nat) : res (TimerQueue * option ActiveTimer) :=
  match calls s !! i with
  | None => Ok (s, None)
  | Some (p, n) => id ← timerId s p n; Ok (set_calls s (delete i (calls s)), Some id)
  end.
Definition cancel (s : TimerQueue) (inLoop : bool) (id : ActiveTimer) : res TimerQueue :=
  if inLoop then cancelInLoop s id else Ok (set_pending s (pending s ++ [FCancelInLoop id])).

Definition run_action (s : TimerQueue) (a : taction) : res TimerQueue :=
  match a with
  | ActAdd cb when interval now => '(s, _) ← addTimer s cb when interval now; Ok s
  | ActCancel id => cancel s true id
  end.
Fixpoint run_actions (s : TimerQueue) (l : list taction) : res TimerQueue :=
  match l with [] => Ok s | a :: l => s ← run_action s a; run_actions s l end.

(** The loop that runs the expired timers. *)
Fixpoint run_expired (s : TimerQueue) (expired : list Entry) : res TimerQueue :=
  match expired with
  | [] => Ok s
  | (_, p) :: l =>
      t ← timer_at s p;
      let s := set_ran s (ran s ++ [sequence_ t]) in
      s ← run_actions s (body (callback_ t) s);
      run_expired s l
  end.

Definition handleRead (s : TimerQueue) (now now' : Timestamp) : res TimerQueue :=
  let s := readTimerfd s in
  '(s, expired) ← getExpired s now;
  let s := set_calling s true ∅ in
  s ← run_expired s expired;
  let s := set_calling s false (cancelingTimers_ s) in
  reset s expired now now'.

(** What happens at the queue, in order: calls from either side, the loop's
    functors, alarms of the timerfd. [LReturn i]: the [i]-th of the calls of
    other threads that are under way returns. *)
Inductive tlabel :=
  | LAdd (inLoop : bool) (cb : Z) (when : Timestamp) (interval : double) (now : Timestamp)
  | LReturn (i : nat)
  | LCancel (inLoop : bool) (id : ActiveTimer)
  | LFunctor (now : Timestamp)
  | LAlarm (now now' : Timestamp).

Definition texec (s : TimerQueue) (l : tlabel) : res TimerQueue :=
  match l with
  | LAdd inLoop cb when interval now =>
      if inLoop then '(s, _) ← addTimer s cb when interval now; Ok s else addTimer_queue s cb when interval
  | LReturn i => '(s, _) ← addTimer_return s i; Ok s
  | LCancel b id => cancel s b id
  | LFunctor now =>
      match pending s with
      | [] => Ok s
      | FAddTimerInLoop p :: k => addTimerInLoop (set_pending s k) p now
      | FCancelInLoop id :: k => cancelInLoop (set_pending s k) id
      end
  | LAlarm now now' => handleRead s now now'
  end.
Fixpoint texecs (s : TimerQueue) (ls : list tlabel) : res TimerQueue :=
  match ls with [] => Ok s | l :: ls => s ← texec s l; texecs s ls end.
End queue.

(** ** Examples *)
Definition alloc_low (n : Z) (h : gmap addr Timer) : option addr :=
  head (filter (fun p => h !! p = None) [64; 128; 192; 256]).
(** [0.0], and [n / d] as a literal. *)
Definition zero : double := S754_zero false.
Definition ratio (n d : Z) : double := SFdiv 53 1024 (double_of_Z n) (double_of_Z d).
(** The product is rounded before it is truncated: 0.29 s are 290000 us. *)
Example addTime_rounds : addTime 0 (ratio 29 100) = Ok 290000.
Proof. vm_compute. reflexivity. Qed.
Example two_timers :
  let ls := [LAdd true 1 1000 zero 500; LAdd true 2 2000 (ratio 1 1000000) 500; LAlarm 1500 1500; LAlarm 2500 2600] in
  (fun s => (ran s, timers_ s, timerfd s)) <$> texecs alloc_low (fun _ _ => []) TimerQueue_ctor ls =
  Ok ([1; 2], [(2501, 128)], Some (2501, (0, 100000))).
Proof. vm_compute. reflexivity. Qed.
