(* ===== verification/TimerProps.v ===== *)
(** * The timer queue: ownership, safety and promptness *)
From Stdlib Require Import SpecFloat Sorted.
From S2P Require Import Prelude TimerQueue.
#[local] Open Scope Z_scope.

(** ** [std::set] as a sorted list *)
Abbreviation elt := (fun x y : Entry => entry_ltb x y = true).
Abbreviation ssorted := (StronglySorted elt).

Lemma entry_ltb_spec x y : entry_ltb x y = true <-> x.1 < y.1 \/ x.1 = y.1 /\ x.2 < y.2.
Proof. unfold entry_ltb. rewrite orb_true_iff, andb_true_iff, !Z.ltb_lt, Z.eqb_eq. done. Qed.

Lemma entry_ltb_trans x y z : entry_ltb x y = true -> entry_ltb y z = true -> entry_ltb x z = true.
Proof. rewrite !entry_ltb_spec. lia. Qed.

Lemma entry_ltb_total x y : entry_ltb x y = false -> entry_ltb y x = false -> x = y.
Proof.
  intros H1 H2. rewrite <- not_true_iff_false, entry_ltb_spec in H1, H2. destruct x, y; cbn in *. f_equal; lia.
Qed.

Definition first (l : list Entry) : option Timestamp := fst <$> head l.

Lemma ssorted_first l t : ssorted l -> first l = Some t -> forall e, e ∈ l -> t <= e.1.
Proof.
  destruct l as [|x l]; [done|]. intros [_ Hx]%StronglySorted_inv [= <-] e [->|He]%elem_of_cons; [done|].
  rewrite Forall_forall in Hx. apply Hx, entry_ltb_spec in He. lia.
Qed.

Lemma set_insert_spec e l : ssorted l -> e ∉ l -> exists l', set_insert e l = (l', true) /\ ssorted l' /\ l' ≡ₚ e :: l /\
  first l' = Some (match first l with None => e.1 | Some w => Z.min e.1 w end).
Proof.
  induction l as [|x l IH]; intros Hs Hn; cbn [set_insert].
  { exists [e]. split_and!; try done. repeat constructor. }
  pose proof (StronglySorted_inv Hs) as [Hs' Hx]. destruct (entry_ltb e x) eqn:E1.
  { exists (e :: x :: l). split_and!; try done.
    - constructor; [done|]. constructor; [done|]. eapply Forall_impl; [exact Hx|]. cbn. intros y. by apply entry_ltb_trans.
    - cbn. apply entry_ltb_spec in E1. f_equal. lia. }
  destruct (entry_ltb x e) eqn:E2; [|by apply entry_ltb_total in E1 as ->; [destruct Hn; left|]].
  destruct IH as (l' & -> & Hl' & Hp & _); [done | by intros ?; apply Hn; right |]. exists (x :: l'). split_and!; try done.
  - constructor; [done|]. rewrite Hp. by constructor.
  - rewrite Hp. apply perm_swap.
  - cbn. apply entry_ltb_spec in E2. f_equal. lia.
Qed.

Lemma set_erase_spec e l : ssorted l -> e ∈ l -> exists l', set_erase e l = (l', 1) /\ ssorted l' /\ l ≡ₚ e :: l'.
Proof.
  induction l as [|x l IH]; intros Hs He; [by apply elem_of_nil in He|]. pose proof (StronglySorted_inv Hs) as [Hs' Hx]. cbn [set_erase].
  case_bool_decide as E; [subst; by exists l|]. apply elem_of_cons in He as [<-|He]; [done|].
  destruct (IH Hs' He) as (l' & -> & Hl' & Hp). exists (x :: l'). split_and!; [done| |by rewrite Hp; apply perm_swap].
  constructor; [done|]. rewrite Hp in Hx. by inversion Hx.
Qed.

Lemma set_split_spec k l a b : ssorted l -> set_split k l = (a, b) ->
  l = a ++ b /\ Forall (fun x => entry_ltb x k = true) a /\ Forall (fun x => entry_ltb x k = false) b.
Proof.
  revert a b. induction l as [|x l IH]; intros a b Hs E; cbn in E; [by simplify_eq|].
  pose proof (StronglySorted_inv Hs) as [Hs' Hx]. destruct (entry_ltb x k) eqn:Ek.
  - destruct (set_split k l) as [a' b'] eqn:E'. simplify_eq. destruct (IH a' b Hs' eq_refl) as (-> & Ha & Hb).
    split_and!; [done | by constructor | done].
  - simplify_eq. split_and!; [done | constructor|]. constructor; [done|]. eapply Forall_impl; [exact Hx|]. cbn. intros y Hy.
    apply not_true_iff_false. intros Hk. apply not_true_iff_false in Ek. apply Ek. by eapply entry_ltb_trans.
Qed.

Lemma ssorted_app_r a b : ssorted (a ++ b) -> ssorted b.
Proof. induction a as [|x a IH]; [done|]. intros [Hs _]%StronglySorted_inv. auto. Qed.

(** ** Ownership

    A live timer belongs to the queue, to a queued functor or to the batch of
    expired timers, and to exactly one of them. *)
Fixpoint pending_adds (l : list tfunctor) : list addr :=
  match l with [] => [] | FAddTimerInLoop p :: l => p :: pending_adds l | _ :: l => pending_adds l end.

Lemma pending_adds_app l k : pending_adds (l ++ k) = pending_adds l ++ pending_adds k.
Proof. induction l as [|[] l IH]; cbn; congruence. Qed.

Definition key (h : gmap addr Timer) (p : addr) : ActiveTimer := (p, from_option sequence_ 0 (h !! p)).
Definition owned (exp : list addr) (s : TimerQueue) : list addr := (timers_ s).*2 ++ pending_adds (pending s) ++ exp.

Record tinv (exp : list addr) (s : TimerQueue) : Prop := {
  v_sorted : ssorted (timers_ s);
  v_exp : forall t p, (t, p) ∈ timers_ s -> exists tm, heap s !! p = Some tm /\ expiration_ tm = t;
  v_own : NoDup (owned exp s);
  v_live : forall p, is_Some (heap s !! p) <-> p ∈ owned exp s;
  v_active : activeTimers_ s = list_to_set (key (heap s) <$> (timers_ s).*2);
  v_num : 0 <= s_numCreated_ s;
  v_seq : forall p tm, heap s !! p = Some tm -> 1 <= sequence_ tm <= s_numCreated_ s;
  v_inj : forall p q tm tm', heap s !! p = Some tm -> heap s !! q = Some tm' -> sequence_ tm = sequence_ tm' -> p = q;
  v_addr : forall p tm, heap s !! p = Some tm -> p < UINTPTR_MAX;
  v_rep : forall p tm, heap s !! p = Some tm -> repeat_ tm = SFltb (S754_zero false) (interval_ tm);
}.

(** The timerfd is set for the earliest timer or an earlier time; while a batch
    is served only timers in the past of the epoch need it. *)
Definition armed_ok (b : bool) (s : TimerQueue) : Prop := forall t, first (timers_ s) = Some t -> (b = true -> t <= 0) ->
  exists e d, timerfd s = Some (e, d) /\ e <= t.

(** Only a number out of range or an exhausted memory stops a step. *)
Definition tsat {A} (Q : A -> Prop) (m : res A) : Prop :=
  match m with Ok a => Q a | Fail f => f = FOverflow \/ f = FThrow end.

Lemma tsat_bind {A B} (Q : B -> Prop) (m : res A) (k : A -> res B) : tsat (fun a => tsat Q (k a)) m -> tsat Q (m ≫= k).
Proof. by destruct m. Qed.
Lemma tsat_mono {A} (P Q : A -> Prop) m : (forall a, P a -> Q a) -> tsat P m -> tsat Q m.
Proof. intros H. destruct m; cbn; auto. Qed.
Lemma tsat_int64 (Q : Z -> Prop) z : (- 2 ^ 63 <= z < 2 ^ 63 -> Q z) -> tsat Q (int64_ z).
Proof. intros H. unfold int64_. case_bool_decide; cbn; auto. Qed.

Lemma key_ext (h h' : gmap addr Timer) (l : list addr) : (forall p, p ∈ l -> h' !! p = h !! p) -> key h' <$> l = key h <$> l.
Proof. intros H. apply list_fmap_ext. intros i p Hp. unfold key. rewrite H; [done|]. by eapply list_elem_of_lookup_2. Qed.

Lemma NoDup_keys h (l : list addr) : NoDup l -> NoDup (key h <$> l).
Proof. apply NoDup_fmap_2. by intros ?? [= -> _]. Qed.

Lemma tinv_same_size exp s : tinv exp s -> same_size s = true.
Proof.
  intros Hv. unfold same_size. rewrite (v_active _ _ Hv), size_list_to_set.
  - unfold zlen. rewrite !length_fmap. apply Z.eqb_refl.
  - apply NoDup_keys. pose proof (v_own _ _ Hv) as [Ho _]%NoDup_app. done.
Qed.

Lemma active_spec exp s p q : tinv exp s -> (p, q) ∈ activeTimers_ s <->
  p ∈ (timers_ s).*2 /\ exists tm, heap s !! p = Some tm /\ sequence_ tm = q.
Proof.
  intros Hv. rewrite (v_active _ _ Hv), elem_of_list_to_set, (list_elem_of_fmap (key (heap s))). unfold key. split.
  - intros (p' & [= -> ->] & Hp). split; [done|]. assert (is_Some (heap s !! p')) as [tm ->]; [|by exists tm].
    apply (v_live _ _ Hv). unfold owned. rewrite elem_of_app. by left.
  - intros (Hp & tm & Htm & <-). exists p. by rewrite Htm.
Qed.

(** ** Operations *)
Lemma insert_spec exp s p : tinv (p :: exp) s -> exists s' ec tm, insert s p = Ok (s', ec) /\
  heap s !! p = Some tm /\ tinv exp s' /\ s' = set_timers s (timers_ s') (activeTimers_ s') /\
  timers_ s' ≡ₚ (expiration_ tm, p) :: timers_ s /\
  first (timers_ s') = Some (match first (timers_ s) with None => expiration_ tm | Some w => Z.min (expiration_ tm) w end) /\
  ec = match first (timers_ s) with None => true | Some w => expiration_ tm <? w end.
Proof.
  intros Hv. pose proof Hv as [Hs Hexp Hown Hlive Hact Hnum Hseq Hinj Haddr Hrep].
  assert (Hperm : owned (p :: exp) s ≡ₚ p :: (timers_ s).*2 ++ pending_adds (pending s) ++ exp) by (unfold owned; rewrite <- !Permutation_middle; done).
  rewrite Hperm in Hown. apply NoDup_cons in Hown as [Hp Hown].
  assert (is_Some (heap s !! p)) as [tm Htm] by (apply Hlive; rewrite Hperm; by left).
  assert (Hnp : p ∉ (timers_ s).*2) by (intros ?; apply Hp, elem_of_app; by left).
  unfold insert. rewrite (tinv_same_size _ _ Hv). unfold timer_at. rewrite Htm. cbn [assert_ check mbind res_bind].
  destruct (set_insert_spec (expiration_ tm, p) (timers_ s)) as (l' & -> & Hs' & Hp' & Hf); [done| |].
  { intros Hin. apply Hnp, list_elem_of_fmap. by exists (expiration_ tm, p). }
  assert (Hna : (p, sequence_ tm) ∉ activeTimers_ s) by (rewrite (active_spec _ _ _ _ Hv); naive_solver).
  rewrite (bool_decide_eq_false_2 _ Hna). cbn [assert_ check mbind res_bind negb].
  assert (Hv' : tinv exp (set_timers s l' ({[(p, sequence_ tm)]} ∪ activeTimers_ s))).
  { split; cbn; try done.
    - intros t q. rewrite Hp'. intros [[= -> ->]|Hin]%elem_of_cons; [by exists tm | by apply Hexp].
    - unfold owned. cbn. rewrite Hp'. by apply NoDup_cons.
    - intros q. rewrite Hlive, Hperm. unfold owned. cbn. by rewrite Hp'.
    - rewrite Hact, Hp'. cbn. unfold key at 2. by rewrite Htm. }
  rewrite (tinv_same_size _ _ Hv'). eexists _, _, tm. split_and!; [reflexivity | done | exact Hv' | done | done | done|].
  unfold first. by destruct (timers_ s) as [|[]].
Qed.

Lemma howMuch_sat when now : tsat (fun d => True) (howMuchTimeFromNow when now).
Proof. unfold howMuchTimeFromNow. apply tsat_bind, tsat_int64. done. Qed.

(** What an operation leaves alone. *)
Record calm (exp : list addr) (s s' : TimerQueue) : Prop := {
  c_ran : ran s' = ran s;
  c_calling : callingExpiredTimers_ s' = callingExpiredTimers_ s;
  c_num : s_numCreated_ s <= s_numCreated_ s';
  c_new : forall q tm, heap s' !! q = Some tm -> heap s !! q = Some tm \/ s_numCreated_ s < sequence_ tm;
  c_exp : forall q, q ∈ exp -> heap s' !! q = heap s !! q;
}.
#[global] Instance calm_preorder exp : PreOrder (calm exp).
Proof.
  split.
  - intros s. split; auto; lia.
  - intros s1 s2 s3 [] []. split; [congruence | congruence | lia | | by intros q Hq; rewrite c_exp1, c_exp0].
    intros q tm H. apply c_new1 in H as [H|H]; [auto | right; lia].
Qed.

Lemma addTimerInLoop_spec b exp s p now : tinv (p :: exp) s -> armed_ok b s ->
  tsat (fun s' => tinv exp s' /\ armed_ok b s' /\ calm (p :: exp) s s' /\ pending s' = pending s /\ cancelingTimers_ s' = cancelingTimers_ s)
    (addTimerInLoop s p now).
Proof.
  intros Hv Ha. unfold addTimerInLoop. destruct (insert_spec _ _ _ Hv) as (s' & ec & tm & -> & Htm & Hv' & Hs' & Hp & Hf & ->).
  cbn [mbind res_bind]. assert (Hc : calm (p :: exp) s s') by (rewrite Hs'; split; cbn; auto; lia).
  assert (heap s' = heap s) as Hh by (by rewrite Hs'). assert (pending s' = pending s /\ cancelingTimers_ s' = cancelingTimers_ s /\ timerfd s' = timerfd s) as (Hpe & Hca & Hfd) by (by rewrite Hs').
  assert (Harm : forall d, tinv exp (set_timerfd s' (Some (expiration_ tm, d))) /\ calm (p :: exp) s (set_timerfd s' (Some (expiration_ tm, d)))).
  { intros d. destruct Hv', Hc. by split; split. }
  assert (Hset : first (timers_ s') = Some (expiration_ tm) -> forall d, armed_ok b (set_timerfd s' (Some (expiration_ tm, d)))).
  { intros E d t Ht _. cbn in *. exists (expiration_ tm), d. split; [done|]. rewrite E in Ht. injection Ht as <-. done. }
  assert (tsat (fun s'' => tinv exp s'' /\ armed_ok b s'' /\ calm (p :: exp) s s'' /\ pending s'' = pending s /\ cancelingTimers_ s'' = cancelingTimers_ s)
    (t ← timer_at s' p; resetTimerfd s' (expiration_ t) now) \/ first (timers_ s') <> Some (expiration_ tm)) as Hreset.
  { destruct (decide (first (timers_ s') = Some (expiration_ tm))) as [E|]; [left | by right].
    unfold timer_at. rewrite Hh, Htm. cbn [mbind res_bind]. unfold resetTimerfd. apply tsat_bind. eapply tsat_mono, howMuch_sat.
    intros d _. cbn. destruct (Harm d). split_and!; auto. }
  destruct (first (timers_ s)) as [w|] eqn:Ef; [destruct (Z.ltb_spec (expiration_ tm) w)|].
  - destruct Hreset as [?|[]]; [done|]. rewrite Hf. f_equal. lia.
  - cbn. split_and!; try done. intros t Ht Hb. rewrite Hf in Ht. injection Ht as <-. rewrite Hfd.
    replace (Z.min _ w) with w in * by lia. by apply Ha.
  - destruct Hreset as [?|[]]; [done|]. by rewrite Hf.
Qed.

Lemma cancel_active exp s p q : tinv exp s -> (p, q) ∈ activeTimers_ s ->
  exists s', cancelInLoop s (p, q) = Ok s' /\ tinv exp s' /\ heap s' = delete p (heap s) /\
    s' = set_timers (set_heap s (heap s')) (timers_ s') (activeTimers_ s') /\ (forall e, e ∈ timers_ s' -> e ∈ timers_ s).
Proof.
  intros Hv Hin. pose proof Hv as [Hs Hexp Hown Hlive Hact Hnum Hseq Hinj Haddr Hrep].
  pose proof Hin as Hq. rewrite (active_spec _ _ _ _ Hv) in Hq. destruct Hq as (Hp & tm & Htm & <-).
  apply list_elem_of_fmap in Hp as ([t p'] & Hpp & Hp). cbn in Hpp. subst p'.
  destruct (Hexp t p Hp) as (tm' & Htm' & Ht). rewrite Htm in Htm'. injection Htm' as <-. subst t.
  unfold cancelInLoop. rewrite (tinv_same_size _ _ Hv), (bool_decide_eq_true_2 _ Hin). cbn [assert_ check mbind res_bind fst].
  unfold timer_at at 1. rewrite Htm. cbn [mbind res_bind].
  destruct (set_erase_spec _ _ Hs Hp) as (l' & -> & Hs' & Hperm). cbn [assert_ check mbind res_bind Z.eqb Pos.eqb].
  unfold delete_, timer_at. cbn [heap set_timers]. rewrite Htm. cbn [mbind res_bind].
  assert (Hown' : NoDup (p :: (l'.*2 ++ pending_adds (pending s) ++ exp))) by (unfold owned in Hown; by rewrite Hperm in Hown).
  apply NoDup_cons in Hown' as [Hnp Hown'].
  assert (Hv' : tinv exp (set_timers (set_heap (set_timers s l' (activeTimers_ s)) (delete p (heap s))) l' (activeTimers_ s ∖ {[(p, sequence_ tm)]}))).
  { split; cbn; try done.
    - intros t q Hq. destruct (Hexp t q) as (tmq & ? & ?); [rewrite Hperm; by right|]. exists tmq. rewrite lookup_delete_ne; [done|].
      intros <-. apply Hnp, elem_of_app. left. apply list_elem_of_fmap. by exists (t, p).
    - intros q. split.
      + intros [tq [Hne Hq]%lookup_delete_Some]. assert (Hi : q ∈ owned exp s) by (apply Hlive; eauto).
        unfold owned in Hi. rewrite Hperm in Hi. by apply elem_of_cons in Hi as [->|].
      + intros Hi. rewrite lookup_delete_ne by (intros <-; done). apply Hlive. unfold owned. rewrite Hperm. by right.
    - rewrite Hact, Hperm. cbn. unfold key at 1. rewrite Htm. cbn.
      rewrite (key_ext (heap s) (delete p (heap s))) by (intros q Hq; rewrite lookup_delete_ne; [done|]; intros <-; apply Hnp, elem_of_app; by left).
      assert ((p, sequence_ tm) ∉ (list_to_set (key (heap s) <$> l'.*2) : gset ActiveTimer)); [|set_solver].
      rewrite elem_of_list_to_set, (list_elem_of_fmap (key (heap s))). intros (q & [= <- _] & Hq). apply Hnp, elem_of_app. by left.
    - intros q tq [_ Hq]%lookup_delete_Some. eauto.
    - intros q1 q2 t1 t2 [_ H1]%lookup_delete_Some [_ H2]%lookup_delete_Some. eauto.
    - intros q tq [_ Hq]%lookup_delete_Some. eauto.
    - intros q tq [_ Hq]%lookup_delete_Some. eauto. }
  eexists. split; [etransitivity; [apply assert_bind_true, (tinv_same_size _ _ Hv') | reflexivity]|].
  split_and!; [exact Hv' | done | done|]. intros e He. rewrite Hperm. by right.
Qed.

Lemma cancel_inactive exp s id : tinv exp s -> id ∉ activeTimers_ s ->
  cancelInLoop s id = Ok (if callingExpiredTimers_ s then set_calling s true ({[id]} ∪ cancelingTimers_ s) else s).
Proof.
  intros Hv Hn. unfold cancelInLoop. rewrite (tinv_same_size _ _ Hv), (bool_decide_eq_false_2 _ Hn). cbn [assert_ check mbind res_bind].
  pose proof (tinv_same_size _ _ Hv) as Hsz. unfold same_size in *. destruct (callingExpiredTimers_ s); cbn; by rewrite Hsz.
Qed.

Lemma armed_sub b s s' : ssorted (timers_ s) -> timerfd s' = timerfd s -> (forall e, e ∈ timers_ s' -> e ∈ timers_ s) ->
  armed_ok b s -> armed_ok b s'.
Proof.
  intros Hs Hfd Hsub Ha t Ht Hb. destruct (timers_ s') as [|[t' p] l] eqn:E; [done|]. cbn in Ht. injection Ht as ->.
  assert (Hin : (t, p) ∈ timers_ s) by (apply Hsub; left). destruct (first (timers_ s)) as [w|] eqn:Ef; cycle 1.
  { destruct (timers_ s); [by apply elem_of_nil in Hin | done]. }
  pose proof (ssorted_first _ _ Hs Ef _ Hin) as Hle. cbn in Hle. destruct (Ha w Ef) as (e & d & ? & ?); [intros Hbt; specialize (Hb Hbt); lia|].
  rewrite Hfd. exists e, d. split; [done | lia].
Qed.

Lemma cancelInLoop_spec b exp s id : tinv exp s -> armed_ok b s ->
  exists s', cancelInLoop s id = Ok s' /\ tinv exp s' /\ armed_ok b s' /\ calm exp s s' /\ pending s' = pending s /\
    (cancelingTimers_ s' = cancelingTimers_ s \/ cancelingTimers_ s' = {[id]} ∪ cancelingTimers_ s).
Proof.
  intros Hv Ha. destruct id as [p q]. destruct (decide ((p, q) ∈ activeTimers_ s)) as [Hin|Hn].
  - destruct (cancel_active exp s p q Hv Hin) as (s' & -> & Hv' & Hh & Hs' & Hsub). exists s'. split_and!; [done | done | | | by rewrite Hs' | left; by rewrite Hs'].
    + eapply armed_sub; [apply (v_sorted _ _ Hv) | by rewrite Hs' | exact Hsub | exact Ha].
    + split; [by rewrite Hs' | by rewrite Hs' | by rewrite Hs' | |].
      * rewrite Hh. intros q' tm [_ Hq]%lookup_delete_Some. by left.
      * intros q' Hq'. rewrite Hh. apply lookup_delete_ne. intros <-. rewrite (active_spec _ _ _ _ Hv) in Hin. destruct Hin as [Hin _].
        pose proof (v_own _ _ Hv) as (_ & Hdj & _)%NoDup_app. apply (Hdj p Hin). apply elem_of_app. by right.
  - rewrite (cancel_inactive exp s) by done. eexists; split; [reflexivity|]. destruct (callingExpiredTimers_ s) eqn:Ec.
    + split_and!; [by destruct Hv | exact Ha | split; cbn; auto; lia | done | by right].
    + split_and!; [done | exact Ha | done | done | by left].
Qed.

Section queue.
Context (alloc : Z -> gmap addr Timer -> option addr) (body : Z -> TimerQueue -> list taction).
(** [new] returns storage that is not in use, below the last address. *)
Context (alloc_fresh : forall n h p, alloc n h = Some p -> h !! p = None /\ p < UINTPTR_MAX).

Lemma new_timer_spec b exp s cb when interval : tinv exp s -> armed_ok b s ->
  tsat (fun r => tinv (r.2 :: exp) r.1 /\ armed_ok b r.1 /\ calm exp s r.1 /\ pending r.1 = pending s /\ cancelingTimers_ r.1 = cancelingTimers_ s)
    (new_timer alloc s cb when interval).
Proof.
  intros Hv Ha. unfold new_timer. destruct (alloc _ _) as [p|] eqn:E; [|by right]. apply alloc_fresh in E as [Hf Hlt].
  apply tsat_bind, tsat_int64. intros Hr. cbn [fst snd]. pose proof Hv as [Hs Hexp Hown Hlive Hact Hnum Hseq Hinj Haddr Hrep].
  assert (Hnp : p ∉ owned exp s) by (intros Hi; apply Hlive in Hi; rewrite Hf in Hi; by destruct Hi).
  assert (Hne : forall q, q ∈ owned exp s -> p <> q) by (intros q Hq <-; done).
  split_and!; try done.
  - split; cbn; try done.
    + intros t q Hq. destruct (Hexp t q Hq) as (tm & Htm & Ht). exists tm. rewrite lookup_insert_ne; [done|].
      intros <-. by rewrite Hf in Htm.
    + unfold owned in *. cbn in *. rewrite <- !Permutation_middle. by apply NoDup_cons.
    + intros q. unfold owned in *. cbn. rewrite !elem_of_app, elem_of_cons. rewrite lookup_insert_is_Some', Hlive, !elem_of_app. naive_solver.
    + rewrite Hact. f_equal. symmetry. apply key_ext. intros q Hq. rewrite lookup_insert_ne; [done|].
      apply Hne. unfold owned. rewrite elem_of_app. by left.
    + lia.
    + intros q tm. rewrite lookup_insert_Some. intros [[<- <-]|[_ Hq]]; cbn.
      * lia.
      * specialize (Hseq q tm Hq). lia.
    + intros q1 q2 t1 t2. rewrite !lookup_insert_Some. intros [[<- <-]|[_ H1]] [[<- <-]|[_ H2]]; cbn; try done; [| |by eauto];
        [specialize (Hseq _ _ H2) | specialize (Hseq _ _ H1)]; lia.
    + intros q tm. rewrite lookup_insert_Some. intros [[<- _]|[_ Hq]]; eauto.
    + intros q tm. rewrite lookup_insert_Some. intros [[<- <-]|[_ Hq]]; [done | eauto].
  - split; cbn; try done; [lia| |].
    + intros q tm. rewrite lookup_insert_Some. intros [[<- <-]|[_ Hq]]; [right; cbn; lia | by left].
    + intros q Hq. rewrite lookup_insert_ne; [done|]. apply Hne. unfold owned. rewrite !elem_of_app. auto.
Qed.

(** The new timer carries the newest number. *)
Lemma new_timer_numbered b exp s cb when interval : tinv exp s -> armed_ok b s ->
  tsat (fun r => (tinv (r.2 :: exp) r.1 /\ armed_ok b r.1 /\ calm exp s r.1 /\ pending r.1 = pending s /\ cancelingTimers_ r.1 = cancelingTimers_ s) /\
      exists tm, heap r.1 !! r.2 = Some tm /\ sequence_ tm = s_numCreated_ r.1)
    (new_timer alloc s cb when interval).
Proof.
  intros Hv Ha. pose proof (new_timer_spec b exp s cb when interval Hv Ha) as H. destruct (new_timer _ _ _ _ _) as [[s1 p]|f] eqn:E; [|done].
  split; [done|]. unfold new_timer, int64_ in E. destruct (alloc _ _); [|done]. case_bool_decide; [|done]. cbn in E. injection E as <- <-.
  cbn. eexists. by rewrite lookup_insert_eq.
Qed.

Lemma calm_weaken (exp exp' : list addr) s s' : (forall p, p ∈ exp -> p ∈ exp') -> calm exp' s s' -> calm exp s s'.
Proof. intros Hsub []. split; auto. Qed.

Lemma addTimer_spec b exp s cb when interval now : tinv exp s -> armed_ok b s ->
  tsat (fun r => tinv exp r.1 /\ armed_ok b r.1 /\ calm exp s r.1) (addTimer alloc s cb when interval now).
Proof.
  intros Hv Ha. unfold addTimer. apply tsat_bind. eapply tsat_mono; [|by apply new_timer_numbered]. intros [s1 p]. cbn.
  intros ((Hv1 & Ha1 & Hc1 & _ & _) & tm & Htm & Hn). apply tsat_bind. eapply tsat_mono, (addTimerInLoop_spec b); [|done..].
  intros s2 (Hv2 & Ha2 & Hc2 & _ & _). unfold timerId, timer_at. rewrite (c_exp _ _ _ Hc2 p), Htm by (by left). cbn.
  rewrite Hn, Z.eqb_refl. cbn. split_and!; [done..|]. etransitivity; [done|]. eapply calm_weaken, Hc2. intros q Hq. by right.
Qed.

Lemma callback_actions_spec b exp s l : tinv exp s -> armed_ok b s ->
  tsat (fun s' => tinv exp s' /\ armed_ok b s' /\ calm exp s s') (run_actions alloc s l).
Proof.
  revert s. induction l as [|a l IH]; intros s Hv Ha; [by cbn|]. cbn. apply tsat_bind.
  assert (Hgo : forall s', tinv exp s' /\ armed_ok b s' /\ calm exp s s' ->
    tsat (fun s'' => tinv exp s'' /\ armed_ok b s'' /\ calm exp s s'') (run_actions alloc s' l)).
  { intros s' (Hv' & Ha' & Hc'). eapply tsat_mono, IH; [|done..]. intros s'' (? & ? & ?). split_and!; [done..|]. by etransitivity. }
  destruct a as [cb when interval now|id]; cbn.
  - apply tsat_bind. eapply tsat_mono, (addTimer_spec b exp); [|done..]. intros [s1 id] H1. by apply Hgo.
  - destruct (cancelInLoop_spec b exp s id Hv Ha) as (s' & -> & Hv' & Ha' & Hc' & _). cbn. by apply Hgo.
Qed.

Definition seq_at (s : TimerQueue) (p : addr) : Z := from_option sequence_ 0 (heap s !! p).

Lemma run_expired_spec b exp s l : tinv exp s -> armed_ok b s -> (forall p, p ∈ l.*2 -> p ∈ exp) ->
  tsat (fun s' => tinv exp s' /\ armed_ok b s' /\ calm exp s (set_ran s' (ran s)) /\ ran s' = ran s ++ (seq_at s <$> l.*2))
    (run_expired alloc body s l).
Proof.
  revert s. induction l as [|[t p] l IH]; intros s Hv Ha Hl; cbn.
  { split_and!; [done.. | by destruct s | by rewrite app_nil_r]. }
  assert (is_Some (heap s !! p)) as [tm Htm]. { apply (v_live _ _ Hv). unfold owned. rewrite !elem_of_app. right. right. apply Hl. by left. }
  unfold timer_at. rewrite Htm. cbn [mbind res_bind]. set (s1 := set_ran s (ran s ++ [sequence_ tm])).
  assert (Hv1 : tinv exp s1) by (by destruct Hv). apply tsat_bind. eapply tsat_mono, (callback_actions_spec b exp s1); [|done..].
  intros s2 (Hv2 & Ha2 & Hc2). eapply tsat_mono, IH; [|done|done|]; [|intros q Hq; apply Hl; by right].
  intros s3 (Hv3 & Ha3 & Hc3 & Hr3). split_and!; [done..| |].
  - destruct Hc2 as [H1 H2 H3 H4 H5], Hc3 as [G1 G2 G3 G4 G5]. cbn in *. split; cbn; [done | congruence | lia | | intros q Hq; by rewrite G5, H5].
    intros q tq Hq. apply G4 in Hq as [Hq|Hq]; [by apply H4 | right; lia].
  - rewrite Hr3, (c_ran _ _ _ Hc2). cbn. rewrite <- app_assoc. cbn. f_equal. f_equal; [unfold seq_at; by rewrite Htm|].
    apply list_fmap_ext. intros i q Hq. unfold seq_at. rewrite (c_exp _ _ _ Hc2); [done|].
    apply Hl. right. by eapply list_elem_of_lookup_2.
Qed.

Lemma erase_active_ok s l (r : list addr) : (forall p, p ∈ l.*2 -> is_Some (heap s !! p)) -> NoDup (l.*2 ++ r) ->
  activeTimers_ s = list_to_set (key (heap s) <$> (l.*2 ++ r)) ->
  erase_active s l = Ok (set_timers s (timers_ s) (list_to_set (key (heap s) <$> r))).
Proof.
  revert s. induction l as [|[t p] l IH]; intros s Hl Hn Ha; cbn in *.
  { rewrite <- Ha. by destruct s. }
  destruct (Hl p ltac:(by left)) as [tm Htm]. unfold timer_at. rewrite Htm. cbn [mbind res_bind].
  apply NoDup_cons in Hn as [Hp Hn]. unfold key at 1 in Ha. rewrite Htm in Ha. cbn in Ha.
  rewrite bool_decide_eq_true_2 by (rewrite Ha; set_solver). cbn [assert_ check mbind res_bind].
  rewrite IH; [done | | done |]; cbn; [intros q Hq; apply Hl; by right|]. rewrite Ha.
  assert ((p, sequence_ tm) ∉ (list_to_set (key (heap s) <$> l.*2 ++ r) : gset ActiveTimer)); [|set_solver].
  rewrite elem_of_list_to_set, (list_elem_of_fmap (key (heap s))). by intros (q & [= <- _] & Hq).
Qed.

Lemma getExpired_spec s now : tinv [] s -> exists s' l, getExpired s now = Ok (s', l) /\ tinv l.*2 s' /\
  timers_ s = l ++ timers_ s' /\ Forall (fun e => e.1 <= now) l /\ Forall (fun e => now < e.1) (timers_ s') /\
  s' = set_timers s (timers_ s') (activeTimers_ s').
Proof.
  intros Hv. pose proof Hv as [Hs Hexp Hown Hlive Hact Hnum Hseq Hinj Haddr Hrep]. unfold getExpired. rewrite (tinv_same_size _ _ Hv). cbn [assert_ check mbind res_bind].
  destruct (set_split _ _) as [l rest] eqn:E. apply set_split_spec in E as (Hlr & Hl & Hr); [|done].
  assert (Hl' : Forall (fun e => e.1 <= now) l).
  { eapply Forall_impl; [exact Hl|]. intros e. cbn. rewrite entry_ltb_spec. cbn. lia. }
  assert (Hr' : Forall (fun e => now < e.1) rest).
  { rewrite Forall_forall in Hr |- *. intros [t p] Hin. specialize (Hr _ Hin). rewrite <- not_true_iff_false, entry_ltb_spec in Hr. cbn in *.
    destruct (Hexp t p) as (tm & Htm & _); [rewrite Hlr; apply elem_of_app; by right|]. apply Haddr in Htm. lia. }
  replace (match rest with [] => true | (w, _) :: _ => now <? w end) with true
    by (destruct rest as [|[w q] rest]; [done|]; symmetry; apply Z.ltb_lt; by inversion Hr').
  cbn [assert_ check mbind res_bind]. unfold owned in *. rewrite Hlr, fmap_app, <- app_assoc, app_nil_r in Hown.
  rewrite (erase_active_ok _ l rest.*2); cbn [heap set_timers activeTimers_ timers_].
  2: { intros p Hp. apply Hlive. rewrite Hlr, fmap_app, !elem_of_app. auto. }
  2: { rewrite app_assoc in Hown. by apply NoDup_app in Hown as [? _]. }
  2: { by rewrite Hact, Hlr, fmap_app. }
  cbn [mbind res_bind]. unfold set_timers at 2. cbn.
  assert (Hv' : tinv l.*2 (set_timers s rest (list_to_set (key (heap s) <$> rest.*2)))).
  { split; cbn; try done.
    - rewrite Hlr in Hs. by eapply ssorted_app_r.
    - intros t p Hp. apply Hexp. rewrite Hlr. apply elem_of_app. by right.
    - unfold owned. cbn. by rewrite app_assoc, Permutation_app_comm.
    - intros p. rewrite Hlive, Hlr, fmap_app. unfold owned. cbn. rewrite !elem_of_app, elem_of_nil. tauto. }
  eexists _, l. split; [etransitivity; [apply assert_bind_true, (tinv_same_size _ _ Hv') | reflexivity]|]. by split_and!.
Qed.

Lemma tinv_restarted p exp s tm tm' : tinv (p :: exp) s -> heap s !! p = Some tm -> sequence_ tm' = sequence_ tm ->
  repeat_ tm' = repeat_ tm -> interval_ tm' = interval_ tm -> tinv (p :: exp) (set_heap s (<[p := tm']> (heap s))).
Proof.
  intros Hv Htm Hq Hr Hi. pose proof Hv as [Hs Hexp Hown Hlive Hact Hnum Hseq Hinj Haddr Hrep].
  assert (Hnp : p ∉ (timers_ s).*2). { unfold owned in Hown. rewrite <- !Permutation_middle in Hown. apply NoDup_cons in Hown as [Hp _].
    intros Hin. apply Hp. rewrite !elem_of_app. by left. }
  split; cbn; try done.
  - intros t q Hin. rewrite lookup_insert_ne; [by apply Hexp|]. intros <-. apply Hnp, list_elem_of_fmap. by exists (t, p).
  - intros q. rewrite <- Hlive, lookup_insert_is_Some'. naive_solver.
  - rewrite Hact. f_equal. symmetry. apply key_ext. intros q Hin. apply lookup_insert_ne. by intros <-.
  - intros q tq. rewrite lookup_insert_Some. intros [[<- <-]|[_ H]]; [rewrite Hq|]; eauto.
  - intros q1 q2 t1 t2. rewrite !lookup_insert_Some. intros [[<- <-]|[_ H1]] [[<- <-]|[_ H2]]; rewrite ?Hq; eauto.
  - intros q tq. rewrite lookup_insert_Some. intros [[<- <-]|[_ H]]; eauto.
  - intros q tq. rewrite lookup_insert_Some. intros [[<- <-]|[_ H]]; [rewrite Hr, Hi|]; eauto.
Qed.

Lemma tinv_deleted p exp s : tinv (p :: exp) s -> tinv exp (set_heap s (delete p (heap s))).
Proof.
  intros Hv. pose proof Hv as [Hs Hexp Hown Hlive Hact Hnum Hseq Hinj Haddr Hrep].
  assert (Hperm : owned (p :: exp) s ≡ₚ p :: owned exp s) by (unfold owned; rewrite <- !Permutation_middle; done).
  rewrite Hperm in Hown. apply NoDup_cons in Hown as [Hp Hown].
  assert (Hnp : p ∉ (timers_ s).*2) by (intros Hin; apply Hp; unfold owned; rewrite !elem_of_app; by left).
  split; cbn; try done.
  - intros t q Hin. rewrite lookup_delete_ne; [by apply Hexp|]. intros <-. apply Hnp, list_elem_of_fmap. by exists (t, p).
  - intros q. change (owned exp (set_heap s (delete p (heap s)))) with (owned exp s). specialize (Hlive q). rewrite Hperm, elem_of_cons in Hlive.
    destruct (decide (q = p)) as [->|Hne]; [rewrite lookup_delete_eq | rewrite lookup_delete_ne by done; naive_solver].
    split; [by intros [] | done].
  - rewrite Hact. f_equal. symmetry. apply key_ext. intros q Hin. apply lookup_delete_ne. by intros <-.
  - intros q tq [_ Hq]%lookup_delete_Some. eauto.
  - intros q1 q2 t1 t2 [_ H1]%lookup_delete_Some [_ H2]%lookup_delete_Some. eauto.
  - intros q tq [_ Hq]%lookup_delete_Some. eauto.
  - intros q tq [_ Hq]%lookup_delete_Some. eauto.
Qed.

(** A positive interval never takes a timer back in time. *)
Definition positive (x : double) : Prop :=
  match x with S754_zero b | S754_finite b _ _ | S754_infinity b => b = false | S754_nan => True end.
Lemma binary_round_positive prec emax m e l : positive (binary_round_aux prec emax false m e l).
Proof.
  unfold binary_round_aux. destruct (shr_fexp _ _ m _ _) as [r1 e1]. destruct (shr_fexp _ _ _ _ _) as [r2 e2].
  destruct (shr_m r2); try done. by destruct (_ <=? _).
Qed.
Lemma double_mul_positive x z : SFltb (S754_zero false) x = true -> 0 < z -> positive (double_mul x (double_of_Z z)).
Proof.
  intros Hx Hz. assert (Hp : positive (double_of_Z z)).
  { destruct z as [|z|z]; [lia| |lia]. unfold double_of_Z, binary_normalize, binary_round.
    destruct (shl_align _ _ _) as [m e]. apply binary_round_positive. }
  destruct x as [sx|[]| |[] mx ex]; try done; destruct (double_of_Z z); cbn in Hp; subst; try done.
  apply binary_round_positive.
Qed.

Lemma addTime_later now x e : SFltb (S754_zero false) x = true -> addTime now x = Ok e -> now <= e.
Proof.
  intros Hx He. unfold addTime in He. pose proof (double_mul_positive x kMicroSecondsPerSecond Hx ltac:(done)) as Hm.
  destruct (double_mul _ _) as [b|b| |b m k]; cbn [double_to_int64] in He; [| done | done |]; cbn in Hm; subst b;
    unfold int64_ in He; repeat (case_bool_decide; [|done]; cbn [mbind res_bind] in He).
  - cbn in He. case_bool_decide; [|done]. injection He as <-. lia.
  - injection He as <-. assert (0 <= if 0 <=? k then Z.pos m * 2 ^ k else Z.pos m / 2 ^ (- k)); [|lia].
    case_cmp; [|apply Z.div_pos]; lia.
Qed.

Lemma addTime_sat now x : tsat (fun _ => True) (addTime now x).
Proof.
  unfold addTime. apply tsat_bind. assert (tsat (fun _ => True) (double_to_int64 (double_mul x (double_of_Z kMicroSecondsPerSecond)))) as H.
  { destruct (double_mul _ _); cbn; auto. by apply tsat_int64. }
  eapply tsat_mono, H. intros d _. by apply tsat_int64.
Qed.

(** What becomes of an expired timer. *)
Definition outcome (s s' : TimerQueue) (now : Timestamp) (p : addr) : Prop :=
  forall tm, heap s !! p = Some tm ->
  if repeat_ tm && negb (bool_decide ((p, sequence_ tm) ∈ cancelingTimers_ s))
  then exists e, addTime now (interval_ tm) = Ok e /\ (e, p) ∈ timers_ s'
  else heap s' !! p = None.

Record reset_rel (now : Timestamp) (l : list addr) (s s' : TimerQueue) : Prop := {
  r_out : forall p, p ∈ l -> outcome s s' now p;
  r_keep : forall e, e ∈ timers_ s -> e ∈ timers_ s';
  r_heap : forall p tm', heap s' !! p = Some tm' -> exists tm, heap s !! p = Some tm /\ sequence_ tm = sequence_ tm';
  r_other : forall p, p ∉ l -> heap s' !! p = heap s !! p;
  r_same : pending s' = pending s /\ ran s' = ran s /\ s_numCreated_ s' = s_numCreated_ s /\
    callingExpiredTimers_ s' = callingExpiredTimers_ s /\ cancelingTimers_ s' = cancelingTimers_ s;
}.

Lemma reset_rel_cons now p l s1 s2 s3 : p ∉ l -> reset_rel now [p] s1 s2 -> reset_rel now l s2 s3 -> reset_rel now (p :: l) s1 s3.
Proof.
  intros Hp [O1 K1 H1 N1 (S1 & S2 & S3 & S4 & S5)] [O2 K2 H2 N2 (T1 & T2 & T3 & T4 & T5)]. split.
  - intros q [->|Hq]%elem_of_cons tm Htm.
    + specialize (O1 p ltac:(by left) tm Htm). destruct (_ && _); [naive_solver|]. by rewrite N2.
    + assert (q <> p) by congruence. specialize (O2 q Hq tm). rewrite N1 in O2 by set_solver. specialize (O2 Htm). by rewrite S5 in O2.
  - auto.
  - intros q tm Hq. apply H2 in Hq as (tm2 & Hq & <-). apply H1 in Hq as (tm1 & Hq & <-). eauto.
  - intros q Hq. rewrite N2, N1; set_solver.
  - split_and!; congruence.
Qed.

Lemma reset_loop_spec s l now : tinv l.*2 s -> armed_ok true s -> 0 < now ->
  tsat (fun s' => tinv [] s' /\ armed_ok true s' /\ reset_rel now l.*2 s s') (reset_loop s l now).
Proof.
  revert s. induction l as [|[t p] l IH]; intros s Hv Ha Hnow; cbn.
  { split_and!; [done..|]. split; try done; [intros p Hp; by apply elem_of_nil in Hp | eauto]. }
  pose proof (v_own _ _ Hv) as Hown. unfold owned in Hown. cbn in Hown. rewrite !app_assoc in Hown.
  apply NoDup_app in Hown as (_ & _ & [Hpl _]%NoDup_cons).
  assert (is_Some (heap s !! p)) as [tm Htm]. { apply (v_live _ _ Hv). unfold owned. cbn. rewrite !elem_of_app. right. right. by left. }
  unfold timer_at at 1. rewrite Htm. cbn [mbind res_bind]. apply tsat_bind.
  apply (tsat_mono (fun s1 => tinv l.*2 s1 /\ armed_ok true s1 /\ reset_rel now [p] s s1)).
  { intros s1 (Hv1 & Ha1 & Hr1). eapply tsat_mono, IH; [|done..]. intros s2 (Hv2 & Ha2 & Hr2). split_and!; [done..|]. by eapply reset_rel_cons. }
  destruct (repeat_ tm && _) eqn:Ec.
  - assert (Hrt : repeat_ tm = true) by by destruct (repeat_ tm). unfold restart. rewrite Hrt. apply tsat_bind, tsat_bind.
    destruct (addTime now (interval_ tm)) as [e|f] eqn:Ee; cycle 1.
    { pose proof (addTime_sat now (interval_ tm)) as Hf. by rewrite Ee in Hf. }
    assert (Hle : now <= e). { eapply addTime_later; [|exact Ee]. rewrite <- (v_rep _ _ Hv _ _ Htm). exact Hrt. }
    cbn [tsat]. set (tm' := mkTimer _ _ _ _ _). set (s0 := set_heap s _).
    assert (Hv0 : tinv (p :: l.*2) s0) by (eapply tinv_restarted; done).
    destruct (insert_spec _ _ _ Hv0) as (s1 & ec & tm1 & -> & Htm1 & Hv1 & Hs1 & Hp1 & Hf1 & _). cbn.
    unfold s0 in Htm1. cbn in Htm1. rewrite lookup_insert_eq in Htm1. injection Htm1 as <-. cbn in Hp1, Hf1.
    assert (Hh1 : heap s1 = <[p := tm']> (heap s)) by (by rewrite Hs1). split_and!; [done| |].
    + intros t1 Ht1 Ht0. specialize (Ht0 eq_refl). rewrite Hf1 in Ht1. injection Ht1 as <-.
      replace (timerfd s1) with (timerfd s) by (by rewrite Hs1). cbn in *. destruct (first (timers_ s)) as [w|] eqn:Ef; [|lia].
      replace (Z.min e w) with w in * by lia. by apply Ha.
    + split.
      * intros q Hq. apply list_elem_of_singleton in Hq as ->. intros tmq Hq. rewrite Htm in Hq. injection Hq as <-. rewrite Ec.
        exists e. split; [done|]. rewrite Hp1. by left.
      * intros x Hx. rewrite Hp1. by right.
      * intros q tq. rewrite Hh1, lookup_insert_Some. intros [[<- <-]|[_ Hq]]; [by exists tm | by exists tq].
      * intros q Hq. rewrite Hh1. apply lookup_insert_ne. intros <-. apply Hq. by left.
      * by rewrite Hs1.
  - unfold delete_, timer_at. rewrite Htm. cbn. split_and!; [by apply tinv_deleted | exact Ha|]. split; cbn; try done.
    + intros q Hq. apply list_elem_of_singleton in Hq as ->. intros tmq Hq. rewrite Htm in Hq. injection Hq as <-. rewrite Ec. cbn. apply lookup_delete_eq.
    + intros q tq [_ Hq]%lookup_delete_Some. eauto.
    + intros q Hq. apply lookup_delete_ne. intros <-. apply Hq. by left.
Qed.

(** ** Whole steps *)
Definition live (s : TimerQueue) (q : Z) : Prop := exists p tm, heap s !! p = Some tm /\ sequence_ tm = q.

(** A step runs and keeps only timers that existed, or newer ones. *)
Record evolves (s s' : TimerQueue) : Prop := {
  ev_num : s_numCreated_ s <= s_numCreated_ s';
  ev_live : forall q, live s' q -> live s q \/ s_numCreated_ s < q;
  ev_ran : exists k, ran s' = ran s ++ k /\ forall q, q ∈ k -> live s q \/ s_numCreated_ s < q;
}.
#[global] Instance evolves_preorder : PreOrder evolves.
Proof.
  split.
  - intros s. split; [done | auto|]. exists []. rewrite app_nil_r. split; [done|]. intros q Hq. by apply elem_of_nil in Hq.
  - intros s1 s2 s3 [N1 L1 (k1 & R1 & K1)] [N2 L2 (k2 & R2 & K2)]. split; [lia| |].
    + intros q Hq. apply L2 in Hq as [Hq|Hq]; [auto | right; lia].
    + exists (k1 ++ k2). rewrite R2, R1, app_assoc. split; [done|]. intros q [Hq|Hq]%elem_of_app; [auto|].
      apply K2 in Hq as [Hq|Hq]; [auto | right; lia].
Qed.

Lemma calm_evolves exp s s' : calm exp s s' -> evolves s s'.
Proof.
  intros [H1 H2 H3 H4 H5]. split; [done | |].
  - intros q (p & tm & Hp & <-). apply H4 in Hp as [Hp|Hp]; [left; by exists p, tm | auto].
  - exists []. rewrite app_nil_r. split; [done|]. intros q Hq. by apply elem_of_nil in Hq.
Qed.

Record idle (s : TimerQueue) : Prop := {
  i_inv : tinv [] s;
  i_armed : armed_ok false s;
  i_calling : callingExpiredTimers_ s = false;
}.

Definition due (now : Timestamp) (s : TimerQueue) : list Entry := filter (fun e => e.1 <= now) (timers_ s).

Lemma filter_Forall {A} (P : A -> Prop) `{!forall x, Decision (P x)} (l r : list A) :
  Forall P l -> Forall (fun x => ~ P x) r -> filter P (l ++ r) = l.
Proof.
  intros Hl Hr. induction Hl as [|x l Hx Hl IH]; cbn [app].
  - induction Hr; [done|]. by rewrite filter_cons_False.
  - by rewrite filter_cons_True, IH.
Qed.

Lemma due_split now s l r : timers_ s = l ++ r -> Forall (fun e => e.1 <= now) l -> Forall (fun e => now < e.1) r -> due now s = l.
Proof.
  intros E Hl Hr. unfold due. rewrite E. apply filter_Forall; [done|]. eapply Forall_impl; [exact Hr|]. cbn. lia.
Qed.

(** The end of [reset]. *)
Lemma rearm_spec s now' : tinv [] s -> armed_ok true s -> callingExpiredTimers_ s = false ->
  tsat (fun s' => idle s' /\ s' = set_timerfd s (timerfd s'))
    (nextExpire ← (match timers_ s with
                   | [] => Ok Timestamp_invalid
                   | (_, p) :: _ => t ← timer_at s p; Ok (expiration_ t)
                   end);
     if Timestamp_valid nextExpire then resetTimerfd s nextExpire now' else Ok s).
Proof.
  intros Hv Ha Hc. destruct (timers_ s) as [|[t p] r] eqn:E.
  { cbn. split; [|by destruct s]. split; [done| |done]. intros t Ht. by rewrite E in Ht. }
  destruct (v_exp _ _ Hv t p) as (tm & Htm & Ht); [rewrite E; by left|]. unfold timer_at. rewrite Htm. cbn [mbind res_bind].
  rewrite Ht. unfold Timestamp_valid. destruct (Z.ltb_spec 0 t).
  - unfold resetTimerfd. apply tsat_bind. eapply tsat_mono, howMuch_sat. intros d _. cbn. split; [|done].
    split; [by destruct Hv | |done]. intros t' Ht' _. cbn in *. exists t, d. rewrite E in Ht'. by injection Ht' as <-.
  - cbn. split; [|by destruct s]. split; [done| |done]. intros t' Ht' _. apply Ha; [done|]. intros _. rewrite E in Ht'. cbn in Ht'. by injection Ht' as <-.
Qed.

Lemma handleRead_spec s now now' : idle s -> 0 < now ->
  tsat (fun s' => idle s' /\ evolves s s' /\ ran s' = ran s ++ (seq_at s <$> (due now s).*2) /\
    forall p, p ∈ (due now s).*2 -> forall tm, heap s !! p = Some tm ->
      if repeat_ tm && negb (bool_decide ((p, sequence_ tm) ∈ cancelingTimers_ s'))
      then exists e, addTime now (interval_ tm) = Ok e /\ (e, p) ∈ timers_ s'
      else heap s' !! p = None) (handleRead alloc body s now now').
Proof.
  intros [Hv Ha Hc] Hnow. unfold handleRead.
  assert (Hv0 : tinv [] (readTimerfd s)) by (by destruct Hv).
  destruct (getExpired_spec (readTimerfd s) now Hv0) as (s1 & l & -> & Hv1 & Hlr & Hl & Hr & Hs1). cbn [mbind res_bind].
  assert (Hdue : due now s = l) by (by eapply due_split). rewrite Hdue.
  set (s2 := set_calling s1 true ∅). assert (Hv2 : tinv l.*2 s2) by (by destruct Hv1).
  assert (Ha2 : armed_ok true s2).
  { intros t Ht Ht0. specialize (Ht0 eq_refl). cbn in Ht. destruct (timers_ s1) as [|[t1 p1] r1]; [done|]. cbn in Ht. injection Ht as <-.
    inversion Hr; subst; cbn in *. lia. }
  apply tsat_bind. eapply tsat_mono, (run_expired_spec true l.*2 s2 l); [|done..|auto].
  intros s3 (Hv3 & Ha3 & Hc3 & Hr3). set (s4 := set_calling s3 false (cancelingTimers_ s3)).
  assert (Hv4 : tinv l.*2 s4) by (by destruct Hv3). assert (Ha4 : armed_ok true s4) by exact Ha3.
  assert (Hh2 : heap s2 = heap s) by (unfold s2; cbn; by rewrite Hs1).
  assert (Hseq : seq_at s2 <$> l.*2 = seq_at s <$> l.*2) by (apply list_fmap_ext; intros; unfold seq_at; by rewrite Hh2).
  assert (Hn2 : s_numCreated_ s2 = s_numCreated_ s /\ ran s2 = ran s) by (unfold s2; cbn; by rewrite Hs1). destruct Hn2 as [Hn2 Hr2].
  assert (Hev4 : evolves s s4).
  { destruct Hc3 as [_ _ C3 C4 _]. rewrite Hn2 in C3, C4. split; [exact C3 | |].
    - intros q (p & tm & Hp & <-). apply C4 in Hp as [Hp|Hp]; [left; rewrite Hh2 in Hp; by exists p, tm | auto].
    - exists (seq_at s <$> l.*2). change (ran s4) with (ran s3). rewrite Hr3, Hseq, Hr2. split; [done|].
      intros q (p & -> & Hp)%list_elem_of_fmap. left. assert (is_Some (heap s2 !! p)) as [tm Htm].
      { apply (v_live _ _ Hv2). unfold owned. rewrite !elem_of_app. auto. }
      rewrite Hh2 in Htm. exists p, tm. unfold seq_at. by rewrite Htm. }
  unfold reset. apply tsat_bind. eapply tsat_mono, (reset_loop_spec s4 l now); [|done..].
  intros s5 (Hv5 & Ha5 & [O5 K5 H5 N5 (P5 & R5 & M5 & C5 & D5)]).
  assert (Hev5 : evolves s s5).
  { etransitivity; [exact Hev4|]. split; [lia | |].
    - intros q (p & tm & Hp & <-). apply H5 in Hp as (tm0 & Hp & <-). left. by exists p, tm0.
    - exists []. rewrite app_nil_r. split; [done|]. intros q Hq. by apply elem_of_nil in Hq. }
  assert (Hran5 : ran s5 = ran s ++ (seq_at s <$> l.*2)) by (rewrite R5; change (ran s4) with (ran s3); by rewrite Hr3, Hseq, Hr2).
  assert (Hout5 : forall p, p ∈ l.*2 -> forall tm, heap s !! p = Some tm ->
    if repeat_ tm && negb (bool_decide ((p, sequence_ tm) ∈ cancelingTimers_ s5))
    then exists e, addTime now (interval_ tm) = Ok e /\ (e, p) ∈ timers_ s5 else heap s5 !! p = None).
  { intros p Hp tm Htm. rewrite D5. apply (O5 p Hp). cbn. rewrite <- Hh2 in Htm. rewrite <- Htm. apply (c_exp _ _ _ Hc3 _ Hp). }
  eapply tsat_mono, (rearm_spec s5 now'); [|done..]. intros s6 [Hi6 E6]. rewrite E6. split_and!; [by rewrite <- E6 | | done | done].
  destruct Hev5. by split.
Qed.

(** Alarms come after the epoch. *)
Definition label_ok (l : tlabel) : Prop := match l with LAlarm now _ => 0 < now | _ => True end.

Lemma tinv_pending exp exp' s k : tinv exp s -> owned exp s ≡ₚ owned exp' (set_pending s k) -> tinv exp' (set_pending s k).
Proof.
  intros [Hs Hexp Hown Hlive Hact Hnum Hseq Hinj Haddr Hrep] Hperm. split; cbn; try done.
  - by rewrite <- Hperm.
  - intros p. by rewrite <- Hperm, Hlive.
Qed.

(** [addTimer] of another thread returns after the loop's thread has deleted the timer. *)
Definition dangling (s : TimerQueue) (l : tlabel) : Prop :=
  exists i p n, l = LReturn i /\ calls s !! i = Some (p, n) /\ forall tm, heap s !! p = Some tm -> sequence_ tm <> n.

Lemma tinv_calls exp s c : tinv exp s -> tinv exp (set_calls s c).
Proof. by intros []. Qed.

Lemma texec_add_spec s inLoop cb when interval now : idle s ->
  tsat (fun s' => idle s' /\ evolves s s') (texec alloc body s (LAdd inLoop cb when interval now)).
Proof.
  intros [Hv Ha Hc]. cbn. destruct inLoop.
  - apply tsat_bind. eapply tsat_mono, (addTimer_spec false []); [|done..]. intros [s1 id]. cbn. intros (Hv1 & Ha1 & Hc1).
    split; [split; [done..|]; by rewrite (c_calling _ _ _ Hc1) | by eapply calm_evolves].
  - unfold addTimer_queue. apply tsat_bind. eapply tsat_mono, (new_timer_spec false []); [|done..]. intros [s1 p]. cbn. intros (Hv1 & Ha1 & Hc1 & Hp1 & _).
    split; [split; [|exact Ha1 | by rewrite <- Hc, <- (c_calling _ _ _ Hc1)] | apply calm_evolves in Hc1 as []; by split].
    apply tinv_calls. eapply tinv_pending; [exact Hv1|]. unfold owned. cbn. rewrite pending_adds_app. cbn. by rewrite app_nil_r.
Qed.

Lemma texec_return_spec s i : idle s ->
  dangling s (LReturn i) /\ texec alloc body s (LReturn i) = Fail FBounds \/
  tsat (fun s' => idle s' /\ evolves s s') (texec alloc body s (LReturn i)).
Proof.
  intros Hi. cbn. unfold addTimer_return, timerId, timer_at. destruct (calls s !! i) as [[p n]|] eqn:E; [|by right].
  destruct (heap s !! p) as [tm|] eqn:Eh; cbn; [destruct (Z.eqb_spec (sequence_ tm) n); cbn|].
  - right. destruct Hi as [Hv Ha Hc]. split; [split; [by apply tinv_calls | done..]|]. destruct (reflexivity (R := evolves) s). by split.
  - left. split; [|done]. exists i, p, n. split_and!; [done..|]. intros tm' Htm'. congruence.
  - left. split; [|done]. exists i, p, n. split_and!; [done..|]. intros tm' Htm'. congruence.
Qed.

Lemma texec_spec s l : idle s -> label_ok l ->
  dangling s l /\ texec alloc body s l = Fail FBounds \/ tsat (fun s' => idle s' /\ evolves s s') (texec alloc body s l).
Proof.
  intros Hi Hl. destruct l as [inLoop cb when interval now|i|inLoop id|now|now now'];
    [right; by apply texec_add_spec | by apply texec_return_spec | right; destruct Hi as [Hv Ha Hc]; cbn..].
  - unfold cancel. destruct inLoop.
    + destruct (cancelInLoop_spec false [] s id Hv Ha) as (s' & -> & Hv' & Ha' & Hc' & _). cbn. split; [split; [done..|]|by eapply calm_evolves].
      by rewrite (c_calling _ _ _ Hc').
    + cbn. split; [split; [|done..] | destruct (reflexivity (R := evolves) s); by split].
      eapply tinv_pending; [exact Hv|]. unfold owned. cbn. rewrite pending_adds_app. cbn. by rewrite !app_nil_r.
  - destruct (pending s) as [|[p|id] k] eqn:E; [done| |].
    + assert (Hv1 : tinv [p] (set_pending s k)).
      { eapply tinv_pending; [exact Hv|]. unfold owned. cbn. rewrite E. cbn. by rewrite app_nil_r, (Permutation_app_comm _ [p]). }
      eapply tsat_mono, (addTimerInLoop_spec false [] (set_pending s k)); [|done..]. intros s2 (Hv2 & Ha2 & Hc2 & _ & _). split.
      * split; [done..|]. by rewrite (c_calling _ _ _ Hc2).
      * apply calm_evolves in Hc2 as []. by split.
    + assert (Hv1 : tinv [] (set_pending s k)).
      { eapply tinv_pending; [exact Hv|]. unfold owned. cbn. by rewrite E. }
      destruct (cancelInLoop_spec false [] (set_pending s k) id Hv1 Ha) as (s' & -> & Hv' & Ha' & Hc' & _). cbn.
      split; [split; [done..|]; by rewrite (c_calling _ _ _ Hc')|]. apply calm_evolves in Hc' as []. by split.
  - eapply tsat_mono, (handleRead_spec s now now'); [naive_solver | by split | done].
Qed.

Lemma texecs_spec s ls : idle s -> Forall label_ok ls ->
  (exists ls1 l ls2 s1, ls = ls1 ++ l :: ls2 /\ texecs alloc body s ls1 = Ok s1 /\ dangling s1 l /\ texecs alloc body s ls = Fail FBounds) \/
  tsat (fun s' => idle s' /\ evolves s s') (texecs alloc body s ls).
Proof.
  intros Hi Hl. revert s Hi. induction Hl as [|l ls Hl Hls IH]; intros s Hi; [by right|]. cbn.
  destruct (texec_spec s l Hi Hl) as [[Hd ->]|H1]; [left; by exists [], l, ls, s|].
  destruct (texec alloc body s l) as [s1|f] eqn:E1; [|by right]. destruct H1 as [Hi1 He1]. cbn [mbind res_bind].
  destruct (IH s1 Hi1) as [(ls1 & l' & ls2 & s2 & -> & E2 & Hd & ->)|H2].
  - left. exists (l :: ls1), l', ls2, s2. cbn. by rewrite E1.
  - right. eapply tsat_mono, H2. intros s2 [Hi2 He2]. split; [done|]. by etransitivity.
Qed.

Lemma idle_ctor : idle TimerQueue_ctor.
Proof.
  split; [|done|done]. split; cbn; try done; [constructor | intros t p H; by apply elem_of_nil in H | constructor|].
  intros p. split; [by intros [? ?] | intros H; by apply elem_of_nil in H].
Qed.

Lemma texecs_idle ls s : Forall label_ok ls -> texecs alloc body TimerQueue_ctor ls = Ok s -> idle s.
Proof. intros Hl E. destruct (texecs_spec _ ls idle_ctor Hl) as [(? & ? & ? & ? & _ & _ & _ & H)|H]; [congruence|]. rewrite E in H. apply H. Qed.
End queue.

(** ** Properties *)
Section properties.
Context (alloc : Z -> gmap addr Timer -> option addr) (body : Z -> TimerQueue -> list taction).

(** C22: whatever timers are added and cancelled, from the loop's thread, from
    other threads or by the callbacks themselves, and even if addresses of
    deleted timers are reused, no assertion of the timer queue fails. Exhausted
    memory or a 64-bit overflow may stop it, and only one access ever meets a
    deleted timer: [timer->sequence()] at the end of [addTimer], called from
    another thread, when the loop has run or cancelled the timer before the call
    returns. Every live timer is in the queue or in a pending functor, once, so
    none leaks; and if a timer is waiting, the timerfd is set for it or an
    earlier time, so none is forgotten. *)
Theorem TimerQueue_safe (ls : list tlabel) :
  (forall n h p, alloc n h = Some p -> h !! p = None /\ p < UINTPTR_MAX) -> Forall label_ok ls ->
  match texecs alloc body TimerQueue_ctor ls with
  | Ok s => NoDup (owned [] s) /\ (forall p, is_Some (heap s !! p) <-> p ∈ owned [] s) /\
      (forall t, first (timers_ s) = Some t -> exists e d, timerfd s = Some (e, d) /\ e <= t)
  | Fail f => f = FOverflow \/ f = FThrow \/
      f = FBounds /\ exists ls1 l ls2 s, ls = ls1 ++ l :: ls2 /\ texecs alloc body TimerQueue_ctor ls1 = Ok s /\ dangling s l
  end.
Proof.
  intros Hal Hl. destruct (texecs_spec alloc body Hal _ ls idle_ctor Hl) as [(ls1 & l & ls2 & s & E1 & E2 & Hd & ->)|H].
  { right; right. split; [done|]. by exists ls1, l, ls2, s. }
  destruct (texecs _ _ _ _) as [s|f]; [|naive_solver].
  destruct H as [[Hv Ha _] _]. split_and!; [apply Hv | apply Hv|]. intros t Ht. by apply Ha.
Qed.


End properties.

(** The delay given to [timerfd_settime] is at least 100 microseconds and
    never zero, which would disarm the timer; its nanoseconds are in range, and
    a timer further away is waited for exactly. *)
Theorem howMuchTimeFromNow_bounds (when now : Timestamp) :
  - 2 ^ 62 <= when < 2 ^ 62 -> - 2 ^ 62 <= now < 2 ^ 62 ->
  exists sec nsec, howMuchTimeFromNow when now = Ok (sec, nsec) /\ 0 <= sec /\ 0 <= nsec < 1000000000 /\
    1000000000 * sec + nsec = 1000 * Z.max 100 (when - now).
Proof.
  intros Hw Hn. unfold howMuchTimeFromNow, int64_. rewrite bool_decide_eq_true_2 by lia. cbn [mbind res_bind].
  replace (if when - now <? 100 then 100 else when - now) with (Z.max 100 (when - now)) by (case_cmp; lia).
  set (m := Z.max 100 (when - now)). assert (100 <= m) by lia. clearbody m. eexists _, _. split; [reflexivity|].
  change kMicroSecondsPerSecond with 1000000. rewrite Z.quot_div_nonneg, Z.rem_mod_nonneg by lia.
  pose proof (Z.div_mod m 1000000 ltac:(lia)). pose proof (Z.mod_pos_bound m 1000000 ltac:(lia)).
  pose proof (Z.div_pos m 1000000 ltac:(lia) ltac:(lia)). split_and!; lia.
Qed.

(** ** Examples *)
Module Example.
Lemma alloc_low_fresh n h p : alloc_low n h = Some p -> h !! p = None /\ p < UINTPTR_MAX.
Proof.
  unfold alloc_low. intros H. apply head_Some_elem_of, list_elem_of_filter in H as [Hf Hin]. split; [done|].
  unfold UINTPTR_MAX. set_unfold in Hin. lia.
Qed.

(** Callback 1 cancels the timer of callback 2 and adds a new one. *)
Definition callbacks (cb : Z) (s : TimerQueue) : list taction :=
  if cb =? 1 then [ActCancel (128, 2); ActAdd 3 4000 zero 1600] else [].
Definition script : list tlabel :=
  [LAdd true 1 1000 zero 500; LAdd true 2 2000 (ratio 1 1000) 500; LAdd false 4 3000 zero 500; LFunctor 600; LReturn 0; LAlarm 1500 1600].

Definition force (r : res TimerQueue) : TimerQueue := match r with Ok s => s | Fail _ => TimerQueue_ctor end.
Definition script_end : TimerQueue := Eval vm_compute in force (texecs alloc_low callbacks TimerQueue_ctor script).

Lemma TimerQueue_safe_witness : texecs alloc_low callbacks TimerQueue_ctor script = Ok script_end /\
  ran script_end = [1] /\ (exists e d, timerfd script_end = Some (e, d) /\ e <= 3000).
Proof.
  assert (E : texecs alloc_low callbacks TimerQueue_ctor script = Ok script_end) by (vm_compute; reflexivity).
  pose proof (TimerQueue_safe alloc_low callbacks script alloc_low_fresh) as H. rewrite E in H.
  destruct H as (_ & _ & Ha); [repeat constructor|]. split_and!; [done | reflexivity | apply Ha; reflexivity].
Defined.

Definition waiting : list tlabel := [LAdd true 5 1000 zero 500; LAdd true 6 1200 (ratio 1 1000) 500].
Definition w0 : TimerQueue := Eval vm_compute in force (texecs alloc_low callbacks TimerQueue_ctor waiting).
Definition w1 : TimerQueue := Eval vm_compute in force (handleRead alloc_low callbacks w0 1500 1600).


Definition c1 : TimerQueue := Eval vm_compute in force (texec alloc_low callbacks w0 (LCancel true (64, 1))).
Definition later : list tlabel := [LAdd true 7 1300 zero 600; LAlarm 1500 1600].
Definition c2 : TimerQueue := Eval vm_compute in force (texecs alloc_low callbacks c1 later).


Lemma howMuchTimeFromNow_bounds_witness : exists sec nsec, howMuchTimeFromNow 2500000 1000000 = Ok (sec, nsec) /\
  1000000000 * sec + nsec = 1500000000.
Proof.
  destruct (howMuchTimeFromNow_bounds 2500000 1000000) as (sec & nsec & H & _ & _ & E); [lia | lia |]. exists sec, nsec. split; [done | lia].
Defined.
End Example.

(** A timer cancelled by a callback of the same batch is run once more: the
    batch was taken out of the queue before, and [cancelInLoop] only keeps it
    from being queued again. *)
Theorem cancel_within_batch_still_runs :
  let body cb (s : TimerQueue) := if cb =? 1 then [ActCancel (128, 2)] else [] in
  (fun s => (ran s, timers_ s)) <$> texecs alloc_low body TimerQueue_ctor
    [LAdd true 1 1000 zero 500; LAdd true 2 1100 (ratio 1 1000) 500; LAlarm 1500 1600] = Ok ([1; 2], []).
Proof. vm_compute. reflexivity. Qed.

(** When a thread adds a timer and hands its id to the loop's thread, which
    cancels it before the queued addition ran, the cancellation finds nothing
    and is forgotten: the timer is queued afterwards and runs. *)
Theorem cancel_overtakes_add :
  (fun s => ran s) <$> texecs alloc_low (fun _ _ => []) TimerQueue_ctor
    [LAdd false 1 1000 zero 500; LCancel true (64, 1); LFunctor 600; LAlarm 1500 1600] = Ok [1].
Proof. vm_compute. reflexivity. Qed.

(** The loop's thread runs and deletes a timer before [addTimer], called by
    another thread, reads it for the identifier. *)
Example addTimer_reads_deleted_timer :
  texecs alloc_low (fun _ _ => []) TimerQueue_ctor [LAdd false 1 1000 zero 900; LFunctor 950; LAlarm 1100 1100; LReturn 0] = Fail FBounds.
Proof. vm_compute. reflexivity. Qed.
