(* ===== verification/Connector.v ===== *)
(** * Outgoing connections ([3rd_party/muduo/muduo/net/Connector.{h,cc}])

    The connector creates sockets until one is connected, waiting longer after
    each failure. Sockets are numbered as they are created; what is closed and
    what is handed to the client is recorded. Calls from other threads and
    deferred work are functors of the loop, retries are timers. *)
From S2P Require Import Prelude Channel.

Inductive States := kDisconnected | kConnecting | kConnected.
#[global] Instance States_eq_dec : EqDecision States.
Proof. solve_decision. Defined.

Definition kMaxRetryDelayMs : Z := 30 * 1000.
Definition kInitRetryDelayMs : Z := 500.

Inductive cfunctor := FStartInLoop | FStopInLoop | FResetChannel.
#[global] Instance cfunctor_eq_dec : EqDecision cfunctor.
Proof. solve_decision. Defined.

Record Connector := mkConnector {
  connect_ : bool;
  state_ : States;
  channel_ : option Channel;
  retryDelayMs_ : Z;
  functors : list cfunctor;
  (** timers that will call [startInLoop] *)
  timers : nat;
  (** sockets: how many were created, which were closed or handed over *)
  sockets : nat;
  closed : list Z;
  handed : list Z;
  (** ghost: [start] was called, the delays since the last restart, and
      whether an error ended the attempts *)
  started : bool;
  delays : list Z;
  gave_up : bool;
}.

Definition Connector_ctor : Connector := mkConnector false kDisconnected None kInitRetryDelayMs [] 0 0 [] [] false [] false.
Definition Connector_dtor (c : Connector) : res unit := assert_ (match channel_ c with None => true | Some _ => false end).

Definition set_connect c b := mkConnector b (state_ c) (channel_ c) (retryDelayMs_ c) (functors c) (timers c) (sockets c) (closed c) (handed c) (started c) (delays c) (gave_up c).
Definition setState c st := mkConnector (connect_ c) st (channel_ c) (retryDelayMs_ c) (functors c) (timers c) (sockets c) (closed c) (handed c) (started c) (delays c) (gave_up c).
Definition set_channel c ch := mkConnector (connect_ c) (state_ c) ch (retryDelayMs_ c) (functors c) (timers c) (sockets c) (closed c) (handed c) (started c) (delays c) (gave_up c).
Definition set_delay c d ds := mkConnector (connect_ c) (state_ c) (channel_ c) d (functors c) (timers c) (sockets c) (closed c) (handed c) (started c) ds (gave_up c).
Definition set_functors c f := mkConnector (connect_ c) (state_ c) (channel_ c) (retryDelayMs_ c) f (timers c) (sockets c) (closed c) (handed c) (started c) (delays c) (gave_up c).
Definition set_timers c n := mkConnector (connect_ c) (state_ c) (channel_ c) (retryDelayMs_ c) (functors c) n (sockets c) (closed c) (handed c) (started c) (delays c) (gave_up c).
Definition set_sockets c n cl ha := mkConnector (connect_ c) (state_ c) (channel_ c) (retryDelayMs_ c) (functors c) (timers c) n cl ha (started c) (delays c) (gave_up c).
Definition set_ghost c st g := mkConnector (connect_ c) (state_ c) (channel_ c) (retryDelayMs_ c) (functors c) (timers c) (sockets c) (closed c) (handed c) st (delays c) g.

Definition close c (sockfd : Z) := set_sockets c (sockets c) (closed c ++ [sockfd]) (handed c).
Definition newConnectionCallback_ c (sockfd : Z) := set_sockets c (sockets c) (closed c) (handed c ++ [sockfd]).
Definition queueInLoop c f := set_functors c (functors c ++ [f]).

(** The poller accepts every update. *)
Definition updateChannel (ch : Channel) : res Channel := Ok ch.
Definition removeChannel (ch : Channel) : res Channel := Ok ch.

Definition resetChannel (c : Connector) : res Connector :=
  match channel_ c with
  | None => Ok c
  | Some ch => Channel_dtor ch (addedToLoop_ ch);; Ok (set_channel c None)
  end.

Definition removeAndResetChannel (c : Connector) : res (Connector * Z) :=
  match channel_ c with
  | None => Fail FBounds
  | Some ch =>
      ch ← disableAll updateChannel ch;
      ch ← remove removeChannel ch;
      Ok (queueInLoop (set_channel c (Some ch)) FResetChannel, fd_ ch)
  end.

Definition retry (c : Connector) (sockfd : Z) : Connector :=
  let c := setState (close c sockfd) kDisconnected in
  if connect_ c then
    set_delay (set_timers c (S (timers c))) (Z.min (retryDelayMs_ c * 2) kMaxRetryDelayMs) (delays c ++ [retryDelayMs_ c])
  else c.

Definition connecting (c : Connector) (sockfd : Z) : res Connector :=
  let c := setState c kConnecting in
  assert_ (match channel_ c with None => true | Some _ => false end);;
  ch ← enableWriting updateChannel (Channel_ctor sockfd);
  Ok (set_channel c (Some ch)).

(** [errno] values of [connect(2)] *)
Definition EPERM : Z := 1.
Definition EINTR : Z := 4.
Definition EBADF : Z := 9.
Definition EAGAIN : Z := 11.
Definition EACCES : Z := 13.
Definition EFAULT : Z := 14.
Definition ENOTSOCK : Z := 88.
Definition EAFNOSUPPORT : Z := 97.
Definition EADDRINUSE : Z := 98.
Definition EADDRNOTAVAIL : Z := 99.
Definition ENETUNREACH : Z := 101.
Definition EISCONN : Z := 106.
Definition ECONNREFUSED : Z := 111.
Definition EALREADY : Z := 114.
Definition EINPROGRESS : Z := 115.
Definition one_of (e : Z) (l : list Z) : bool := existsb (Z.eqb e) l.

(** [connect()]; [savedErrno] is the outcome of [sockets::connect]. *)
Definition connect (c : Connector) (savedErrno : Z) : res Connector :=
  let sockfd := Z.of_nat (sockets c) in
  let c := set_sockets c (S (sockets c)) (closed c) (handed c) in
  if one_of savedErrno [0; EINPROGRESS; EINTR; EISCONN] then connecting c sockfd
  else if one_of savedErrno [EAGAIN; EADDRINUSE; EADDRNOTAVAIL; ECONNREFUSED; ENETUNREACH] then Ok (retry c sockfd)
  else if one_of savedErrno [EACCES; EPERM; EAFNOSUPPORT; EALREADY; EBADF; EFAULT; ENOTSOCK] then
    Ok (set_ghost (close c sockfd) (started c) true)
  else Ok (set_ghost (close c sockfd) (started c) true).

Definition startInLoop (c : Connector) (errno : Z) : res Connector :=
  assert_ (bool_decide (state_ c = kDisconnected));;
  if connect_ c then connect c errno else Ok c.

Definition start (c : Connector) (inLoop : bool) (errno : Z) : res Connector :=
  let c := set_ghost (set_connect c true) true (gave_up c) in
  if inLoop then startInLoop c errno else Ok (queueInLoop c FStartInLoop).

Definition stop (c : Connector) : Connector := queueInLoop (set_connect c false) FStopInLoop.

Definition stopInLoop (c : Connector) : res Connector :=
  if bool_decide (state_ c = kConnecting) then
    let c := setState c kDisconnected in
    '(c, sockfd) ← removeAndResetChannel c;
    Ok (retry c sockfd)
  else Ok c.

Definition restart (c : Connector) (errno : Z) : res Connector :=
  let c := setState c kDisconnected in
  let c := set_delay c kInitRetryDelayMs [] in
  let c := set_connect c true in
  startInLoop (set_ghost c (started c) false) errno.

(** [err] is [SO_ERROR], [self] whether the socket is connected to itself. *)
Definition handleWrite (err : Z) (self : bool) (c : Connector) : res Connector :=
  if bool_decide (state_ c = kConnecting) then
    '(c, sockfd) ← removeAndResetChannel c;
    if negb (err =? 0) then Ok (retry c sockfd)
    else if (self : bool) then Ok (retry c sockfd)
    else
      let c := setState c kConnected in
      if connect_ c then Ok (newConnectionCallback_ c sockfd) else Ok (close c sockfd)
  else assert_ (bool_decide (state_ c = kDisconnected));; Ok c.

Definition handleError (c : Connector) : res Connector :=
  if bool_decide (state_ c = kConnecting) then
    '(c, sockfd) ← removeAndResetChannel c;
    Ok (retry c sockfd)
  else Ok c.

(** ** Steps *)
Definition getc (c : Connector) : Channel := default (Channel_ctor 0) (channel_ c).
Definition setc (c : Connector) (ch : Channel) : Connector := set_channel c (Some ch).

Inductive clabel :=
  | LStart (inLoop : bool) (errno : Z)
  | LStop
  | LRestart (errno : Z)
  | LFunctor (errno : Z)
  | LTimer (errno : Z)
  | LEvent (revents err : Z) (self : bool).

(** [None] when the environment cannot make the step. *)
Definition cexec (c : Connector) (l : clabel) : option (res Connector) :=
  match l with
  | LStart inLoop errno => Some (start c inLoop errno)
  | LStop => Some (Ok (stop c))
  | LRestart errno => Some (restart c errno)
  | LFunctor errno =>
      match functors c with
      | [] => None
      | f :: k =>
          let c := set_functors c k in
          Some (match f with
                | FStartInLoop => startInLoop c errno
                | FStopInLoop => stopInLoop c
                | FResetChannel => resetChannel c
                end)
      end
  | LTimer errno =>
      match timers c with
      | O => None
      | S n => Some (startInLoop (set_timers c n) errno)
      end
  | LEvent revents err self =>
      match channel_ c with
      | Some ch =>
          if isWriting ch then
            Some (handleEvent getc setc None (Some (handleWrite err self)) None (Some handleError) true
                    (setc c (set_revents ch revents)))
          else None
      | None => None
      end
  end.

(** How [TcpClient] uses a connector: one [start]; [restart] after the
    connection it was given is gone. A retry, at least 500 ms away, comes after
    the functors of the iteration that asked for it. *)
Definition permitted (c : Connector) (l : clabel) : bool :=
  match l with
  | LStart _ _ => negb (started c)
  | LRestart _ => bool_decide (state_ c = kConnected) && negb (bool_decide (FResetChannel ∈ functors c))
  | LTimer _ => negb (bool_decide (FResetChannel ∈ functors c))
  | _ => true
  end.

Fixpoint cruns (c : Connector) (ls : list clabel) : option (res Connector) :=
  match ls with
  | [] => Some (Ok c)
  | l :: ls =>
      if permitted c l then
        match cexec c l with
        | Some (Ok c) => cruns c ls
        | r => r
        end
      else None
  end.

(** Steps without the discipline. *)
Fixpoint cfree (c : Connector) (ls : list clabel) : option (res Connector) :=
  match ls with
  | [] => Some (Ok c)
  | l :: ls => match cexec c l with Some (Ok c) => cfree c ls | r => r end
  end.

(** ** Invariant *)
Definition count (f : cfunctor) (l : list cfunctor) : nat := length (filter (fun g => g = f) l).
Arguments count : simpl never.
Lemma count_app f l k : count f (l ++ k) = (count f l + count f k)%nat.
Proof. unfold count. by rewrite filter_app, length_app. Qed.
Lemma count_cons f g l : count f (g :: l) = ((if decide (g = f) then 1 else 0) + count f l)%nat.
Proof. unfold count. rewrite filter_cons. by case_decide. Qed.
Lemma count_nil f : count f [] = 0%nat.
Proof. done. Qed.
Lemma count_elem f l : f ∈ l <-> count f l <> 0%nat.
Proof.
  unfold count. split.
  - intros H E. apply length_zero_iff_nil in E. assert (Hf : f ∈ filter (fun g => g = f) l) by (by apply list_elem_of_filter).
    rewrite E in Hf. by apply elem_of_nil in Hf.
  - intros H. destruct (filter (fun g => g = f) l) as [|g r] eqn:E; [done|].
    assert (Hg : g ∈ filter (fun g => g = f) l) by (rewrite E; by left). by apply list_elem_of_filter in Hg as [-> ?].
Qed.

(** Pending calls of [startInLoop]. *)
Definition triggers (c : Connector) : nat := (timers c + count FStartInLoop (functors c))%nat.
Definition resets (c : Connector) : nat := count FResetChannel (functors c).

(** Evaluates the number of functors of a kind. *)
Ltac counts := unfold triggers, resets in *; cbn [functors timers set_functors set_timers queueInLoop set_connect setState set_channel set_delay set_sockets set_ghost close] in *;
  rewrite ?count_app, ?count_cons, ?count_nil in *; rewrite ?decide_True, ?decide_False in * by congruence; try lia.

Definition active_channel (b : bool) (ch : Channel) : Prop :=
  events_ ch = kWriteEvent /\ addedToLoop_ ch = true /\ eventHandling_ ch = b /\ tied_ ch = false.
Definition dead_channel (b : bool) (ch : Channel) : Prop :=
  events_ ch = kNoneEvent /\ addedToLoop_ ch = false /\ eventHandling_ ch = b.
Definition open_socket (c : Connector) : list Z :=
  match state_ c, channel_ c with kConnecting, Some ch => [fd_ ch] | _, _ => [] end.
Definition backoff (k : nat) : Z := Z.min (500 * 2 ^ Z.of_nat k) kMaxRetryDelayMs.
Definition all_sockets (n : nat) : list Z := Z.of_nat <$> seq 0 n.
Definition delays_ok (c : Connector) : Prop :=
  retryDelayMs_ c = backoff (length (delays c)) /\ delays c = backoff <$> seq 0 (length (delays c)).

(** [b]: an event of the channel is being handled. *)
Record cinv (b : bool) (c : Connector) : Prop := {
  k_trig : (triggers c <= 1)%nat;
  k_idle : triggers c = 1%nat -> state_ c = kDisconnected;
  k_chan : if decide (state_ c = kConnecting) then exists ch, channel_ c = Some ch /\ active_channel b ch /\ resets c = 0%nat
    else channel_ c = None /\ resets c = 0%nat \/ exists ch, channel_ c = Some ch /\ dead_channel b ch /\ resets c = 1%nat;
  k_sock : closed c ++ handed c ++ open_socket c ≡ₚ all_sockets (sockets c);
  k_delay : delays_ok c;
  k_more : connect_ c = true -> triggers c = 1%nat \/ state_ c <> kDisconnected \/ gave_up c = true;
  k_new : started c = false -> triggers c = 0%nat /\ state_ c = kDisconnected /\ channel_ c = None /\ connect_ c = false;
  k_first : count FStartInLoop (functors c) <> 0%nat -> channel_ c = None /\ resets c = 0%nat;
}.

Lemma all_sockets_S n : all_sockets (S n) = all_sockets n ++ [Z.of_nat n].
Proof. unfold all_sockets. rewrite seq_S, fmap_app. done. Qed.

Lemma backoff_next k : Z.min (backoff k * 2) kMaxRetryDelayMs = backoff (S k).
Proof.
  unfold backoff, kMaxRetryDelayMs. replace (Z.of_nat (S k)) with (Z.of_nat k + 1) by lia.
  rewrite Z.pow_add_r by lia. lia.
Qed.

(** The channel was removed; socket [fd] is neither closed nor handed over yet. *)
Record leaving (b : bool) (fd : Z) (c : Connector) : Prop := {
  l_trig : triggers c = 0%nat;
  l_chan : exists ch, channel_ c = Some ch /\ dead_channel b ch /\ resets c = 1%nat;
  l_sock : closed c ++ handed c ++ [fd] ≡ₚ all_sockets (sockets c);
  l_delay : delays_ok c;
  l_new : started c = true;
}.

Lemma remove_leaves b c st : cinv b c -> state_ c = kConnecting ->
  exists c1 fd, removeAndResetChannel (setState c st) = Ok (c1, fd) /\ leaving b fd c1 /\
    state_ c1 = st /\ connect_ c1 = connect_ c.
Proof.
  intros [Ht Hi Hc Hs Hd Hm Hn Hf] Hst. rewrite decide_True in Hc by done. destruct Hc as (ch & Hch & (He & Ha & Hh & Hti) & Hr).
  unfold removeAndResetChannel. cbn [channel_ setState]. rewrite Hch. cbn [disableAll update updateChannel remove removeChannel mbind res_bind].
  cbn. eexists _, _. split; [reflexivity|]. split; [|done]. split.
  - destruct (decide (triggers c = 1%nat)) as [E|E]; [apply Hi in E; congruence|]. counts.
  - eexists. split; [done|]. split; [done|]. counts.
  - cbn. unfold open_socket in Hs. by rewrite Hst, Hch in Hs.
  - exact Hd.
  - cbn. destruct (started c) eqn:E; [done|]. destruct (Hn eq_refl) as (_ & ? & _). congruence.
Qed.

Lemma retry_delays c fd : delays_ok c -> delays_ok (retry c fd).
Proof.
  intros [Hd He]. unfold retry. cbn. destruct (connect_ c); [|done]. unfold delays_ok. cbn. rewrite length_app, Nat.add_1_r. split.
  - by rewrite Hd, backoff_next.
  - rewrite seq_S, fmap_app, <- He. cbn. by rewrite Hd.
Qed.

Lemma leaving_retry b fd c : leaving b fd c -> cinv b (retry c fd).
Proof.
  intros [Ht Hc Hs Hd Hn]. pose proof (retry_delays c fd Hd) as Hd'. unfold retry in *. cbn in *.
  assert (Hp : (closed c ++ [fd]) ++ handed c ++ [] ≡ₚ all_sockets (sockets c)) by (rewrite app_nil_r, <- app_assoc, (Permutation_app_comm [fd]); done).
  destruct (connect_ c) eqn:E; split; cbn; try done; unfold triggers in *; cbn in *; try lia; try congruence; try (rewrite E; naive_solver).
  all: rewrite decide_False by done; by right.
Qed.

Lemma leaving_connected b fd c : leaving b fd c ->
  cinv b (let c := setState c kConnected in if connect_ c then newConnectionCallback_ c fd else close c fd).
Proof.
  intros [Ht Hc Hs Hd Hn]. cbn. 
  assert (Hp : (closed c ++ [fd]) ++ handed c ++ [] ≡ₚ all_sockets (sockets c)) by (rewrite app_nil_r, <- app_assoc, (Permutation_app_comm [fd]); done).
  destruct (connect_ c) eqn:E; split; cbn; try done; unfold triggers in *; cbn in *; try lia; try congruence.
  all: try (rewrite decide_False by done; by right).
  all: try (intros _; by right; left).
  unfold open_socket. cbn. by rewrite app_nil_r.
Qed.

(** About to run [startInLoop]. *)
Record ready (c : Connector) : Prop := {
  y_trig : triggers c = 0%nat;
  y_state : state_ c = kDisconnected;
  y_chan : channel_ c = None /\ resets c = 0%nat;
  y_sock : closed c ++ handed c ≡ₚ all_sockets (sockets c);
  y_delay : delays_ok c;
  y_new : started c = true;
}.

Lemma ready_sock c sock : closed c ++ handed c ≡ₚ all_sockets sock ->
  (closed c ++ [Z.of_nat sock]) ++ handed c ≡ₚ all_sockets (S sock) /\ closed c ++ handed c ++ [Z.of_nat sock] ≡ₚ all_sockets (S sock).
Proof.
  intros H. rewrite all_sockets_S, <- H. split; [|by rewrite app_assoc].
  rewrite <- !app_assoc. by rewrite (Permutation_app_comm [_]).
Qed.

Lemma connect_spec c errno : ready c -> connect_ c = true -> exists c', connect c errno = Ok c' /\ cinv false c'.
Proof.
  intros [Ht Hst [Hch Hr] Hs Hd Hn] Hco. destruct (ready_sock c _ Hs) as [Hs1 Hs2]. unfold connect.
  assert (Hgive : forall c', c' = set_ghost (close (set_sockets c (S (sockets c)) (closed c) (handed c)) (Z.of_nat (sockets c))) (started c) true -> cinv false c').
  { intros c' ->. split; cbn; try done; try congruence; unfold triggers, open_socket in *; cbn in *; try lia.
    all: first [by rewrite decide_False by (by rewrite Hst); left | by rewrite Hst, app_nil_r | by intros _; right; right]. }
  destruct (one_of errno [0; _; _; _]).
  { unfold connecting. cbn. rewrite Hch. cbn. eexists; split; [reflexivity|].
    split; cbn; try done; try congruence; unfold triggers, open_socket in *; cbn in *; try lia.
    all: first [by eexists | by intros _; right; left]. }
  destruct (one_of errno [EAGAIN; _; _; _; _]); [|destruct (one_of _ _); by eauto].
  eexists; split; [reflexivity|]. pose proof (retry_delays (set_sockets c (S (sockets c)) (closed c) (handed c)) (Z.of_nat (sockets c)) Hd) as Hd'.
  unfold retry in *. cbn in *. rewrite Hco in *. split; cbn; try done; try congruence; unfold triggers, open_socket in *; cbn in *; try lia.
  all: first [by rewrite decide_False by done; left | by rewrite app_nil_r].
Qed.

Lemma startInLoop_spec c errno : ready c -> exists c', startInLoop c errno = Ok c' /\ cinv false c'.
Proof.
  intros Hy. unfold startInLoop. rewrite (bool_decide_eq_true_2 _ (y_state _ Hy)). cbn [assert_ check mbind res_bind].
  destruct (connect_ c) eqn:E; [by apply connect_spec|]. exists c. split; [done|]. destruct Hy as [Ht Hst [Hch Hr] Hs Hd Hn].
  split; try done; try congruence; try lia.
  all: first [by rewrite decide_False by (by rewrite Hst); left | unfold open_socket; by rewrite Hst, app_nil_r].
Qed.

Lemma stopInLoop_spec c : cinv false c -> exists c', stopInLoop c = Ok c' /\ cinv false c'.
Proof.
  intros Hv. unfold stopInLoop. case_bool_decide as E; [|by exists c].
  destruct (remove_leaves false c kDisconnected Hv E) as (c1 & fd & -> & Hl & _). cbn. eexists; split; [reflexivity|]. by apply leaving_retry.
Qed.

Lemma setState_id c st : state_ c = st -> setState c st = c.
Proof. intros <-. by destruct c. Qed.

(** While an event is handled, the channel object stays. *)
Definition handling (c : Connector) : Prop := cinv true c /\ is_Some (channel_ c).

Lemma leaving_handling fd c : leaving true fd c -> handling (retry c fd) /\
  handling (let c := setState c kConnected in if connect_ c then newConnectionCallback_ c fd else close c fd).
Proof.
  intros Hl. destruct (l_chan _ _ _ Hl) as (ch & Hch & _). split; (split; [first [by apply leaving_retry | by apply leaving_connected]|]).
  - unfold retry. cbn. destruct (connect_ c); cbn; by rewrite Hch.
  - cbn. destruct (connect_ c); cbn; by rewrite Hch.
Qed.

Lemma handleWrite_spec c err self : handling c -> state_ c <> kConnected -> exists c', handleWrite err self c = Ok c' /\ handling c'.
Proof.
  intros Hv Hst. unfold handleWrite. case_bool_decide as E; cycle 1.
  { rewrite bool_decide_eq_true_2 by (destruct (state_ c); congruence). by exists c. }
  destruct (remove_leaves true c kConnecting (proj1 Hv) E) as (c1 & fd & Hrm & Hl & _). rewrite setState_id in Hrm by done. rewrite Hrm. cbn [mbind res_bind].
  destruct (leaving_handling fd c1 Hl) as [Hre Hco]. destruct (negb _); [|destruct self]; [by eauto..|].
  cbn in *. destruct (connect_ c1); eauto.
Qed.

Lemma handleError_spec c : handling c -> state_ c <> kConnected -> exists c', handleError c = Ok c' /\ handling c' /\ state_ c' <> kConnected.
Proof.
  intros Hv Hst. unfold handleError. case_bool_decide as E; [|by exists c].
  destruct (remove_leaves true c kConnecting (proj1 Hv) E) as (c1 & fd & Hrm & Hl & _). rewrite setState_id in Hrm by done. rewrite Hrm. cbn [mbind res_bind].
  eexists; split; [reflexivity|]. split; [by apply leaving_handling|]. unfold retry. cbn. by destruct (connect_ c1).
Qed.

(** Entering and leaving the event handler. *)
Lemma cinv_channel b b' c ch : cinv b c -> channel_ c = Some ch -> forall ch', events_ ch' = events_ ch -> addedToLoop_ ch' = addedToLoop_ ch ->
  tied_ ch' = tied_ ch -> fd_ ch' = fd_ ch -> eventHandling_ ch' = b' -> cinv b' (setc c ch').
Proof.
  intros [Ht Hi Hc Hs Hd Hm Hn Hf] Hch ch' H1 H2 H3 H4 H5. split; cbn; try done.
  - change (resets (setc c ch')) with (resets c). destruct (decide (state_ c = kConnecting)).
    + destruct Hc as (x & Hx & (? & ? & ? & ?) & Hr). rewrite Hch in Hx. injection Hx as <-. eexists; split; [done|]. split; [|done]. unfold active_channel. by rewrite H1, H2, H3.
    + right. destruct Hc as [[? _]|(x & Hx & (? & ? & ?) & Hr)]; [congruence|]. rewrite Hch in Hx. injection Hx as <-. eexists; split; [done|].
      split; [|done]. unfold dead_channel. by rewrite H1, H2.
  - unfold open_socket in *. cbn. rewrite Hch in Hs. rewrite H4. done.
  - intros E. destruct (Hn E) as (_ & _ & ? & _). congruence.
  - intros E. destruct (Hf E). congruence.
Qed.

Lemma event_spec c ch revents err self : cinv false c -> channel_ c = Some ch -> state_ c = kConnecting ->
  exists c', handleEvent getc setc None (Some (handleWrite err self)) None (Some handleError) true (setc c (set_revents ch revents)) = Ok c' /\ cinv false c'.
Proof.
  intros Hv Hch Hst. pose proof (k_chan _ _ Hv) as Hc. rewrite decide_True in Hc by done. destruct Hc as (x & Hx & (He & Ha & Hh & Hti) & Hr).
  rewrite Hch in Hx. injection Hx as <-. unfold handleEvent. change (tied_ (getc (setc c (set_revents ch revents)))) with (tied_ ch). rewrite Hti.
  unfold handleEventWithGuard, when, invoke. set (c0 := setc (setc c _) _). assert (Hv0 : handling c0).
  { split; [|by eexists]. unfold c0. match goal with |- cinv _ (setc (setc _ ?x) ?y) => change (setc (setc c x) y) with (setc c y) end.
    by eapply cinv_channel; [exact Hv | exact Hch|..]. }
  assert (Hs0 : state_ c0 = kConnecting) by done. clearbody c0. clear Hv Hch Hst He Ha Hh Hti Hr c ch.
  assert (Hskip : forall (b : bool) (c : Connector), (if b then Ok c else Ok c) = Ok c) by (by intros []). rewrite Hskip. cbn [mbind res_bind].
  assert (exists c1, (if has (revents_ (getc c0)) (Z.lor POLLERR POLLNVAL) then handleError c0 else Ok c0) = Ok c1 /\ handling c1 /\ state_ c1 <> kConnected) as (c1 & -> & Hv1 & Hs1).
  { destruct (has _ _); [apply handleError_spec; [done | congruence] | exists c0; split_and!; [done | done | congruence]]. }
  cbn [mbind res_bind]. rewrite Hskip. cbn [mbind res_bind].
  assert (exists c2, (if has (revents_ (getc c1)) POLLOUT then handleWrite err self c1 else Ok c1) = Ok c2 /\ handling c2) as (c2 & -> & Hv2 & ch & Hch).
  { destruct (has _ _); [by apply handleWrite_spec | by exists c1]. }
  cbn [mbind res_bind]. eexists; split; [reflexivity|]. unfold getc. rewrite Hch. by eapply cinv_channel; [exact Hv2 | exact Hch|..].
Qed.

(** ** Steps *)
Lemma cinv_queue c f : f <> FResetChannel -> f <> FStartInLoop -> cinv false c -> cinv false (queueInLoop c f).
Proof.
  intros H1 H2 [Ht Hi Hc Hs Hd Hm Hn Hf].
  assert (triggers (queueInLoop c f) = triggers c /\ resets (queueInLoop c f) = resets c /\
    count FStartInLoop (functors (queueInLoop c f)) = count FStartInLoop (functors c)) as (E1 & E2 & E3) by (destruct f; try done; counts).
  split; rewrite ?E1, ?E2, ?E3; done.
Qed.

Lemma cinv_pop c f k : functors c = f :: k -> f <> FResetChannel -> f <> FStartInLoop -> cinv false c -> cinv false (set_functors c k).
Proof.
  intros E H1 H2 [Ht Hi Hc Hs Hd Hm Hn Hf].
  assert (triggers (set_functors c k) = triggers c /\ resets (set_functors c k) = resets c /\
    count FStartInLoop (functors (set_functors c k)) = count FStartInLoop (functors c)) as (E1 & E2 & E3) by (unfold triggers, resets; cbn; rewrite E; destruct f; try done; counts).
  split; rewrite ?E1, ?E2, ?E3; done.
Qed.

Lemma not_started_chan c : cinv false c -> started c = false -> resets c = 0%nat.
Proof.
  intros Hv E. destruct (k_new _ _ Hv E) as (_ & Hst & Hch & _). pose proof (k_chan _ _ Hv) as Hc. rewrite decide_False in Hc by congruence.
  destruct Hc as [[_ ?]|(ch & ? & _)]; [done | congruence].
Qed.

Lemma idle_ready c c' : cinv false c -> resets c = 0%nat -> triggers c' = 0%nat -> state_ c <> kConnecting -> state_ c' = kDisconnected ->
  channel_ c' = channel_ c -> resets c' = 0%nat -> closed c' = closed c -> handed c' = handed c -> sockets c' = sockets c ->
  delays_ok c' -> started c' = true -> ready c'.
Proof.
  intros [Ht Hi Hc Hs Hd Hm Hn Hf] Hr Ht' Hst Hst' Hch Hr' Ecl Eha Eso Hd' Hn'. rewrite decide_False in Hc by done.
  split; try done.
  - split; [|done]. rewrite Hch. destruct Hc as [[? _]|(ch & _ & _ & ?)]; [done | congruence].
  - rewrite Ecl, Eha, Eso. unfold open_socket in Hs. destruct (state_ c); try done; by rewrite app_nil_r in Hs.
Qed.

Lemma cexec_functor c f k errno : cinv false c -> functors c = f :: k ->
  exists c', match f with
             | FStartInLoop => startInLoop (set_functors c k) errno
             | FStopInLoop => stopInLoop (set_functors c k)
             | FResetChannel => resetChannel (set_functors c k)
             end = Ok c' /\ cinv false c'.
Proof.
  intros Hv E. pose proof Hv as [Ht Hi Hc Hs Hd Hm Hn Hf]. destruct f.
  - assert (Ht1 : triggers c = 1%nat) by (unfold triggers in *; rewrite E in *; counts). pose proof (Hi Ht1) as Hst.
    assert (Ht0 : triggers (set_functors c k) = 0%nat) by (unfold triggers in *; rewrite E in *; counts).
    assert (Hr : resets c = resets (set_functors c k)) by (unfold resets; cbn; rewrite E; counts).
    rewrite decide_False in Hc by congruence. destruct Hc as [[Hch Hr0]|(ch & Hch & Hdead & Hr1)].
    + apply startInLoop_spec. eapply (idle_ready c); try done; [congruence | congruence|].
      cbn. destruct (started c) eqn:Es; [done|]. destruct (Hn eq_refl) as (? & _). congruence.
    + destruct Hf as [? _]; [rewrite E; counts | congruence].
  - apply stopInLoop_spec. by eapply cinv_pop.
  - assert (Hr : resets c = S (resets (set_functors c k))) by (unfold resets; cbn; rewrite E; counts).
    destruct (decide (state_ c = kConnecting)) as [Hst|Hst]; [destruct Hc as (ch & _ & _ & ?); congruence|].
    destruct Hc as [[_ ?]|(ch & Hch & (He & Ha & Hh) & Hr1)]; [congruence|].
    unfold resetChannel. cbn [channel_ set_functors]. rewrite Hch. unfold Channel_dtor. rewrite Hh, Ha. cbn. eexists; split; [reflexivity|].
    assert (Ht' : triggers (set_channel (set_functors c k) None) = triggers c) by (unfold triggers; cbn; rewrite E; counts).
    split; rewrite ?Ht'; try done.
    + cbn. rewrite decide_False by done. left. split; [done|]. change (resets (set_functors c k) = 0%nat). lia.
    + cbn. unfold open_socket in *. cbn. by destruct (state_ c).
    + intros Es. destruct (Hn Es) as (_ & _ & ? & _). congruence.
    + cbn. intros Es. destruct Hf as [? _]; [rewrite E; counts | congruence].
Qed.

Lemma cexec_spec c l r : cinv false c -> permitted c l = true -> cexec c l = Some r -> exists c', r = Ok c' /\ cinv false c'.
Proof.
  intros Hv Hp He. pose proof Hv as [Ht Hi Hc Hs Hd Hm Hn Hf]. destruct l as [inLoop errno| |errno|errno|errno|revents err self]; cbn in Hp, He.
  - apply negb_true_iff in Hp. destruct (Hn Hp) as (Ht0 & Hst & Hch & Hco). pose proof (not_started_chan c Hv Hp) as Hr0. injection He as <-. unfold start.
    assert (Hy : ready (set_ghost (set_connect c true) true (gave_up c))) by (eapply (idle_ready c); try done; congruence).
    destruct inLoop; [by apply startInLoop_spec|]. eexists; split; [reflexivity|]. destruct Hy as [_ _ _ Hs' Hd' _]. split; cbn; try done; try congruence.
    + counts.
    + rewrite decide_False by congruence. left. split; [done|]. counts.
    + intros _. left. counts.
    + intros _. split; [done|]. counts.
  - injection He as <-. eexists; split; [reflexivity|]. apply cinv_queue; [done | done|]. split; try done. intros E. destruct (Hn E) as (? & ? & ? & _). done.
  - apply andb_true_iff in Hp as [Hst Hr]. apply bool_decide_eq_true in Hst. apply negb_true_iff, bool_decide_eq_false in Hr. rewrite count_elem in Hr.
    injection He as <-. unfold restart. apply startInLoop_spec. assert (resets c = 0%nat) by (unfold resets; destruct (count FResetChannel (functors c)); [done | by destruct Hr]).
    eapply (idle_ready c); try done; [|congruence|].
    + destruct (decide (triggers c = 1%nat)) as [E|E]; [apply Hi in E; congruence|]. change (triggers c = 0%nat). lia.
    + cbn. destruct (started c) eqn:Es; [done|]. destruct (Hn eq_refl) as (_ & ? & _). congruence.
  - destruct (functors c) as [|f k] eqn:E; [done|]. injection He as <-. by apply cexec_functor.
  - destruct (timers c) as [|n] eqn:E; [done|]. injection He as <-. apply negb_true_iff, bool_decide_eq_false in Hp. rewrite count_elem in Hp.
    assert (Hr : resets c = 0%nat) by (unfold resets; destruct (count FResetChannel (functors c)); [done | by destruct Hp]).
    assert (Ht1 : triggers c = 1%nat) by (unfold triggers in *; lia). pose proof (Hi Ht1) as Hst.
    apply startInLoop_spec. eapply (idle_ready c); try done; [unfold triggers in *; cbn in *; lia | congruence|].
    cbn. destruct (started c) eqn:Es; [done|]. destruct (Hn eq_refl) as (? & _). congruence.
  - destruct (channel_ c) as [ch|] eqn:Hch; [|done]. destruct (isWriting ch) eqn:Ew; [|done]. injection He as <-. apply event_spec; [done | done|].
    destruct (decide (state_ c = kConnecting)); [done|]. destruct Hc as [[? _]|(x & Hx & (He & _) & _)]; [congruence|]. injection Hx as <-.
    unfold isWriting in Ew. by rewrite He in Ew.
Qed.

Lemma cinv_ctor : cinv false Connector_ctor.
Proof. split; cbn; try done; [counts | by left]. Qed.

Lemma cruns_spec c ls r : cinv false c -> cruns c ls = Some r -> exists c', r = Ok c' /\ cinv false c'.
Proof.
  revert c. induction ls as [|l ls IH]; intros c Hv H; cbn in H; [injection H as <-; by exists c|].
  destruct (permitted c l) eqn:Ep; [|done]. destruct (cexec c l) as [r'|] eqn:E; [|done].
  destruct (cexec_spec c l r' Hv Ep E) as (c' & -> & Hv'). by apply (IH c').
Qed.

(** ** Properties *)
(** C33: used the way [TcpClient] uses it, a connector never fails an assertion
    and never leaks or closes twice a socket: each one it created is closed,
    handed to the client, or the one being connected, exactly once. The delays
    of consecutive retries double from 500 ms up to 30 s; and while connecting
    is wanted, an attempt is under way or scheduled, the connection is up, or an
    error that is not worth retrying occurred. *)
Theorem Connector_safe (ls : list clabel) (r : res Connector) : cruns Connector_ctor ls = Some r ->
  exists c, r = Ok c /\ closed c ++ handed c ++ open_socket c ≡ₚ all_sockets (sockets c) /\
    delays c = backoff <$> seq 0 (length (delays c)) /\
    (connect_ c = true -> triggers c = 1%nat \/ state_ c <> kDisconnected \/ gave_up c = true).
Proof.
  intros H. destruct (cruns_spec _ ls r cinv_ctor H) as (c & -> & Hv). exists c.
  split_and!; [done | apply (k_sock _ _ Hv) | apply (k_delay _ _ Hv) | apply (k_more _ _ Hv)].
Qed.

(** Refused twice, then connected; the connection ends and is made again. *)
Definition cdemo : list clabel :=
  [LStart false 0; LFunctor ECONNREFUSED; LTimer EINPROGRESS; LEvent (Z.lor POLLERR POLLOUT) 111 false; LFunctor 0;
   LTimer EINPROGRESS; LEvent POLLOUT 0 false; LFunctor 0; LRestart EINPROGRESS; LStop; LFunctor 0; LFunctor 0].
Definition cforce (r : option (res Connector)) : Connector := match r with Some (Ok c) => c | _ => Connector_ctor end.
Definition cdemo_end : Connector := Eval vm_compute in cforce (cruns Connector_ctor cdemo).

Lemma Connector_safe_witness : exists c, cruns Connector_ctor cdemo = Some (Ok c) /\
  closed c ++ handed c ++ open_socket c ≡ₚ all_sockets (sockets c) /\ closed c = [0; 1; 3] /\ handed c = [2].
Proof.
  destruct (Connector_safe cdemo (Ok cdemo_end)) as (c & E & Hs & _); [vm_compute; reflexivity|]. injection E as <-.
  exists cdemo_end. split_and!; [vm_compute; reflexivity | exact Hs | reflexivity | reflexivity].
Defined.

(** [stop] followed by [start] while a connection attempt is under way
    fails the assertion of [startInLoop]: [stop] only queues its work, so the
    state is still [kConnecting]. *)
Theorem Connector_stop_start_asserts :
  cfree Connector_ctor [LStart true EINPROGRESS; LStop; LStart true EINPROGRESS] = Some (Fail FAssert).
Proof. vm_compute. reflexivity. Qed.

(** [stop] does not cancel the retry timer: after [stop] and [start], the
    old timer runs [startInLoop] while the new attempt is under way, and its
    assertion fails. *)
Theorem Connector_stale_retry_asserts :
  cfree Connector_ctor [LStart true ECONNREFUSED; LStop; LFunctor 0; LStart true EINPROGRESS; LTimer EINPROGRESS] = Some (Fail FAssert).
Proof. vm_compute. reflexivity. Qed.
