(* ===== verification/LogStream.v ===== *)
(** * [muduo::LogStream] ([3rd_party/muduo/muduo/base/LogStream.{h,cc}])

    The stream behind every log line of airnet: a fixed array of 4000 bytes
    with a write pointer, and one insertion operator per type. Integers are
    converted in place by writing their digits backwards and reversing them.
    The array is a byte object, so each write of the digit loops is checked
    against its end; the text of a [double] and of a [Fmt] comes from
    [snprintf], whose formatting is a parameter. *)
From S2P Require Import Prelude StringPiece.

(** ** Data *)
Inductive cookie := cookieStart | cookieEnd.

Record FixedBuffer := mkFixedBuffer {
  cookie_ : cookie;
  data_ : bytes;
  cur_ : Z;
}.

Definition kSmallBuffer : Z := 4000.
Definition kMaxNumericSize : Z := 32.

(** [digits], with [zero] pointing at its ninth element, and [digitsHex]. *)
Definition digits : bytes :=
  [Byte.x39; Byte.x38; Byte.x37; Byte.x36; Byte.x35; Byte.x34; Byte.x33; Byte.x32; Byte.x31;
   Byte.x30; Byte.x31; Byte.x32; Byte.x33; Byte.x34; Byte.x35; Byte.x36; Byte.x37; Byte.x38;
   Byte.x39; Byte.x00].
Definition zero : ptr := Ptr digits 9.
Definition digitsHex : bytes :=
  [Byte.x30; Byte.x31; Byte.x32; Byte.x33; Byte.x34; Byte.x35; Byte.x36; Byte.x37;
   Byte.x38; Byte.x39; Byte.x41; Byte.x42; Byte.x43; Byte.x44; Byte.x45; Byte.x46; Byte.x00].

(** ** Integer conversion

    The [do]-[while] loop of [convert] and [convertHex]: [table] is the digit
    array it indexes. It returns the array and the write pointer. *)
Fixpoint digit_loop (base : Z) (table : ptr) (fuel : nat) (d : bytes) (p i : Z)
    : res (bytes * Z) :=
  match fuel with
  | O => Fail FFuel
  | S fuel =>
      let lsd := int32 (Z.rem i base) in
      let i := Z.quot i base in
      c ← ptr_read (ptr_add table lsd) 1;
      d ← vec_write d p c;
      if i =? 0 then Ok (d, p + 1) else digit_loop base table fuel d (p + 1) i
  end.

(** One iteration per digit; a 64-bit integer has at most 20. *)
Definition digit_fuel : nat := 20.

(** [std::reverse(buf, p)] *)
Definition reverse (d : bytes) (buf p : Z) : res bytes :=
  l ← vec_read d buf (p - buf); vec_write d buf (rev l).

Definition convert (d : bytes) (buf value : Z) : res (bytes * Z) :=
  '(d, p) ← digit_loop 10 zero digit_fuel d buf value;
  '(d, p) ← (if value <? 0 then d ← vec_write d p [Byte.x2d]; Ok (d, p + 1) else Ok (d, p));
  d ← vec_write d p [Byte.x00];
  d ← reverse d buf p;
  Ok (d, size_t (p - buf)).

Definition convertHex (d : bytes) (buf value : Z) : res (bytes * Z) :=
  '(d, p) ← digit_loop 16 (Ptr digitsHex 0) digit_fuel d buf value;
  d ← vec_write d p [Byte.x00];
  d ← reverse d buf p;
  Ok (d, size_t (p - buf)).

(** ** FixedBuffer *)

(** [FixedBuffer()]: the bytes of [data_] are not initialised, so they are an
    argument. *)
Definition FixedBuffer_ctor (garbage : bytes) : FixedBuffer :=
  mkFixedBuffer cookieStart garbage 0.
Definition FixedBuffer_dtor (b : FixedBuffer) : FixedBuffer :=
  mkFixedBuffer cookieEnd (data_ b) (cur_ b).

Definition end_ (b : FixedBuffer) : Z := zlen (data_ b).
Definition current (b : FixedBuffer) : Z := cur_ b.
Definition avail (b : FixedBuffer) : Z := int32 (end_ b - cur_ b).
Definition FixedBuffer_length (b : FixedBuffer) : Z := int32 (cur_ b).
Definition add (b : FixedBuffer) (len : Z) : FixedBuffer :=
  mkFixedBuffer (cookie_ b) (data_ b) (cur_ b + len).
Definition reset (b : FixedBuffer) : FixedBuffer := mkFixedBuffer (cookie_ b) (data_ b) 0.
Definition bzero (b : FixedBuffer) : FixedBuffer :=
  mkFixedBuffer (cookie_ b) (repeat Byte.x00 (length (data_ b))) (cur_ b).

Definition FixedBuffer_append (b : FixedBuffer) (buf : ptr) (len : Z) : res FixedBuffer :=
  if len <? size_t (avail b) then
    s ← ptr_read buf len;
    d ← vec_write (data_ b) (cur_ b) s;
    Ok (mkFixedBuffer (cookie_ b) d (cur_ b + len))
  else Ok b.

Definition debugString (b : FixedBuffer) : res (ptr * FixedBuffer) :=
  d ← vec_write (data_ b) (cur_ b) [Byte.x00];
  Ok (Ptr d 0, mkFixedBuffer (cookie_ b) d (cur_ b)).

Definition toString (b : FixedBuffer) : res bytes :=
  ptr_read (Ptr (data_ b) 0) (size_t (FixedBuffer_length b)).
Definition toStringPiece (b : FixedBuffer) : StringPiece :=
  StringPiece_range (Ptr (data_ b) 0) (FixedBuffer_length b).

(** ** LogStream: its state is its [buffer_] *)
Definition LogStream : Type := FixedBuffer.

Definition formatInteger (s : LogStream) (v : Z) : res LogStream :=
  if kMaxNumericSize <=? avail s then
    '(d, len) ← convert (data_ s) (current s) v;
    Ok (add (mkFixedBuffer (cookie_ s) d (cur_ s)) len)
  else Ok s.

Definition put_bool (s : LogStream) (v : bool) : res LogStream :=
  FixedBuffer_append s (Ptr (if v then [Byte.x31; Byte.x00] else [Byte.x30; Byte.x00]) 0) 1.
Definition put_int (s : LogStream) (v : Z) : res LogStream := formatInteger s v.
Definition put_uint (s : LogStream) (v : Z) : res LogStream := formatInteger s v.
Definition put_short (s : LogStream) (v : Z) : res LogStream := put_int s (int32 v).
Definition put_ushort (s : LogStream) (v : Z) : res LogStream := put_uint s (uint32 v).
Definition put_long (s : LogStream) (v : Z) : res LogStream := formatInteger s v.
Definition put_ulong (s : LogStream) (v : Z) : res LogStream := formatInteger s v.
Definition put_longlong (s : LogStream) (v : Z) : res LogStream := formatInteger s v.
Definition put_ulonglong (s : LogStream) (v : Z) : res LogStream := formatInteger s v.

(** [operator<<(const void* p)]; [v] is the address. *)
Definition put_pointer (s : LogStream) (v : Z) : res LogStream :=
  if kMaxNumericSize <=? avail s then
    let buf := current s in
    d ← vec_write (data_ s) buf [Byte.x30];
    d ← vec_write d (buf + 1) [Byte.x78];
    '(d, len) ← convertHex d (buf + 2) v;
    Ok (add (mkFixedBuffer (cookie_ s) d (cur_ s)) (size_t (len + 2)))
  else Ok s.

Definition put_char (s : LogStream) (v : byte) : res LogStream :=
  FixedBuffer_append s (Ptr [v] 0) 1.

Definition null_text : bytes :=
  [Byte.x28; Byte.x6e; Byte.x75; Byte.x6c; Byte.x6c; Byte.x29].
Definition put_cstr (s : LogStream) (str : ptr) : res LogStream :=
  match str with
  | Ptr _ _ => n ← strlen str; FixedBuffer_append s str n
  | NullPtr => FixedBuffer_append s (Ptr (null_text ++ [Byte.x00]) 0) 6
  end.
Definition put_ucstr (s : LogStream) (str : ptr) : res LogStream := put_cstr s str.

(** [const string&]; [c_str()] points at the characters and a terminator. *)
Definition put_string (s : LogStream) (v : bytes) : res LogStream :=
  FixedBuffer_append s (Ptr (v ++ [Byte.x00]) 0) (zlen v).
Definition put_piece (s : LogStream) (v : StringPiece) : res LogStream :=
  FixedBuffer_append s (data v) (size_t (size v)).
Definition put_buffer (s : LogStream) (v : FixedBuffer) : res LogStream :=
  put_piece s (toStringPiece v).

(** [LogStream::append(data, len)] *)
Definition stream_append (s : LogStream) (p : ptr) (len : Z) : res LogStream :=
  FixedBuffer_append s p (size_t len).
Definition resetBuffer (s : LogStream) : LogStream := reset s.

(** ** snprintf

    [snprintf(buf, n, ...)] whose full output is [text]: it stores at most
    [n-1] characters and a terminator, and returns the length of [text]. *)
Definition snprintf (d : bytes) (buf n : Z) (text : bytes) : res (bytes * Z) :=
  d ← vec_write d buf (ztake (n - 1) text ++ [Byte.x00]);
  Ok (d, zlen text).

Section floating.
(** The types [float] and [double], the conversion between them, and the text
    that "%.12g" denotes for a [double]. *)
Context {float double : Type} (to_double : float -> double) (format_g12 : double -> bytes).

Definition put_double (s : LogStream) (v : double) : res LogStream :=
  if kMaxNumericSize <=? avail s then
    '(d, len) ← snprintf (data_ s) (current s) kMaxNumericSize (format_g12 v);
    Ok (add (mkFixedBuffer (cookie_ s) d (cur_ s)) (size_t len))
  else Ok s.
Definition put_float (s : LogStream) (v : float) : res LogStream := put_double s (to_double v).
End floating.

(** [Fmt(fmt, val)], where [text] is what the format denotes for the value;
    [buf_] is not initialised. *)
Record Fmt := mkFmt { buf_ : bytes; fmt_length_ : Z }.
Definition Fmt_ctor (garbage text : bytes) : res Fmt :=
  '(b, n) ← snprintf garbage 0 (zlen garbage) text;
  let n := int32 n in
  assert_ (size_t n <? zlen garbage);;
  Ok (mkFmt b n).
Definition put_fmt (s : LogStream) (f : Fmt) : res LogStream :=
  stream_append s (Ptr (buf_ f) 0) (fmt_length_ f).
