(* ===== verification/LogStreamProps.v ===== *)
(** * Correctness of [muduo::LogStream]

    The digit loops against the textbook definition of a positional numeral
    and against a reader of numerals, the room an integer needs, and the
    stream as a bounded list of characters. *)
From S2P Require Import Prelude StringPiece LogStream.

(** ** Numerals *)

(** The digits of [n] in [base], most significant first. *)
Fixpoint radix (base : Z) (chr : Z -> byte) (fuel : nat) (n : Z) : bytes :=
  match fuel with
  | O => []
  | S fuel =>
      if n <? base then [chr n]
      else radix base chr fuel (n / base) ++ [chr (n mod base)]
  end.

Definition dec_chr (d : Z) : byte := byte.of_Z (48 + d).
Definition hex_chr (d : Z) : byte := byte.of_Z (if d <? 10 then 48 + d else 55 + d).

Definition decimal (v : Z) : bytes :=
  (if v <? 0 then [Byte.x2d] else []) ++ radix 10 dec_chr digit_fuel (Z.abs v).
Definition hexadecimal (v : Z) : bytes := radix 16 hex_chr digit_fuel v.

(** Readers: the value of a digit string, and of an optional sign and digits. *)
Definition dec_digit (c : byte) : option Z :=
  let d := byte.unsigned c - 48 in
  if (0 <=? d) && (d <? 10) then Some d else None.
Definition hex_digit (c : byte) : option Z :=
  let d := byte.unsigned c - 55 in
  if (10 <=? d) && (d <? 16) then Some d else dec_digit c.

Fixpoint read_digits (base : Z) (digit : byte -> option Z) (acc : Z) (l : bytes) : option Z :=
  match l with
  | [] => Some acc
  | c :: l => d ← digit c; read_digits base digit (acc * base + d) l
  end.

Definition read_decimal (l : bytes) : option Z :=
  match l with
  | [] => None
  | Byte.x2d :: (_ :: _) as l' => Z.opp <$> read_digits 10 dec_digit 0 l'
  | Byte.x2d :: [] => None
  | _ => read_digits 10 dec_digit 0 l
  end.

(** No leading zero, except in the numeral of zero itself. *)
Definition canonical (zero : byte) (l : bytes) : Prop :=
  match l with
  | [] => False
  | [_] => True
  | c :: _ :: _ => c <> zero
  end.

Section radix.
Context (base : Z) (chr : Z -> byte) (digit : byte -> option Z).
Hypothesis base_ge : 2 <= base.
Hypothesis digit_chr : forall d, 0 <= d < base -> digit (chr d) = Some d.

Lemma radix_zlen fuel k n : 1 <= k -> 0 <= n < base ^ k ->
  zlen (radix base chr fuel n) <= k.
Proof using base_ge.
  revert k n. induction fuel as [|fuel IH]; intros k n Hk Hn; cbn [radix]; [zlen_lia|].
  case_cmp; [zlen_lia|].
  destruct (decide (k = 1)) as [->|]; [rewrite Z.pow_1_r in Hn; lia|].
  specialize (IH (k - 1) (n / base) ltac:(lia)). rewrite zlen_app, zlen_cons, zlen_nil.
  cut (zlen (radix base chr fuel (n / base)) <= k - 1); [lia|]. apply IH.
  split; [apply Z.div_pos; lia|]. apply Z.div_lt_upper_bound; [lia|].
  rewrite <- Z.pow_succ_r by lia. replace (Z.succ (k - 1)) with k by lia. lia.
Qed.

Lemma read_digits_app acc l k :
  read_digits base digit acc (l ++ k) =
  (read_digits base digit acc l ≫= fun a => read_digits base digit a k).
Proof using.
  revert acc. induction l as [|c l IH]; intros acc; [done|]. cbn.
  destruct (digit c); cbn; [apply IH | done].
Qed.

Lemma div_fuel fuel n : 0 <= n < base ^ Z.of_nat (S fuel) -> 0 <= n / base < base ^ Z.of_nat fuel.
Proof using base_ge.
  intros [? Hn]. split; [apply Z.div_pos; lia|]. apply Z.div_lt_upper_bound; [lia|].
  by rewrite <- Z.pow_succ_r, <- Nat2Z.inj_succ by lia.
Qed.

Lemma read_radix fuel n : 0 <= n < base ^ Z.of_nat fuel ->
  read_digits base digit 0 (radix base chr fuel n) = Some n.
Proof using base_ge digit_chr.
  revert n. induction fuel as [|fuel IH]; intros n Hn; [cbn in *; f_equal; lia|].
  cbn [radix]. case_cmp.
  - cbn. by rewrite digit_chr by lia.
  - rewrite read_digits_app, IH by (by apply div_fuel). cbn.
    rewrite digit_chr by (apply Z.mod_pos_bound; lia). cbn. f_equal.
    rewrite (Z.div_mod n base) at 3 by lia. lia.
Qed.

Lemma radix_head fuel n : 0 < n < base ^ Z.of_nat fuel ->
  exists d l, radix base chr fuel n = chr d :: l /\ 0 < d < base.
Proof using base_ge.
  revert n. induction fuel as [|fuel IH]; intros n Hn; [cbn in *; lia|].
  cbn [radix]. case_cmp; [by exists n, []; eauto with lia|].
  destruct (IH (n / base)) as (d & l & -> & ?).
  - pose proof (div_fuel fuel n ltac:(lia)). split; [|lia]. apply Z.div_str_pos. lia.
  - by eexists d, _.
Qed.
End radix.

Lemma chr_case {A} (f : Z -> A) (g : A -> option Z) (b : nat) d :
  forallb (fun n => match g (f (Z.of_nat n)) with Some x => x =? Z.of_nat n | None => false end)
          (seq 0 b) = true ->
  0 <= d < Z.of_nat b -> g (f d) = Some d.
Proof.
  intros H Hd. rewrite forallb_forall in H. specialize (H (Z.to_nat d)).
  rewrite Z2Nat.id in H by lia. specialize (H ltac:(apply in_seq; lia)).
  destruct (g (f d)); [|done]. apply Z.eqb_eq in H. by subst.
Qed.

Lemma dec_digit_chr d : 0 <= d < 10 -> dec_digit (dec_chr d) = Some d.
Proof. by apply (chr_case dec_chr dec_digit 10). Qed.
Lemma hex_digit_chr d : 0 <= d < 16 -> hex_digit (hex_chr d) = Some d.
Proof. by apply (chr_case hex_chr hex_digit 16). Qed.

(** ** The digit loops compute numerals *)
Section loop.
Context (base : Z) (table : ptr) (chr : Z -> byte) (neg : bool).
Hypothesis base_range : 2 <= base < 2 ^ 31.
Hypothesis table_chr : forall r, Z.abs r < base -> neg = true \/ 0 <= r ->
  ptr_read (ptr_add table r) 1 = Ok [chr (Z.abs r)].

Lemma quot_abs_div i : Z.abs (Z.quot i base) = Z.abs i / base.
Proof using base_range. rewrite <- Z.quot_abs, (Z.abs_eq base), Z.quot_div_nonneg by lia. done. Qed.

Lemma digit_step fuel d p i : neg = true \/ 0 <= i ->
  digit_loop base table (S fuel) d p i =
  (d ← vec_write d p [chr (Z.abs i mod base)];
   if Z.quot i base =? 0 then Ok (d, p + 1)
   else digit_loop base table fuel d (p + 1) (Z.quot i base)).
Proof using base_range table_chr.
  intros Hneg. cbn [digit_loop]. pose proof (Z.rem_bound_abs i base ltac:(lia)) as Hr.
  rewrite int32_id by lia.
  rewrite table_chr; [|lia | destruct Hneg; [by left|right; apply Z.rem_nonneg; lia]].
  rewrite <- Z.rem_abs, (Z.abs_eq base), Z.rem_mod_nonneg by lia. done.
Qed.

Lemma digit_loop_radix fuel d p i : 0 <= p -> neg = true \/ 0 <= i ->
  Z.abs i < base ^ Z.of_nat (S fuel) ->
  digit_loop base table (S fuel) d p i =
  (d' ← vec_write d p (rev (radix base chr (S fuel) (Z.abs i)));
   Ok (d', p + zlen (radix base chr (S fuel) (Z.abs i)))).
Proof using base_range table_chr.
  revert d p i. induction fuel as [|fuel IH]; intros d p i Hp Hneg Hi.
  - change (Z.of_nat 1) with 1 in Hi. rewrite Z.pow_1_r in Hi.
    rewrite digit_step by done. cbn [radix]. rewrite (proj2 (Z.ltb_lt _ _)) by done.
    assert (Z.quot i base = 0) as -> by (apply Z.abs_0_iff; rewrite quot_abs_div, Z.div_small; lia).
    rewrite Z.mod_small by lia. by destruct (vec_write _ _ _).
  - rewrite digit_step by done. remember (S fuel) as f eqn:Ef. cbn [radix].
    destruct (Z.ltb_spec (Z.abs i) base) as [Hs|Hs].
    + assert (Z.quot i base = 0) as -> by (apply Z.abs_0_iff; rewrite quot_abs_div, Z.div_small; lia).
      rewrite Z.mod_small by lia. by destruct (vec_write _ _ _).
    + assert (0 < Z.abs i / base) by (apply Z.div_str_pos; lia).
      destruct (Z.eqb_spec (Z.quot i base) 0) as [E|_];
        [pose proof (quot_abs_div i) as Hq; rewrite E in Hq; lia|].
      rewrite rev_app_distr. change (rev [chr (Z.abs i mod base)]) with [chr (Z.abs i mod base)].
      rewrite (vec_write_app d p [_]) by done. rewrite zlen_app, zlen_cons, zlen_nil.
      destruct (vec_write d p _) as [d1|]; [cbn [mbind res_bind]|done].
      rewrite IH; rewrite ?quot_abs_div; [ | lia | | ].
      * destruct (vec_write d1 _ _); cbn; [do 2 f_equal; lia | done].
      * destruct Hneg; [by left|right; apply Z.quot_pos; lia].
      * apply (div_fuel base (proj1 base_range)). lia.
Qed.
End loop.

Lemma zero_chr r : Z.abs r < 10 -> true = true \/ 0 <= r ->
  ptr_read (ptr_add zero r) 1 = Ok [dec_chr (Z.abs r)].
Proof.
  intros Hr _. assert (Hc : r = - Z.abs r \/ r = Z.abs r) by lia.
  revert Hc. generalize (Z.abs r) Hr (Z.abs_nonneg r). intros a Ha Ha0 Hc.
  assert (Hin : In a [0;1;2;3;4;5;6;7;8;9]) by (cbn; lia).
  by destruct Hc as [-> | ->]; repeat (destruct Hin as [<-|Hin]; [done|]).
Qed.

Lemma hexdigit_chr r : Z.abs r < 16 -> false = true \/ 0 <= r ->
  ptr_read (ptr_add (Ptr digitsHex 0) r) 1 = Ok [hex_chr (Z.abs r)].
Proof.
  intros Hr [?|H0]; [done|]. rewrite (Z.abs_eq r) in * by done.
  assert (Hin : In r [0;1;2;3;4;5;6;7;8;9;10;11;12;13;14;15]) by (cbn; lia).
  by repeat (destruct Hin as [<-|Hin]; [done|]).
Qed.

Lemma zlen_rev {A} (l : list A) : zlen (rev l) = zlen l.
Proof. unfold zlen. by rewrite length_rev. Qed.

(** [d] with [s] and a terminator stored at [off]. *)
Definition stored (d : bytes) (off : Z) (s : bytes) : bytes :=
  ztake off d ++ (s ++ [Byte.x00]) ++ zdrop (off + zlen s + 1) d.

(** The end of both conversions: the characters of [s] are there in reverse;
    the terminator is written and they are reversed. *)
Lemma terminate_reverse d buf s : 0 <= buf -> buf + zlen s + 1 <= zlen d < 2 ^ 64 ->
  exists d1, vec_write d buf (rev s) = Ok d1 /\
    (d2 ← vec_write d1 (buf + zlen s) [Byte.x00];
     d3 ← reverse d2 buf (buf + zlen s);
     Ok (d3, size_t (buf + zlen s - buf))) = Ok (stored d buf s, zlen s).
Proof.
  intros Hb Hfit. pose proof (zlen_nonneg s).
  destruct (vec_write d buf (rev s ++ [Byte.x00])) as [d2|f] eqn:W.
  2: { rewrite vec_write_ok in W; [done..|]. rewrite zlen_app, zlen_rev. zlen_side. }
  assert (HR : reverse d2 buf (buf + zlen s) = Ok (stored d buf s)).
  { unfold reverse. replace (buf + zlen s - buf) with (zlen (rev s)) by (rewrite zlen_rev; lia).
    rewrite (vec_write_read _ _ _ _ _ W). cbn [mbind res_bind]. rewrite rev_involutive.
    rewrite (vec_write_over _ _ (rev s) s _ _ (zlen_rev s) W), vec_write_ok by zlen_side.
    unfold stored. rewrite zlen_app, zlen_cons, zlen_nil. do 4 f_equal. lia. }
  rewrite vec_write_app, zlen_rev in W by done.
  destruct (vec_write d buf (rev s)) as [d1|]; [|done]. exists d1. split; [done|].
  cbn [mbind res_bind] in *. rewrite W. cbn [mbind res_bind]. rewrite HR. cbn.
  rewrite size_t_id by lia. do 2 f_equal. lia.
Qed.

(** The integers a conversion is instantiated at: all of at most 64 bits. *)
Definition machine_int (v : Z) : Prop := - 2 ^ 63 <= v < 2 ^ 64.

Lemma decimal_zlen v : machine_int v -> 1 <= zlen (decimal v) <= 20.
Proof.
  intros [Hl Hu]. unfold decimal. rewrite zlen_app. split.
  - unfold digit_fuel. cbn [radix]. zlen_pos. case_match; [|zlen_lia].
    case_match; zlen_lia.
  - destruct (Z.ltb_spec v 0).
    + pose proof (radix_zlen 10 dec_chr ltac:(lia) digit_fuel 19 (Z.abs v)). zlen_lia.
    + pose proof (radix_zlen 10 dec_chr ltac:(lia) digit_fuel 20 (Z.abs v)). zlen_lia.
Qed.

Lemma hexadecimal_zlen v : 0 <= v < 2 ^ 64 -> 1 <= zlen (hexadecimal v) <= 16.
Proof.
  intros Hv. unfold hexadecimal. split.
  - unfold digit_fuel. cbn [radix]. case_match; zlen_lia.
  - apply (radix_zlen 16 hex_chr); lia.
Qed.

Lemma convert_decimal d buf v : machine_int v -> 0 <= buf ->
  buf + zlen (decimal v) + 1 <= zlen d < 2 ^ 64 ->
  convert d buf v = Ok (stored d buf (decimal v), zlen (decimal v)).
Proof.
  intros Hv Hb Hfit. unfold convert, digit_fuel.
  rewrite (digit_loop_radix 10 zero dec_chr true)
    by (try apply zero_chr; unfold machine_int in *; auto; lia).
  fold digit_fuel. destruct (terminate_reverse _ _ _ Hb Hfit) as (d1 & W & HR).
  revert W HR. unfold decimal at 1 2 3 4. set (r := radix 10 dec_chr digit_fuel (Z.abs v)).
  destruct (v <? 0); cbn [app]; intros W HR.
  - cbn [rev] in W. rewrite vec_write_app, zlen_rev in W by done.
    destruct (vec_write d buf (rev r)) as [d0|]; [cbn [mbind res_bind] in *|done].
    rewrite W. cbn [mbind res_bind]. rewrite zlen_cons in HR.
    by replace (buf + (1 + zlen r)) with (buf + zlen r + 1) in HR by lia.
  - rewrite W. exact HR.
Qed.

Lemma convertHex_hexadecimal d buf v : 0 <= v < 2 ^ 64 -> 0 <= buf ->
  buf + zlen (hexadecimal v) + 1 <= zlen d < 2 ^ 64 ->
  convertHex d buf v = Ok (stored d buf (hexadecimal v), zlen (hexadecimal v)).
Proof.
  intros Hv Hb Hfit. unfold convertHex, digit_fuel.
  rewrite (digit_loop_radix 16 (Ptr digitsHex 0) hex_chr false)
    by (try apply hexdigit_chr; auto; lia).
  fold digit_fuel. destruct (terminate_reverse _ _ _ Hb Hfit) as (d1 & W & HR).
  rewrite (Z.abs_eq v) by lia. fold (hexadecimal v). rewrite W. exact HR.
Qed.

(** Reading back: the digits give the value, without superfluous zeros. *)
Lemma canonical_radix base chr fuel n : 2 <= base -> 0 <= n < base ^ Z.of_nat (S fuel) ->
  (forall d, 0 < d < base -> chr d <> chr 0) ->
  canonical (chr 0) (radix base chr (S fuel) n).
Proof.
  intros Hb Hn Hc. destruct (decide (n = 0)) as [->|].
  - cbn [radix]. by rewrite (proj2 (Z.ltb_lt 0 base)) by lia.
  - destruct (radix_head base chr Hb (S fuel) n) as (d & l & -> & ?); [lia|].
    destruct l; [done|]. by apply Hc.
Qed.

Lemma dec_chr_neq d c : dec_digit c = None -> 0 <= d < 10 -> dec_chr d <> c.
Proof. intros Hn Hd <-. by rewrite dec_digit_chr in Hn. Qed.

Lemma read_decimal_decimal v : machine_int v -> read_decimal (decimal v) = Some v.
Proof.
  intros [Hl Hu]. unfold decimal.
  pose proof (read_radix 10 dec_chr dec_digit ltac:(lia) dec_digit_chr digit_fuel (Z.abs v)
    ltac:(unfold digit_fuel; lia)) as HR.
  destruct (Z.ltb_spec v 0) as [Hneg|Hpos]; cbn [app].
  - destruct (radix_head 10 dec_chr ltac:(lia) digit_fuel (Z.abs v)
      ltac:(unfold digit_fuel; lia)) as (d & l & E & _).
    rewrite E in *. cbn [read_decimal]. rewrite HR. cbn. f_equal. lia.
  - rewrite Z.abs_eq in * by done. destruct (decide (v = 0)) as [->|]; [done|].
    destruct (radix_head 10 dec_chr ltac:(lia) digit_fuel v
      ltac:(unfold digit_fuel; lia)) as (d & l & E & Hd).
    rewrite E in *. pose proof (dec_chr_neq d Byte.x2d eq_refl ltac:(lia)).
    rewrite <- HR. unfold read_decimal. by destruct (dec_chr d).
Qed.

(** ** Texts without a terminator in them *)
Definition nul_free (l : bytes) : Prop := Byte.x00 ∉ l.

Lemma nul_free_app l k : nul_free (l ++ k) <-> nul_free l /\ nul_free k.
Proof. unfold nul_free. set_solver. Qed.

Lemma strlen_terminated t k : nul_free t -> strlen_bytes (t ++ Byte.x00 :: k) = Ok (zlen t).
Proof.
  induction t as [|c t IH]; intros Hn; [done|].
  assert (c <> Byte.x00) by (intros ->; apply Hn; set_solver).
  transitivity (n ← strlen_bytes (t ++ Byte.x00 :: k); Ok (1 + n)); [by destruct c|].
  rewrite IH by (unfold nul_free in *; set_solver). cbn. by rewrite zlen_cons.
Qed.

Lemma read_terminated t k : ptr_read (Ptr (t ++ Byte.x00 :: k) 0) (zlen t) = Ok t.
Proof. zlen_pos. rewrite ptr_read_ok by (rewrite ?zlen_app; zlen_pos; lia). by rewrite zdrop_0, ztake_app_l, ztake_all by lia. Qed.

(** Numerals hold digits only. *)
Lemma radix_dec fuel n c : 0 <= n -> dec_digit c = None -> c ∉ radix 10 dec_chr fuel n.
Proof.
  intros Hn Hc. revert n Hn. induction fuel as [|fuel IH]; intros n Hn; [apply not_elem_of_nil|]. cbn [radix].
  case_cmp.
  - apply not_elem_of_cons. split; [|apply not_elem_of_nil]. apply not_eq_sym, dec_chr_neq; [done | lia].
  - apply not_elem_of_app. split; [apply IH, Z.div_pos; lia|]. apply not_elem_of_cons. split; [|apply not_elem_of_nil].
    apply not_eq_sym, dec_chr_neq; [done|]. apply Z.mod_pos_bound. lia.
Qed.

Lemma radix_nul_free fuel n : 0 <= n -> nul_free (radix 10 dec_chr fuel n).
Proof. intros Hn. by apply radix_dec. Qed.

(** ** The stream is a bounded list of characters *)
Fixpoint up_to_nul (l : bytes) : bytes :=
  match l with
  | [] | Byte.x00 :: _ => []
  | c :: l => c :: up_to_nul l
  end.

Section stream.
Context {float double : Type} (to_double : float -> double) (format_g12 : double -> bytes).

(** What a caller does with a stream, one constructor per operator. *)
Inductive insertion :=
  | IBool (v : bool) | IShort (v : Z) | IUShort (v : Z) | IInt (v : Z) | IUInt (v : Z)
  | ILong (v : Z) | IULong (v : Z) | ILongLong (v : Z) | IULongLong (v : Z)
  | IPointer (v : Z) | IFloat (v : float) | IDouble (v : double)
  | IChar (v : byte) | ICStr (p : ptr) | IUCStr (p : ptr) | IString (v : bytes)
  | IPiece (v : StringPiece) | IBuffer (v : FixedBuffer) | IFmt (v : Fmt) | IReset.

Definition put (s : LogStream) (i : insertion) : res LogStream :=
  match i with
  | IBool v => put_bool s v | IShort v => put_short s v | IUShort v => put_ushort s v
  | IInt v => put_int s v | IUInt v => put_uint s v | ILong v => put_long s v
  | IULong v => put_ulong s v | ILongLong v => put_longlong s v
  | IULongLong v => put_ulonglong s v | IPointer v => put_pointer s v
  | IFloat v => put_float to_double format_g12 s v | IDouble v => put_double format_g12 s v
  | IChar v => put_char s v | ICStr p => put_cstr s p | IUCStr p => put_ucstr s p
  | IString v => put_string s v | IPiece v => put_piece s v | IBuffer v => put_buffer s v
  | IFmt v => put_fmt s v | IReset => Ok (resetBuffer s)
  end.

Definition puts (s : LogStream) (l : list insertion) : res LogStream :=
  foldl (fun m i => m ≫= fun s => put s i) (Ok s) l.

(** The arguments C++ callers can pass: integers of the type, terminated
    strings, valid pieces, buffers and formats. *)
Definition cstring (p : ptr) : Prop :=
  match p with
  | NullPtr => True
  | Ptr blk off => 0 <= off /\ In Byte.x00 (zdrop off blk) /\ zlen blk < 2 ^ 63
  end.

Definition stream_wf (s : LogStream) : Prop :=
  zlen (data_ s) = kSmallBuffer /\ 0 <= cur_ s < kSmallBuffer.

Definition valid (i : insertion) : Prop :=
  match i with
  | IShort v => in_s 16 v | IUShort v => in_u 16 v | IInt v => in_s 32 v
  | IUInt v => in_u 32 v | ILong v | ILongLong v => in_s 64 v
  | IULong v | IULongLong v | IPointer v => in_u 64 v
  | ICStr p | IUCStr p => cstring p
  | IString v => zlen v < 2 ^ 63
  | IPiece v => exists d, denotes v d
  | IBuffer v => stream_wf v
  | IFmt f => 0 <= fmt_length_ f < zlen (buf_ f) /\ zlen (buf_ f) <= 32
  | _ => True
  end.

Definition cstr_text (p : ptr) : bytes :=
  match p with NullPtr => null_text | Ptr blk off => up_to_nul (zdrop off blk) end.

(** The characters of an insertion. *)
Definition text (i : insertion) : bytes :=
  match i with
  | IBool v => if v then [Byte.x31] else [Byte.x30]
  | IShort v | IUShort v | IInt v | IUInt v | ILong v | IULong v | ILongLong v
  | IULongLong v => decimal v
  | IPointer v => Byte.x30 :: Byte.x78 :: hexadecimal v
  | IFloat v => format_g12 (to_double v) | IDouble v => format_g12 v
  | IChar v => [v] | ICStr p | IUCStr p => cstr_text p
  | IString v => v
  | IPiece v => match as_string v with Ok d => d | Fail _ => [] end
  | IBuffer v => ztake (cur_ v) (data_ v)
  | IFmt f => ztake (fmt_length_ f) (buf_ f)
  | IReset => []
  end.

(** The room an insertion asks for before it writes anything. *)
Definition need (i : insertion) : Z :=
  match i with
  | IShort _ | IUShort _ | IInt _ | IUInt _ | ILong _ | IULong _ | ILongLong _
  | IULongLong _ | IPointer _ | IFloat _ | IDouble _ => kMaxNumericSize
  | _ => zlen (text i) + 1
  end.

(** The specification: an insertion adds all its characters or none. *)
Definition push (content : bytes) (i : insertion) : bytes :=
  match i with
  | IReset => []
  | _ => if need i <=? kSmallBuffer - zlen content then content ++ text i else content
  end.

Definition holds (s : LogStream) (content : bytes) : Prop :=
  stream_wf s /\ ztake (cur_ s) (data_ s) = content.

Lemma holds_zlen s c : holds s c -> cur_ s = zlen c.
Proof using. intros [[Hd Hc] <-]. by rewrite zlen_take by lia. Qed.

Lemma avail_eq s c : holds s c -> avail s = kSmallBuffer - zlen c.
Proof using.
  intros H. pose proof (holds_zlen _ _ H). destruct H as [[Hd Hc] _]. unfold avail, end_, kSmallBuffer in *.
  rewrite int32_id by lia. lia.
Qed.

(** Characters placed at the write pointer, whatever follows them. *)
Lemma holds_write s c t k d : holds s c -> zlen c + zlen t < kSmallBuffer ->
  vec_write (data_ s) (cur_ s) (t ++ k) = Ok d ->
  holds (mkFixedBuffer (cookie_ s) d (cur_ s + zlen t)) (c ++ t).
Proof using.
  intros H Hfit W. pose proof (holds_zlen _ _ H) as Hcur. destruct H as [[Hd Hc] Ht].
  pose proof (vec_write_len _ _ _ _ W) as Hl. zlen_pos.
  split; [split; cbn; lia|]. cbn. apply vec_write_inv in W as (_ & Hk & ->).
  rewrite zlen_app in Hk. zlen_pos. rewrite ztake_app_r by zlen_side.
  rewrite Ht, <- Hcur, <- app_assoc. f_equal.
  rewrite ztake_app_l by lia. apply ztake_all. lia.
Qed.

Lemma append_holds s c p t : holds s c -> ptr_read p (zlen t) = Ok t -> zlen t < 2 ^ 64 ->
  exists s', FixedBuffer_append s p (zlen t) = Ok s' /\
    holds s' (if zlen t + 1 <=? kSmallBuffer - zlen c then c ++ t else c).
Proof using.
  intros H Hp Ht. pose proof (holds_zlen _ _ H) as Hcur. unfold FixedBuffer_append.
  rewrite (avail_eq _ _ H). pose proof H as [[Hd Hc] _]. zlen_pos.
  rewrite size_t_id by (unfold kSmallBuffer in *; lia). case_cmp; case_cmp; try lia; [|by eauto].
  rewrite Hp. cbn [mbind res_bind].
  destruct (vec_write (data_ s) (cur_ s) t) as [d|] eqn:W; [|rewrite vec_write_ok in W by lia; done].
  eexists; split; [reflexivity|]. apply (holds_write s c t []); [done | lia | by rewrite app_nil_r].
Qed.

Lemma append_read s c p n t : holds s c -> ptr_read p n = Ok t -> n < 2 ^ 64 ->
  exists s', FixedBuffer_append s p n = Ok s' /\
    holds s' (if zlen t + 1 <=? kSmallBuffer - zlen c then c ++ t else c).
Proof using.
  intros H Hp Hn. destruct (ptr_read_len _ _ _ Hp) as [<- _]. by apply append_holds.
Qed.

Lemma stored_write d off t : 0 <= off -> off + zlen t + 1 <= zlen d ->
  vec_write d off (t ++ [Byte.x00]) = Ok (stored d off t).
Proof using.
  intros. rewrite vec_write_ok by zlen_side. unfold stored.
  rewrite zlen_app, zlen_cons, zlen_nil. do 4 f_equal. lia.
Qed.

(** An integer takes at most 20 characters and a terminator, so the room of
    [kMaxNumericSize] is enough. *)
Lemma formatInteger_holds s c v : holds s c -> machine_int v ->
  exists s', formatInteger s v = Ok s' /\
    holds s' (if kMaxNumericSize <=? kSmallBuffer - zlen c then c ++ decimal v else c).
Proof using.
  intros H Hv. pose proof (holds_zlen _ _ H) as Hcur. pose proof (decimal_zlen v Hv) as Hl.
  unfold formatInteger. rewrite (avail_eq _ _ H). pose proof H as [[Hd Hc] _].
  case_cmp; [|by eauto]. unfold kMaxNumericSize, kSmallBuffer in *.
  rewrite convert_decimal by (unfold current; first [done | lia]).
  eexists; split; [reflexivity|].
  apply (holds_write s c _ [Byte.x00]); [done | unfold kSmallBuffer; lia|].
  apply stored_write; lia.
Qed.

Lemma put_pointer_holds s c v : holds s c -> 0 <= v < 2 ^ 64 ->
  exists s', put_pointer s v = Ok s' /\
    holds s' (if kMaxNumericSize <=? kSmallBuffer - zlen c
              then c ++ Byte.x30 :: Byte.x78 :: hexadecimal v else c).
Proof using.
  intros H Hv. pose proof (holds_zlen _ _ H) as Hcur. pose proof (hexadecimal_zlen v Hv) as Hl.
  unfold put_pointer. rewrite (avail_eq _ _ H). pose proof H as [[Hd Hc] _].
  case_cmp; [|by eauto]. unfold kMaxNumericSize, kSmallBuffer, current in *.
  set (t := Byte.x30 :: Byte.x78 :: hexadecimal v).
  assert (W : vec_write (data_ s) (cur_ s) (t ++ [Byte.x00]) = Ok (stored (data_ s) (cur_ s) t))
    by (apply stored_write; subst t; rewrite ?zlen_cons; lia).
  pose proof W as W'. subst t. cbn [app] in W'.
  rewrite vec_write_cons in W' by lia.
  destruct (vec_write (data_ s) (cur_ s) [Byte.x30]) as [d1|] eqn:W1; [cbn [mbind res_bind] in *|done].
  rewrite vec_write_cons in W' by lia.
  destruct (vec_write d1 (cur_ s + 1) [Byte.x78]) as [d2|] eqn:W2; [cbn [mbind res_bind] in *|done].
  apply vec_write_len in W1, W2.
  rewrite convertHex_hexadecimal by lia. cbn [mbind res_bind].
  rewrite <- Z.add_assoc in W'. change (1 + 1) with 2 in W'. rewrite stored_write in W' by lia. injection W' as ->.
  rewrite size_t_id by lia. eexists; split; [reflexivity|].
  replace (zlen (hexadecimal v) + 2) with (zlen (Byte.x30 :: Byte.x78 :: hexadecimal v))
    by (rewrite !zlen_cons; lia).
  apply (holds_write s c _ [Byte.x00]); [done | rewrite !zlen_cons; unfold kSmallBuffer; lia | done].
Qed.

Lemma put_double_holds s c v : holds s c -> zlen (format_g12 v) < 32 ->
  exists s', put_double format_g12 s v = Ok s' /\
    holds s' (if kMaxNumericSize <=? kSmallBuffer - zlen c then c ++ format_g12 v else c).
Proof using.
  intros H Hv. pose proof (holds_zlen _ _ H) as Hcur. zlen_pos.
  unfold put_double, snprintf. rewrite (avail_eq _ _ H). pose proof H as [[Hd Hc] _].
  case_cmp; [|by eauto]. unfold kMaxNumericSize, kSmallBuffer, current in *.
  rewrite ztake_all, stored_write by lia. cbn [mbind res_bind].
  rewrite size_t_id by lia. eexists; split; [reflexivity|].
  apply (holds_write s c _ [Byte.x00]); [done | unfold kSmallBuffer; lia|].
  apply stored_write; lia.
Qed.

Lemma strlen_up_to_nul l : In Byte.x00 l ->
  strlen_bytes l = Ok (zlen (up_to_nul l)) /\ exists k, l = up_to_nul l ++ k.
Proof using.
  induction l as [|c l IH]; [done|]. intros Hin.
  destruct (Byte.byte_eq_dec c Byte.x00) as [->|Hc]; [split; [done | by eexists]|].
  destruct Hin as [->|Hin]; [done|]. destruct (IH Hin) as [E (k & Hk)].
  assert (up_to_nul (c :: l) = c :: up_to_nul l) as -> by (by destruct c).
  split.
  - transitivity (n ← strlen_bytes l; Ok (1 + n)); [by destruct c|]. rewrite E. cbn.
    by rewrite zlen_cons.
  - exists k. cbn. by rewrite <- Hk.
Qed.

Lemma put_cstr_holds s c p : holds s c -> cstring p ->
  exists s', put_cstr s p = Ok s' /\
    holds s' (if zlen (cstr_text p) + 1 <=? kSmallBuffer - zlen c then c ++ cstr_text p else c).
Proof using.
  intros H Hp. destruct p as [|blk off]; [by apply (append_holds s c _ null_text)|].
  destruct Hp as (Ho & Hin & Hl). destruct (strlen_up_to_nul _ Hin) as [E (k & Hk)].
  assert (Hoff : off <= zlen blk).
  { destruct (Z.leb_spec off (zlen blk)); [done|]. rewrite zdrop_all in Hin by lia. done. }
  assert (Hz : zlen (zdrop off blk) = zlen blk - off) by (zlen_pos; rewrite zlen_drop; lia).
  rewrite Hk, zlen_app in Hz. pose proof (zlen_nonneg k).
  cbn [put_cstr strlen cstr_text]. rewrite (proj2 (Z.leb_le 0 off)) by done. cbn [check mbind res_bind].
  rewrite E. cbn [mbind res_bind]. zlen_pos.
  apply append_holds; [done | | lia].
  rewrite ptr_read_ok by lia. rewrite Hk at 2. by rewrite ztake_app_l, ztake_all by lia.
Qed.

Hypothesis format_short : forall v, zlen (format_g12 v) < 32.

Lemma put_holds s c i : holds s c -> valid i -> exists s', put s i = Ok s' /\ holds s' (push c i).
Proof using format_short.
  intros H Hv. destruct i as [b|v|v|v|v|v|v|v|v|v|v|v|v|p|p|v|v|v|f|];
    cbn [put valid push need text] in *; unfold in_s, in_u in *;
    try (apply formatInteger_holds; [done | unfold machine_int; lia]).
  - destruct b; [by apply (append_holds s c _ [Byte.x31]) | by apply (append_holds s c _ [Byte.x30])].
  - unfold put_short. rewrite int32_id by lia.
    apply formatInteger_holds; [done | unfold machine_int; lia].
  - unfold put_ushort. rewrite uint32_id by lia.
    apply formatInteger_holds; [done | unfold machine_int; lia].
  - by apply put_pointer_holds.
  - by apply put_double_holds.
  - by apply put_double_holds.
  - by apply (append_holds s c _ [v]).
  - by apply put_cstr_holds.
  - by apply put_cstr_holds.
  - apply append_holds; [done | | lia]. zlen_pos. rewrite ptr_read_ok by (rewrite ?zlen_app; zlen_pos; lia).
    by rewrite zdrop_0, ztake_app_l, ztake_all by lia.
  - destruct Hv as (d & Hd & Hl). destruct (ptr_read_len _ _ _ Hd) as [Hz H0].
    unfold put_piece, as_string, data, size. rewrite size_t_id by lia. rewrite Hd.
    apply append_read; [done | done | lia].
  - destruct Hv as [Hl Hc]. unfold put_buffer, put_piece, toStringPiece, FixedBuffer_length.
    cbn [size data StringPiece_range length_ ptr_]. unfold kSmallBuffer in Hl, Hc.
    rewrite int32_id, size_t_id by lia.
    apply append_read; [done | by rewrite ptr_read_ok by lia | lia].
  - unfold put_fmt, stream_append. rewrite size_t_id by lia.
    apply append_read; [done | by rewrite ptr_read_ok by lia | lia].
  - destruct H as [[Hd Hc] _]. eexists; split; [reflexivity|].
    split; [split; [done | cbn; unfold kSmallBuffer; lia] | done].
Qed.

Lemma puts_holds s c l : holds s c -> Forall valid l ->
  exists s', puts s l = Ok s' /\ holds s' (foldl push c l).
Proof using format_short.
  unfold puts. revert s c. induction l as [|i l IH]; intros s c H Hl; [by eauto|].
  inversion_clear Hl. destruct (put_holds s c i H) as (s' & E & H'); [done|].
  cbn [foldl]. cbn [mbind res_bind]. rewrite E. by apply IH.
Qed.

Lemma holds_toString s c : holds s c -> toString s = Ok c.
Proof using.
  intros [[Hd Hc] <-]. unfold toString, FixedBuffer_length, kSmallBuffer in *.
  rewrite int32_id, size_t_id by lia. by rewrite ptr_read_ok by lia.
Qed.

(** Every sequence of insertions and resets of valid arguments into a new
    stream succeeds without an access outside its 4000 bytes, and the stream
    then holds what the specification says: each insertion since the last
    reset added all its characters, in order, or, when the free room was below
    its need (32 for a number, one more than the length for a text), none. One
    byte always stays free, so [debugString] can store its terminator. *)
Theorem LogStream_holds_text (garbage : bytes) (l : list insertion) :
  zlen garbage = kSmallBuffer -> Forall valid l ->
  exists s, puts (FixedBuffer_ctor garbage) l = Ok s /\
    toString s = Ok (foldl push [] l) /\ zlen (foldl push [] l) < kSmallBuffer /\
    is_ok (debugString s).
Proof using format_short.
  intros Hg Hl. destruct (puts_holds (FixedBuffer_ctor garbage) [] l) as (s & E & H); [|done|].
  { split; [|done]. split; [done | cbn; unfold kSmallBuffer; lia]. }
  pose proof (holds_zlen _ _ H) as Hcur. pose proof H as [[Hd Hc] _].
  exists s. split; [done|]. split; [by apply holds_toString|]. split; [lia|].
  unfold debugString. rewrite vec_write_ok by zlen_side. by eexists.
Qed.
End stream.

(** A [Fmt] whose text fits its 32 bytes is a valid insertion of that text;
    a longer text fails the assertion of the constructor. *)
Lemma Fmt_ctor_spec {float double} (to_double : float -> double) format_g12 garbage t :
  zlen garbage = 32 -> zlen t < 2 ^ 31 ->
  if zlen t <? 32
  then exists f, Fmt_ctor garbage t = Ok f /\ valid (float := float) (double := double) (IFmt f) /\
         text to_double format_g12 (IFmt f) = t
  else Fmt_ctor garbage t = Fail FAssert.
Proof.
  intros Hg Ht. zlen_pos. unfold Fmt_ctor, snprintf. rewrite Hg.
  case_cmp.
  - rewrite ztake_all, stored_write by lia. cbn [mbind res_bind].
    rewrite int32_id, size_t_id, (proj2 (Z.ltb_lt _ _)) by lia. eexists; split; [reflexivity|].
    assert (Hs : zlen (stored garbage 0 t) = 32) by (unfold stored; zlen_side).
    cbn. split; [lia|]. unfold stored. rewrite ztake_0. cbn [app].
    by rewrite <- app_assoc, ztake_app_l, ztake_all by lia.
  - rewrite vec_write_ok by zlen_side. cbn [mbind res_bind].
    by rewrite int32_id, size_t_id, (proj2 (Z.ltb_ge _ _)) by lia.
Qed.

(** [convert] of any integer of at most 64 bits, the least negative one
    included, at a place with 21 free bytes stores a terminated numeral of at
    most 20 characters and nothing else, and returns its length; reading the
    numeral back gives the integer, and it has no leading zero. [convertHex]
    does the same in base 16 for addresses. *)
Theorem convert_roundtrip d buf v : machine_int v -> 0 <= buf ->
  buf + 21 <= zlen d < 2 ^ 64 ->
  (exists sign ds, convert d buf v = Ok (stored d buf (sign ++ ds), zlen (sign ++ ds)) /\
     zlen (sign ++ ds) <= 20 /\ read_decimal (sign ++ ds) = Some v /\
     canonical Byte.x30 ds /\ (sign = [Byte.x2d] <-> v < 0)) /\
  (0 <= v -> exists s, convertHex d buf v = Ok (stored d buf s, zlen s) /\ zlen s <= 16 /\
     read_digits 16 hex_digit 0 s = Some v /\ canonical Byte.x30 s).
Proof.
  intros Hv Hb Hfit. pose proof (decimal_zlen v Hv) as Hl. split.
  - exists (if v <? 0 then [Byte.x2d] else []), (radix 10 dec_chr digit_fuel (Z.abs v)).
    fold (decimal v). split; [apply convert_decimal; first [done | lia]|].
    split; [lia|]. split; [by apply read_decimal_decimal|]. split.
    + apply (canonical_radix 10 dec_chr 19); [lia | destruct Hv; cbn; lia|].
      intros x Hx E. pose proof (dec_digit_chr x ltac:(lia)) as E1.
      rewrite E, dec_digit_chr in E1 by lia.
      injection E1. lia.
    + case_cmp; split; first [done | lia].
  - intros H0. destruct Hv as [_ Hu]. pose proof (hexadecimal_zlen v ltac:(lia)) as Hh.
    exists (hexadecimal v). split; [apply convertHex_hexadecimal; lia|]. split; [lia|]. split.
    + apply (read_radix 16 hex_chr hex_digit); [lia | apply hex_digit_chr | unfold digit_fuel; lia].
    + apply (canonical_radix 16 hex_chr 19); [lia | cbn; lia|].
      intros x Hx E. pose proof (hex_digit_chr x ltac:(lia)) as E1.
      rewrite E, hex_digit_chr in E1 by lia.
      injection E1. lia.
Qed.

Module Example.
(** A number type with two values, whose "%.12g" texts are "0" and "0.5". *)
Definition half (b : bool) : bytes :=
  if b then [Byte.x30; Byte.x2e; Byte.x35] else [Byte.x30].

Lemma half_short b : zlen (half b) < 32.
Proof. by destruct b. Qed.

(** [s << INT64_MIN << (const char* )NULL << true << 0.5f << (void* )0xBEEF] *)
Definition line_text : bytes :=
  decimal (- 2 ^ 63) ++ null_text ++ [Byte.x31] ++ half true ++
  [Byte.x30; Byte.x78; Byte.x42; Byte.x45; Byte.x45; Byte.x46].

Lemma LogStream_holds_text_witness :
  exists s, puts negb half (FixedBuffer_ctor (repeat Byte.x2a 4000))
              [ILongLong (- 2 ^ 63); ICStr NullPtr; IBool true; IFloat false; IPointer 0xBEEF] = Ok s /\
    toString s = Ok line_text.
Proof.
  destruct (LogStream_holds_text negb half half_short (repeat Byte.x2a 4000)
    [ILongLong (- 2 ^ 63); ICStr NullPtr; IBool true; IFloat false; IPointer 0xBEEF])
    as (s & E & T & _ & _).
  - vm_compute. reflexivity.
  - repeat constructor; cbn; unfold in_s, in_u; lia.
  - exists s. split; [exact E|]. rewrite T. vm_compute. reflexivity.
Defined.

Lemma convert_roundtrip_witness :
  exists sign ds, convert (repeat Byte.x2a 40) 3 (- 2 ^ 63) =
      Ok (stored (repeat Byte.x2a 40) 3 (sign ++ ds), zlen (sign ++ ds)) /\
    read_decimal (sign ++ ds) = Some (- 2 ^ 63).
Proof.
  destruct (convert_roundtrip (repeat Byte.x2a 40) 3 (- 2 ^ 63)) as [(sign & ds & E & _ & R & _) _].
  - unfold machine_int. lia.
  - lia.
  - split; [vm_compute; discriminate | vm_compute; reflexivity].
  - exists sign, ds. split; [exact E | exact R].
Defined.
End Example.
