(* ===== verification/TimeFormat.v ===== *)
(** * Times as text ([3rd_party/muduo/muduo/base/Timestamp.cc], [Date.cc])

    [Timestamp::toString], [Timestamp::toFormattedString] and
    [Date::toIsoString] over the conversions of [snprintf] they use, and the
    times read back from the text. *)
From stdpp Require Import strings.
From S2P Require Import Prelude Date LogStream LogStreamProps TimeZone TimeZoneProps TimerQueue.

(** ** Conversions of [printf] *)
Definition pad (c : byte) (width : Z) (s : bytes) : bytes := repeat c (Z.to_nat (width - zlen s)) ++ s.

(** [%<width>d]: blanks in front. *)
Definition fmt_d (width v : Z) : bytes := pad Byte.x20 width (decimal v).

(** [%0<width>d]: zeros between the sign and the digits. *)
Definition fmt_0d (width v : Z) : bytes :=
  if v <? 0 then Byte.x2d :: pad Byte.x30 (width - 1) (decimal (Z.abs v)) else pad Byte.x30 width (decimal v).

(** What [snprintf(buf, n, ...)] leaves in the array. *)
Definition snprintf_text (n : Z) (text : bytes) : bytes := ztake (n - 1) text.

(** ** The operations *)
Definition Timestamp_toString (microSecondsSinceEpoch_ : Z) : bytes :=
  let seconds := Z.quot microSecondsSinceEpoch_ kMicroSecondsPerSecond in
  let microseconds := Z.rem microSecondsSinceEpoch_ kMicroSecondsPerSecond in
  snprintf_text 31 (decimal seconds ++ lit "." ++ fmt_0d 6 microseconds).

(** ["%4d%02d%02d %02d:%02d:%02d"] *)
Definition fmt_tm (t : tm) : bytes :=
  fmt_d 4 (tm_year t + 1900) ++ fmt_0d 2 (tm_mon t + 1) ++ fmt_0d 2 (tm_mday t) ++ lit " " ++
  fmt_0d 2 (tm_hour t) ++ lit ":" ++ fmt_0d 2 (tm_min t) ++ lit ":" ++ fmt_0d 2 (tm_sec t).

Definition formatted_text (tm_time : tm) (microSecondsSinceEpoch_ : Z) (showMicroseconds : bool) : bytes :=
  if showMicroseconds then
    let microseconds := int32 (Z.rem microSecondsSinceEpoch_ kMicroSecondsPerSecond) in
    snprintf_text 32 (fmt_tm tm_time ++ lit "." ++ fmt_0d 6 microseconds)
  else snprintf_text 32 (fmt_tm tm_time).
Definition Timestamp_toFormattedString (microSecondsSinceEpoch_ : Z) (showMicroseconds : bool) : res bytes :=
  let seconds := Z.quot microSecondsSinceEpoch_ kMicroSecondsPerSecond in
  tm_time ← gmtime_r seconds;
  Ok (formatted_text tm_time microSecondsSinceEpoch_ showMicroseconds).

(** [Timestamp::now], from the two fields [gettimeofday] stores. *)
Definition Timestamp_now (tv_sec tv_usec : Z) : res Z :=
  s ← int64_ (tv_sec * kMicroSecondsPerSecond); int64_ (s + tv_usec).

Definition Date_toIsoString (d : Z) : res bytes :=
  ymd ← yearMonthDay d;
  Ok (snprintf_text 32 (fmt_d 4 (year ymd) ++ lit "-" ++ fmt_0d 2 (month ymd) ++ lit "-" ++ fmt_0d 2 (day ymd))).

(** ** Reading times *)
Definition field (off len : Z) (s : bytes) : option Z := read_digits 10 dec_digit 0 (ztake len (zdrop off s)).

(** The number at [off]; [YYYYMMDD hh:mm:ss.uuuuuu] as microseconds. *)
Definition read_formatted (s : bytes) : option Z :=
  y ← field 0 4 s; m ← field 4 2 s; d ← field 6 2 s;
  hh ← field 9 2 s; mm ← field 12 2 s; ss ← field 15 2 s; us ← field 18 6 s;
  Some (timegm (mkTm ss mm hh d (m - 1) (y - 1900) 0 0 false 0 []) * kMicroSecondsPerSecond + us).

(** [YYYY-MM-DD] as a Julian day. *)
Definition read_iso (s : bytes) : option Z :=
  y ← field 0 4 s; m ← field 5 2 s; d ← field 8 2 s; Some (julian (mkYmd y m d)).

(** [seconds.microseconds] *)
Fixpoint split_on (c : byte) (s : bytes) : bytes * bytes :=
  match s with
  | [] => ([], [])
  | x :: s => if Byte.eqb x c then ([], s) else let '(a, b) := split_on c s in (x :: a, b)
  end.
Definition read_timestamp (s : bytes) : option Z :=
  let '(a, b) := split_on Byte.x2e s in
  sec ← read_decimal a; us ← read_digits 10 dec_digit 0 b; Some (sec * kMicroSecondsPerSecond + us).

(** ** Numerals of a fixed width *)
Lemma read_zeros n l : read_digits 10 dec_digit 0 (repeat Byte.x30 n ++ l) = read_digits 10 dec_digit 0 l.
Proof. induction n as [|n IH]; [done|]. cbn [repeat app read_digits]. change (dec_digit Byte.x30) with (Some 0). exact IH. Qed.

Lemma read_digits_bound l acc v : 0 <= acc -> read_digits 10 dec_digit acc l = Some v -> v < (acc + 1) * 10 ^ zlen l.
Proof.
  revert acc. induction l as [|c l IH]; intros acc Ha; cbn [read_digits].
  - intros [= <-]. change (10 ^ zlen []) with 1. lia.
  - destruct (dec_digit c) as [x|] eqn:Ed; [|done]. cbn [mbind option_bind]. intros Hv.
    assert (0 <= x < 10) by (unfold dec_digit in Ed; case_match eqn:E; [injection Ed as <-; unbool; lia | done]).
    apply IH in Hv; [|lia]. rewrite zlen_cons, Z.pow_add_r by zlen_lia.
    assert (0 < 10 ^ zlen l) by (apply Z.pow_pos_nonneg; zlen_lia). nia.
Qed.

Lemma decimal_read v : 0 <= v < 2 ^ 63 -> read_digits 10 dec_digit 0 (decimal v) = Some v.
Proof.
  intros Hv. unfold decimal. rewrite (proj2 (Z.ltb_ge v 0)) by lia. cbn [app]. rewrite Z.abs_eq by lia.
  apply (read_radix 10 dec_chr dec_digit); [lia | apply dec_digit_chr | unfold digit_fuel; lia].
Qed.

Lemma decimal_width k v : 1 <= k -> 0 <= v < 10 ^ k -> zlen (decimal v) <= k.
Proof.
  intros Hk Hv. unfold decimal. rewrite (proj2 (Z.ltb_ge v 0)) by lia. cbn [app]. rewrite Z.abs_eq by lia.
  by apply (radix_zlen 10 dec_chr).
Qed.

Lemma fmt_0d_read w v : 1 <= w <= 18 -> 0 <= v < 10 ^ w ->
  zlen (fmt_0d w v) = w /\ read_digits 10 dec_digit 0 (fmt_0d w v) = Some v.
Proof.
  intros Hw Hv. unfold fmt_0d. rewrite (proj2 (Z.ltb_ge v 0)) by lia. unfold pad.
  pose proof (decimal_width w v ltac:(lia) Hv). zlen_pos. split.
  - rewrite zlen_app. unfold zlen at 1. rewrite repeat_length. lia.
  - rewrite read_zeros. apply decimal_read. pose proof (Z.pow_le_mono_r 10 w 18 ltac:(lia) ltac:(lia)). lia.
Qed.

Lemma fmt_year_read y : 1000 <= y <= 9999 -> zlen (fmt_d 4 y) = 4 /\ read_digits 10 dec_digit 0 (fmt_d 4 y) = Some y.
Proof.
  intros Hy. pose proof (decimal_read y ltac:(lia)) as Hr. pose proof (decimal_width 4 y ltac:(lia) ltac:(lia)) as Hw.
  pose proof (read_digits_bound _ 0 y ltac:(lia) Hr) as Hb. zlen_pos.
  assert (zlen (decimal y) = 4) as E.
  { destruct (decide (zlen (decimal y) <= 3)) as [Hs|]; [|lia].
    pose proof (Z.pow_le_mono_r 10 _ 3 ltac:(lia) Hs). lia. }
  unfold fmt_d, pad. rewrite E. done.
Qed.

Lemma field_app a b c off len : zlen a = off -> zlen b = len -> field off len (a ++ b ++ c) = read_digits 10 dec_digit 0 b.
Proof.
  intros <- <-. unfold field. zlen_pos. rewrite zdrop_app_r by lia. rewrite Z.sub_diag, zdrop_0, ztake_app_l, ztake_all by lia. done.
Qed.

Lemma field_end a b off len : zlen a = off -> zlen b = len -> field off len (a ++ b) = read_digits 10 dec_digit 0 b.
Proof. intros Ha Hb. rewrite <- (app_nil_r b) at 1. by apply field_app. Qed.

(** ** Years of four digits *)
Lemma julian_years d : gregorian d -> -4800 < year d -> 2440588 <= julian d < 5373120 -> 1000 <= year d <= 9999.
Proof.
  intros Hg Hy Hj. destruct (march_of_date d Hg Hy) as (Hmd & He & Hmm & _ & _ & Eyear & E). rewrite E in Hj.
  pose proof (div_bounds (march_month (month d)) 10 0 1 ltac:(lia) ltac:(lia)).
  unfold march_number in Hj. set (y := march_year _ _) in *. Z.to_euclidean_division_equations. lia.
Qed.

(** Seconds from 1970 to the end of 9998. *)
Definition four_digit_years (s : Z) : Prop := 0 <= s < 253370764800.

Lemma gmtime_four_digits s : four_digit_years s -> valid_tm (utc_tm s) /\ timegm (utc_tm s) = s /\ 1000 <= tm_year (utc_tm s) + 1900 <= 9999.
Proof.
  intros Hs. unfold four_digit_years in Hs.
  assert (Hn : 2440588 <= s / kSecondsPerDay + kJulianDayOf1970 < 5373120)
    by (unfold kSecondsPerDay, kJulianDayOf1970; Z.to_euclidean_division_equations; lia).
  destruct (gmtime_valid s ltac:(lia)) as [Hv Ht]. split; [done|]. split; [done|].
  destruct (julian_surj (s / kSecondsPerDay + kJulianDayOf1970) ltac:(lia)) as (d & Hg & Hy & Hj). unfold utc_tm.
  rewrite <- Hj, civil_julian by done. cbn [tm_year]. pose proof (julian_years d Hg Hy ltac:(lia)). lia.
Qed.

Lemma days_in_month_le y m : days_in_month y m <= 31.
Proof. unfold days_in_month. repeat case_match; lia. Qed.

(** The text of a broken-down time has its fields at fixed places. *)
Lemma fmt_tm_fields t rest : valid_tm t -> 1000 <= tm_year t + 1900 <= 9999 ->
  zlen (fmt_tm t) = 17 /\ let s := fmt_tm t ++ rest in
  field 0 4 s = Some (tm_year t + 1900) /\ field 4 2 s = Some (tm_mon t + 1) /\ field 6 2 s = Some (tm_mday t) /\
  field 9 2 s = Some (tm_hour t) /\ field 12 2 s = Some (tm_min t) /\ field 15 2 s = Some (tm_sec t).
Proof.
  intros [[Hm Hd] _ Hh Hmi Hs] Hy. cbn [year month day] in Hm, Hd. pose proof (days_in_month_le (tm_year t + 1900) (tm_mon t + 1)).
  destruct (fmt_year_read _ Hy) as [Ly Ry].
  destruct (fmt_0d_read 2 (tm_mon t + 1) ltac:(lia) ltac:(lia)) as [Lm Rm]. destruct (fmt_0d_read 2 (tm_mday t) ltac:(lia) ltac:(lia)) as [Ld Rd].
  destruct (fmt_0d_read 2 (tm_hour t) ltac:(lia) ltac:(lia)) as [Lh Rh]. destruct (fmt_0d_read 2 (tm_min t) ltac:(lia) ltac:(lia)) as [Ln Rn].
  destruct (fmt_0d_read 2 (tm_sec t) ltac:(lia) ltac:(lia)) as [Ls Rs].
  unfold fmt_tm. set (y := fmt_d 4 _) in *. set (m := fmt_0d 2 (tm_mon t + 1)) in *. set (d := fmt_0d 2 (tm_mday t)) in *.
  set (h := fmt_0d 2 (tm_hour t)) in *. set (n := fmt_0d 2 (tm_min t)) in *. set (s := fmt_0d 2 (tm_sec t)) in *.
  assert (zlen (lit " ") = 1 /\ zlen (lit ":") = 1) as [L1 L2] by done.
  split; [rewrite !zlen_app; lia|]. cbn zeta. rewrite <- !app_assoc, <- Ry, <- Rm, <- Rd, <- Rh, <- Rn, <- Rs.
  split_and!.
  - by apply (field_app []).
  - by apply field_app.
  - rewrite (app_assoc y). apply field_app; [rewrite zlen_app; lia | done].
  - rewrite (app_assoc y), (app_assoc (y ++ m)), (app_assoc ((y ++ m) ++ d)). apply field_app; [rewrite !zlen_app; lia | done].
  - rewrite (app_assoc y), (app_assoc (y ++ m)), (app_assoc ((y ++ m) ++ d)), (app_assoc _ h), (app_assoc _ (lit ":")).
    apply field_app; [rewrite !zlen_app; lia | done].
  - rewrite (app_assoc y), (app_assoc (y ++ m)), (app_assoc ((y ++ m) ++ d)), (app_assoc _ h), (app_assoc _ (lit ":")), (app_assoc _ n), (app_assoc _ (lit ":")).
    apply field_app; [rewrite !zlen_app; lia | done].
Qed.

Lemma timegm_read t : timegm (mkTm (tm_sec t) (tm_min t) (tm_hour t) (tm_mday t) (tm_mon t + 1 - 1) (tm_year t + 1900 - 1900) 0 0 false 0 []) = timegm t.
Proof. unfold timegm. cbn [tm_year tm_mon tm_mday tm_hour tm_min tm_sec]. repeat f_equal; lia. Qed.

Lemma micro_split us : 0 <= us -> let s := Z.quot us kMicroSecondsPerSecond in let r := Z.rem us kMicroSecondsPerSecond in
  s = us / kMicroSecondsPerSecond /\ 0 <= r < 10 ^ 6 /\ s * kMicroSecondsPerSecond + r = us.
Proof. unfold kMicroSecondsPerSecond. cbn zeta. intros. Z.to_euclidean_division_equations. lia. Qed.

Lemma toFormattedString_ok us b : 0 <= us -> four_digit_years (us / kMicroSecondsPerSecond) ->
  Timestamp_toFormattedString us b = Ok (formatted_text (utc_tm (us / kMicroSecondsPerSecond)) us b).
Proof.
  intros Hus Hs. destruct (micro_split us Hus) as (Eq & _). unfold Timestamp_toFormattedString. cbn zeta in *. rewrite Eq, gmtime_r_ok; [done|].
  unfold four_digit_years, kSecondsPerDay, kJulianDayOf1970 in *. lia.
Qed.

Lemma formatted_read us : 0 <= us -> four_digit_years (us / kMicroSecondsPerSecond) ->
  let text := formatted_text (utc_tm (us / kMicroSecondsPerSecond)) us in
  zlen (text true) = 24 /\ read_formatted (text true) = Some us /\ text false = ztake 17 (text true).
Proof.
  intros Hus Hs. destruct (micro_split us Hus) as (Eq & Hr & Esum). unfold formatted_text.
  cbn zeta in *. rewrite <- Eq in *. set (s := Z.quot us kMicroSecondsPerSecond) in *. set (r := Z.rem us kMicroSecondsPerSecond) in *.
  rewrite int32_id by lia. destruct (gmtime_four_digits s Hs) as (Hv & Ht & Hy).
  destruct (fmt_0d_read 6 r ltac:(lia) Hr) as [Lr Rr].
  destruct (fmt_tm_fields (utc_tm s) (lit "." ++ fmt_0d 6 r) Hv Hy) as (L & F1 & F2 & F3 & F4 & F5 & F6).
  assert (zlen (lit ".") = 1) by done. unfold snprintf_text. rewrite (ztake_all 31) by (rewrite !zlen_app; lia).
  rewrite (ztake_all _ (fmt_tm _)) by lia. split_and!.
  - rewrite !zlen_app. lia.
  - unfold read_formatted. rewrite F1, F2, F3, F4, F5, F6. cbn [mbind option_bind].
    assert (field 18 6 (fmt_tm (utc_tm s) ++ lit "." ++ fmt_0d 6 r) = Some r) as ->.
    { rewrite <- Rr, app_assoc. apply field_end; [rewrite zlen_app; lia | done]. }
    cbn [mbind option_bind]. rewrite timegm_read, Ht. by f_equal.
  - rewrite ztake_app_l, ztake_all by lia. done.
Qed.

Lemma split_on_app c a b : c ∉ a -> split_on c (a ++ c :: b) = (a, b).
Proof.
  induction a as [|x a IH]; cbn [app split_on]; intros Ha.
  - by rewrite (Byte.byte_dec_lb eq_refl).
  - apply not_elem_of_cons in Ha as [Hx Ha]. destruct (Byte.eqb x c) eqn:E; [by apply Byte.byte_dec_bl in E|].
    by rewrite IH.
Qed.

Lemma toString_read us : 0 <= us < 2 ^ 63 -> read_timestamp (Timestamp_toString us) = Some us.
Proof.
  intros Hus. destruct (micro_split us ltac:(lia)) as (Eq & Hr & Esum). unfold Timestamp_toString. cbn zeta in *.
  set (s := Z.quot us kMicroSecondsPerSecond) in *. set (r := Z.rem us kMicroSecondsPerSecond) in *.
  assert (Hs : 0 <= s < 10 ^ 18) by (subst s; unfold kMicroSecondsPerSecond in *; Z.to_euclidean_division_equations; lia).
  destruct (fmt_0d_read 6 r ltac:(lia) Hr) as [Lr Rr]. pose proof (decimal_width 18 s ltac:(lia) Hs).
  unfold snprintf_text. rewrite ztake_all by (rewrite !zlen_app, Lr; change (zlen (lit ".")) with 1; lia).
  unfold read_timestamp. change (lit "." ++ fmt_0d 6 r) with (Byte.x2e :: fmt_0d 6 r). rewrite split_on_app.
  - rewrite read_decimal_decimal by (unfold machine_int; lia). cbn [mbind option_bind]. rewrite Rr. cbn [mbind option_bind]. by f_equal.
  - unfold decimal. rewrite (proj2 (Z.ltb_ge s 0)) by lia. cbn [app]. by apply radix_dec; [lia|].
Qed.

Lemma iso_read n : 2440588 <= n < 5373120 -> exists s, Date_toIsoString n = Ok s /\ zlen s = 10 /\ read_iso s = Some n.
Proof.
  intros Hn. destruct (julian_surj n ltac:(lia)) as (d & Hg & Hy & <-). pose proof (julian_years d Hg Hy Hn) as Hyr.
  unfold Date_toIsoString, yearMonthDay. rewrite getYearMonthDay_julian by (done || lia). cbn [mbind res_bind].
  eexists. split; [reflexivity|]. destruct d as [y m d]. destruct Hg as [Hm Hd]. cbn [year month day] in *.
  pose proof (days_in_month_le y m). destruct (fmt_year_read _ Hyr) as [Ly Ry].
  destruct (fmt_0d_read 2 m ltac:(lia) ltac:(lia)) as [Lm Rm]. destruct (fmt_0d_read 2 d ltac:(lia) ltac:(lia)) as [Ld Rd].
  assert (zlen (lit "-") = 1) by done. unfold snprintf_text. rewrite ztake_all by (rewrite !zlen_app; lia).
  split; [rewrite !zlen_app; lia|]. unfold read_iso.
  assert (field 0 4 (fmt_d 4 y ++ lit "-" ++ fmt_0d 2 m ++ lit "-" ++ fmt_0d 2 d) = Some y) as -> by (rewrite <- Ry; by apply (field_app [])).
  assert (field 5 2 (fmt_d 4 y ++ lit "-" ++ fmt_0d 2 m ++ lit "-" ++ fmt_0d 2 d) = Some m) as ->
    by (rewrite <- Rm, app_assoc; apply field_app; [rewrite zlen_app; lia | done]).
  assert (field 8 2 (fmt_d 4 y ++ lit "-" ++ fmt_0d 2 m ++ lit "-" ++ fmt_0d 2 d) = Some d) as ->; [|done].
  rewrite <- Rd, app_assoc, (app_assoc _ (fmt_0d 2 m)), (app_assoc _ (lit "-")).
  apply field_end; [rewrite !zlen_app; lia | done].
Qed.

(** ** These texts have no terminator in them *)
Lemma repeat_nul_free c n : c <> Byte.x00 -> nul_free (repeat c n).
Proof. intros Hc. unfold nul_free. induction n as [|n IH]; cbn [repeat]; [apply not_elem_of_nil|]. apply not_elem_of_cons. split; [by apply not_eq_sym | done]. Qed.

Lemma zlen_pad c w s : zlen (pad c w s) = Z.max w (zlen s).
Proof. unfold pad. rewrite zlen_app. unfold zlen at 1. rewrite repeat_length. zlen_pos. lia. Qed.

Lemma decimal_nul_free v : 0 <= v -> nul_free (decimal v).
Proof. intros Hv. unfold decimal. rewrite (proj2 (Z.ltb_ge v 0)) by lia. apply radix_nul_free. lia. Qed.

Lemma fmt_d_nul_free w v : 0 <= v -> nul_free (fmt_d w v).
Proof. intros Hv. apply nul_free_app. split; [by apply repeat_nul_free | by apply decimal_nul_free]. Qed.

Lemma fmt_0d_nul_free w v : 0 <= v -> nul_free (fmt_0d w v).
Proof.
  intros Hv. unfold fmt_0d. rewrite (proj2 (Z.ltb_ge v 0)) by lia.
  apply nul_free_app. split; [by apply repeat_nul_free | by apply decimal_nul_free].
Qed.

(** A broken-down time with a year of four digits. *)
Definition printable (t : tm) : Prop := valid_tm t /\ 1000 <= tm_year t + 1900 <= 9999.

Lemma fmt_tm_text t : printable t -> zlen (fmt_tm t) = 17 /\ nul_free (fmt_tm t).
Proof.
  intros [Hv Hy]. split; [apply (fmt_tm_fields t [] Hv Hy)|]. destruct Hv as [[Hm Hd] _ Hh Hmi Hs]. cbn [year month day] in *.
  unfold fmt_tm. rewrite !nul_free_app. split_and!; first [apply fmt_d_nul_free; lia | apply fmt_0d_nul_free; lia | by apply (bool_decide_unpack _)].
Qed.

Lemma formatted_nul_free us : 0 <= us -> four_digit_years (us / kMicroSecondsPerSecond) -> nul_free (formatted_text (utc_tm (us / kMicroSecondsPerSecond)) us true).
Proof.
  intros Hus Hs. destruct (micro_split us Hus) as (_ & Hr & _). unfold formatted_text, snprintf_text. cbn zeta in *.
  rewrite int32_id by lia. destruct (gmtime_four_digits _ Hs) as (Hv & _ & Hy).
  set (s := fmt_tm _ ++ _). apply (nul_free_app (ztake (32 - 1) s) (zdrop (32 - 1) s)). rewrite ztake_zdrop. subst s.
  rewrite !nul_free_app. split_and!; [by apply fmt_tm_text | by apply (bool_decide_unpack _) | apply fmt_0d_nul_free; lia].
Qed.

(** Times read back from their text. For every microsecond from 1970 to the
    end of 9998, [Timestamp::toString] names the seconds and microseconds,
    [toFormattedString] is 24 characters from which the same instant is read by
    columns (17 without the microseconds), and [Date::toIsoString] of its day
    is 10 characters that name the day. *)
Theorem time_text_roundtrip us : 0 <= us -> four_digit_years (us / kMicroSecondsPerSecond) ->
  read_timestamp (Timestamp_toString us) = Some us /\
  (exists s, Timestamp_toFormattedString us true = Ok s /\ zlen s = 24 /\ read_formatted s = Some us /\
     Timestamp_toFormattedString us false = Ok (ztake 17 s)) /\
  let n := us / kMicroSecondsPerSecond / kSecondsPerDay + kJulianDayOf1970 in
  exists s, Date_toIsoString n = Ok s /\ zlen s = 10 /\ read_iso s = Some n.
Proof.
  intros Hus Hs. unfold four_digit_years in *. split; [|split; [destruct (formatted_read us Hus Hs) as (H1 & H2 & H3); rewrite !toFormattedString_ok, H3 by done; eauto|]].
  - apply toString_read. unfold kMicroSecondsPerSecond in *. Z.to_euclidean_division_equations. lia.
  - apply iso_read. unfold kSecondsPerDay, kJulianDayOf1970, kMicroSecondsPerSecond in *. Z.to_euclidean_division_equations. lia.
Qed.

Module Example.
Lemma time_text_roundtrip_witness :
  Timestamp_toFormattedString 1400000000000042 true = Ok (lit "20140513 16:53:20.000042") /\
  read_timestamp (Timestamp_toString 1400000000000042) = Some 1400000000000042.
Proof.
  split; [vm_compute; reflexivity|]. apply (time_text_roundtrip 1400000000000042); [lia|].
  unfold four_digit_years, kMicroSecondsPerSecond. Z.to_euclidean_division_equations. lia.
Defined.

(** Before 1970 the remainder is negative and so is the numeral behind the point. *)
Example toString_before_1970 : Timestamp_toString (-1) = lit "0.-00001".
Proof. vm_compute. reflexivity. Qed.
End Example.
