(* ===== verification/LogFile.v ===== *)
(** * [muduo::LogFile] and [muduo::FileUtil::AppendFile]
      ([3rd_party/muduo/muduo/base/LogFile.{h,cc}], [FileUtil.{h,cc}])

    A log is a sequence of files. [AppendFile] hands lines to a stdio stream
    and asks again when the stream takes a part of them; [LogFile] starts a new
    file when the current one is full or a new day begins, and flushes now and
    then. The streams are a map from file names to what they have taken, with
    the part that has certainly reached the kernel. *)
From stdpp Require Import strings.
From S2P Require Import Prelude Date LogStream LogStreamProps TimeZone.

(** ** The operating system

    The results of the calls of [time], of [gettimeofday] (by the number of
    writes before it), of [fwrite_unlocked] (by the number of the call and the
    bytes offered) and of [fopen], and the identity of the process. *)
Class Os := {
  os_time : nat -> Z;
  os_timeofday : nat -> Z * Z;
  os_fwrite : nat -> Z -> Z;
  os_fopen : bytes -> bool;
  hostname : bytes;
  pid : Z;
}.

Record disk := mkDisk {
  files : gmap bytes bytes;     (** what the stream of each file has taken *)
  flushed : gmap bytes bytes;   (** what of it was flushed *)
  times : nat;                  (** calls of [time] so far *)
  writes : nat;                 (** calls of [fwrite_unlocked] so far *)
}.

Section logfile.
Context `{Os}.
Implicit Types (d : disk) (p : ptr) (len : Z).

Definition time d : Z * disk := (os_time (times d), mkDisk (files d) (flushed d) (S (times d)) (writes d)).

(** [fopen(name, "ae")] creates the file or goes on at its end. *)
Definition fopen (name : bytes) d : bool * disk :=
  (os_fopen name,
   if os_fopen name then mkDisk (<[name := default [] (files d !! name)]> (files d)) (flushed d) (times d) (writes d)
   else d).

Definition fflush (name : bytes) d : disk :=
  mkDisk (files d) (<[name := default [] (files d !! name)]> (flushed d)) (times d) (writes d).

Definition fwrite_unlocked (name : bytes) p len d : res (Z * disk) :=
  s ← ptr_read p len;
  let n := os_fwrite (writes d) len in
  Ok (n, mkDisk (<[name := default [] (files d !! name) ++ ztake n s]> (files d)) (flushed d) (times d) (S (writes d))).

(** ** AppendFile: the stream is named by its file *)
Record AppendFile := mkAppendFile { fp_ : bytes; writtenBytes_ : Z }.

Definition AppendFile_ctor (filename : bytes) d : res (AppendFile * disk) :=
  let '(opened, d) := fopen filename d in
  assert_ opened;;
  Ok (mkAppendFile filename 0, d).

(** [fclose] flushes. *)
Definition AppendFile_dtor (f : AppendFile) d : disk := fflush (fp_ f) d.

Definition write (f : AppendFile) p len d : res (Z * disk) := fwrite_unlocked (fp_ f) p len d.

(** The loop of [append]. Every pass that goes on writes at least a byte. *)
Fixpoint append_loop (fuel : nat) (f : AppendFile) p len (n : Z) d : res disk :=
  let remain := size_t (len - n) in
  if 0 <? remain then
    match fuel with
    | O => Fail FFuel
    | S fuel =>
        '(x, d) ← write f (ptr_add p n) remain d;
        if x =? 0 then Ok d else append_loop fuel f p len (n + x) d
    end
  else Ok d.

Definition AppendFile_append (f : AppendFile) p len d : res (AppendFile * disk) :=
  '(n, d) ← write f p len d;
  d ← append_loop (S (Z.to_nat len)) f p len n d;
  Ok (mkAppendFile (fp_ f) (swrap 64 (writtenBytes_ f + len)), d).

Definition AppendFile_flush (f : AppendFile) d : disk := fflush (fp_ f) d.

(** ** LogFile *)
Record LogFile := mkLogFile {
  basename_ : bytes;
  rollSize_ : Z;
  flushInterval_ : Z;
  checkEveryN_ : Z;
  count_ : Z;
  mutex_ : bool;
  startOfPeriod_ : Z;
  lastRoll_ : Z;
  lastFlush_ : Z;
  file_ : option AppendFile;
}.

Definition kRollPerSeconds_ : Z := 60 * 60 * 24.

Definition set_count (l : LogFile) (c : Z) : LogFile :=
  mkLogFile (basename_ l) (rollSize_ l) (flushInterval_ l) (checkEveryN_ l) c (mutex_ l)
    (startOfPeriod_ l) (lastRoll_ l) (lastFlush_ l) (file_ l).
Definition set_file (l : LogFile) (f : AppendFile) : LogFile :=
  mkLogFile (basename_ l) (rollSize_ l) (flushInterval_ l) (checkEveryN_ l) (count_ l) (mutex_ l)
    (startOfPeriod_ l) (lastRoll_ l) (lastFlush_ l) (Some f).
Definition set_lastFlush (l : LogFile) (t : Z) : LogFile :=
  mkLogFile (basename_ l) (rollSize_ l) (flushInterval_ l) (checkEveryN_ l) (count_ l) (mutex_ l)
    (startOfPeriod_ l) (lastRoll_ l) t (file_ l).
Definition set_roll (l : LogFile) (start now : Z) : LogFile :=
  mkLogFile (basename_ l) (rollSize_ l) (flushInterval_ l) (checkEveryN_ l) (count_ l) (mutex_ l)
    start now now (file_ l).

(** [%m], [%d], [%H], [%M], [%S] *)
Definition two_digits (n : Z) : bytes := [dec_chr (n / 10 mod 10); dec_chr (n mod 10)].

(** [strftime(timebuf, 32, ".%Y%m%d-%H%M%S.", &tm)]; a text that does not fit
    leaves the array undefined. *)
Definition strftime (t : tm) : res bytes :=
  let s := lit "." ++ decimal (tm_year t + 1900) ++ two_digits (tm_mon t + 1) ++ two_digits (tm_mday t) ++
    lit "-" ++ two_digits (tm_hour t) ++ two_digits (tm_min t) ++ two_digits (tm_sec t) ++ lit "." in
  check (zlen s <? 32) FBounds;; Ok s.

Definition log_name (basename timebuf : bytes) : bytes :=
  basename ++ timebuf ++ hostname ++ ztake 31 (lit "." ++ decimal pid) ++ lit ".log".

(** The name, [*now] and the rest of the world. *)
Definition getLogFileName (basename : bytes) d : res (bytes * Z * disk) :=
  let '(now, d) := time d in
  tm ← gmtime_r now;
  timebuf ← strftime tm;
  Ok (log_name basename timebuf, now, d).

Definition rollFile (l : LogFile) d : res (bool * LogFile * disk) :=
  '(filename, now, d) ← getLogFileName (basename_ l) d;
  let start := Z.quot now kRollPerSeconds_ * kRollPerSeconds_ in
  if lastRoll_ l <? now then
    '(f, d) ← AppendFile_ctor filename d;
    let d := match file_ l with Some old => AppendFile_dtor old d | None => d end in
    Ok (true, set_file (set_roll l start now) f, d)
  else Ok (false, l, d).

Definition LogFile_ctor (basename : bytes) (rollSize : Z) (threadSafe : bool) (flushInterval checkEveryN : Z) d
    : res (LogFile * disk) :=
  let l := mkLogFile basename rollSize flushInterval checkEveryN 0 threadSafe 0 0 0 None in
  assert_ (negb (bool_decide (Byte.x2f ∈ basename)));;
  '(_, l, d) ← rollFile l d;
  Ok (l, d).

Definition LogFile_dtor (l : LogFile) d : disk :=
  match file_ l with Some f => AppendFile_dtor f d | None => d end.

Definition append_unlocked (l : LogFile) p len d : res (LogFile * disk) :=
  match file_ l with
  | None => Fail FBounds
  | Some f =>
      '(f, d) ← AppendFile_append f p len d;
      let l := set_file l f in
      if rollSize_ l <? writtenBytes_ f then '(_, l, d) ← rollFile l d; Ok (l, d)
      else
        c ← int_ (count_ l + 1);
        let l := set_count l c in
        if checkEveryN_ l <=? count_ l then
          let l := set_count l 0 in
          let '(now, d) := time d in
          let thisPeriod_ := Z.quot now kRollPerSeconds_ * kRollPerSeconds_ in
          if negb (thisPeriod_ =? startOfPeriod_ l) then '(_, l, d) ← rollFile l d; Ok (l, d)
          else
            since ← time_ (now - lastFlush_ l);
            if flushInterval_ l <? since then Ok (set_lastFlush l now, AppendFile_flush f d) else Ok (l, d)
        else Ok (l, d)
  end.

(** [append] and [flush]; with a mutex they run as one critical section, without
    one the object belongs to one thread. *)
Definition LogFile_append (l : LogFile) p len d : res (LogFile * disk) := append_unlocked l p len d.

Definition LogFile_flush (l : LogFile) d : res disk :=
  match file_ l with None => Fail FBounds | Some f => Ok (AppendFile_flush f d) end.
End logfile.
