(* ===== verification/LogFileProps.v ===== *)
(** * Log files: nothing is lost, files are bounded

    The log as the sequence of its files, each with the time it was opened at
    and the lines it holds; every operation of [LogFile] keeps the disk equal
    to this sequence. *)
From stdpp Require Import strings sorting.
From S2P Require Import Prelude Date LogStream LogStreamProps TimeZone TimeZoneProps LogFile.

(** ** File names *)
Lemma two_digits_inj m n : 0 <= m < 100 -> 0 <= n < 100 -> two_digits m = two_digits n -> m = n.
Proof.
  intros Hm Hn [= H1 H2]. apply (f_equal dec_digit) in H1, H2.
  rewrite !dec_digit_chr in H1, H2 by (Z.to_euclidean_division_equations; lia).
  injection H1 as H1. injection H2 as H2. Z.to_euclidean_division_equations. lia.
Qed.

Lemma decimal_inj m n : machine_int m -> machine_int n -> decimal m = decimal n -> m = n.
Proof.
  intros Hm Hn E. apply (f_equal read_decimal) in E. rewrite !read_decimal_decimal in E by done. by injection E.
Qed.

(** Readings of the clock for which the calendar formulas do not overflow. *)
Definition clock_ok (t : Z) : Prop := 0 < t /\ in_range t.

Lemma gmtime_fields t : clock_ok t -> let u := utc_tm t in
  timegm u = t /\ -4800 < tm_year u + 1900 < 1400000 /\ 0 <= tm_mon u + 1 < 100 /\ 0 <= tm_mday u < 100 /\
  0 <= tm_hour u < 100 /\ 0 <= tm_min u < 100 /\ 0 <= tm_sec u < 100.
Proof.
  intros [_ [Hl Hu]] u. destruct (gmtime_valid t Hl) as [[Hg Hy Hh Hmi Hs] Ht]. fold u in Hg, Hy, Ht, Hh, Hmi, Hs.
  split; [done|]. split.
  - split; [done|]. destruct (julian_surj _ Hl) as (d & Hd & Hyd & Hj). subst u. unfold utc_tm.
    rewrite <- Hj, civil_julian by done. cbn [tm_year]. assert (year d < 1400000) by (apply julian_year; [done..|lia]). lia.
  - destruct Hg as [Hm Hd]. cbn [year month day] in Hm, Hd. unfold days_in_month in Hd.
    assert (tm_mday u <= 31) by (repeat case_match; lia). lia.
Qed.

Lemma clock_gmtime t : clock_ok t -> gmtime_r t = Ok (utc_tm t).
Proof.
  intros [? [_ ?]]. apply gmtime_r_ok. unfold last_day, kSecondsPerDay, kJulianDayOf1970 in *. Z.to_euclidean_division_equations. lia.
Qed.

Lemma strftime_fits t : clock_ok t -> exists s, strftime (utc_tm t) = Ok s.
Proof.
  intros (_ & Hy & _)%gmtime_fields. cbn zeta in Hy. unfold strftime. cbn zeta.
  assert (zlen (decimal (tm_year (utc_tm t) + 1900)) <= 8).
  { unfold decimal. rewrite zlen_app.
    assert (zlen (radix 10 dec_chr digit_fuel (Z.abs (tm_year (utc_tm t) + 1900))) <= 7)
      by (apply (radix_zlen 10 dec_chr); [lia | lia | change (10 ^ 7) with 10000000; lia]).
    case_match; autorewrite with zlen; lia. }
  unfold check. rewrite (proj2 (Z.ltb_lt _ _)); [by eexists|]. zlen_pos. unfold two_digits.
  rewrite !zlen_app, !zlen_cons. change (zlen (lit ".")) with 1. change (zlen (lit "-")) with 1. change (zlen (@nil byte)) with 0. lia.
Qed.

Lemma strftime_inj t1 t2 s : clock_ok t1 -> clock_ok t2 ->
  strftime (utc_tm t1) = Ok s -> strftime (utc_tm t2) = Ok s -> t1 = t2.
Proof.
  intros (T1 & Hy1 & Hf1)%gmtime_fields (T2 & Hy2 & Hf2)%gmtime_fields. unfold strftime. cbn zeta.
  revert T1 Hy1 Hf1 T2 Hy2 Hf2. generalize (utc_tm t1) (utc_tm t2). intros u1 u2 T1 Hy1 Hf1 T2 Hy2 Hf2.
  intros (_ & _ & [= <-])%bind_inv (_ & _ & [= E])%bind_inv.
  apply app_inj_2 in E as [Ey E]; [|done].
  apply decimal_inj in Ey; [|unfold machine_int; lia..].
  injection E.
  intros S0 S1 M0 M1 H0 H1 D0 D1 N0 N1.
  assert (two : forall m n, dec_chr (m / 10 mod 10) = dec_chr (n / 10 mod 10) -> dec_chr (m mod 10) = dec_chr (n mod 10) ->
    0 <= m < 100 -> 0 <= n < 100 -> m = n) by (intros m n E1 E2 Hm Hn; apply two_digits_inj; unfold two_digits; congruence).
  apply (fun E => two _ _ E N0) in N1; [|lia..]. apply (fun E => two _ _ E D0) in D1; [|lia..].
  apply (fun E => two _ _ E H0) in H1; [|lia..]. apply (fun E => two _ _ E M0) in M1; [|lia..].
  apply (fun E => two _ _ E S0) in S1; [|lia..].
  rewrite <- T1, <- T2. unfold timegm. congruence.
Qed.

(** ** What the operating system promises

    The clock shows a time of the calendar and [fwrite] takes a part, possibly
    nothing, of what it is offered. *)
Class OsOk (O : Os) : Prop := {
  ok_time k : clock_ok (os_time k);
  ok_fwrite k m : 0 <= m -> 0 <= os_fwrite k m <= m;
}.

(** A system without errors of the disk: files can be opened, and [fwrite]
    takes at least a byte of what it is offered. *)
Class OsHealthy (O : Os) : Prop := {
  #[global] healthy_ok :: OsOk O;
  healthy_fwrite k m : 0 < m -> 0 < os_fwrite k m;
  healthy_fopen name : os_fopen name = true;
}.

Lemma ptr_read_part p len s n k : ptr_read p len = Ok s -> 0 <= n -> 0 <= k -> n + k <= len ->
  ptr_read (ptr_add p n) k = Ok (ztake k (zdrop n s)).
Proof.
  intros E Hn Hk Hl. unfold ptr_read in E. destruct (Z.eqb_spec len 0) as [->|].
  - replace k with 0 by lia. done.
  - destruct p as [|blk off]; [done|]. apply vec_read_inv in E as (Ho & _ & Hb & ->). cbn [ptr_add].
    rewrite ptr_read_ok by lia. rewrite zdrop_ztake, zdrop_zdrop, ztake_ztake by lia. done.
Qed.

Section append.
Context {O : Os} {ok : OsOk O}.
Implicit Types (d : disk) (p : ptr) (len : Z).

(** ** What an [append] leaves in the stream, with any [fwrite] *)
Lemma write_part f p len s n d c : ptr_read p len = Ok s -> 0 <= n <= len -> files d !! fp_ f = Some c ->
  let x := os_fwrite (writes d) (len - n) in
  exists d', write f (ptr_add p n) (len - n) d = Ok (x, d') /\ 0 <= x <= len - n /\ writes d' = S (writes d) /\
    files d' = <[fp_ f := c ++ ztake x (zdrop n s)]> (files d) /\ flushed d' = flushed d /\ times d' = times d.
Proof using ok.
  intros Hp Hn Hf x. unfold write, fwrite_unlocked. rewrite (ptr_read_part p len s) by (done || lia). cbn [mbind res_bind].
  eexists. split; [reflexivity|]. pose proof (ok_fwrite (writes d) (len - n) ltac:(lia)) as Hx.
  split; [exact Hx|]. split; [done|]. cbn [files flushed times]. rewrite Hf.
  split; [|done]. cbn [default from_option id]. by rewrite ztake_ztake by lia.
Qed.

(** The loop stops at the end of the line, or at a write that takes nothing. *)
Lemma append_loop_part fuel f p len s n d c : ptr_read p len = Ok s -> 0 <= n <= len -> len < 2 ^ 64 ->
  files d !! fp_ f = Some c -> (Z.to_nat (len - n) < fuel)%nat ->
  exists d' m, append_loop fuel f p len n d = Ok d' /\ n <= m <= len /\
    (m < len -> exists k, (writes d <= k < writes d')%nat /\ os_fwrite k (len - m) = 0) /\
    files d' = <[fp_ f := c ++ ztake (m - n) (zdrop n s)]> (files d) /\ flushed d' = flushed d /\ times d' = times d.
Proof using ok.
  intros Hp. destruct (ptr_read_len _ _ _ Hp) as [Hs _]. revert n d c.
  induction fuel as [|fuel IH]; intros n d c Hn Hl Hf Hfuel; [lia|]. cbn [append_loop]. rewrite size_t_id by lia.
  case_cmp.
  - destruct (write_part f p len s n d c Hp Hn Hf) as (d1 & -> & Hx & Hw1 & Hd1 & Hfl1 & Ht1). cbn [mbind res_bind].
    destruct (Z.eqb_spec (os_fwrite (writes d) (len - n)) 0) as [Hx0|Hx0].
    { exists d1, n. rewrite Hx0 in Hd1. rewrite Z.sub_diag. split_and!; try done; [lia|].
      intros _. exists (writes d). rewrite Hw1. by split; [lia|]. }
    set (x := os_fwrite _ _) in *.
    destruct (IH (n + x) d1 (c ++ ztake x (zdrop n s))) as (d2 & m & -> & Hm & Hz & Hd2 & Hfl2 & Ht2);
      [lia | lia | by rewrite Hd1, lookup_insert_eq | lia |].
    exists d2, m. split; [done|]. split; [lia|]. split.
    { intros (k & Hk & E)%Hz. exists k. split; [lia | done]. }
    rewrite Hd2, Hd1, insert_insert_eq, <- app_assoc.
    replace (m - n) with (x + (m - (n + x))) by lia. rewrite ztake_zdrop_split by lia.
    rewrite zdrop_zdrop by lia. split; [done | by rewrite Hfl2, Ht2].
  - exists d, n. rewrite Z.sub_diag. cbn. split_and!; try done; [lia | lia|]. by rewrite app_nil_r, insert_id.
Qed.

(** [append] always returns and stores a prefix of the line; the rest is lost,
    and counted as written, when a write after the first takes nothing. *)
Lemma AppendFile_append_prefix f p len s d c : ptr_read p len = Ok s -> len < 2 ^ 63 -> files d !! fp_ f = Some c ->
  exists d' m, AppendFile_append f p len d = Ok (mkAppendFile (fp_ f) (swrap 64 (writtenBytes_ f + len)), d') /\ 0 <= m <= len /\
    (m < len -> exists k, (writes d < k < writes d')%nat /\ os_fwrite k (len - m) = 0) /\
    files d' = <[fp_ f := c ++ ztake m s]> (files d) /\ flushed d' = flushed d /\ times d' = times d.
Proof using ok.
  intros Hp Hl Hf. destruct (ptr_read_len _ _ _ Hp) as [Hs H0]. unfold AppendFile_append.
  destruct (write_part f p len s 0 d c Hp ltac:(lia) Hf) as (d1 & E & Hx & Hw1 & Hd1 & Hfl1 & Ht1).
  assert (ptr_add p 0 = p) as Ep by (destruct p; cbn [ptr_add]; [done | by rewrite Z.add_0_r]).
  rewrite Ep, Z.sub_0_r in *. rewrite E. cbn [mbind res_bind]. set (x := os_fwrite _ _) in *.
  destruct (append_loop_part (S (Z.to_nat len)) f p len s x d1 (c ++ ztake x s)) as (d2 & m & -> & Hm & Hz & Hd2 & Hfl2 & Ht2);
    [done | lia | lia | by rewrite Hd1, lookup_insert_eq, zdrop_0 | lia |].
  exists d2, m. split; [done|]. split; [lia|]. split.
  { intros (k & Hk & Ek)%Hz. exists k. split; [lia | done]. }
  rewrite Hd2, Hd1, insert_insert_eq, <- app_assoc.
  replace (ztake m s) with (ztake (x + (m - x)) s) by (f_equal; lia). rewrite ztake_zdrop_split by lia. by rewrite Hfl2, Ht2.
Qed.
End append.

Section log.
Context {O : Os} {ok : OsHealthy O}.
Implicit Types (l : LogFile) (d : disk) (p : ptr) (len t : Z).

(** ** A line is written as a whole *)
Lemma AppendFile_append_all f p len s d c : ptr_read p len = Ok s -> len < 2 ^ 63 -> files d !! fp_ f = Some c ->
  exists d', AppendFile_append f p len d = Ok (mkAppendFile (fp_ f) (swrap 64 (writtenBytes_ f + len)), d') /\
    files d' = <[fp_ f := c ++ s]> (files d) /\ flushed d' = flushed d /\ times d' = times d.
Proof using ok.
  intros Hp Hl Hf. destruct (ptr_read_len _ _ _ Hp) as [Hs H0].
  destruct (AppendFile_append_prefix f p len s d c Hp Hl Hf) as (d' & m & -> & Hm & Hz & Hd & Hr).
  exists d'. split; [done|]. assert (m = len) as ->.
  { destruct (decide (m < len)) as [(k & _ & E)%Hz|]; [|lia]. pose proof (healthy_fwrite k (len - m)). lia. }
  by rewrite ztake_all in Hd by lia.
Qed.

(** ** The log as a sequence of files

    A file is the time it was opened at and its lines; the newest file is first.
    [base] is the name of the log, [size] the size at which it is rolled, and
    [files0] are the other files of the directory. *)
Abbreviation file := (Z * list bytes)%type.

Section invariant.
Context (base : bytes) (size : Z) (files0 : gmap bytes bytes).

Definition name (t : Z) : bytes :=
  match strftime (utc_tm t) with Ok s => log_name base s | Fail _ => [] end.

Definition entry (f : file) : bytes * bytes := (name f.1, concat f.2).

(** The log writes no file that was there before it. *)
Definition fresh_names : Prop := forall t, clock_ok t -> files0 !! name t = None.

(** All lines but the last fit into the size limit. *)
Definition within (ls : list bytes) : Prop := forall front line, ls = front ++ [line] -> zlen (concat front) <= size.

(** The clock has shown a new second in each of the first [n] readings. *)
Definition clock_advances (n : nat) : Prop := (forall k, (k < n)%nat -> os_time k < os_time (S k)) /\ 0 <= size.

Record log_inv l d (cur : file) (older : list file) : Prop := {
  li_base : basename_ l = base;
  li_size : rollSize_ l = size;
  li_file : file_ l = Some (mkAppendFile (name cur.1) (zlen (concat cur.2)));
  li_last : lastRoll_ l = cur.1;
  li_flush : clock_ok (lastFlush_ l);
  li_count : 0 <= count_ l < 2 ^ 31 - 1 /\ checkEveryN_ l < 2 ^ 31 /\ (count_ l = 0 \/ count_ l < checkEveryN_ l);
  li_clock : Forall clock_ok (cur :: older).*1;
  li_sorted : StronglySorted Z.gt (cur :: older).*1;
  li_files : files d = list_to_map (entry <$> cur :: older) ∪ files0;
  li_closed : Forall (fun f => flushed d !! name f.1 = Some (concat f.2)) older;
  li_bound : clock_advances (times d) -> cur.1 < os_time (times d) /\ Forall (fun f => within f.2) (cur :: older);
}.

(** The newest file is not over the limit. *)
Definition room d (cur : file) : Prop := clock_advances (times d) -> zlen (concat cur.2) <= size.

Lemma name_inj t1 t2 : clock_ok t1 -> clock_ok t2 -> name t1 = name t2 -> t1 = t2.
Proof using.
  intros H1 H2. destruct (strftime_fits _ H1) as [s1 E1], (strftime_fits _ H2) as [s2 E2]. unfold name. rewrite E1, E2.
  unfold log_name. intros E%app_inv_head.
  apply app_inv_tail in E as ->. by apply (strftime_inj t1 t2 s2).
Qed.

Lemma fresh_file_name l d cur older t : log_inv l d cur older -> clock_ok t -> cur.1 < t ->
  Forall (fun f => name f.1 <> name t) (cur :: older).
Proof using.
  intros [_ _ _ _ _ _ Hc Hs _ _ _] Ht Hlt. rewrite fmap_cons in Hs, Hc. apply StronglySorted_inv in Hs as [_ Hs].
  apply Forall_forall. intros f Hf E. apply Forall_cons in Hc as [Hc1 Hc].
  apply elem_of_cons in Hf as [->|Hf].
  - apply name_inj in E; [lia | done..].
  - rewrite Forall_fmap, Forall_forall in Hs, Hc. specialize (Hs _ Hf). specialize (Hc _ Hf). cbn in Hs, Hc.
    apply name_inj in E; [lia | done..].
Qed.

Lemma current_stream l d cur older : log_inv l d cur older -> files d !! name cur.1 = Some (concat cur.2).
Proof using.
  intros H. rewrite (li_files _ _ _ _ H), fmap_cons. cbn [list_to_map foldr curry entry fst snd].
  rewrite <- insert_union_l. apply lookup_insert_eq.
Qed.

Lemma within_snoc ls x : zlen (concat ls) <= size -> within (ls ++ [x]).
Proof using. intros H front line [-> _]%app_inj_tail. done. Qed.

Lemma within_nil : within [].
Proof using. by intros [|] ? ?. Qed.

Lemma advances_mono m n : (m <= n)%nat -> clock_advances n -> clock_advances m.
Proof using. intros Hm [Ha H0]. split; [|done]. intros k Hk. apply Ha. lia. Qed.

Definition tick d : disk := mkDisk (files d) (flushed d) (S (times d)) (writes d).

Lemma tick_inv l d cur older : log_inv l d cur older -> log_inv l (tick d) cur older.
Proof using.
  intros [? ? ? ? ? ? ? ? ? ? Hb]. split; try done. intros Ha. destruct (Hb (advances_mono _ _ (Nat.le_succ_diag_r _) Ha)).
  split; [|done]. cbn [tick times] in *. destruct Ha as [Ha _]. specialize (Ha (times d)). lia.
Qed.

(** A new file, when the clock has moved on since the last one. *)
Lemma rollFile_inv l d cur older : fresh_names -> log_inv l d cur older -> exists b l' d', rollFile l d = Ok (b, l', d') /\
  (cur.1 < os_time (times d) /\ log_inv l' d' (os_time (times d), []) (cur :: older) \/
   os_time (times d) <= cur.1 /\ l' = l /\ d' = tick d /\ log_inv l' d' cur older).
Proof using ok.
  intros Hfr Hi. pose proof (ok_time (times d)) as Hnow. set (now := os_time (times d)) in *.
  destruct (strftime_fits _ Hnow) as [s Es]. unfold rollFile, getLogFileName. cbn [time fst snd]. fold now.
  rewrite clock_gmtime by done. cbn [mbind res_bind]. rewrite Es. cbn [mbind res_bind]. fold (tick d). rewrite (li_last _ _ _ _ Hi), (li_base _ _ _ _ Hi).
  assert (name now = log_name base s) as Hname by (unfold name; by rewrite Es). rewrite <- Hname.
  case_cmp; [|do 3 eexists; split; [reflexivity|]; right; split; [lia|]; split_and!; [done | done | by apply tick_inv]].
  unfold AppendFile_ctor, fopen. rewrite healthy_fopen. cbn [assert_ check mbind res_bind].
  pose proof (fresh_file_name _ _ _ _ now Hi Hnow ltac:(done)) as Hnew. destruct Hi as [Hb Hsz Hf Hl Hfl Hc Hck Hso Hfi Hcl Hbd].
  do 3 eexists; split; [reflexivity|]. left. split; [done|]. rewrite Hf. unfold AppendFile_dtor. cbn [fp_].
  assert (Hno : files d !! name now = None).
  { rewrite Hfi. apply lookup_union_None_2; [|by apply Hfr]. apply not_elem_of_list_to_map_1. intros Hin.
    apply list_elem_of_fmap in Hin as ((n & c) & E & Hin). apply list_elem_of_fmap in Hin as (f & E' & Hin).
    rewrite Forall_forall in Hnew. apply (Hnew f Hin). injection E' as -> ->. by symmetry. }
  unfold fflush, tick. cbn [files flushed times writes]. rewrite Hno. cbn [default from_option id].
  apply Forall_cons in Hnew as [Hnew1 Hnew]. rewrite lookup_insert_ne by (by apply not_eq_sym).
  assert (Hcur : files d !! name cur.1 = Some (concat cur.2)) by (eapply current_stream; by split).
  rewrite Hcur. split; try done.
  - rewrite fmap_cons. by apply Forall_cons.
  - rewrite fmap_cons. apply SSorted_cons; [done|]. rewrite fmap_cons in *. apply Forall_cons.
    apply StronglySorted_inv in Hso as [_ Hso]. split; [cbn; lia|]. eapply Forall_impl; [exact Hso|]. intros x Hx. cbn in *. lia.
  - cbn [files]. rewrite (fmap_cons _ (now, [])). cbn [list_to_map foldr curry entry fst snd concat].
    rewrite <- insert_union_l, <- Hfi. done.
  - cbn [flushed]. apply Forall_cons. split; [apply lookup_insert_eq|].
    rewrite fmap_cons in Hso, Hck. apply StronglySorted_inv in Hso as [_ Hso]. apply Forall_cons in Hck as [Hck1 Hck].
    rewrite Forall_fmap in Hso, Hck. rewrite Forall_forall in *. intros f Hin. rewrite lookup_insert_ne; [by apply Hcl|].
    intros E. specialize (Hso f Hin). specialize (Hck f Hin). cbn in Hso, Hck. apply name_inj in E; [lia | done..].
  - intros Ha. destruct (Hbd (advances_mono _ _ (Nat.le_succ_diag_r _) Ha)) as [_ Hw]. cbn [times fst] in *.
    destruct Ha as [Ha H0]. split; [apply Ha; lia|].
    apply Forall_cons. split; [apply within_nil | done].
Qed.

Lemma set_count_inv l d cur older c : log_inv l d cur older -> 0 <= c < 2 ^ 31 - 1 -> c = 0 \/ c < checkEveryN_ l ->
  log_inv (set_count l c) d cur older.
Proof using. intros [? ? ? ? ? Hc ? ? ? ? ?] H1 H2. split; try done. cbn [set_count count_ checkEveryN_]. tauto. Qed.

Lemma fflush_inv l d cur older : log_inv l d cur older -> log_inv l (fflush (name cur.1) d) cur older.
Proof using.
  intros [? ? ? ? ? ? Hck Hso ? Hcl ?]. split; try done. cbn [fflush flushed].
  rewrite fmap_cons in Hso, Hck. apply StronglySorted_inv in Hso as [_ Hso]. apply Forall_cons in Hck as [Hck1 Hck].
  rewrite Forall_fmap in Hso, Hck. rewrite Forall_forall in *. intros f Hin. rewrite lookup_insert_ne; [by apply Hcl|].
  intros E. specialize (Hso f Hin). specialize (Hck f Hin). cbn in Hso, Hck. apply name_inj in E; [lia | done..].
Qed.

Lemma set_lastFlush_inv l d cur older t : clock_ok t -> log_inv l d cur older -> log_inv (set_lastFlush l t) d cur older.
Proof using. intros Ht []. by split. Qed.

Lemma write_line l d cur older p len s : log_inv l d cur older -> room d cur ->
  ptr_read p len = Ok s -> zlen (concat cur.2) + len < 2 ^ 63 ->
  exists f d', AppendFile_append (mkAppendFile (name cur.1) (zlen (concat cur.2))) p len d = Ok (f, d') /\
    writtenBytes_ f = zlen (concat (cur.2 ++ [s])) /\ times d' = times d /\
    log_inv (set_file l f) d' (cur.1, cur.2 ++ [s]) older.
Proof using ok.
  intros Hi Hr Hp Hl. pose proof (current_stream _ _ _ _ Hi) as Hcur. destruct (ptr_read_len _ _ _ Hp) as [Hs H0].
  pose proof (zlen_nonneg (concat cur.2)). set (f := mkAppendFile _ _).
  destruct (AppendFile_append_all f p len s d (concat cur.2) Hp ltac:(lia) Hcur) as (d' & -> & Hd' & Hfl & Ht).
  assert (Hw : swrap 64 (writtenBytes_ f + len) = zlen (concat (cur.2 ++ [s]))).
  { subst f. cbn [writtenBytes_]. rewrite swrap_id by (unfold in_s; lia). rewrite concat_app. cbn [concat].
    rewrite app_nil_r, zlen_app. lia. }
  rewrite Hw. do 2 eexists. split; [reflexivity|]. split; [done|]. split; [done|].
  destruct Hi as [Hb Hsz Hf Hla Hlf Hc Hck Hso Hfi Hcl Hbd]. split; try done.
  - rewrite Hd', Hfi, !fmap_cons. cbn [list_to_map foldr curry entry fst snd].
    rewrite <- !insert_union_l. subst f. cbn [fp_]. rewrite insert_insert_eq, concat_app. cbn [concat]. by rewrite app_nil_r.
  - by rewrite Hfl.
  - rewrite Ht. intros Ha. destruct (Hbd Ha) as [Hlt Hw']. split; [done|]. apply Forall_cons in Hw' as [_ Hw'].
    apply Forall_cons. split; [|done]. apply within_snoc. by apply Hr.
Qed.

(** The file an operation leaves a line in: the newest one, which may then be
    closed. *)
Definition log_after l d cur older : Prop :=
  (log_inv l d cur older /\ room d cur) \/ exists t, log_inv l d (t, []) (cur :: older) /\ room d (t, []).

Lemma room_nil d t : room d (t, []).
Proof using. by intros [_ H]. Qed.

Lemma roll_after l d cur older : fresh_names -> log_inv l d cur older ->
  exists b l' d', rollFile l d = Ok (b, l', d') /\ log_after l' d' cur older.
Proof using ok.
  intros Hfr Hi. destruct (rollFile_inv l d cur older Hfr Hi) as (b & l' & d' & E & [[Hlt H]|(Hle & -> & -> & H)]);
    do 3 eexists; (split; [exact E|]).
  - right. eexists. split; [exact H | apply room_nil].
  - left. split; [done|]. intros Ha. destruct (li_bound _ _ _ _ Hi (advances_mono _ _ (Nat.le_succ_diag_r _) Ha)). lia.
Qed.

Lemma clock_difference a b : clock_ok a -> clock_ok b -> time_ (a - b) = Ok (a - b).
Proof using.
  intros [Ha [_ Ha']] [Hb [_ Hb']]. apply time_ok. unfold last_day, kJulianDayOf1970, kSecondsPerDay in *.
  Z.to_euclidean_division_equations. lia.
Qed.

Lemma append_after l d cur older p len s : fresh_names -> log_inv l d cur older -> room d cur ->
  ptr_read p len = Ok s -> zlen (concat cur.2) + len < 2 ^ 63 ->
  exists l' d', LogFile_append l p len d = Ok (l', d') /\ log_after l' d' (cur.1, cur.2 ++ [s]) older.
Proof using ok.
  intros Hfr Hi Hr Hp Hl. unfold LogFile_append, append_unlocked. rewrite (li_file _ _ _ _ Hi).
  destruct (write_line l d cur older p len s Hi Hr Hp Hl) as (f & d1 & -> & Hw & Ht & Hi1). cbn [mbind res_bind].
  rewrite (li_size _ _ _ _ Hi1), Hw. set (cur' := (cur.1, cur.2 ++ [s])) in *.
  change (count_ (set_file l f)) with (count_ l). case_cmp.
  { destruct (roll_after _ _ _ _ Hfr Hi1) as (b & l2 & d2 & -> & Ha). cbn [mbind res_bind]. eauto. }
  assert (Hr' : forall e, room e cur') by (intros e _; done). pose proof (li_count _ _ _ _ Hi1) as Hc. change (count_ (set_file l f)) with (count_ l) in Hc.
  unfold int_. rewrite bool_decide_eq_true_2 by lia. cbn [mbind res_bind set_count set_file checkEveryN_ count_].
  fold (set_count (set_file l f) (count_ l + 1)). change (checkEveryN_ (set_file l f)) with (checkEveryN_ l) in Hc. case_cmp.
  2: { do 2 eexists; split; [reflexivity|]. left. split; [|done]. apply set_count_inv; [done | lia | right; done]. }
  assert (Hi2 : log_inv (set_count (set_file l f) 0) (tick d1) cur' older)
    by (apply set_count_inv; [by apply tick_inv | lia | by left]).
  cbn [time]. fold (tick d1). change (set_count (set_count (set_file l f) (count_ l + 1)) 0) with (set_count (set_file l f) 0).
  case_match eqn:Eday.
  { destruct (roll_after _ _ _ _ Hfr Hi2) as (b & l2 & d2 & -> & Ha). cbn [mbind res_bind]. eauto. }
  rewrite clock_difference by (apply ok_time || apply (li_flush _ _ _ _ Hi)). cbn [mbind res_bind].
  case_match; (do 2 eexists; split; [reflexivity|]; left; split; [|done]); [|done].
  apply set_lastFlush_inv; [apply ok_time|]. assert (fp_ f = name cur'.1) as Hf by (pose proof (li_file _ _ _ _ Hi1) as E; injection E as ->; done).
  unfold AppendFile_flush. rewrite Hf. by apply fflush_inv.
Qed.

Lemma flush_now l d cur older : log_inv l d cur older -> exists d', LogFile_flush l d = Ok d' /\ log_inv l d' cur older /\ times d' = times d /\
  Forall (fun f => flushed d' !! name f.1 = Some (concat f.2)) (cur :: older).
Proof using.
  intros Hi. unfold LogFile_flush. rewrite (li_file _ _ _ _ Hi). eexists. split; [reflexivity|].
  unfold AppendFile_flush. cbn [fp_]. pose proof (fflush_inv _ _ _ _ Hi) as Hi'. split; [done|]. split; [done|].
  apply Forall_cons. split; [|apply (li_closed _ _ _ _ Hi')]. cbn [fflush flushed].
  by rewrite lookup_insert_eq, (current_stream _ _ _ _ Hi).
Qed.

Lemma LogFile_ctor_inv d threadSafe flushInterval checkEveryN : fresh_names -> files d = files0 -> Byte.x2f ∉ base -> checkEveryN < 2 ^ 31 ->
  exists l d', LogFile_ctor base size threadSafe flushInterval checkEveryN d = Ok (l, d') /\
    log_inv l d' (os_time (times d), []) [] /\ room d' (os_time (times d), []).
Proof using ok.
  intros Hfr Hd Hb Hn. pose proof (ok_time (times d)) as Hnow. destruct (strftime_fits _ Hnow) as [s Es].
  unfold LogFile_ctor, rollFile, getLogFileName. rewrite bool_decide_eq_false_2 by done.
  cbn [time basename_ lastRoll_ file_ negb assert_ check mbind res_bind]. rewrite clock_gmtime by done. cbn [mbind res_bind]. rewrite Es. cbn [mbind res_bind].
  assert (name (os_time (times d)) = log_name base s) as Hname by (unfold name; by rewrite Es). rewrite <- Hname.
  rewrite (proj2 (Z.ltb_lt _ _)) by (by destruct Hnow). unfold AppendFile_ctor, fopen. rewrite healthy_fopen.
  cbn [assert_ check mbind res_bind files flushed times writes]. do 2 eexists. split; [reflexivity|]. split; [|apply room_nil].
  rewrite Hd, (Hfr _ Hnow). split; try done.
  - split; cbn; lia.
  - by apply Forall_singleton.
  - repeat constructor.
  - rewrite fmap_cons. cbn [files list_to_map foldr curry entry fst snd concat fmap list_fmap].
    by rewrite <- insert_union_l, (left_id_L ∅ _).
  - intros [Ha _]. split; [apply Ha; cbn; lia|]. apply Forall_singleton, within_nil.
Qed.
End invariant.

(** ** Programs of calls *)
Inductive op := OAppend (p : ptr) (len : Z) | OFlush | ORoll.

Definition call (o : op) l d : res (LogFile * disk) :=
  match o with
  | OAppend p len => LogFile_append l p len d
  | OFlush => d ← LogFile_flush l d; Ok (l, d)
  | ORoll => '(_, l, d) ← rollFile l d; Ok (l, d)
  end.

Fixpoint calls (os : list op) l d : res (LogFile * disk) :=
  match os with
  | [] => Ok (l, d)
  | o :: os => '(l, d) ← call o l d; calls os l d
  end.

(** The line of a call; the memory it points at is readable. *)
Definition line_of (o : op) : list bytes :=
  match o with OAppend p len => match ptr_read p len with Ok s => [s] | Fail _ => [] end | _ => [] end.
Definition good_op (o : op) : Prop :=
  match o with OAppend p len => is_ok (ptr_read p len) | _ => True end.

(** The lines of a log, oldest first. *)
Definition log_lines (log : list file) : list bytes := concat log.*2.

Lemma log_lines_snoc log f : log_lines (log ++ [f]) = log_lines log ++ f.2.
Proof using. unfold log_lines. rewrite fmap_app, concat_app. cbn. by rewrite app_nil_r. Qed.

Section programs.
Context (base : bytes) (size : Z) (files0 : gmap bytes bytes) (Hfr : fresh_names base files0).

Lemma log_after_lines l d cur older : log_after base size files0 l d cur older ->
  exists cur' older', log_inv base size files0 l d cur' older' /\ room size d cur' /\
    log_lines (rev (cur' :: older')) = log_lines (rev (cur :: older)).
Proof using.
  intros [[Hi Hr]|(t & Hi & Hr)]; do 2 eexists; (split; [exact Hi|]); (split; [exact Hr|]); [done|].
  cbn [rev]. by rewrite (log_lines_snoc _ (t, [])), app_nil_r.
Qed.

Lemma call_inv o l d cur older : log_inv base size files0 l d cur older -> room size d cur -> good_op o ->
  zlen (concat cur.2) + zlen (concat (line_of o)) < 2 ^ 63 ->
  exists l' d' cur' older', call o l d = Ok (l', d') /\ log_inv base size files0 l' d' cur' older' /\ room size d' cur' /\
    log_lines (rev (cur' :: older')) = log_lines (rev (cur :: older)) ++ line_of o.
Proof using ok Hfr.
  intros Hi Hr Hg Hl. destruct o as [p len| |]; cbn [call line_of good_op] in *.
  - destruct Hg as [s Hs]. rewrite Hs in *. cbn [concat] in Hl. rewrite app_nil_r in Hl. destruct (ptr_read_len _ _ _ Hs) as [Hlen _].
    destruct (append_after base size files0 l d cur older p len s Hfr Hi Hr Hs ltac:(lia)) as (l' & d' & -> & Ha).
    apply log_after_lines in Ha as (cur' & older' & Hi' & Hr' & E). do 4 eexists. split_and!; [reflexivity | done | done|].
    rewrite E. cbn [rev]. rewrite !log_lines_snoc. cbn [snd]. by rewrite app_assoc.
  - destruct (flush_now _ _ _ _ _ _ _ Hi) as (d' & -> & Hi' & Ht & _). cbn [mbind res_bind]. rewrite app_nil_r.
    do 4 eexists. split_and!; [reflexivity | exact Hi' | unfold room; by rewrite Ht | done].
  - destruct (roll_after base size files0 l d cur older Hfr Hi) as (b & l' & d' & -> & Ha). cbn [mbind res_bind]. rewrite app_nil_r.
    apply log_after_lines in Ha as (cur' & older' & Hi' & Hr' & E). do 4 eexists. by split_and!; [reflexivity | | |].
Qed.

Lemma cur_zlen cur older : zlen (concat cur.2) <= zlen (concat (log_lines (rev (cur :: older)))).
Proof using. cbn [rev]. rewrite log_lines_snoc, concat_app, zlen_app. zlen_pos. lia. Qed.

Lemma calls_inv os l d cur older : log_inv base size files0 l d cur older -> room size d cur -> Forall good_op os ->
  zlen (concat (log_lines (rev (cur :: older)) ++ concat (line_of <$> os))) < 2 ^ 63 ->
  exists l' d' cur' older', calls os l d = Ok (l', d') /\ log_inv base size files0 l' d' cur' older' /\ room size d' cur' /\
    log_lines (rev (cur' :: older')) = log_lines (rev (cur :: older)) ++ concat (line_of <$> os).
Proof using ok Hfr.
  intros Hi Hr Hg. revert l d cur older Hi Hr. induction Hg as [|o os Ho Hg IH]; intros l d cur older Hi Hr Hl.
  - do 4 eexists. split_and!; [reflexivity | exact Hi | done | by rewrite app_nil_r].
  - rewrite fmap_cons in *. cbn [concat] in *. cbn [calls]. pose proof (cur_zlen cur older).
    destruct (call_inv o l d cur older Hi Hr Ho) as (l1 & d1 & c1 & o1 & -> & Hi1 & Hr1 & E1).
    { rewrite !concat_app, !zlen_app in Hl. zlen_pos. lia. }
    cbn [mbind res_bind]. rewrite app_assoc, <- E1 in *. by apply IH.
Qed.
End programs.

(** ** The theorem *)
Lemma sorted_rev (l : list Z) : StronglySorted Z.gt l -> StronglySorted Z.lt (rev l).
Proof using.
  induction 1 as [|x l Hs IH Hx]; [constructor|]. cbn [rev]. assert (Hr : Forall (fun y => y < x) (rev l)).
  { apply Forall_rev. eapply Forall_impl; [exact Hx|]. intros y Hy. cbn in *. lia. }
  clear Hs Hx. induction IH as [|y k Hk IHk Hy]; cbn [app]; [repeat constructor|].
  apply Forall_cons in Hr as [Hyx Hr]. constructor; [by apply IHk|]. apply Forall_app. split; [done|]. by apply Forall_singleton.
Qed.

Lemma sorted_names base (log : list file) : Forall clock_ok log.*1 -> StronglySorted Z.gt log.*1 -> NoDup (entry base <$> log).*1.
Proof using.
  induction log as [|f log IH]; [constructor|]. rewrite !fmap_cons. intros [Hf Hc]%Forall_cons [Hs Hx]%StronglySorted_inv.
  apply NoDup_cons. split; [|by apply IH]. intros Hin. apply list_elem_of_fmap in Hin as (e & E & Hin).
  apply list_elem_of_fmap in Hin as (g & -> & Hin). cbn [entry fst] in E. rewrite Forall_fmap, Forall_forall in Hc, Hx.
  specialize (Hc _ Hin). specialize (Hx _ Hin). cbn in Hc, Hx. apply name_inj in E; [lia | done..].
Qed.

Lemma fmap_rev {A B} (f : A -> B) (l : list A) : f <$> rev l = rev (f <$> l).
Proof using. induction l as [|x l IH]; [done|]. cbn [rev]. rewrite fmap_app, IH. done. Qed.

(** The files of a log on the disk, oldest first, and all of it flushed. *)
Definition on_disk (base : bytes) (files0 : gmap bytes bytes) d (log : list file) : Prop :=
  StronglySorted Z.lt log.*1 /\ files d = list_to_map (entry base <$> log) ∪ files0.
Definition all_flushed (base : bytes) d (log : list file) : Prop :=
  Forall (fun f => flushed d !! name base f.1 = Some (concat f.2)) log.

Lemma log_inv_disk base size files0 l d cur older : log_inv base size files0 l d cur older ->
  on_disk base files0 d (rev (cur :: older)).
Proof using.
  intros Hi. unfold on_disk. rewrite fmap_rev. split; [apply sorted_rev, Hi|].
  rewrite (li_files _ _ _ _ _ _ _ Hi). f_equal. apply list_to_map_proper; [by apply sorted_names; apply Hi|].
  by rewrite fmap_rev, <- Permutation_rev.
Qed.

(** C24: On a system without errors of the disk ([OsHealthy]: every [fopen]
    succeeds, every [fwrite] takes at least one byte, and any part, of what it
    is offered), [LogFile] loses nothing, over any program of [append], [flush]
    and [rollFile] calls on readable memory, with less than 2^63 bytes in all,
    in a directory without files of the log's names. The construction and all
    calls succeed, and after a flush the directory holds the files that were
    there before and the files of the log: in the order of the times in their
    names they hold exactly the appended lines, in order and none cut across
    two files, and all of it is flushed. When the clock moves on between
    readings, no file gets a line once it is over [rollSize]. Without that
    condition [AppendFile_append_prefix] holds: a line is cut where a write
    takes nothing. *)
Theorem LogFile_complete base size threadSafe flushInterval checkEveryN d0 os :
  fresh_names base (files d0) -> Byte.x2f ∉ base -> checkEveryN < 2 ^ 31 -> Forall good_op os ->
  zlen (concat (concat (line_of <$> os))) < 2 ^ 63 ->
  exists l0 d1 l d d' log,
    LogFile_ctor base size threadSafe flushInterval checkEveryN d0 = Ok (l0, d1) /\
    calls os l0 d1 = Ok (l, d) /\ LogFile_flush l d = Ok d' /\
    log_lines log = concat (line_of <$> os) /\ on_disk base (files d0) d' log /\ all_flushed base d' log /\
    (clock_advances size (times d') -> Forall (fun f => within size f.2) log).
Proof using ok.
  intros Hfr Hb Hn Hg Hl.
  destruct (LogFile_ctor_inv base size (files d0) d0 threadSafe flushInterval checkEveryN Hfr eq_refl Hb Hn) as (l0 & d1 & E0 & Hi0 & Hr0).
  destruct (calls_inv base size (files d0) Hfr os l0 d1 _ _ Hi0 Hr0 Hg) as (l & d & cur & older & E1 & Hi & Hr & Elines); [done|].
  destruct (flush_now _ _ _ _ _ _ _ Hi) as (d' & E2 & Hi' & _ & Hall). clear Hi.
  exists l0, d1, l, d, d', (rev (cur :: older)). split_and!; try done.
  - by eapply log_inv_disk.
  - by apply Forall_rev.
  - intros Ha. apply Forall_rev. by apply (li_bound _ _ _ _ _ _ _ Hi').
Qed.
End log.

(** ** A log of three lines *)
Module Example.
(** The stream takes at most three bytes at a time; the clock starts in 2014. *)
Definition clock (k : nat) : Z := 1400000000 + Z.min (Z.of_nat k) 1000.
Instance os : Os := {| os_time k := clock k; os_timeofday _ := (clock 0, 0); os_fwrite _ m := Z.min m 3; os_fopen _ := true; hostname := lit "host"; pid := 42 |}.
Definition empty_disk : disk := mkDisk ∅ ∅ 0 0.
Definition hello : bytes := lit "hello, world".
Definition program : list op := [OAppend (Ptr hello 0) 5; OAppend (Ptr hello 7) 5; OFlush; OAppend (Ptr hello 0) 0; ORoll; OAppend (Ptr hello 5) 2].

Definition run_log : res (list (bytes * bytes)) :=
  '(l, d) ← LogFile_ctor (lit "air") 8 false 3 1024 empty_disk;
  '(l, d) ← calls program l d;
  Ok (map_to_list (files d)).

Example run_log_files : exists fs, run_log = Ok fs /\ length fs = 3%nat /\
  (lit "air.20140513-165320.host.42.log", lit "helloworld") ∈ fs /\ (lit "air.20140513-165322.host.42.log", lit ", ") ∈ fs.
Proof. eexists. split; [vm_compute; reflexivity|]. split; [reflexivity|]. split; [apply (bool_decide_unpack _); vm_compute; exact I | apply (bool_decide_unpack _); vm_compute; exact I]. Qed.

Lemma clock_fine k : clock_ok (clock k).
Proof. unfold clock, clock_ok, in_range, last_day, kSecondsPerDay, kJulianDayOf1970. split; [lia|]. Z.to_euclidean_division_equations. lia. Qed.

#[local] Instance os_ok : OsOk os.
Proof. split; cbn; intros; [apply clock_fine | lia]. Qed.

#[local] Instance os_healthy : OsHealthy os.
Proof. split; [apply os_ok | cbn; intros; lia | done]. Qed.

Definition readings (c : res (LogFile * disk)) (p : list op) : res nat :=
  '(l, d) ← c; '(l, d) ← calls p l d; d ← LogFile_flush l d; Ok (times d).

Lemma readings_inv c p n l0 d1 l d d' : readings c p = Ok n ->
  c = Ok (l0, d1) -> calls p l0 d1 = Ok (l, d) -> LogFile_flush l d = Ok d' -> times d' = n.
Proof. unfold readings. intros R -> E1 E2. cbn [mbind res_bind] in R. rewrite E1 in R. cbn [mbind res_bind] in R. rewrite E2 in R. by injection R. Qed.

Lemma readings_eq : readings (LogFile_ctor (lit "air") 8 false 3 1024 empty_disk) program = Ok 3%nat.
Proof. vm_compute. reflexivity. Qed.

Lemma advances n : (n <= 3)%nat -> clock_advances 8 n.
Proof. intros Hn. split; [|lia]. intros k Hk. cbn [os_time os]. unfold clock. lia. Qed.

Lemma program_good : Forall good_op program.
Proof. repeat (apply Forall_cons; split); try exact I; try (eexists; vm_compute; reflexivity). apply Forall_nil; exact I. Qed.

Lemma program_lines : concat (line_of <$> program) = [lit "hello"; lit "world"; []; lit ", "].
Proof. vm_compute. reflexivity. Qed.

Lemma program_short : zlen (concat (concat (line_of <$> program))) < 2 ^ 63.
Proof. rewrite program_lines. vm_compute. reflexivity. Qed.

Lemma base_plain : Byte.x2f ∉ lit "air".
Proof. apply (bool_decide_unpack _). vm_compute. exact I. Qed.

Lemma LogFile_complete_witness : exists l0 d1 l d d' log,
  LogFile_ctor (lit "air") 8 false 3 1024 empty_disk = Ok (l0, d1) /\ calls program l0 d1 = Ok (l, d) /\ LogFile_flush l d = Ok d' /\
  log_lines log = [lit "hello"; lit "world"; []; lit ", "] /\ on_disk (lit "air") ∅ d' log /\ all_flushed (lit "air") d' log /\ Forall (fun f => within 8 f.2) log.
Proof.
  destruct (LogFile_complete (lit "air") 8 false 3 1024 empty_disk program (fun t _ => lookup_empty _) base_plain
    ltac:(lia) program_good program_short) as (l0 & d1 & l & d & d' & log & E0 & E1 & E2 & Hl & Hf & Hd & Hw).
  exists l0, d1, l, d, d', log. rewrite program_lines in Hl. pose proof (advances _ (Nat.eq_le_incl _ _ (readings_inv _ _ _ _ _ _ _ _ readings_eq E0 E1 E2))) as Ha.
  exact (conj E0 (conj E1 (conj E2 (conj Hl (conj Hf (conj Hd (Hw Ha))))))).
Defined.
End Example.

(** ** Errors of the disk

    A disk that is full after four bytes: the rest of the line is dropped, the
    whole line is counted, and the caller is not told. A file that cannot be
    opened ends the process in the assertion of the constructor. *)
Module Errors.
Definition full (opens : bool) : Os :=
  {| os_time k := Example.clock k; os_timeofday _ := (0, 0); os_fwrite k m := if (k =? 0)%nat then Z.min m 4 else 0;
     os_fopen _ := opens; hostname := lit "host"; pid := 42 |}.

#[local] Instance full_ok opens : OsOk (full opens).
Proof. split; cbn; intros; [apply Example.clock_fine | case_match; lia]. Qed.

Example full_disk_cuts_the_line :
  let f := mkAppendFile (lit "f") 0 in
  exists d, AppendFile_append (H := full true) f (Ptr Example.hello 0) 12 (mkDisk {[ lit "f" := [] ]} ∅ 0 0) =
    Ok (mkAppendFile (lit "f") 12, d) /\ files d !! lit "f" = Some (lit "hell").
Proof. eexists. split; [vm_compute; reflexivity|]. vm_compute. reflexivity. Qed.

Example closed_directory_asserts :
  LogFile_ctor (H := full false) (lit "air") 8 false 3 1024 Example.empty_disk = Fail FAssert.
Proof. vm_compute. reflexivity. Qed.
End Errors.
