(* ===== verification/AsyncLogging.v ===== *)
(** * [muduo::AsyncLogging] ([3rd_party/muduo/muduo/base/AsyncLogging.{h,cc}])

    Any thread appends lines to the current buffer; a full buffer is queued and
    a spare one takes its place. A worker takes what is queued together with the
    current buffer, writes it to the log file and gives the buffers back. What
    happens under the mutex is one step; the worker's work outside the mutex
    touches its own variables only and is one step as well. A wait ends at any
    time: by a notification, the timeout or by itself. *)
From stdpp Require Import strings.
From S2P Require Import Prelude StringPiece LogStream LogStreamProps TimeZone TimeFormat LogFile.

(** Where the worker thread is. *)
Inductive worker_pc :=
  | WNone    (** not started *)
  | WBegin   (** at the start of [threadFunc] *)
  | WOpen    (** past the latch *)
  | WLoop    (** at the test of the loop *)
  | WLock    (** at the lock *)
  | WWait    (** in [waitForSeconds] *)
  | WWrite   (** past the critical section *)
  | WDone.   (** returned *)

(** Where the thread that owns the object is. *)
Inductive owner_pc :=
  | ONew     (** constructed *)
  | OStart   (** in [start], at the latch *)
  | ORun     (** started *)
  | OStop    (** in [stop], at the join *)
  | OEnd.    (** stopped *)

Record AsyncLogging := mkAsync {
  running_ : bool;
  latch_ : Z;
  currentBuffer_ : option FixedBuffer;
  nextBuffer_ : option FixedBuffer;
  buffers_ : list FixedBuffer;
  (* the variables of [threadFunc] *)
  output : option LogFile;
  newBuffer1 : option FixedBuffer;
  newBuffer2 : option FixedBuffer;
  buffersToWrite : list FixedBuffer;
  (* the threads and the world *)
  worker : worker_pc;
  owner : owner_pc;
  world : disk;
}.

(** The constants [kLargeBuffer] and those of the function. *)
Definition kLargeBuffer : Z := 4000 * 1000.

Section async.
Context `{Os}.
(** The arguments of the constructor, and the memory a new buffer and the array
    of the notice get; the length of the first is the size of a buffer. *)
Context (basename : bytes) (rollSize : Z) (garbage garbage256 : bytes).
Implicit Type s : AsyncLogging.

Definition new_Buffer : FixedBuffer := FixedBuffer_ctor garbage.

Definition AsyncLogging_ctor (d : disk) : AsyncLogging :=
  mkAsync false 1 (Some (bzero new_Buffer)) (Some (bzero new_Buffer)) [] None None None [] WNone ONew d.

Definition set_shared s (cur next : option FixedBuffer) (bufs : list FixedBuffer) : AsyncLogging :=
  mkAsync (running_ s) (latch_ s) cur next bufs (output s) (newBuffer1 s) (newBuffer2 s) (buffersToWrite s) (worker s) (owner s) (world s).
Definition set_local s (out : option LogFile) (b1 b2 : option FixedBuffer) (towrite : list FixedBuffer) (d : disk) : AsyncLogging :=
  mkAsync (running_ s) (latch_ s) (currentBuffer_ s) (nextBuffer_ s) (buffers_ s) out b1 b2 towrite (worker s) (owner s) d.
Definition at_worker s (pc : worker_pc) : AsyncLogging :=
  mkAsync (running_ s) (latch_ s) (currentBuffer_ s) (nextBuffer_ s) (buffers_ s) (output s) (newBuffer1 s) (newBuffer2 s)
    (buffersToWrite s) pc (owner s) (world s).
Definition set_run s (r : bool) (l : Z) (w : worker_pc) (o : owner_pc) : AsyncLogging :=
  mkAsync r l (currentBuffer_ s) (nextBuffer_ s) (buffers_ s) (output s) (newBuffer1 s) (newBuffer2 s) (buffersToWrite s) w o (world s).

(** A null pointer is dereferenced. *)
Definition deref {A} (p : option A) : res A := match p with Some a => Ok a | None => Fail FBounds end.

(** [append]; its notification only ends a wait, which may end anyway. *)
Definition append (logline : ptr) (len : Z) s : res AsyncLogging :=
  cur ← deref (currentBuffer_ s);
  if len <? avail cur then
    cur ← FixedBuffer_append cur logline (size_t len);
    Ok (set_shared s (Some cur) (nextBuffer_ s) (buffers_ s))
  else
    let bufs := buffers_ s ++ [cur] in
    let '(cur, next) := match nextBuffer_ s with Some b => (b, None) | None => (new_Buffer, None) end in
    cur ← FixedBuffer_append cur logline (size_t len);
    Ok (set_shared s (Some cur) next bufs).

(** The critical section of the worker, past the wait. A null pointer cannot be
    put into a [ptr_vector]: it throws. *)
Definition swap_buffers s : res AsyncLogging :=
  cur ← (match currentBuffer_ s with Some b => Ok b | None => Fail FThrow end);
  let bufs := buffers_ s ++ [cur] in
  let '(cur, b1) := (newBuffer1 s, None) in
  let '(towrite, bufs) := (bufs, buffersToWrite s) in
  let '(next, b2) := match nextBuffer_ s with None => (newBuffer2 s, None) | Some b => (Some b, newBuffer2 s) end in
  Ok (set_local (set_shared s cur next bufs) (output s) b1 b2 towrite (world s)).

(** The notice about dropped buffers. *)
Definition notice (n : Z) (d : disk) : res bytes :=
  let '(sec, usec) := os_timeofday (writes d) in
  now ← Timestamp_now sec usec;
  text ← Timestamp_toFormattedString now true;
  Ok (lit "Dropped log messages at " ++ text ++ lit ", " ++ decimal (size_t (n - 2)) ++
      lit " larger buffers" ++ [Byte.x0a]).

Definition drop_buffers (out : LogFile) (towrite : list FixedBuffer) (d : disk) : res (LogFile * list FixedBuffer * disk) :=
  if 25 <? zlen towrite then
    text ← notice (zlen towrite) d;
    '(buf, _) ← snprintf garbage256 0 256 text;
    n ← strlen (Ptr buf 0);
    '(out, d) ← LogFile_append out (Ptr buf 0) (int32 n) d;
    Ok (out, ztake 2 towrite, d)
  else Ok (out, towrite, d).

Fixpoint write_buffers (out : LogFile) (towrite : list FixedBuffer) (d : disk) : res (LogFile * disk) :=
  match towrite with
  | [] => Ok (out, d)
  | b :: towrite =>
      '(out, d) ← LogFile_append out (Ptr (data_ b) 0) (FixedBuffer_length b) d;
      write_buffers out towrite d
  end.

(** [pop_back] of the vector. *)
Definition pop_back (v : list FixedBuffer) : res (FixedBuffer * list FixedBuffer) :=
  assert_ (negb (bool_decide (v = [])));;
  match last v with Some b => Ok (b, removelast v) | None => Fail FBounds end.

(** A spare buffer, from the buffers just written. *)
Definition refill (b : option FixedBuffer) (towrite : list FixedBuffer) : res (FixedBuffer * list FixedBuffer) :=
  match b with
  | Some b => Ok (b, towrite)
  | None => '(b, towrite) ← pop_back towrite; Ok (reset b, towrite)
  end.

(** The rest of the loop. *)
Definition write_batch s : res AsyncLogging :=
  out ← deref (output s);
  assert_ (negb (bool_decide (buffersToWrite s = [])));;
  '(out, towrite, d) ← drop_buffers out (buffersToWrite s) (world s);
  '(out, d) ← write_buffers out towrite d;
  let towrite := if 2 <? zlen towrite then ztake 2 towrite else towrite in
  '(b1, towrite) ← refill (newBuffer1 s) towrite;
  '(b2, towrite) ← refill (newBuffer2 s) towrite;
  d ← LogFile_flush out d;
  Ok (set_local s (Some out) (Some b1) (Some b2) [] d).

Definition empty_buffer (b : option FixedBuffer) : bool :=
  match b with Some b => FixedBuffer_length b =? 0 | None => false end.

(** A step of the worker; [None] when it has none. *)
Definition worker_step s : option (res AsyncLogging) :=
  match worker s with
  | WNone | WDone => None
  | WBegin => Some (assert_ (running_ s);; Ok (set_run s (running_ s) (latch_ s - 1) WOpen (owner s)))
  | WOpen => Some (
      '(out, d) ← LogFile_ctor basename rollSize false 3 1024 (world s);
      Ok (at_worker (set_local s (Some out) (Some (bzero new_Buffer)) (Some (bzero new_Buffer)) [] d) WLoop))
  | WLoop => Some (
      if running_ s then
        assert_ (empty_buffer (newBuffer1 s));;
        assert_ (empty_buffer (newBuffer2 s));;
        assert_ (bool_decide (buffersToWrite s = []));;
        Ok (at_worker s WLock)
      else
        out ← deref (output s);
        d ← LogFile_flush out (world s);
        Ok (at_worker (set_local s None None None [] (LogFile_dtor out d)) WDone))
  | WLock => Some (
      if bool_decide (buffers_ s = []) then Ok (at_worker s WWait)
      else s ← swap_buffers s; Ok (at_worker s WWrite))
  | WWait => Some (s ← swap_buffers s; Ok (at_worker s WWrite))
  | WWrite => Some (s ← write_batch s; Ok (at_worker s WLoop))
  end.

(** A step of the owner: [start], the end of [start], [stop], the end of [stop]. *)
Definition owner_step s : option AsyncLogging :=
  match owner s with
  | ONew => Some (set_run s true (latch_ s) WBegin OStart)
  | OStart => if latch_ s =? 0 then Some (set_run s (running_ s) (latch_ s) (worker s) ORun) else None
  | ORun => Some (set_run s false (latch_ s) (worker s) OStop)
  | OStop => match worker s with WDone => Some (set_run s (running_ s) (latch_ s) (worker s) OEnd) | _ => None end
  | OEnd => None
  end.

(** ** Runs: what the threads do, one step after the other *)
Inductive event := EAppend (logline : ptr) (len : Z) | EWorker | EOwner.

Definition step s (e : event) : option (res AsyncLogging) :=
  match e with
  | EAppend p len => Some (append p len s)
  | EWorker => worker_step s
  | EOwner => Ok <$> owner_step s
  end.

(** The state after a sequence of steps; steps that are not enabled are skipped. *)
Fixpoint run (es : list event) s : res AsyncLogging :=
  match es with
  | [] => Ok s
  | e :: es => match step s e with None => run es s | Some r => s ← r; run es s end
  end.
End async.
