(* ===== verification/AsyncLoggingProps.v ===== *)
(** * Asynchronous logging: what reaches the disk, and when

    Under every interleaving no assertion of the worker fails, and the bytes on
    the disk, in the buffers under way and in the current buffer are together
    the lines appended; the worker alone brings all of them to the disk. *)
From stdpp Require Import strings sorting.
From S2P Require Import Prelude TimerQueue StringPiece LogStream LogStreamProps TimeZone TimeZoneProps TimeFormat LogFile LogFileProps AsyncLogging.

(** ** Buffers of any size *)
Section buffers.
Context (size : Z).
Hypothesis size_range : 0 < size < 2 ^ 31.

Definition buf_ok (b : FixedBuffer) : Prop := zlen (data_ b) = size /\ 0 <= cur_ b < size.
Definition text_of (b : FixedBuffer) : bytes := ztake (cur_ b) (data_ b).
Definition empty (b : FixedBuffer) : Prop := buf_ok b /\ cur_ b = 0.

Lemma empty_text b : empty b -> text_of b = [].
Proof using. intros [_ E]. unfold text_of. by rewrite E, ztake_0. Qed.

Lemma text_of_zlen b : buf_ok b -> zlen (text_of b) = cur_ b.
Proof using. intros [Hd Hc]. unfold text_of. rewrite zlen_take; lia. Qed.

Lemma buf_avail b : buf_ok b -> avail b = size - cur_ b.
Proof using size_range. intros [Hd Hc]. unfold avail, end_. rewrite int32_id by lia. lia. Qed.

Lemma buf_length b : buf_ok b -> FixedBuffer_length b = cur_ b.
Proof using size_range. intros [Hd Hc]. unfold FixedBuffer_length. by rewrite int32_id by lia. Qed.

Lemma buf_read b : buf_ok b -> ptr_read (Ptr (data_ b) 0) (FixedBuffer_length b) = Ok (text_of b).
Proof using size_range. intros Hb. rewrite buf_length by done. destruct Hb as [Hd Hc]. by rewrite ptr_read_ok by lia. Qed.

Lemma reset_empty b : buf_ok b -> empty (reset b).
Proof using size_range. intros [Hd Hc]. split; [|done]. split; [done | cbn; lia]. Qed.

Lemma append_buf b p len t : buf_ok b -> ptr_read p len = Ok t -> len < 2 ^ 31 ->
  exists b', FixedBuffer_append b p (size_t len) = Ok b' /\ buf_ok b' /\
    text_of b' = text_of b ++ (if len <? size - cur_ b then t else []).
Proof using size_range.
  intros Hb Hp Hl. destruct (ptr_read_len _ _ _ Hp) as [Ht H0]. unfold FixedBuffer_append. rewrite buf_avail by done.
  pose proof Hb as [Hd Hc]. rewrite !size_t_id by lia. case_cmp; [|exists b; rewrite app_nil_r; done].
  rewrite Hp. cbn [mbind res_bind]. rewrite vec_write_ok by lia. cbn [mbind res_bind]. eexists. split; [reflexivity|].
  split; [split; cbn [data_ cur_]; zlen_side|]. unfold text_of. cbn [data_ cur_].
  rewrite ztake_app_r by zlen_side. rewrite zlen_take by lia. f_equal. rewrite ztake_app_l by zlen_side. apply ztake_all. lia.
Qed.
End buffers.

Section async.
Context {O : Os} {ok : OsHealthy O}.
Context (basename : bytes) (rollSize : Z) (garbage garbage256 : bytes) (files0 : gmap bytes bytes).
Abbreviation size := (zlen garbage).
Hypothesis size_range : 0 < size < 2 ^ 31.
Hypothesis notice_size : zlen garbage256 = 256.
Hypothesis base_plain : Byte.x2f ∉ basename.
Hypothesis names_fresh : fresh_names basename files0.
(** The time of day is one of a year of four digits. *)
Hypothesis timeofday_ok : forall k, let '(sec, usec) := os_timeofday k in four_digit_years sec /\ 0 <= usec < 10 ^ 6.

Abbreviation buf_ok := (buf_ok size).
Abbreviation empty := (empty size).
Abbreviation append := (append garbage).
Abbreviation write_batch := (write_batch garbage256).
Abbreviation worker_step := (worker_step basename rollSize garbage garbage256).
Implicit Type s : AsyncLogging.

Lemma new_empty : empty (new_Buffer garbage) /\ empty (bzero (new_Buffer garbage)).
Proof using size_range.
  split; (split; [|done]); split; cbn; try lia. unfold zlen. rewrite repeat_length. done.
Qed.

(** ** Appending *)

(** A line is taken when it fits into an empty buffer. *)
Definition taken (t : bytes) : bytes := if zlen t <? size then t else [].

(** What has been appended and not yet been handed to the worker. *)
Definition pending s : bytes :=
  concat (text_of <$> buffers_ s) ++ match currentBuffer_ s with Some b => text_of b | None => [] end.

Record shared_ok s : Prop := {
  so_cur : exists b, currentBuffer_ s = Some b /\ buf_ok b;
  so_next : match nextBuffer_ s with Some b => empty b | None => buffers_ s <> [] end;
  so_bufs : Forall buf_ok (buffers_ s);
}.

Lemma append_ok p len t s : shared_ok s -> ptr_read p len = Ok t -> len < 2 ^ 31 ->
  exists cur next bufs, append p len s = Ok (set_shared s cur next bufs) /\
    shared_ok (set_shared s cur next bufs) /\ pending (set_shared s cur next bufs) = pending s ++ taken t.
Proof using size_range.
  intros [(b & Hb & Hbo) Hn Hbs] Hp Hl. destruct (ptr_read_len _ _ _ Hp) as [Ht H0]. unfold AsyncLogging.append, pending. rewrite Hb.
  cbn [deref mbind res_bind]. rewrite (buf_avail _ size_range) by done. pose proof Hbo as [_ Hc]. case_cmp.
  - destruct (append_buf _ size_range b p len t Hbo Hp Hl) as (b' & -> & Hb' & Et). cbn [mbind res_bind].
    do 3 eexists. split; [reflexivity|]. split; [split; [by exists b' | exact Hn | done]|].
    cbn [set_shared currentBuffer_ buffers_]. rewrite Et, app_assoc. unfold taken.
    rewrite (proj2 (Z.ltb_lt len _)), (proj2 (Z.ltb_lt (zlen t) _)) by lia. done.
  - assert (Hspare : exists nb, empty nb /\ (match nextBuffer_ s with Some b => (b, None) | None => (new_Buffer garbage, None) end) = (nb, @None FixedBuffer)).
    { destruct (nextBuffer_ s) as [nb|]; [by exists nb | exists (new_Buffer garbage); split; [apply new_empty | done]]. }
    destruct Hspare as (nb & Hnb & ->). destruct (append_buf _ size_range nb p len t (proj1 Hnb) Hp Hl) as (b' & -> & Hb' & Et).
    cbn [mbind res_bind]. do 3 eexists. split; [reflexivity|].
    split; [split; [by exists b' | by destruct (buffers_ s) | cbn; by apply Forall_app; split; [|apply Forall_singleton]]|].
    cbn [set_shared currentBuffer_ buffers_]. rewrite Et, (empty_text _ _ Hnb), (proj2 Hnb), fmap_app, concat_app, Z.sub_0_r.
    cbn [fmap list_fmap concat app]. rewrite app_nil_r. unfold taken. by rewrite Ht.
Qed.

(** ** Taking the buffers *)
Lemma swap_ok s b1 b2 : shared_ok s -> newBuffer1 s = Some b1 -> newBuffer2 s = Some b2 -> empty b1 -> empty b2 -> buffersToWrite s = [] ->
  exists b2' towrite, swap_buffers s =
      Ok (set_local (set_shared s (Some b1) (Some match nextBuffer_ s with Some b => b | None => b2 end) []) (output s) None b2' towrite (world s)) /\
    shared_ok (set_shared s (Some b1) (Some match nextBuffer_ s with Some b => b | None => b2 end) []) /\
    Forall buf_ok towrite /\ towrite <> [] /\ concat (text_of <$> towrite) = pending s /\
    (b2' = Some b2 \/ b2' = None /\ (2 <= length towrite)%nat).
Proof using.
  intros [(b & Hb & Hbo) Hn Hbs] H1 H2 E1 E2 Hw. unfold swap_buffers, pending. rewrite Hb, H1, H2, Hw. cbn [mbind res_bind].
  exists (match nextBuffer_ s with None => None | Some _ => Some b2 end), (buffers_ s ++ [b]).
  split; [by destruct (nextBuffer_ s)|]. split; [split; [exists b1; split; [done | apply E1] | cbn; by destruct (nextBuffer_ s) | by apply Forall_nil]|].
  split; [by apply Forall_app; split; [|apply Forall_singleton]|]. split; [by destruct (buffers_ s)|].
  split; [rewrite fmap_app, concat_app; cbn; by rewrite app_nil_r|].
  destruct (nextBuffer_ s); [by left|]. right. split; [done|]. rewrite length_app. destruct (buffers_ s); [done|]. cbn. lia.
Qed.

(** ** Writing a batch *)
Definition log_ok (out : LogFile) (d : disk) (lines : list bytes) : Prop :=
  exists cur older, log_inv basename rollSize files0 out d cur older /\ room rollSize d cur /\ log_lines (rev (cur :: older)) = lines.

(** The lines are in the files of the log, all of them flushed. *)
Definition durable (d : disk) (lines : list bytes) : Prop :=
  exists log, log_lines log = lines /\ on_disk basename files0 d log /\ all_flushed basename d log.

Lemma log_append out d lines p len t : log_ok out d lines -> ptr_read p len = Ok t -> zlen (concat lines) + zlen t < 2 ^ 63 ->
  exists out' d', LogFile_append out p len d = Ok (out', d') /\ log_ok out' d' (lines ++ [t]).
Proof using ok names_fresh.
  intros (cur & older & Hi & Hr & <-) Hp Hl. pose proof (cur_zlen cur older).
  destruct (call_inv basename rollSize files0 names_fresh (OAppend p len) out d cur older Hi Hr) as (out' & d' & cur' & older' & E & Hi' & Hr' & El).
  - by exists t.
  - cbn [line_of]. rewrite Hp. cbn [concat]. rewrite app_nil_r. lia.
  - cbn [call] in E. exists out', d'. split; [done|]. exists cur', older'. split_and!; try done. rewrite El. cbn [line_of]. by rewrite Hp.
Qed.

(** The text of the notice about a batch of [n] buffers. *)
Definition note_of (n : Z) (d : disk) : bytes := match notice n d with Ok text => text | Fail _ => [] end.

Lemma notice_ok n d : exists text, notice n d = Ok text /\ zlen text <= 87 /\ nul_free text.
Proof using timeofday_ok.
  unfold notice. pose proof (timeofday_ok (writes d)) as Ht. destruct (os_timeofday (writes d)) as [sec usec].
  destruct Ht as [Hs Hu]. unfold four_digit_years in Hs.
  assert (Timestamp_now sec usec = Ok (sec * 1000000 + usec)) as ->.
  { unfold Timestamp_now, int64_, kMicroSecondsPerSecond. rewrite bool_decide_eq_true_2 by lia. cbn [mbind res_bind]. by rewrite bool_decide_eq_true_2 by lia. }
  cbn [mbind res_bind]. set (us := sec * 1000000 + usec).
  assert (Hq : us / kMicroSecondsPerSecond = sec) by (subst us; unfold kMicroSecondsPerSecond; Z.to_euclidean_division_equations; lia).
  rewrite toFormattedString_ok by (lia || by rewrite Hq). cbn [mbind res_bind]. eexists. split; [reflexivity|].
  destruct (formatted_read us) as (L & _ & _); [lia | by rewrite Hq|].
  assert (0 <= size_t (n - 2) < 2 ^ 64) as Hn by (apply (wrap_range 64); lia).
  pose proof (decimal_zlen (size_t (n - 2)) ltac:(unfold machine_int; lia)). split.
  - rewrite !zlen_app, L. change (zlen (lit "Dropped log messages at ")) with 24. change (zlen (lit ", ")) with 2.
    change (zlen (lit " larger buffers")) with 15. change (zlen [Byte.x0a]) with 1. lia.
  - rewrite !nul_free_app. split_and!; [by apply (bool_decide_unpack _) | | by apply (bool_decide_unpack _) | apply decimal_nul_free; lia
      | by apply (bool_decide_unpack _) | by apply (bool_decide_unpack _)].
    apply formatted_nul_free; [lia | by rewrite Hq].
Qed.

Lemma note_zlen n d : zlen (note_of n d) <= 87.
Proof using timeofday_ok. unfold note_of. by destruct (notice_ok n d) as (text & -> & ? & _). Qed.

Lemma drop_ok out tw d lines : log_ok out d lines -> zlen (concat lines) + 256 < 2 ^ 63 ->
  exists out' d', drop_buffers garbage256 out tw d = Ok (out', if 25 <? zlen tw then ztake 2 tw else tw, d') /\
    log_ok out' d' (lines ++ if 25 <? zlen tw then [note_of (zlen tw) d] else []).
Proof using ok names_fresh notice_size timeofday_ok.
  intros Hlog Hl. unfold drop_buffers. case_cmp.
  - unfold note_of. destruct (notice_ok (zlen tw) d) as (text & -> & Lt & Nt). cbn [mbind res_bind]. pose proof (zlen_nonneg text).
    unfold snprintf. rewrite (ztake_all (256 - 1)), stored_write by lia. cbn [mbind res_bind]. unfold stored. rewrite ztake_0. cbn [app].
    rewrite <- app_assoc. cbn [app]. unfold strlen. change (check (0 <=? 0) FBounds) with (@Ok unit tt). cbn [mbind res_bind].
    rewrite zdrop_0, strlen_terminated by done. cbn [mbind res_bind]. rewrite int32_id by lia. set (buf := text ++ _).
    destruct (log_append out d lines (Ptr buf 0) (zlen text) text Hlog) as (out' & d' & -> & Hlog'); [|lia|].
    { apply read_terminated. }
    cbn [mbind res_bind]. by exists out', d'.
  - exists out, d. by rewrite app_nil_r.
Qed.

Lemma write_buffers_ok tw out d lines : Forall buf_ok tw -> log_ok out d lines ->
  zlen (concat lines) + zlen (concat (text_of <$> tw)) < 2 ^ 63 ->
  exists out' d', write_buffers out tw d = Ok (out', d') /\ log_ok out' d' (lines ++ (text_of <$> tw)).
Proof using ok names_fresh size_range.
  intros Hb. revert out d lines. induction Hb as [|b tw Hb Hbs IH]; intros out d lines Hlog Hl; cbn [write_buffers].
  - exists out, d. by rewrite app_nil_r.
  - rewrite fmap_cons in *. cbn [concat] in Hl. rewrite zlen_app in Hl. pose proof (zlen_nonneg (concat (text_of <$> tw))).
    destruct (log_append out d lines _ _ _ Hlog (buf_read _ size_range b Hb) ltac:(lia)) as (out1 & d1 & -> & Hlog1). cbn [mbind res_bind].
    destruct (IH out1 d1 _ Hlog1) as (out2 & d2 & -> & Hlog2); [rewrite concat_app, zlen_app; cbn [concat]; rewrite app_nil_r; lia|].
    exists out2, d2. split; [done|]. by rewrite <- app_assoc in Hlog2.
Qed.

Lemma refill_ok b tw : Forall buf_ok tw -> match b with Some b => empty b | None => tw <> [] end ->
  exists b' tw', refill b tw = Ok (b', tw') /\ empty b' /\ Forall buf_ok tw' /\ (length tw <= length tw' + 1)%nat.
Proof using size_range.
  intros Htw Hb. destruct b as [b|]; cbn [refill]; [exists b, tw; split_and!; try done; lia|].
  destruct (exists_last Hb) as (tw' & b & ->). apply Forall_app in Htw as [Htw Hbo]. rewrite Forall_singleton in Hbo.
  unfold pop_back. rewrite assert_bind_true by (rewrite bool_decide_eq_false_2; [done | by destruct tw']).
  rewrite last_snoc, removelast_last. cbn [mbind res_bind]. do 2 eexists. split; [reflexivity|].
  split; [by apply (reset_empty _ size_range)|]. split; [done|]. rewrite length_app. cbn. lia.
Qed.

(** What of a batch is written: all of it, or the notice and two buffers. *)
Definition written (batch : bytes * list bytes) : list bytes :=
  if 25 <? zlen batch.2 then batch.1 :: ztake 2 batch.2 else batch.2.

(** The batch the worker is about to write, with the notice it would print. *)
Definition batch_now s : bytes * list bytes := (note_of (zlen (buffersToWrite s)) (world s), text_of <$> buffersToWrite s).

Lemma durable_flush out d lines : log_ok out d lines -> exists d', LogFile_flush out d = Ok d' /\ log_ok out d' lines /\ durable d' lines.
Proof using.
  intros (cur & older & Hi & Hr & <-). destruct (flush_now _ _ _ _ _ _ _ Hi) as (d' & E & Hi' & Ht & Hall).
  exists d'. split; [done|]. split.
  - exists cur, older. split_and!; try done. unfold room. by rewrite Ht.
  - exists (rev (cur :: older)). split; [done|]. split; [by eapply log_inv_disk|]. by apply Forall_rev.
Qed.

Lemma zlen_take_2 {A} (l : list A) : 2 < zlen l -> zlen (ztake 2 l) = 2.
Proof using. intros H. by rewrite zlen_take by lia. Qed.

Lemma Forall_some {A} (P : A -> Prop) (b : bool) n l : Forall P l -> Forall P (if b then ztake n l else l).
Proof using. intros H. destruct b; [by apply Forall_take | done]. Qed.

Lemma some_left {A} k (l : list A) : (2 <= k)%Z -> (Nat.min 2 (length l) <= length (if (k <? zlen l)%Z then ztake 2 l else l))%nat.
Proof using. intros Hk. case_match; [|lia]. unfold ztake. rewrite length_take. lia. Qed.

Lemma write_batch_ok s out lines : output s = Some out -> log_ok out (world s) lines ->
  newBuffer1 s = None -> Forall buf_ok (buffersToWrite s) -> buffersToWrite s <> [] ->
  match newBuffer2 s with Some b => empty b | None => (2 <= length (buffersToWrite s))%nat end ->
  zlen (concat lines) + 256 + zlen (concat (text_of <$> buffersToWrite s)) < 2 ^ 63 ->
  exists out' b1 b2 d', write_batch s = Ok (set_local s (Some out') (Some b1) (Some b2) [] d') /\ empty b1 /\ empty b2 /\
    let lines' := lines ++ written (batch_now s) in
    log_ok out' d' lines' /\ durable d' lines'.
Proof using ok names_fresh notice_size timeofday_ok size_range.
  intros Ho Hlog H1 Hbs Hne H2 Hl. unfold AsyncLogging.write_batch. rewrite Ho. cbn [deref mbind res_bind].
  rewrite assert_bind_true by (by rewrite bool_decide_eq_false_2). set (tw := buffersToWrite s) in *.
  pose proof (zlen_nonneg (concat (text_of <$> tw))). pose proof (note_zlen (zlen tw) (world s)).
  destruct (drop_ok out tw (world s) lines Hlog ltac:(lia)) as (out1 & d1 & -> & Hlog1). cbn [mbind res_bind].
  set (tw1 := if 25 <? zlen tw then ztake 2 tw else tw) in *.
  assert (Hz : zlen tw = Z.of_nat (length tw)) by done. assert (0 < length tw)%nat by (by destruct tw; [|cbn; lia]).
  assert (Htw1 : Forall buf_ok tw1) by (by apply Forall_some).
  assert (Lc : zlen (concat (text_of <$> tw1)) <= zlen (concat (text_of <$> tw))).
  { subst tw1. case_match; [|lia]. rewrite <- (ztake_zdrop 2 tw) at 2. rewrite fmap_app, concat_app, zlen_app.
    pose proof (zlen_nonneg (concat (text_of <$> zdrop 2 tw))). lia. }
  destruct (write_buffers_ok tw1 out1 d1 _ Htw1 Hlog1) as (out2 & d2 & -> & Hlog2).
  { rewrite concat_app, zlen_app. case_match; cbn [concat]; rewrite ?app_nil_r, ?zlen_nil; lia. }
  cbn [mbind res_bind]. rewrite H1.
  set (tw2 := if 2 <? zlen tw1 then ztake 2 tw1 else tw1).
  assert (Htw2 : Forall buf_ok tw2) by (by apply Forall_some).
  assert (Hlen : (Nat.min 2 (length tw) <= length tw2)%nat).
  { pose proof (some_left 2 tw1 ltac:(lia)). pose proof (some_left 25 tw ltac:(lia)). subst tw2 tw1. lia. }
  destruct (refill_ok None tw2 Htw2) as (b1 & tw3 & -> & Hb1 & Htw3 & L3); [intros E%(f_equal length); cbn [length] in E; lia|]. cbn [mbind res_bind].
  destruct (refill_ok (newBuffer2 s) tw3 Htw3) as (b2 & tw4 & -> & Hb2 & _ & _).
  { destruct (newBuffer2 s); [done|]. intros ->. cbn [length] in L3. lia. }
  cbn [mbind res_bind]. destruct (durable_flush _ _ _ Hlog2) as (d3 & -> & Hlog3 & Hd3). cbn [mbind res_bind].
  assert (El : (lines ++ (if 25 <? zlen tw then [note_of (zlen tw) (world s)] else [])) ++ (text_of <$> tw1) = lines ++ written (batch_now s)).
  { rewrite <- app_assoc. f_equal. unfold written, batch_now. fold tw. cbn [fst snd]. assert (zlen (text_of <$> tw) = zlen tw) as -> by (unfold zlen; by rewrite length_fmap).
    subst tw1. case_match; [|done]. cbn [app]. f_equal. unfold ztake. by rewrite fmap_take. }
  rewrite El in Hlog3, Hd3. by exists out2, b1, b2, d3.
Qed.

(** ** The invariant

    [ls] are the lines appended so far, [bs] the batches written with their
    notices, [n] bounds their number. *)
Definition accepted (ls : list bytes) : bytes := concat (taken <$> ls).
Definition log_of (bs : list (bytes * list bytes)) : list bytes := concat (written <$> bs).

Definition control s : Prop :=
  match worker s with
  | WNone => owner s = ONew /\ latch_ s = 1 /\ running_ s = false
  | WBegin => owner s = OStart /\ latch_ s = 1 /\ running_ s = true
  | WDone => (owner s = OStop \/ owner s = OEnd) /\ latch_ s = 0 /\ running_ s = false
  | _ => latch_ s = 0 /\ (running_ s = true /\ (owner s = OStart \/ owner s = ORun) \/ running_ s = false /\ owner s = OStop)
  end.

Definition log_open s bs : Prop := exists out, output s = Some out /\ log_ok out (world s) (log_of bs).

Definition local_ok s bs : Prop :=
  match worker s with
  | WNone | WBegin | WOpen => output s = None /\ bs = [] /\ buffersToWrite s = [] /\ files (world s) = files0
  | WLoop | WLock | WWait =>
      log_open s bs /\ buffersToWrite s = [] /\
      exists b1 b2, newBuffer1 s = Some b1 /\ newBuffer2 s = Some b2 /\ empty b1 /\ empty b2
  | WWrite =>
      log_open s bs /\ buffersToWrite s <> [] /\ newBuffer1 s = None /\
      match newBuffer2 s with Some b => empty b | None => (2 <= length (buffersToWrite s))%nat end
  | WDone => durable (world s) (log_of bs) /\ buffersToWrite s = []
  end.

Record inv s (ls : list bytes) (bs : list (bytes * list bytes)) (n : Z) : Prop := {
  v_shared : shared_ok s;
  v_towrite : Forall buf_ok (buffersToWrite s);
  v_account : concat (concat bs.*2) ++ concat (text_of <$> buffersToWrite s) ++ pending s = accepted ls;
  v_notes : zlen bs <= n /\ Forall (fun b => zlen b.1 <= 87) bs;
  v_control : control s;
  v_local : local_ok s bs;
}.

Lemma log_of_snoc bs b : log_of (bs ++ [b]) = log_of bs ++ written b.
Proof using. unfold log_of. rewrite fmap_app, concat_app. cbn. by rewrite app_nil_r. Qed.

Lemma written_zlen b : zlen b.1 <= 87 -> zlen (concat (written b)) <= zlen (concat b.2) + 87.
Proof using.
  intros Hn. unfold written. case_match; [|lia]. cbn [concat]. rewrite zlen_app.
  assert (E : concat b.2 = concat (ztake 2 b.2) ++ concat (zdrop 2 b.2)) by (rewrite <- concat_app; by rewrite ztake_zdrop).
  rewrite E, zlen_app. pose proof (zlen_nonneg (concat (zdrop 2 b.2))). lia.
Qed.

Lemma log_of_zlen bs : Forall (fun b => zlen b.1 <= 87) bs -> zlen (concat (log_of bs)) <= zlen (concat (concat bs.*2)) + 87 * zlen bs.
Proof using.
  unfold log_of. induction 1 as [|b bs Hb Hbs IH]; [done|]. rewrite !fmap_cons. cbn [concat]. rewrite !concat_app, !zlen_app, zlen_cons.
  pose proof (written_zlen b Hb). lia.
Qed.

Lemma taken_zlen ls : zlen (accepted ls) <= zlen (concat ls).
Proof using.
  unfold accepted. induction ls as [|t ls IH]; [done|]. rewrite fmap_cons. cbn [concat]. rewrite !zlen_app.
  assert (zlen (taken t) <= zlen t) by (unfold taken; pose proof (zlen_nonneg t); case_match; change (zlen (@nil byte)) with 0; lia). lia.
Qed.

(** The size of the log is bounded by what was appended and the notices. *)
Lemma log_budget s ls bs n : inv s ls bs n ->
  zlen (concat (log_of bs)) + zlen (concat (text_of <$> buffersToWrite s)) <= zlen (concat ls) + 87 * n.
Proof using.
  intros [_ _ Ha [Hn Hno] _ _]. pose proof (log_of_zlen bs Hno). pose proof (taken_zlen ls). apply (f_equal zlen) in Ha.
  rewrite !zlen_app in Ha. pose proof (zlen_nonneg (pending s)). lia.
Qed.

Lemma ctor_ok d : files d = files0 -> inv (AsyncLogging_ctor garbage d) [] [] 0.
Proof using size_range.
  intros Hd. destruct new_empty as [_ He].
  assert (shared_ok (AsyncLogging_ctor garbage d)).
  { split; [exists (bzero (new_Buffer garbage)); split; [done | apply He] | exact He | by apply Forall_nil]. }
  assert (pending (AsyncLogging_ctor garbage d) = []) by apply (empty_text _ _ He).
  by split.
Qed.

Definition line_of_event (e : event) : list bytes :=
  match e with EAppend p len => match ptr_read p len with Ok t => [t] | Fail _ => [] end | _ => [] end.
Definition good_event (e : event) : Prop :=
  match e with EAppend p len => is_ok (ptr_read p len) /\ len < 2 ^ 31 | _ => True end.

Lemma append_step p len s ls bs n : inv s ls bs n -> good_event (EAppend p len) ->
  exists s', append p len s = Ok s' /\ inv s' (ls ++ line_of_event (EAppend p len)) bs n.
Proof using size_range.
  intros [Hs Hw Ha Hn Hc Hl] [[t Ht] Hlen]. cbn [line_of_event]. rewrite Ht.
  destruct (append_ok p len t s Hs Ht Hlen) as (cur & next & bufs & -> & Hs' & Hp). eexists. split; [reflexivity|].
  split; try done. rewrite Hp. cbn [set_shared buffersToWrite]. rewrite !app_assoc. rewrite <- (app_assoc _ _ (pending s)), Ha.
  unfold accepted. rewrite fmap_app, concat_app. cbn. by rewrite app_nil_r.
Qed.

Lemma shared_eq s s' : currentBuffer_ s' = currentBuffer_ s -> nextBuffer_ s' = nextBuffer_ s -> buffers_ s' = buffers_ s ->
  shared_ok s -> shared_ok s'.
Proof using. intros E1 E2 E3 []. split; by rewrite ?E1, ?E2, ?E3. Qed.

(** Only the position of a thread or a flag has changed. *)
Lemma control_inv s s' ls bs n : inv s ls bs n -> currentBuffer_ s' = currentBuffer_ s -> nextBuffer_ s' = nextBuffer_ s -> buffers_ s' = buffers_ s ->
  buffersToWrite s' = buffersToWrite s -> control s' -> local_ok s' bs -> inv s' ls bs n.
Proof using.
  intros [Hs Hw Ha Hn _ _] E1 E2 E3 E4 Hc Hl. split; try done; [by apply (shared_eq s) | by rewrite E4|].
  unfold pending in *. by rewrite E1, E3, E4.
Qed.

Lemma owner_step_ok s s' ls bs n : inv s ls bs n -> owner_step s = Some s' -> inv s' ls bs n.
Proof using size_range.
  intros Hi. pose proof (v_control _ _ _ _ Hi) as Hc. pose proof (v_local _ _ _ _ Hi) as Hl.
  unfold owner_step, control, local_ok in *. destruct (owner s) eqn:Eo; [| | | |done].
  - intros [= <-]. apply (control_inv s); try done; unfold control, local_ok; cbn; destruct (worker s) eqn:Ew; naive_solver.
  - destruct (Z.eqb_spec (latch_ s) 0) as [Hz|]; [|done]. intros [= <-].
    apply (control_inv s); try done; unfold control, local_ok; cbn; destruct (worker s) eqn:Ew; naive_solver lia.
  - intros [= <-]. apply (control_inv s); try done; unfold control, local_ok; cbn; destruct (worker s) eqn:Ew; naive_solver.
  - destruct (worker s) eqn:Ew; [done..|]. intros [= <-].
    apply (control_inv s); try done; unfold control, local_ok; cbn; rewrite ?Ew; naive_solver.
Qed.

Lemma dtor_durable out d lines : log_ok out d lines -> durable (LogFile_dtor out d) lines.
Proof using.
  intros Hlog. destruct (durable_flush _ _ _ Hlog) as (d' & E & _ & Hd). destruct Hlog as (cur & older & Hi & _ & _).
  unfold LogFile_flush, LogFile_dtor in *. rewrite (li_file _ _ _ _ _ _ _ Hi) in *. injection E as <-. exact Hd.
Qed.

Lemma swap_inv s ls bs n : inv s ls bs n -> worker s = WLock \/ worker s = WWait ->
  exists s', swap_buffers s = Ok s' /\ inv (at_worker s' WWrite) ls bs n /\ pending s' = [] /\ running_ s' = running_ s.
Proof using.
  intros [Hs Hw Ha Hn Hc Hl] Hpc.
  assert (Hl' : log_open s bs /\ buffersToWrite s = [] /\
    exists b1 b2, newBuffer1 s = Some b1 /\ newBuffer2 s = Some b2 /\ empty b1 /\ empty b2)
    by (unfold local_ok in Hl; destruct Hpc as [E|E]; by rewrite E in Hl).
  destruct Hl' as ((out & Eout & Hlog) & Htw & b1 & b2 & E1 & E2 & He1 & He2).
  destruct (swap_ok s b1 b2 Hs E1 E2 He1 He2 Htw) as (b2' & tw & -> & Hs' & Hb & Hne & Ep & Hb2'). eexists. split; [reflexivity|].
  split; [|split; [apply (empty_text _ _ He1) | done]]. split; try done.
  - by eapply shared_eq; [| | |exact Hs'].
  - cbn [at_worker set_local buffersToWrite]. rewrite Ep. unfold pending at 2. cbn. rewrite (empty_text _ _ He1), app_nil_r.
    rewrite <- Ha, Htw. done.
  - unfold control in *. cbn. destruct Hpc as [E|E]; by rewrite E in Hc.
  - unfold local_ok. cbn. split; [by exists out|]. split; [done|]. split; [done|]. destruct Hb2' as [->|[-> ?]]; done.
Qed.

Lemma write_inv s ls bs n : inv s ls bs n -> worker s = WWrite -> zlen (concat ls) + 256 * (n + 1) < 2 ^ 63 ->
  exists s', write_batch s = Ok s' /\ inv (at_worker s' WLoop) ls (bs ++ [batch_now s]) (n + 1) /\
    durable (world s') (log_of (bs ++ [batch_now s])) /\
    pending s' = pending s /\ buffersToWrite s' = [] /\ running_ s' = running_ s.
Proof using ok size_range notice_size names_fresh timeofday_ok.
  intros Hi Hpc Hbud. pose proof (log_budget _ _ _ _ Hi) as Hb. destruct Hi as [Hs Hw Ha [Hn Hnotes] Hc Hl].
  unfold local_ok, control in *. rewrite Hpc in Hl, Hc. destruct Hl as ((out & Eout & Hlog) & Hne & E1 & E2). pose proof (zlen_nonneg bs).
  destruct (write_batch_ok s out (log_of bs) Eout Hlog E1 Hw Hne E2 ltac:(lia)) as (out' & b1 & b2 & d & -> & He1 & He2 & Hlog' & Hd).
  rewrite <- log_of_snoc in Hlog', Hd. eexists. split; [reflexivity|]. split; [|done]. split; try done.
  - by apply (shared_eq s).
  - rewrite fmap_app, concat_app. cbn. rewrite app_nil_r, concat_app, <- app_assoc. exact Ha.
  - rewrite zlen_app. change (zlen [batch_now s]) with 1. split; [lia|]. apply Forall_app. split; [done|]. apply Forall_singleton, note_zlen.
  - unfold local_ok. cbn. split; [by exists out'|]. split; [done|]. by exists b1, b2.
Qed.

(** The batch an event writes. *)
Definition batch_step s (e : event) : list (bytes * list bytes) :=
  match e, worker s with EWorker, WWrite => [batch_now s] | _, _ => [] end.

Lemma worker_step_ok s r ls bs n : inv s ls bs n -> worker_step s = Some r -> zlen (concat ls) + 256 * (n + 1) < 2 ^ 63 ->
  exists s', r = Ok s' /\ inv s' ls (bs ++ batch_step s EWorker) (n + 1).
Proof using ok size_range notice_size base_plain names_fresh timeofday_ok.
  intros Hi. pose proof (v_control _ _ _ _ Hi) as Hc. pose proof (v_local _ _ _ _ Hi) as Hl. pose proof (v_notes _ _ _ _ Hi) as [Hn _].
  pose proof (zlen_nonneg bs) as Hbs. pose proof (zlen_nonneg (concat ls)) as Hls. pose proof (log_budget _ _ _ _ Hi) as Hb.
  assert (Hi' : inv s ls bs (n + 1)) by (destruct Hi as [? ? ? [? ?] ? ?]; split; try done; split; [lia | done]).
  unfold AsyncLogging.worker_step, control, local_ok, batch_step in *. destruct (worker s) eqn:Ew; rewrite ?app_nil_r; [done| | | | | | |done]; intros [= <-] Hbud.
  - (* the latch *)
    destruct Hc as (Ho & Hla & ->). cbn [assert_ check mbind res_bind]. eexists. split; [reflexivity|].
    apply (control_inv s); try done; unfold control, local_ok; cbn; rewrite ?Hla, ?Ho. split; [done|]. left. split; [done | by left].
  - (* the log file *)
    destruct Hl as (_ & -> & Htw & Hfiles).
    destruct (LogFile_ctor_inv basename rollSize files0 (world s) false 3 1024 names_fresh Hfiles base_plain ltac:(lia)) as (out & d & -> & Hlog & Hr).
    cbn [mbind res_bind]. eexists. split; [reflexivity|]. apply (control_inv s); try done; unfold control, local_ok; cbn.
    split; [exists out; split; [done|]; by exists (os_time (times (world s)), []), []|]. split; [done|].
    do 2 eexists. split_and!; [done | done | apply new_empty | apply new_empty].
  - (* the test of the loop *)
    destruct Hl as ((out & Eout & Hlog) & Htw & b1 & b2 & E1 & E2 & He1 & He2). destruct (running_ s) eqn:Er.
    + unfold empty_buffer. rewrite E1, E2. rewrite !(buf_length _ size_range) by (apply He1 || apply He2).
      rewrite (proj2 He1), (proj2 He2), bool_decide_eq_true_2 by done. cbn [assert_ check Z.eqb mbind res_bind].
      eexists. split; [reflexivity|]. apply (control_inv s); try done; unfold control, local_ok; cbn; [by rewrite Er|].
      split; [by exists out|]. split; [done|]. by exists b1, b2.
    + rewrite Eout. cbn [deref mbind res_bind]. destruct (durable_flush _ _ _ Hlog) as (d & -> & Hlog' & Hd). cbn [mbind res_bind].
      eexists. split; [reflexivity|]. apply (control_inv s); try done; unfold control, local_ok; cbn; [|split; [|done]].
      * destruct Hc as [-> [[? ?]|[_ ->]]]; [done|]. split_and!; [by left | done | done].
      * by apply dtor_durable.
  - (* the lock *)
    case_bool_decide as Hbuf; [eexists; split; [reflexivity|]; by apply (control_inv s)|].
    destruct (swap_inv s ls bs (n + 1) Hi' (or_introl Ew)) as (s' & -> & Hi2 & _). cbn [mbind res_bind]. by eexists.
  - (* the wait *)
    destruct (swap_inv s ls bs (n + 1) Hi' (or_intror Ew)) as (s' & -> & Hi2 & _). cbn [mbind res_bind]. by eexists.
  - (* the batch *)
    destruct (write_inv s ls bs n Hi Ew Hbud) as (s' & -> & Hi2 & _). cbn [mbind res_bind]. by eexists.
Qed.

(** ** Runs *)
Abbreviation run := (run basename rollSize garbage garbage256).
Definition lines_of (es : list event) : list bytes := concat (line_of_event <$> es).

(** The batches a run writes, in order: read off its steps. *)
Fixpoint batches (es : list event) s : list (bytes * list bytes) :=
  match es with
  | [] => []
  | e :: es =>
      match step basename rollSize garbage garbage256 s e with
      | None => batches es s
      | Some (Ok s') => batch_step s e ++ batches es s'
      | Some (Fail _) => []
      end
  end.

Lemma inv_mono s ls bs m n : m <= n -> inv s ls bs m -> inv s ls bs n.
Proof using. intros Hm [? ? ? [? ?] ? ?]. split; try done. split; [lia | done]. Qed.

Lemma run_ok es s ls bs n : inv s ls bs n -> Forall good_event es ->
  zlen (concat (ls ++ lines_of es)) + 256 * (n + zlen es) < 2 ^ 63 ->
  exists s', run es s = Ok s' /\ inv s' (ls ++ lines_of es) (bs ++ batches es s) (n + zlen es).
Proof using ok size_range notice_size base_plain names_fresh timeofday_ok.
  intros Hi Hg. revert s ls bs n Hi. induction Hg as [|e es He Hg IH]; intros s ls bs n Hi Hbud.
  { exists s. unfold lines_of. cbn. by rewrite !app_nil_r, Z.add_0_r. }
  unfold lines_of in *. rewrite fmap_cons in *. cbn [concat] in *. rewrite zlen_cons, app_assoc in *. cbn [AsyncLogging.run batches].
  replace (n + (1 + zlen es)) with (n + 1 + zlen es) in * by lia. pose proof (zlen_nonneg es).
  assert (Hnone : line_of_event e = [] -> exists s', run es s = Ok s' /\ inv s' ((ls ++ line_of_event e) ++ concat (line_of_event <$> es)) (bs ++ batches es s) (n + 1 + zlen es)).
  { intros E. rewrite E, app_nil_r in *. apply (IH s ls bs (n + 1)); [by apply (inv_mono _ _ _ n); [lia|] | done]. }
  destruct e as [p len| |]; cbn [AsyncLogging.step].
  - destruct (append_step p len s ls bs n Hi He) as (s1 & -> & Hi1). cbn [mbind res_bind]. cbn [batch_step app].
    apply (IH s1 _ bs (n + 1)); [by apply (inv_mono _ _ _ n); [lia|] | done].
  - destruct (worker_step s) as [r|] eqn:Ew; [|by apply Hnone]. cbn [line_of_event] in *. rewrite app_nil_r in *.
    destruct (worker_step_ok s r ls bs n Hi Ew) as (s1 & -> & Hi1).
    { rewrite concat_app, zlen_app in Hbud. pose proof (zlen_nonneg (concat (concat (line_of_event <$> es)))). lia. }
    cbn [mbind res_bind]. rewrite app_assoc. by apply (IH s1 ls _ (n + 1)).
  - destruct (owner_step s) as [s1|] eqn:Eo; [|by apply Hnone]. cbn [fmap option_fmap option_map line_of_event] in *. rewrite app_nil_r in *.
    cbn [mbind res_bind batch_step app]. apply (IH s1 ls bs (n + 1)); [apply (inv_mono _ _ _ n); [lia|]; by apply (owner_step_ok s) | done].
Qed.

Lemma local_disk s bs : local_ok s bs -> exists log, log_lines log = log_of bs /\ on_disk basename files0 (world s) log.
Proof using.
  assert (Hopen : log_open s bs -> exists log, log_lines log = log_of bs /\ on_disk basename files0 (world s) log).
  { intros (out & _ & cur & older & Hi & _ & El). exists (rev (cur :: older)). split; [done|]. by eapply log_inv_disk. }
  assert (Hnew : bs = [] -> files (world s) = files0 -> exists log, log_lines log = log_of bs /\ on_disk basename files0 (world s) log).
  { intros -> Hf. exists []. split; [done|]. split; [constructor|]. cbn. by rewrite (left_id_L ∅ _). }
  unfold local_ok. destruct (worker s); try (intros (_ & E & _ & Hf); by apply Hnew); try (intros (Ho & _); by apply Hopen).
  intros ((log & El & Hd & _) & _). by exists log.
Qed.

(** C23: asynchronous logging, under every interleaving of appends from any
    threads, the steps of the worker and its owner: no assertion fails and no
    call faults; the files of the log hold the batches the worker has written in
    this run, whole and in order (of a batch of more than 25 buffers the notice,
    with its time and number, and the first two); and those batches, the buffers
    being written, the queued buffers and the current one hold together exactly
    the lines appended, in the order of the appends, but for lines that do not
    fit into an empty buffer. On a system without errors of the disk
    ([OsHealthy]), and at a time of a year of four digits. *)
Theorem AsyncLogging_exact d es : files d = files0 -> Forall good_event es ->
  zlen (concat (lines_of es)) + 256 * zlen es < 2 ^ 63 ->
  let bs := batches es (AsyncLogging_ctor garbage d) in
  exists s, run es (AsyncLogging_ctor garbage d) = Ok s /\
    concat (concat bs.*2) ++ concat (text_of <$> buffersToWrite s) ++ pending s = accepted (lines_of es) /\
    exists log, log_lines log = log_of bs /\ on_disk basename files0 (world s) log.
Proof using ok size_range notice_size base_plain names_fresh timeofday_ok.
  intros Hd Hg Hb. destruct (run_ok es _ [] [] 0 (ctor_ok d Hd) Hg) as (s & E & Hi); [done|].
  exists s. split; [done|]. split; [apply Hi|]. by apply local_disk, Hi.
Qed.

(** ** The worker alone brings everything to the disk *)
Definition works (k : nat) : list event := repeat EWorker k.

Lemma run_worker k s s1 : worker_step s = Some (Ok s1) -> run (works (S k)) s = run (works k) s1 /\
  batches (works (S k)) s = batch_step s EWorker ++ batches (works k) s1.
Proof using. intros E. unfold works. cbn [repeat AsyncLogging.run batches AsyncLogging.step]. by rewrite E. Qed.

(** Everything appended is in files, and flushed; [bs] are the batches written. *)
Definition drained s ls bs : Prop := pending s = [] /\ buffersToWrite s = [] /\
  concat (concat bs.*2) = accepted ls /\ durable (world s) (log_of bs).

(** From [s], with [bs] written, the worker drains in at most [m] steps. *)
Definition drains m s ls bs : Prop :=
  exists k s', (k <= m)%nat /\ run (works k) s = Ok s' /\ drained s' ls (bs ++ batches (works k) s).

Lemma drains_step m s s1 ls bs : worker_step s = Some (Ok s1) -> drains m s1 ls (bs ++ batch_step s EWorker) -> drains (S m) s ls bs.
Proof using.
  intros E (k & s' & Hk & Er & Hd). destruct (run_worker k s s1 E) as [E1 E2]. exists (S k), s'.
  split_and!; [lia | by rewrite E1 | by rewrite E2, app_assoc].
Qed.

Lemma drains_weaken m m' s ls bs : (m <= m')%nat -> drains m s ls bs -> drains m' s ls bs.
Proof using. intros Hm (k & s' & Hk & H). exists k, s'. split; [lia | done]. Qed.

Lemma drain_write s ls bs n : inv s ls bs n -> worker s = WWrite -> pending s = [] -> zlen (concat ls) + 256 * (n + 1) < 2 ^ 63 ->
  drains 1 s ls bs.
Proof using ok size_range notice_size names_fresh timeofday_ok.
  intros Hi Ew Hp Hb. destruct (write_inv s ls bs n Hi Ew Hb) as (s1 & E & Hi1 & Hd & Hp1 & Htw & _).
  eapply (drains_step 0 s (at_worker s1 WLoop)); [unfold AsyncLogging.worker_step; by rewrite Ew, E|].
  exists 0%nat, (at_worker s1 WLoop). split_and!; [lia | done|]. cbn [works repeat batches]. rewrite app_nil_r. unfold batch_step. rewrite Ew.
  pose proof (v_account _ _ _ _ Hi1) as Ha. unfold drained. change (pending (at_worker s1 WLoop)) with (pending s1) in *.
  cbn [at_worker buffersToWrite world] in *. rewrite Htw, Hp1, Hp in *. cbn in Ha. rewrite app_nil_r in Ha. done.
Qed.

Lemma drain_swap s ls bs n : inv s ls bs n -> worker s = WLock \/ worker s = WWait -> zlen (concat ls) + 256 * (n + 1) < 2 ^ 63 ->
  drains 3 s ls bs.
Proof using ok size_range notice_size names_fresh timeofday_ok.
  intros Hi Hpc Hb. assert (Hwait : forall s0, inv s0 ls bs n -> worker s0 = WLock \/ worker s0 = WWait ->
      worker_step s0 = Some (s ← swap_buffers s0; Ok (at_worker s WWrite)) -> drains 2 s0 ls bs).
  { intros s0 Hi0 Hpc0 E0. destruct (swap_inv s0 ls bs n Hi0 Hpc0) as (s1 & E & Hi1 & Hp & _). rewrite E in E0. cbn [mbind res_bind] in E0.
    eapply drains_step; [exact E0|]. assert (batch_step s0 EWorker = []) as -> by (unfold batch_step; by destruct Hpc0 as [-> | ->]).
    rewrite app_nil_r. by eapply drain_write. }
  destruct Hpc as [Ew|Ew].
  - destruct (bool_decide (buffers_ s = [])) eqn:Eb.
    + assert (Hi' : inv (at_worker s WWait) ls bs n).
      { pose proof (v_control _ _ _ _ Hi) as Hc. pose proof (v_local _ _ _ _ Hi) as Hl. unfold control, local_ok in *. rewrite Ew in *.
        by apply (control_inv s). }
      apply (drains_step 2 s (at_worker s WWait)); [unfold AsyncLogging.worker_step; by rewrite Ew, Eb|].
      unfold batch_step. rewrite Ew, app_nil_r. by apply Hwait; [|right|].
    + apply (drains_weaken 2); [lia|]. apply Hwait; [done | by left|]. unfold AsyncLogging.worker_step. by rewrite Ew, Eb.
  - apply (drains_weaken 2); [lia|]. apply Hwait; [done | by right|]. unfold AsyncLogging.worker_step. by rewrite Ew.
Qed.

Lemma drain_loop s ls bs n : inv s ls bs n -> worker s = WLoop -> running_ s = true -> zlen (concat ls) + 256 * (n + 2) < 2 ^ 63 ->
  drains 4 s ls bs.
Proof using ok size_range notice_size base_plain names_fresh timeofday_ok.
  intros Hi Ew Er Hb. destruct (worker_step s) as [r|] eqn:E; [|unfold AsyncLogging.worker_step in E; by rewrite Ew in E].
  destruct (worker_step_ok s r ls bs n Hi E ltac:(lia)) as (s1 & -> & Hi1).
  assert (worker s1 = WLock) as Ew1.
  { unfold AsyncLogging.worker_step in E. rewrite Ew, Er in E. injection E as E. repeat (apply bind_inv in E as ([] & _ & E)). by injection E as <-. }
  eapply drains_step; [exact E|]. eapply drain_swap; [exact Hi1 | by left | lia].
Qed.

Lemma batches_app es es' s s1 : run es s = Ok s1 -> batches (es ++ es') s = batches es s ++ batches es' s1.
Proof using.
  revert s. induction es as [|e es IH]; intros s E; cbn [AsyncLogging.run batches app] in *; [by injection E as ->|].
  destruct (step _ _ _ _ s e) as [[s2|]|]; [|done|by apply IH]. cbn in E. by rewrite (IH _ E), app_assoc.
Qed.

(** While logging runs, nothing stays in memory: from every state a run can
    reach in which the worker has opened the log, at most five steps of the
    worker, the wait among them, bring every line appended so far into the
    files of the log and flush them. *)
Lemma AsyncLogging_drains d es s : files d = files0 -> Forall good_event es ->
  zlen (concat (lines_of es)) + 256 * (zlen es + 3) < 2 ^ 63 ->
  run es (AsyncLogging_ctor garbage d) = Ok s -> running_ s = true -> output s <> None ->
  drains 5 s (lines_of es) (batches es (AsyncLogging_ctor garbage d)).
Proof using ok size_range notice_size base_plain names_fresh timeofday_ok.
  intros Hd Hg Hb E Hr Ho. destruct (run_ok es _ [] [] 0 (ctor_ok d Hd) Hg) as (s0 & E0 & Hi).
  { cbn [app]. lia. }
  rewrite E in E0. injection E0 as <-. cbn [app] in Hi. pose proof (v_control _ _ _ _ Hi) as Hc. pose proof (v_local _ _ _ _ Hi) as Hl.
  unfold control, local_ok in Hc, Hl. destruct (worker s) eqn:Ew; try naive_solver.
  - apply (drains_weaken 4); [lia|]. eapply drain_loop; [exact Hi | done | done | lia].
  - apply (drains_weaken 3); [lia|]. eapply drain_swap; [exact Hi | by left | lia].
  - apply (drains_weaken 3); [lia|]. eapply drain_swap; [exact Hi | by right | lia].
  - destruct (write_inv s _ _ _ Hi Ew ltac:(lia)) as (s1 & E1 & Hi1 & _ & _ & _ & Hr1).
    apply (drains_step 4 s (at_worker s1 WLoop)); [unfold AsyncLogging.worker_step; by rewrite Ew, E1|]. unfold batch_step. rewrite Ew.
    eapply drain_loop; [exact Hi1 | done | cbn; congruence | lia].
  - destruct Hc as (_ & _ & Hc). congruence.
Qed.
End async.

(** ** A short life *)
Module Example.
Import LogFileProps.Example.
Definition base : bytes := lit "air".
(** Buffers of sixteen bytes. *)
Definition memory : bytes := repeat Byte.x00 16.
Definition memory256 : bytes := repeat Byte.x00 256.
Definition line (t : bytes) : event := EAppend (Ptr t 0) (zlen t).
Definition start : list event := [EOwner; EWorker; EOwner; EWorker].
Definition busy : list event := start ++ [line (lit "one,"); line (lit "two,"); line (lit "three,"); line (lit "much too long a line"); EWorker; EWorker; line (lit "four,")].
Abbreviation state es := (run base 1000 memory memory256 es (AsyncLogging_ctor memory empty_disk)).

Lemma memory_range : 0 < zlen memory < 2 ^ 31.
Proof. by vm_compute. Qed.

Lemma fresh : fresh_names base ∅.
Proof. intros t _. apply lookup_empty. Qed.

Lemma timeofday k : let '(sec, usec) := os_timeofday k in four_digit_years sec /\ 0 <= usec < 10 ^ 6.
Proof. cbn. unfold four_digit_years, clock. lia. Qed.

Lemma busy_good : Forall good_event busy.
Proof. repeat (apply Forall_cons; split); try exact I; try (split; [by eexists; vm_compute | by vm_compute]). by apply Forall_nil. Qed.

Lemma busy_lines : lines_of busy = [lit "one,"; lit "two,"; lit "three,"; lit "much too long a line"; lit "four,"].
Proof. by vm_compute. Qed.

Lemma busy_accepted : accepted memory (lines_of busy) = lit "one,two,three,four,".
Proof. by vm_compute. Qed.

Lemma busy_budget : zlen (concat (lines_of busy)) + 256 * (zlen busy + 3) < 2 ^ 63.
Proof. by vm_compute. Qed.

Lemma AsyncLogging_exact_witness : exists s, state busy = Ok s /\
  concat (concat (batches base 1000 memory memory256 busy (AsyncLogging_ctor memory empty_disk)).*2) ++
    concat (text_of <$> buffersToWrite s) ++ pending s = lit "one,two,three,four," /\
  exists log, log_lines log = log_of (batches base 1000 memory memory256 busy (AsyncLogging_ctor memory empty_disk)) /\ on_disk base ∅ (world s) log.
Proof.
  rewrite <- busy_accepted.
  apply (AsyncLogging_exact (ok := os_healthy) base 1000 memory memory256 ∅ memory_range eq_refl base_plain fresh timeofday empty_disk busy eq_refl busy_good).
  pose proof busy_budget. lia.
Defined.

Definition flags (m : res AsyncLogging) : option (bool * bool) :=
  match m with Ok s => Some (running_ s, bool_decide (is_Some (output s))) | Fail _ => None end.

Lemma busy_flags : flags (state busy) = Some (true, true).
Proof. by vm_compute. Qed.

Lemma flags_inv m : flags m = Some (true, true) -> exists s, m = Ok s /\ running_ s = true /\ output s <> None.
Proof.
  destruct m as [s|]; [|done]. cbn. intros [= Hr Ho]. exists s. split_and!; [done | done|]. apply bool_decide_eq_true in Ho as [out Ho]. by rewrite Ho.
Qed.

Lemma AsyncLogging_drains_witness : exists s, state busy = Ok s /\
  drains base 1000 memory memory256 ∅ 5 s (lines_of busy) (batches base 1000 memory memory256 busy (AsyncLogging_ctor memory empty_disk)).
Proof.
  destruct (flags_inv _ busy_flags) as (s & E & Hr & Ho). exists s. split; [exact E|].
  exact (AsyncLogging_drains (ok := os_healthy) base 1000 memory memory256 ∅ memory_range eq_refl base_plain fresh timeofday
    empty_disk busy s eq_refl busy_good busy_budget E Hr Ho).
Defined.

(** ** What [stop] loses

    A line appended while the worker writes its last batch: [stop] returns, the
    worker has finished, and the line is in the current buffer only. *)
Definition last_words : list event :=
  start ++ [line (lit "one,"); EWorker; EWorker; EWorker; line (lit "two,"); EOwner; EWorker; EWorker; EOwner].
Example stop_loses : match state last_words with
  | Ok s => worker s = WDone /\ owner s = OEnd /\ pending s = lit "two," /\ map snd (map_to_list (files (world s))) = [lit "one,"]
  | Fail _ => False
  end.
Proof. vm_compute. auto. Qed.
End Example.
