(* ===== verification/Logging.v ===== *)
(** * [muduo::Logger] ([3rd_party/muduo/muduo/base/Logging.{h,cc}],
      [CurrentThread.h], [Thread.cc])

    A log statement builds a [Logger], whose constructor writes the time, the
    thread and the level into a stream, the caller inserts its text, and the
    destructor adds the place in the source and hands the line to the output
    function. The text of the second is cached per thread, as is the text of
    the thread id. *)
From stdpp Require Import strings.
From S2P Require Import Prelude StringPiece Date TimeZone LogStream LogStreamProps TimerQueue TimeFormat.

(** ** Data *)
Inductive LogLevel := TRACE | DEBUG | INFO | WARN | ERROR | FATAL.

#[global] Instance LogLevel_eq_dec : EqDecision LogLevel.
Proof. solve_decision. Defined.

(** The number of the level, in the order of the enumeration. *)
Definition level_index (l : LogLevel) : Z :=
  match l with TRACE => 0 | DEBUG => 1 | INFO => 2 | WARN => 3 | ERROR => 4 | FATAL => 5 end.

Definition LogLevelName (l : LogLevel) : bytes :=
  match l with
  | TRACE => lit "TRACE " | DEBUG => lit "DEBUG " | INFO => lit "INFO  "
  | WARN => lit "WARN  " | ERROR => lit "ERROR " | FATAL => lit "FATAL "
  end ++ [Byte.x00].

(** The thread-local variables of the logger and of [CurrentThread]. *)
Record thread := mkThread {
  t_time : bytes;
  t_lastSecond : Z;
  t_cachedTid : Z;
  t_tidString : bytes;
  t_tidStringLength : Z;
}.

Definition new_thread : thread := mkThread (repeat Byte.x00 32) 0 0 (repeat Byte.x00 32) 6.

(** [initLogLevel], from the presence of the two environment variables. *)
Definition initLogLevel (trace debug : bool) : LogLevel :=
  if trace then TRACE else if debug then DEBUG else INFO.

(** ** Source files

    [strrchr(blk+off, c)]: the offset of the last [c] before the terminator. *)
Fixpoint last_index (c : byte) (l : bytes) (i : Z) (found : option Z) : res (option Z) :=
  match l with
  | [] => Fail FBounds
  | Byte.x00 :: _ => Ok found
  | x :: l => last_index c l (i + 1) (if Byte.eqb x c then Some i else found)
  end.

Record SourceFile := mkSourceFile { sf_data_ : ptr; sf_size_ : Z }.

(** From an array of [N] characters, the terminator included. *)
Definition SourceFile_array (arr : bytes) : res SourceFile :=
  let size_ := zlen arr - 1 in
  slash ← last_index Byte.x2f arr 0 None;
  match slash with
  | Some i => Ok (mkSourceFile (Ptr arr (i + 1)) (int32 (size_ - (i + 1))))
  | None => Ok (mkSourceFile (Ptr arr 0) (int32 size_))
  end.

Definition SourceFile_cstr (filename : bytes) : res SourceFile :=
  slash ← last_index Byte.x2f filename 0 None;
  let data_ := match slash with Some i => Ptr filename (i + 1) | None => Ptr filename 0 end in
  n ← strlen data_;
  Ok (mkSourceFile data_ (int32 n)).

(** ** Insertion of strings of known length *)
Definition T_ctor (str : ptr) (len : Z) : res (ptr * Z) :=
  n ← strlen str; assert_ (n =? len);; Ok (str, len).

Definition put_T (s : LogStream) (v : ptr * Z) : res LogStream := stream_append s (fst v) (snd v).
Definition put_source (s : LogStream) (v : SourceFile) : res LogStream := stream_append s (sf_data_ v) (sf_size_ v).

(** A string literal as an array. *)
Definition cstr (t : bytes) : ptr := Ptr (t ++ [Byte.x00]) 0.

(** ** The logger *)
Record Impl := mkImpl {
  time_stamp : Z;
  stream_ : LogStream;
  level_ : LogLevel;
  line_ : Z;
  basename_ : SourceFile;
}.

Definition set_stream (i : Impl) (s : LogStream) : Impl :=
  mkImpl (time_stamp i) s (level_ i) (line_ i) (basename_ i).

Section logger.
(** [gettid], the messages of [strerror_r], and uninitialised memory: the array
    of a stream and the one of a [Fmt]. *)
Context (gettid : Z) (strerror_tl : Z -> bytes) (garbage fmt_garbage : bytes).
(** [g_logTimeZone] *)
Context (g_logTimeZone : TimeZone).

Definition cacheTid (t : thread) : res thread :=
  if t_cachedTid t =? 0 then
    '(d, len) ← snprintf (t_tidString t) 0 32 (fmt_d 5 gettid ++ lit " ");
    Ok (mkThread (t_time t) (t_lastSecond t) gettid d (int32 len))
  else Ok t.

Definition tid (t : thread) : res thread := if t_cachedTid t =? 0 then cacheTid t else Ok t.

Definition formatTime (t : thread) (i : Impl) : res (thread * Impl) :=
  let seconds := Z.quot (time_stamp i) kMicroSecondsPerSecond in
  let microseconds := int32 (Z.rem (time_stamp i) kMicroSecondsPerSecond) in
  t ← (if negb (seconds =? t_lastSecond t) then
         tm_time ← (if TimeZone.valid g_logTimeZone then toLocalTime g_logTimeZone seconds else gmtime_r seconds);
         '(d, len) ← snprintf (t_time t) 0 32 (fmt_tm tm_time);
         assert_ (int32 len =? 17);;
         Ok (mkThread d seconds (t_cachedTid t) (t_tidString t) (t_tidStringLength t))
       else Ok t);
  let '(suffix, n) := if TimeZone.valid g_logTimeZone then (lit " ", 8) else (lit "Z ", 9) in
  us ← Fmt_ctor fmt_garbage (lit "." ++ fmt_0d 6 microseconds ++ suffix);
  assert_ (fmt_length_ us =? n);;
  v ← T_ctor (Ptr (t_time t) 0) 17;
  s ← put_T (stream_ i) v;
  v ← T_ctor (Ptr (buf_ us) 0) n;
  s ← put_T s v;
  Ok (t, set_stream i s).

(** [Impl::Impl]; [now] is [Timestamp::now()]. *)
Definition Impl_ctor (now : Z) (level : LogLevel) (savedErrno : Z) (file : SourceFile) (line : Z) (t : thread)
    : res (thread * Impl) :=
  '(t, i) ← formatTime t (mkImpl now (FixedBuffer_ctor garbage) level line file);
  t ← tid t;
  v ← T_ctor (Ptr (t_tidString t) 0) (t_tidStringLength t);
  s ← put_T (stream_ i) v;
  v ← T_ctor (Ptr (LogLevelName level) 0) 6;
  s ← put_T s v;
  s ← (if negb (savedErrno =? 0) then
         s ← put_cstr s (cstr (strerror_tl savedErrno));
         s ← put_cstr s (cstr (lit " (errno="));
         s ← put_int s savedErrno;
         put_cstr s (cstr (lit ") "))
       else Ok s);
  Ok (t, set_stream i s).

Definition finish (i : Impl) : res Impl :=
  s ← put_cstr (stream_ i) (cstr (lit " - "));
  s ← put_source s (basename_ i);
  s ← put_char s Byte.x3a;
  s ← put_int s (line_ i);
  s ← put_char s Byte.x0a;
  Ok (set_stream i s).

(** The four constructors of [Logger]. *)
Inductive logger_args :=
  | LInfo                                   (** [Logger(file, line)] *)
  | LFunc (level : LogLevel) (func : bytes) (** [Logger(file, line, level, func)] *)
  | LLevel (level : LogLevel)               (** [Logger(file, line, level)] *)
  | LErrno (toAbort : bool) (errno : Z).    (** [Logger(file, line, toAbort)] *)

Definition Logger_ctor (a : logger_args) (now : Z) (file : SourceFile) (line : Z) (t : thread) : res (thread * Impl) :=
  match a with
  | LInfo => Impl_ctor now INFO 0 file line t
  | LFunc level func =>
      '(t, i) ← Impl_ctor now level 0 file line t;
      s ← put_cstr (stream_ i) (cstr func);
      s ← put_char s Byte.x20;
      Ok (t, set_stream i s)
  | LLevel level => Impl_ctor now level 0 file line t
  | LErrno toAbort errno => Impl_ctor now (if toAbort then FATAL else ERROR) errno file line t
  end.

(** [~Logger]: what [g_output] is called with, and whether the output is flushed
    and the process aborted. *)
Definition Logger_dtor (i : Impl) : res (bytes * bool) :=
  i ← finish i;
  msg ← ptr_read (Ptr (data_ (stream_ i)) 0) (FixedBuffer_length (stream_ i));
  Ok (msg, bool_decide (level_ i = FATAL)).
End logger.

(** The macros [LOG_TRACE] to [LOG_SYSFATAL]: the constructor they call and
    whether [g_logLevel] lets the statement run. *)
Inductive log_macro := LOG_TRACE | LOG_DEBUG | LOG_INFO | LOG_WARN | LOG_ERROR | LOG_FATAL | LOG_SYSERR | LOG_SYSFATAL.

Definition macro_enabled (g_logLevel : LogLevel) (m : log_macro) : bool :=
  match m with
  | LOG_TRACE => level_index g_logLevel <=? level_index TRACE
  | LOG_DEBUG => level_index g_logLevel <=? level_index DEBUG
  | LOG_INFO => level_index g_logLevel <=? level_index INFO
  | _ => true
  end.

Definition macro_args (func : bytes) (errno : Z) (m : log_macro) : logger_args :=
  match m with
  | LOG_TRACE => LFunc TRACE func | LOG_DEBUG => LFunc DEBUG func | LOG_INFO => LInfo
  | LOG_WARN => LLevel WARN | LOG_ERROR => LLevel ERROR | LOG_FATAL => LLevel FATAL
  | LOG_SYSERR => LErrno false errno | LOG_SYSFATAL => LErrno true errno
  end.
