(* ===== verification/LoggingProps.v ===== *)
(** * Log lines: their text, whatever was cached

    A log statement run in any thread prints the line its arguments denote: the
    cached second and thread id never show. *)
From stdpp Require Import strings.
From S2P Require Import Prelude StringPiece Date TimeZone TimeZoneProps LogStream LogStreamProps TimerQueue TimeFormat Logging.

(** ** Insertions that fit *)
Lemma append_fits s c p t : holds s c -> ptr_read p (zlen t) = Ok t -> zlen c + zlen t < kSmallBuffer ->
  exists s', stream_append s p (zlen t) = Ok s' /\ holds s' (c ++ t).
Proof.
  intros H Hp Hf. unfold stream_append, kSmallBuffer in *. zlen_pos. rewrite size_t_id by lia.
  destruct (append_holds s c p t H Hp ltac:(lia)) as (s' & E & H'). exists s'. split; [done|].
  unfold kSmallBuffer in H'. by rewrite (proj2 (Z.leb_le _ _)) in H' by lia.
Qed.

Lemma T_ctor_ok t k : nul_free t -> T_ctor (Ptr (t ++ Byte.x00 :: k) 0) (zlen t) = Ok (Ptr (t ++ Byte.x00 :: k) 0, zlen t).
Proof.
  intros Ht. unfold T_ctor, strlen. rewrite zdrop_0. change (check (0 <=? 0) FBounds) with (@Ok unit tt). cbn [mbind res_bind].
  rewrite strlen_terminated by done. cbn [mbind res_bind]. unfold assert_. by rewrite Z.eqb_refl.
Qed.

Lemma put_T_fits s c t k : holds s c -> zlen c + zlen t < kSmallBuffer ->
  exists s', put_T s (Ptr (t ++ Byte.x00 :: k) 0, zlen t) = Ok s' /\ holds s' (c ++ t).
Proof. intros H Hf. apply append_fits; [done | apply read_terminated | done]. Qed.

Lemma put_cstr_fits s c t : holds s c -> nul_free t -> zlen c + zlen t < kSmallBuffer ->
  exists s', put_cstr s (cstr t) = Ok s' /\ holds s' (c ++ t).
Proof.
  intros H Ht Hf. unfold put_cstr, cstr, strlen. rewrite zdrop_0. change (check (0 <=? 0) FBounds) with (@Ok unit tt). cbn [mbind res_bind].
  rewrite strlen_terminated by done. cbn [mbind res_bind]. zlen_pos. unfold kSmallBuffer in *.
  destruct (append_fits s c (Ptr (t ++ [Byte.x00]) 0) t H (read_terminated t [])) as (s' & E & H'); [unfold kSmallBuffer; lia|].
  exists s'. split; [|done]. unfold stream_append in E. by rewrite size_t_id in E by lia.
Qed.

Lemma put_int_fits s c v : holds s c -> in_s 32 v -> zlen c + 32 <= kSmallBuffer ->
  exists s', put_int s v = Ok s' /\ holds s' (c ++ decimal v).
Proof.
  intros H Hv Hf. unfold in_s in Hv. destruct (formatInteger_holds s c v H) as (s' & E & H'); [unfold machine_int; lia|].
  exists s'. split; [done|]. unfold kMaxNumericSize in H'. by rewrite (proj2 (Z.leb_le _ _)) in H' by lia.
Qed.

Lemma put_char_fits s c x : holds s c -> zlen c + 1 < kSmallBuffer -> exists s', put_char s x = Ok s' /\ holds s' (c ++ [x]).
Proof.
  intros H Hf. destruct (append_fits s c (Ptr [x] 0) [x] H (ptr_read_all [x])) as (s' & E & H'); [done|]. by exists s'.
Qed.

(** ** Names of source files *)
Definition slash : byte := Byte.x2f.

(** What follows the last slash. *)
Fixpoint base_name (l : bytes) : bytes :=
  match l with
  | [] => []
  | x :: k => if bool_decide (slash ∈ k) then base_name k else if bool_decide (x = slash) then k else x :: k
  end.

Lemma base_name_none l : slash ∉ l -> base_name l = l.
Proof.
  destruct l as [|x l]; [done|]. intros [Hx Hl]%not_elem_of_cons. cbn [base_name].
  by rewrite !bool_decide_eq_false_2 by (done || by apply not_eq_sym).
Qed.

Lemma base_name_last a b : slash ∉ b -> base_name (a ++ slash :: b) = b.
Proof.
  intros Hb. induction a as [|x a IH]; cbn [app base_name].
  - by rewrite bool_decide_eq_false_2, bool_decide_eq_true_2 by done.
  - rewrite bool_decide_eq_true_2; [done|]. apply elem_of_app. right. apply list_elem_of_here.
Qed.

Lemma last_index_spec l k i f : nul_free l ->
  ((slash ∉ l) /\ last_index slash (l ++ Byte.x00 :: k) i f = Ok f) \/
  exists a b, l = a ++ slash :: b /\ (slash ∉ b) /\ last_index slash (l ++ Byte.x00 :: k) i f = Ok (Some (i + zlen a)).
Proof.
  revert i f. induction l as [|x l IH]; intros i f Hn; [left; split; [apply not_elem_of_nil | done]|].
  unfold nul_free in Hn. apply not_elem_of_cons in Hn as [Hx Hn]. cbn [app].
  assert (last_index slash (x :: l ++ Byte.x00 :: k) i f = last_index slash (l ++ Byte.x00 :: k) (i + 1) (if Byte.eqb x slash then Some i else f)) as ->
    by (by destruct x).
  destruct (IH (i + 1) (if Byte.eqb x slash then Some i else f) Hn) as [[Hl E]|(a & b & -> & Hb & E)].
  - destruct (Byte.eqb x slash) eqn:Ex.
    + apply Byte.byte_dec_bl in Ex as ->. right. exists [], l. split_and!; [done | done|]. rewrite E. by rewrite zlen_nil, Z.add_0_r.
    + left. split; [|done]. apply not_elem_of_cons. split; [|done]. intros <-. by rewrite (Byte.byte_dec_lb eq_refl) in Ex.
  - right. exists (x :: a), b. split_and!; [done | done|]. rewrite E, zlen_cons. do 2 f_equal. lia.
Qed.

(** Both constructors of [SourceFile] keep the base name of the path. *)
Lemma SourceFile_base path : nul_free path -> zlen path < 2 ^ 31 - 1 ->
  (exists f, SourceFile_array (path ++ [Byte.x00]) = Ok f /\ SourceFile_cstr (path ++ [Byte.x00]) = Ok f /\
     sf_size_ f = zlen (base_name path) /\ ptr_read (sf_data_ f) (sf_size_ f) = Ok (base_name path)).
Proof.
  intros Hn Hl. zlen_pos. unfold SourceFile_array, SourceFile_cstr. rewrite zlen_app. change (zlen [Byte.x00]) with 1. fold slash.
  destruct (last_index_spec path [] 0 None Hn) as [[Hs ->]|(a & b & -> & Hb & ->)]; cbn [mbind res_bind].
  - rewrite base_name_none by done. unfold strlen. change (check (0 <=? 0) FBounds) with (@Ok unit tt). cbn [mbind res_bind].
    rewrite zdrop_0, strlen_terminated by done. cbn [mbind res_bind]. rewrite Z.add_simpl_r, int32_id by lia.
    eexists. split_and!; [reflexivity | done | done|]. apply read_terminated.
  - rewrite base_name_last by done. rewrite zlen_app, zlen_cons in *. zlen_pos. apply nul_free_app in Hn as [_ Hn].
    unfold nul_free in Hn. apply not_elem_of_cons in Hn as [_ Hn]. unfold strlen.
    assert (Ed : zdrop (0 + zlen a + 1) ((a ++ slash :: b) ++ [Byte.x00]) = b ++ [Byte.x00]).
    { rewrite <- app_assoc. rewrite zdrop_app_r by lia. replace (0 + zlen a + 1 - zlen a) with 1 by lia. done. }
    rewrite Ed, strlen_terminated by done. unfold check. rewrite (proj2 (Z.leb_le _ _)) by lia. cbn [mbind res_bind].
    rewrite !int32_id by lia. replace (zlen a + (1 + zlen b) + 1 - 1 - (0 + zlen a + 1)) with (zlen b) by lia.
    eexists. split_and!; [reflexivity | done | done|]. cbn [sf_data_ sf_size_].
    rewrite ptr_read_ok by zlen_side. by rewrite Ed, ztake_app_l, ztake_all by lia.
Qed.

(** ** The header *)
Section lines.
Context (gettid : Z) (strerror_tl : Z -> bytes) (garbage fmt_garbage : bytes) (tz : TimeZone).
Hypothesis gettid_range : 0 < gettid < 2 ^ 31.
Hypothesis garbage_size : zlen garbage = kSmallBuffer.
Hypothesis fmt_size : zlen fmt_garbage = 32.
Hypothesis strerror_text : forall e, nul_free (strerror_tl e) /\ zlen (strerror_tl e) < 512.

(** The broken-down time a second is shown as. *)
Definition zone_time (seconds : Z) : res tm :=
  if TimeZone.valid tz then toLocalTime tz seconds else gmtime_r seconds.

Definition tid_text : bytes := fmt_d 5 gettid ++ lit " ".
Definition zone_suffix : bytes := if TimeZone.valid tz then lit " " else lit "Z ".
Definition time_text (t : tm) (us : Z) : bytes := fmt_tm t ++ lit "." ++ fmt_0d 6 us ++ zone_suffix.

(** What the thread-local caches hold: nothing, or what would be computed. *)
Definition time_cached (t : thread) : Prop :=
  zlen (t_time t) = 32 /\
  (t_lastSecond t = 0 \/ exists u k, zone_time (t_lastSecond t) = Ok u /\ printable u /\ t_time t = fmt_tm u ++ Byte.x00 :: k).
Definition tid_cached (t : thread) : Prop :=
  t_cachedTid t = 0 /\ zlen (t_tidString t) = 32 \/
  t_cachedTid t = gettid /\ t_tidStringLength t = zlen tid_text /\ exists k, t_tidString t = tid_text ++ Byte.x00 :: k.

Lemma snprintf_terminated d text : zlen d = 32 -> zlen text < 32 ->
  exists k, snprintf d 0 32 text = Ok (text ++ Byte.x00 :: k, zlen text) /\ zlen (text ++ Byte.x00 :: k) = 32.
Proof using.
  intros Hd Ht. pose proof (zlen_nonneg text). unfold snprintf. rewrite ztake_all, stored_write by lia. cbn [mbind res_bind]. unfold stored. rewrite ztake_0.
  cbn [app]. rewrite <- app_assoc. cbn [app]. eexists. split; [reflexivity|]. rewrite zlen_app, zlen_cons, zlen_drop by zlen_side. rewrite ?zlen_app, ?zlen_cons, ?zlen_nil. lia.
Qed.

Lemma Fmt_terminated text : zlen text < 32 -> exists k, Fmt_ctor fmt_garbage text = Ok (mkFmt (text ++ Byte.x00 :: k) (zlen text)).
Proof using fmt_size.
  intros Ht. unfold Fmt_ctor. rewrite fmt_size. destruct (snprintf_terminated fmt_garbage text fmt_size Ht) as (k & -> & _).
  pose proof (zlen_nonneg text). cbn [mbind res_bind]. rewrite int32_id, size_t_id by lia.
  rewrite assert_bind_true by (apply Z.ltb_lt; lia). by exists k.
Qed.

Lemma tid_text_len : 6 <= zlen tid_text <= 13 /\ nul_free tid_text.
Proof using gettid_range.
  unfold tid_text. pose proof (decimal_width 10 gettid ltac:(lia) ltac:(lia)). pose proof (zlen_nonneg (decimal gettid)). split.
  - rewrite zlen_app. change (zlen (lit " ")) with 1. unfold fmt_d. rewrite zlen_pad. lia.
  - apply nul_free_app. split; [apply fmt_d_nul_free; lia | by apply (bool_decide_unpack _)].
Qed.

Lemma tid_ok t : tid_cached t -> exists t' k, tid gettid t = Ok t' /\ t_tidString t' = tid_text ++ Byte.x00 :: k /\
  t_tidStringLength t' = zlen tid_text /\ tid_cached t' /\ t_time t' = t_time t /\ t_lastSecond t' = t_lastSecond t.
Proof using gettid_range.
  destruct tid_text_len as [Hl _]. intros [[H0 H32]|(H0 & Hlen & k & Ek)]; unfold tid; rewrite H0.
  - cbn [Z.eqb]. unfold cacheTid. rewrite H0. cbn [Z.eqb]. fold tid_text.
    destruct (snprintf_terminated (t_tidString t) tid_text H32 ltac:(lia)) as (k & E & _). rewrite E. cbn [mbind res_bind].
    rewrite int32_id by lia. do 2 eexists. split_and!; try reflexivity. right. split_and!; [done | done | by exists k].
  - rewrite (proj2 (Z.eqb_neq gettid 0)) by lia. exists t, k. split_and!; try done. right. eauto.
Qed.

Lemma micro_range now : 0 <= now -> 0 <= Z.rem now kMicroSecondsPerSecond < 10 ^ 6.
Proof using. intros H. destruct (micro_split now H) as (_ & ? & _). done. Qed.

Lemma formatTime_ok t i u : time_cached t -> 0 < Z.quot (time_stamp i) kMicroSecondsPerSecond -> holds (stream_ i) [] ->
  zone_time (Z.quot (time_stamp i) kMicroSecondsPerSecond) = Ok u -> printable u ->
  exists t' s, formatTime fmt_garbage tz t i = Ok (t', set_stream i s) /\ time_cached t' /\
    holds s (time_text u (Z.rem (time_stamp i) kMicroSecondsPerSecond)) /\
    t_cachedTid t' = t_cachedTid t /\ t_tidString t' = t_tidString t /\ t_tidStringLength t' = t_tidStringLength t.
Proof using fmt_size.
  intros [H32 Hc] Hs Hh Hz Hu. destruct (fmt_tm_text u Hu) as [Lu Nu].
  assert (Hnow : 0 <= time_stamp i) by (unfold kMicroSecondsPerSecond in Hs; Z.to_euclidean_division_equations; lia).
  pose proof (micro_range _ Hnow) as Hus. unfold formatTime. set (seconds := Z.quot (time_stamp i) _) in *.
  set (us := Z.rem (time_stamp i) _) in *. rewrite int32_id by lia.
  assert (exists t' k, (if negb (seconds =? t_lastSecond t) then
         tm_time ← (if TimeZone.valid tz then toLocalTime tz seconds else gmtime_r seconds);
         '(d, len) ← snprintf (t_time t) 0 32 (fmt_tm tm_time);
         assert_ (int32 len =? 17);;
         Ok (mkThread d seconds (t_cachedTid t) (t_tidString t) (t_tidStringLength t))
       else Ok t) = Ok t' /\ t_time t' = fmt_tm u ++ Byte.x00 :: k /\ time_cached t' /\
       t_cachedTid t' = t_cachedTid t /\ t_tidString t' = t_tidString t /\ t_tidStringLength t' = t_tidStringLength t)
    as (t' & k & -> & Ek & Hc' & H1 & H2 & H3).
  { destruct (Z.eqb_spec seconds (t_lastSecond t)) as [Eq|_]; cbn [negb].
    - destruct Hc as [?|(v & k & Hv & Hpv & Et)]; [lia|]. rewrite <- Eq, Hz in Hv. injection Hv as <-.
      exists t, k. split_and!; try done. split; [done|]. right. exists u, k. by rewrite <- Eq.
    - fold (zone_time seconds). rewrite Hz. cbn [mbind res_bind].
      destruct (snprintf_terminated (t_time t) (fmt_tm u) H32 ltac:(lia)) as (k & -> & L). cbn [mbind res_bind].
      rewrite Lu. cbn [assert_ check]. exists (mkThread (fmt_tm u ++ Byte.x00 :: k) seconds (t_cachedTid t) (t_tidString t) (t_tidStringLength t)), k.
      split_and!; try done. split; [done|]. right. by exists u, k. }
  cbn [mbind res_bind].
  destruct (fmt_0d_read 6 us ltac:(lia) Hus) as [L6 _].
  set (n := if TimeZone.valid tz then 8 else 9). set (text := lit "." ++ fmt_0d 6 us ++ zone_suffix).
  assert (Ln : zlen text = n) by (subst text n; rewrite !zlen_app, L6; unfold zone_suffix; case_match; done).
  assert (Nn : nul_free text).
  { subst text. rewrite !nul_free_app. split; [by apply (bool_decide_unpack _)|]. split; [apply fmt_0d_nul_free; lia|].
    unfold zone_suffix. case_match; by apply (bool_decide_unpack _). }
  assert (Hn : n = 8 \/ n = 9) by (subst n; case_match; lia).
  replace (if TimeZone.valid tz then (lit " ", 8) else (lit "Z ", 9)) with (zone_suffix, n)
    by (subst n; unfold zone_suffix; by case_match).
  fold text. destruct (Fmt_terminated text ltac:(lia)) as (k' & ->). cbn [mbind res_bind fmt_length_ buf_]. rewrite Ln, Ek, assert_bind_true by apply Z.eqb_refl.
  pose proof (T_ctor_ok (fmt_tm u) k Nu) as ET. rewrite Lu in ET. rewrite ET. cbn [mbind res_bind].
  destruct (put_T_fits (stream_ i) [] (fmt_tm u) k Hh) as (s1 & E1 & Hh1); [rewrite Lu; done|]. rewrite Lu in E1. rewrite E1. cbn [mbind res_bind].
  pose proof (T_ctor_ok text k' Nn) as ET'. rewrite Ln in ET'. rewrite ET'. cbn [mbind res_bind].
  destruct (put_T_fits s1 ([] ++ fmt_tm u) text k' Hh1) as (s2 & E2 & Hh2); [cbn [app]; rewrite Lu, Ln; unfold kSmallBuffer; lia|].
  rewrite Ln in E2. rewrite E2. cbn [mbind res_bind]. exists t', s2. split_and!; try done.
Qed.

Definition thread_ok (t : thread) : Prop := time_cached t /\ tid_cached t.

Lemma new_thread_ok : thread_ok new_thread.
Proof using. split; [split; [done | by left] | by left]. Qed.

Definition level_text (l : LogLevel) : bytes := ztake 6 (LogLevelName l).
Definition errno_text (e : Z) : bytes :=
  if e =? 0 then [] else strerror_tl e ++ lit " (errno=" ++ decimal e ++ lit ") ".

Lemma level_text_eq l : LogLevelName l = level_text l ++ [Byte.x00] /\ nul_free (level_text l) /\ zlen (level_text l) = 6.
Proof using. destruct l; (split_and!; [reflexivity | by apply (bool_decide_unpack _) | reflexivity]). Qed.

Lemma errno_text_len e : in_s 32 e -> 0 <= zlen (errno_text e) <= 542.
Proof using strerror_text.
  intros He. unfold errno_text. destruct (strerror_text e) as [_ Hl]. pose proof (zlen_nonneg (strerror_tl e)).
  case_match; [change (zlen (@nil byte)) with 0; lia|]. unfold in_s in He. pose proof (decimal_zlen e ltac:(unfold machine_int; lia)).
  rewrite !zlen_app. change (zlen (lit " (errno=")) with 8. change (zlen (lit ") ")) with 2. lia.
Qed.

Lemma time_text_len u us : printable u -> 0 <= us < 10 ^ 6 -> zlen (time_text u us) <= 26.
Proof using.
  intros Hu Hus. destruct (fmt_tm_text u Hu) as [Lu _]. destruct (fmt_0d_read 6 us ltac:(lia) Hus) as [L6 _].
  assert (zlen zone_suffix <= 2) by (unfold zone_suffix; by case_match).
  unfold time_text. rewrite !zlen_app, Lu, L6. change (zlen (lit ".")) with 1. lia.
Qed.

Lemma put_errno_ok s c e : holds s c -> in_s 32 e -> zlen c <= 100 ->
  exists s', (if negb (e =? 0) then
         s ← put_cstr s (cstr (strerror_tl e));
         s ← put_cstr s (cstr (lit " (errno="));
         s ← put_int s e;
         put_cstr s (cstr (lit ") "))
       else Ok s) = Ok s' /\ holds s' (c ++ errno_text e).
Proof using strerror_text.
  intros H He Hc. unfold errno_text. destruct (strerror_text e) as [Ne Le]. pose proof (zlen_nonneg (strerror_tl e)) as P1. pose proof (zlen_nonneg c) as P2.
  destruct (Z.eqb_spec e 0) as [_|_]; cbn [negb]; [exists s; by rewrite app_nil_r|].
  assert (Hd : zlen (decimal e) <= 20) by (apply decimal_zlen; unfold in_s in He; unfold machine_int; lia).
  assert (zlen (lit " (errno=") = 8 /\ zlen (lit ") ") = 2) as [L1 L2] by done. assert (kSmallBuffer = 4000) as K by done.
  destruct (put_cstr_fits s c (strerror_tl e) H Ne) as (s1 & -> & H1); [lia|]. cbn [mbind res_bind].
  destruct (put_cstr_fits s1 _ (lit " (errno=") H1) as (s2 & -> & H2); [by apply (bool_decide_unpack _) | rewrite zlen_app; lia|]. cbn [mbind res_bind].
  destruct (put_int_fits s2 _ e H2 He) as (s3 & -> & H3); [rewrite !zlen_app; lia|]. cbn [mbind res_bind].
  destruct (put_cstr_fits s3 _ (lit ") ") H3) as (s4 & -> & H4); [by apply (bool_decide_unpack _) | rewrite !zlen_app; lia|].
  exists s4. split; [done|]. by rewrite <- !app_assoc in H4.
Qed.

Lemma Impl_ctor_ok t now level e file line u : thread_ok t -> 0 < Z.quot now kMicroSecondsPerSecond ->
  zone_time (Z.quot now kMicroSecondsPerSecond) = Ok u -> printable u -> in_s 32 e ->
  exists t' s, Impl_ctor gettid strerror_tl garbage fmt_garbage tz now level e file line t = Ok (t', mkImpl now s level line file) /\
    thread_ok t' /\ holds s (time_text u (Z.rem now kMicroSecondsPerSecond) ++ tid_text ++ level_text level ++ errno_text e).
Proof using gettid_range garbage_size fmt_size strerror_text.
  intros [Ht Hid] Hs Hz Hu He. unfold Impl_ctor.
  assert (Hnow : 0 <= now) by (unfold kMicroSecondsPerSecond in Hs; Z.to_euclidean_division_equations; lia).
  pose proof (time_text_len u _ Hu (micro_range _ Hnow)) as Ltime. set (us := Z.rem now _) in *.
  destruct (formatTime_ok t (mkImpl now (FixedBuffer_ctor garbage) level line file) u) as (t1 & s1 & -> & Ht1 & H1 & I1 & I2 & I3); try done.
  cbn [mbind res_bind set_stream stream_ time_stamp level_ line_ basename_] in *. fold us in H1.
  assert (Hid1 : tid_cached t1) by (unfold tid_cached in *; by rewrite I1, I2, I3).
  destruct (tid_ok t1 Hid1) as (t2 & k & -> & Ek & El & Hid2 & J1 & J2). cbn [mbind res_bind]. destruct tid_text_len as [Ltid Ntid].
  assert (kSmallBuffer = 4000) as K by done. pose proof (zlen_nonneg (time_text u us)).
  rewrite Ek, El, T_ctor_ok by done. cbn [mbind res_bind].
  destruct (put_T_fits s1 _ tid_text k H1) as (s2 & -> & H2); [lia|]. cbn [mbind res_bind].
  destruct (level_text_eq level) as (El1 & El2 & El3). rewrite El1.
  pose proof (T_ctor_ok (level_text level) [] El2) as ET. rewrite El3 in ET. rewrite ET. cbn [mbind res_bind].
  destruct (put_T_fits s2 _ (level_text level) [] H2) as (s3 & E3 & H3); [rewrite zlen_app; lia|]. rewrite El3 in E3. rewrite E3. cbn [mbind res_bind].
  destruct (put_errno_ok s3 _ e H3 He) as (s4 & -> & H4); [rewrite !zlen_app; lia|]. cbn [mbind res_bind].
  exists t2, s4. split; [done|]. split; [|by rewrite <- !app_assoc in H4].
  split; [|done]. unfold time_cached in *. by rewrite J1, J2.
Qed.

(** ** Statements *)
Context {float double : Type} (to_double : float -> double) (format_g12 : double -> bytes).
Hypothesis format_short : forall v, zlen (format_g12 v) < 32.
Abbreviation push := (LogStreamProps.push to_double format_g12).
Abbreviation text := (LogStreamProps.text to_double format_g12).

(** A log statement: the constructor, the time it runs at, where it is, and
    what the caller inserts. *)
Record statement := mkStatement {
  st_args : logger_args;
  st_now : Z;
  st_path : bytes;
  st_line : Z;
  st_user : list (insertion (float := float) (double := double));
}.

Definition run_statement (t : thread) (st : statement) : res (thread * (bytes * bool)) :=
  file ← SourceFile_array (st_path st ++ [Byte.x00]);
  '(t, i) ← Logger_ctor gettid strerror_tl garbage fmt_garbage tz (st_args st) (st_now st) file (st_line st) t;
  s ← puts to_double format_g12 (stream_ i) (st_user st);
  out ← Logger_dtor (set_stream i s);
  Ok (t, out).

Fixpoint run_statements (t : thread) (l : list statement) : res (thread * list (bytes * bool)) :=
  match l with
  | [] => Ok (t, [])
  | st :: l => '(t, o) ← run_statement t st; '(t, os) ← run_statements t l; Ok (t, o :: os)
  end.

Definition level_of (a : logger_args) : LogLevel :=
  match a with LInfo => INFO | LFunc l _ | LLevel l => l | LErrno toAbort _ => if toAbort then FATAL else ERROR end.
Definition errno_of (a : logger_args) : Z := match a with LErrno _ e => e | _ => 0 end.
Definition func_text (a : logger_args) : bytes := match a with LFunc _ f => f ++ lit " " | _ => [] end.

Definition st_seconds (st : statement) : Z := Z.quot (st_now st) kMicroSecondsPerSecond.
Definition st_micros (st : statement) : Z := Z.rem (st_now st) kMicroSecondsPerSecond.

(** The line a statement denotes. *)
Definition header (st : statement) : bytes :=
  (match zone_time (st_seconds st) with Ok u => time_text u (st_micros st) | Fail _ => [] end) ++ tid_text ++
  level_text (level_of (st_args st)) ++ errno_text (errno_of (st_args st)) ++ func_text (st_args st).
Definition trailer (st : statement) : list (insertion (float := float) (double := double)) :=
  [ICStr (cstr (lit " - ")); IString (base_name (st_path st)); IChar Byte.x3a; IInt (st_line st); IChar Byte.x0a].
Definition line_text (st : statement) : bytes := foldl push (foldl push (header st) (st_user st)) (trailer st).
Definition output (st : statement) : bytes * bool := (line_text st, bool_decide (level_of (st_args st) = FATAL)).

Record good (st : statement) : Prop := {
  g_now : 0 < st_seconds st;
  g_zone : exists u, zone_time (st_seconds st) = Ok u /\ printable u;
  g_errno : in_s 32 (errno_of (st_args st));
  g_func : nul_free (func_text (st_args st)) /\ zlen (func_text (st_args st)) <= 1024;
  g_path : nul_free (st_path st) /\ zlen (st_path st) < 2 ^ 31 - 1;
  g_line : in_s 32 (st_line st);
  g_user : Forall LogStreamProps.valid (st_user st);
}.

Lemma Logger_ctor_ok t st file : thread_ok t -> good st ->
  exists t' s, Logger_ctor gettid strerror_tl garbage fmt_garbage tz (st_args st) (st_now st) file (st_line st) t =
      Ok (t', mkImpl (st_now st) s (level_of (st_args st)) (st_line st) file) /\
    thread_ok t' /\ holds s (header st).
Proof using gettid_range garbage_size fmt_size strerror_text.
  intros Ht [Hnow (u & Hz & Hu) He [Nf Lf] _ _ _]. unfold header. rewrite Hz.
  destruct (Impl_ctor_ok t (st_now st) (level_of (st_args st)) (errno_of (st_args st)) file (st_line st) u Ht Hnow Hz Hu He)
    as (t' & s & E & Ht' & Hs). fold (st_micros st) in Hs.
  assert (H0 : 0 <= st_now st) by (unfold st_seconds, kMicroSecondsPerSecond in Hnow; Z.to_euclidean_division_equations; lia).
  pose proof (time_text_len u _ Hu (micro_range _ H0)) as Lt. fold (st_micros st) in Lt.
  destruct tid_text_len as [Ltid _]. destruct (level_text_eq (level_of (st_args st))) as (_ & _ & Ll). pose proof (errno_text_len _ He) as Le.
  unfold Logger_ctor. destruct (st_args st) as [|level func|level|toAbort errno]; cbn [level_of errno_of func_text] in *;
    try (exists t', s; split_and!; [done | done | rewrite (app_nil_r (errno_text _)); exact Hs]).
  rewrite E. cbn [mbind res_bind stream_]. apply nul_free_app in Nf as [Nf _]. rewrite zlen_app in Lf. change (zlen (lit " ")) with 1 in Lf.
  assert (kSmallBuffer = 4000) as K by done. set (c := time_text _ _ ++ _) in *.
  assert (zlen c <= 600) by (subst c; rewrite !zlen_app; lia).
  destruct (put_cstr_fits s c func Hs Nf) as (s1 & -> & H1); [lia|]. cbn [mbind res_bind].
  destruct (put_char_fits s1 (c ++ func) Byte.x20 H1) as (s2 & -> & H2); [rewrite zlen_app; lia|]. cbn [mbind res_bind].
  exists t', s2. split_and!; [done | done|]. subst c. by rewrite <- !app_assoc in *.
Qed.

Lemma finish_ok i c st : holds (stream_ i) c -> line_ i = st_line st -> in_s 32 (st_line st) ->
  sf_size_ (basename_ i) = zlen (base_name (st_path st)) -> zlen (base_name (st_path st)) < 2 ^ 31 ->
  ptr_read (sf_data_ (basename_ i)) (sf_size_ (basename_ i)) = Ok (base_name (st_path st)) ->
  exists s, finish i = Ok (set_stream i s) /\ holds s (foldl push c (trailer st)).
Proof using format_short.
  intros H Hl Hr Hsz Hlt Hp. unfold finish. pose proof (zlen_nonneg (base_name (st_path st))) as P.
  destruct (put_holds to_double format_g12 format_short (stream_ i) c (ICStr (cstr (lit " - "))) H) as (s1 & E1 & H1); [split_and!; [done | by right; right; right; left | done]|].
  cbn [put] in E1. rewrite E1. cbn [mbind res_bind].
  unfold put_source, stream_append. rewrite Hsz in *. rewrite size_t_id by lia.
  destruct (append_holds s1 _ (sf_data_ (basename_ i)) (base_name (st_path st)) H1 Hp ltac:(lia)) as (s2 & -> & H2). cbn [mbind res_bind].
  destruct (put_holds to_double format_g12 format_short s2 _ (IChar Byte.x3a) H2 I) as (s3 & E3 & H3). cbn [put] in E3. rewrite E3. cbn [mbind res_bind].
  destruct (put_holds to_double format_g12 format_short s3 _ (IInt (st_line st)) H3 Hr) as (s4 & E4 & H4). cbn [put] in E4. rewrite Hl, E4. cbn [mbind res_bind].
  destruct (put_holds to_double format_g12 format_short s4 _ (IChar Byte.x0a) H4 I) as (s5 & E5 & H5). cbn [put] in E5. rewrite E5. cbn [mbind res_bind].
  exists s5. split; [done|]. exact H5.
Qed.

Lemma base_name_len l : zlen (base_name l) <= zlen l.
Proof using.
  induction l as [|x l IH]; cbn [base_name]; [done|]. pose proof (zlen_nonneg l).
  repeat case_match; rewrite ?zlen_cons in *; lia.
Qed.

Lemma run_statement_ok t st : thread_ok t -> good st ->
  exists t', run_statement t st = Ok (t', output st) /\ thread_ok t'.
Proof using gettid_range garbage_size fmt_size strerror_text format_short.
  intros Ht Hg. unfold run_statement, output. destruct (g_path _ Hg) as [Np Lp].
  destruct (SourceFile_base _ Np Lp) as (f & -> & _ & Hsz & Hp). cbn [mbind res_bind].
  destruct (Logger_ctor_ok t st f Ht Hg) as (t' & s & -> & Ht' & Hs). cbn [mbind res_bind stream_].
  destruct (puts_holds to_double format_g12 format_short s _ (st_user st) Hs (g_user _ Hg)) as (s1 & -> & H1). cbn [mbind res_bind].
  unfold Logger_dtor. pose proof (base_name_len (st_path st)).
  destruct (finish_ok (set_stream (mkImpl (st_now st) s (level_of (st_args st)) (st_line st) f) s1) _ st H1) as (s2 & -> & H2);
    try done; [apply (g_line _ Hg) | lia|]. cbn [mbind res_bind set_stream stream_ level_].
  pose proof (holds_toString _ _ H2) as Er. unfold toString in Er. destruct H2 as [[Hd Hc] _].
  assert (size_t (FixedBuffer_length s2) = FixedBuffer_length s2) as Esz
    by (unfold FixedBuffer_length, kSmallBuffer in *; rewrite int32_id, size_t_id by lia; done).
  rewrite Esz in Er. rewrite Er. cbn [mbind res_bind]. by exists t'.
Qed.

(** Insertions that fit are appended. *)
Definition no_reset (i : insertion (float := float) (double := double)) : Prop := match i with IReset => False | _ => True end.

Lemma push_fits c l : Forall no_reset l -> zlen c + zlen (concat (text <$> l)) + 32 <= kSmallBuffer ->
  foldl push c l = c ++ concat (text <$> l).
Proof using.
  revert c. induction l as [|i l IH]; intros c Hn Hl; [by rewrite app_nil_r|]. apply Forall_cons in Hn as [Hi Hn].
  rewrite fmap_cons in *. cbn [concat foldl] in *. rewrite zlen_app in Hl. pose proof (zlen_nonneg (text i)). pose proof (zlen_nonneg (concat (text <$> l))).
  assert (push c i = c ++ text i) as ->.
  { destruct i; try done; unfold LogStreamProps.push; (rewrite (proj2 (Z.leb_le _ _)); [done|]); cbn [need]; unfold kMaxNumericSize; try lia. }
  rewrite app_assoc. apply IH; [done | rewrite zlen_app; lia].
Qed.

(** The whole line, when there is room for it. *)
Definition whole_line (st : statement) : bytes :=
  header st ++ concat (text <$> st_user st) ++ lit " - " ++ base_name (st_path st) ++ lit ":" ++ decimal (st_line st) ++ [Byte.x0a].

Lemma line_fits st : Forall no_reset (st_user st) -> zlen (whole_line st) + 32 <= kSmallBuffer -> line_text st = whole_line st.
Proof using.
  intros Hn Hl. unfold line_text, whole_line in *. rewrite !zlen_app in Hl.
  pose proof (zlen_nonneg (base_name (st_path st))). pose proof (zlen_nonneg (decimal (st_line st))).
  assert (zlen (lit " - ") = 3 /\ zlen (lit ":") = 1 /\ zlen [Byte.x0a] = 1) as (L1 & L2 & L3) by done.
  rewrite (push_fits (header st)) by (done || lia). rewrite push_fits.
  - by rewrite <- app_assoc.
  - by repeat constructor.
  - unfold trailer. cbn [fmap list_fmap concat LogStreamProps.text]. change (cstr_text (cstr (lit " - "))) with (lit " - ").
    change ([Byte.x3a]) with (lit ":"). rewrite app_nil_r, !zlen_app. lia.
Qed.

(** C25: In every thread, any sequence of log statements, at any times from the
    second second of 1970 on whose year in the log's zone has four digits, in
    any order, and as long as the zone is not changed, prints one line each: the
    time in the log's zone to the microsecond, the thread, the level, the error
    and the function where the constructor asks for them, what the caller
    inserted, the base name of the file and the line. The caches of the thread
    then never show. A line 32 bytes shorter than the 4000 of the buffer is
    complete with its newline (a number is only written where 32 bytes are
    left), unless the caller empties the buffer; only [FATAL] aborts, after its
    line is out. *)
Theorem Logger_lines sts : Forall good sts ->
  exists t, run_statements new_thread sts = Ok (t, output <$> sts) /\
    Forall (fun st => Forall no_reset (st_user st) -> zlen (whole_line st) + 32 <= kSmallBuffer -> (output st).1 = whole_line st) sts.
Proof using gettid_range garbage_size fmt_size strerror_text format_short.
  intros Hg. cut (forall t, thread_ok t -> exists t', run_statements t sts = Ok (t', output <$> sts)).
  { intros Hrun. destruct (Hrun new_thread new_thread_ok) as (t' & E). exists t'. split; [done|].
    apply Forall_forall. intros st _. apply line_fits. }
  induction Hg as [|st sts Hst Hg IH]; intros t Ht; [by exists t|]. cbn [run_statements].
  destruct (run_statement_ok t st Ht Hst) as (t1 & -> & Ht1). cbn [mbind res_bind].
  destruct (IH t1 Ht1) as (t2 & ->). cbn [mbind res_bind]. by exists t2.
Qed.
End lines.

(** ** Lines on paper *)
Module Example.
Definition strerror (e : Z) : bytes := lit "Bad file descriptor".
Definition garbage : bytes := repeat Byte.x00 4000.
Definition fmt_garbage : bytes := repeat Byte.x00 32.
Definition to_double (f : unit) : unit := f.
Definition format (d : unit) : bytes := lit "0".
Definition path : bytes := lit "src/net/session.cpp".

Definition first : statement := mkStatement (float := unit) (double := unit) LInfo 1400000000000042 path 17 [IString (lit "fd = "); IInt 7].
Definition second : statement := mkStatement (float := unit) (double := unit) (LErrno true 9) 1400000000000042 path 18 [].
Definition run (tz : TimeZone) := run_statements 42 strerror garbage fmt_garbage tz to_double format.

Lemma utc : zone_time None (st_seconds first) = Ok (utc_tm 1400000000) /\ printable (utc_tm 1400000000).
Proof.
  split; [done|]. destruct (gmtime_four_digits 1400000000) as (Hv & _ & Hy); [unfold four_digit_years; lia|]. by split.
Qed.

Lemma statement_good a line user : in_s 32 (errno_of a) -> nul_free (func_text a) -> zlen (func_text a) <= 1024 -> in_s 32 line ->
  Forall LogStreamProps.valid user -> good None (mkStatement (float := unit) (double := unit) a 1400000000000042 path line user).
Proof.
  intros He Hf Lf Hl Hu. split; cbn [st_args st_path st_line st_user]; try done; [by exists (utc_tm 1400000000); apply utc|].
  split; [by apply (bool_decide_unpack _) | by vm_compute].
Qed.

Lemma first_good : good None first.
Proof.
  apply statement_good; [by vm_compute | by apply (bool_decide_unpack _) | by vm_compute | by vm_compute|].
  repeat (apply Forall_cons; split); [by vm_compute | by vm_compute | by apply Forall_nil].
Qed.

Lemma second_good : good None second.
Proof.
  apply statement_good; [by vm_compute | by apply (bool_decide_unpack _) | by vm_compute | by vm_compute | by apply Forall_nil].
Qed.

Lemma strerror_short e : nul_free (strerror e) /\ zlen (strerror e) < 512.
Proof. split; [by apply (bool_decide_unpack _) | by vm_compute]. Qed.

Lemma lines_eq : output 42 strerror None to_double format <$> [first; second] =
  [(lit "20140513 16:53:20.000042Z    42 INFO  fd = 7 - session.cpp:17" ++ [Byte.x0a], false);
   (lit "20140513 16:53:20.000042Z    42 FATAL Bad file descriptor (errno=9)  - session.cpp:18" ++ [Byte.x0a], true)].
Proof. vm_compute. reflexivity. Qed.

Lemma Logger_lines_witness : exists t, run None new_thread [first; second] = Ok (t,
  [(lit "20140513 16:53:20.000042Z    42 INFO  fd = 7 - session.cpp:17" ++ [Byte.x0a], false);
   (lit "20140513 16:53:20.000042Z    42 FATAL Bad file descriptor (errno=9)  - session.cpp:18" ++ [Byte.x0a], true)]).
Proof.
  rewrite <- lines_eq.
  destruct (Logger_lines 42 strerror garbage fmt_garbage None ltac:(lia) eq_refl eq_refl strerror_short
    to_double format (fun _ => eq_refl) [first; second]) as (t & E & _).
  - exact (proj2 (Forall_cons _ _ _) (conj first_good (proj2 (Forall_cons _ _ _) (conj second_good (proj2 (Forall_nil _) I))))).
  - exists t. exact E.
Defined.

(** The text of the second is not recomputed when the zone is changed within the
    second: eight hours east, the line shows universal time as local time. *)
Definition east : TimeZone := TimeZone_fixed 28800 (lit "CST").
Example stale_zone :
  ('(t, _) ← run None new_thread [first]; '(_, out) ← run east t [first]; Ok out) =
  Ok [(lit "20140513 16:53:20.000042    42 INFO  fd = 7 - session.cpp:17" ++ [Byte.x0a], false)] /\
  ('(_, out) ← run east new_thread [first]; Ok out) =
  Ok [(lit "20140514 00:53:20.000042    42 INFO  fd = 7 - session.cpp:17" ++ [Byte.x0a], false)].
Proof. split; vm_compute; reflexivity. Qed.

(** A message that fills the array leaves no room for the place or the newline;
    one that is larger is dropped as a whole. *)
Definition message (n : nat) : statement :=
  mkStatement (float := unit) (double := unit) LInfo 1400000000000042 path 17 [IString (repeat Byte.x61 n)].
Definition printed (n : nat) : res (list bytes) := '(_, out) ← run None new_thread [message n]; Ok (map fst out).
Example long_messages :
  (out ← printed 3961; Ok (map last out)) = Ok [Some Byte.x61] /\
  printed 4000 = Ok [lit "20140513 16:53:20.000042Z    42 INFO   - session.cpp:17" ++ [Byte.x0a]].
Proof. split; vm_compute; reflexivity. Qed.
End Example.
