(* ===== verification/LogEndToEnd.v ===== *)
(** * From a log statement to the disk

    Log statements in any threads hand their lines to [AsyncLogging::append]
    (the output function a program installs), whose worker writes them to the
    log files: the three components composed. *)
From stdpp Require Import strings.
From S2P Require Import Prelude Date TimeZone TimeZoneProps TimeFormat LogStream LogStreamProps LogFile LogFileProps.
From S2P Require Import AsyncLogging AsyncLoggingProps Logging LoggingProps.

Lemma large_enough : kSmallBuffer <= kLargeBuffer < 2 ^ 31.
Proof. by vm_compute. Qed.

Section compose.
(** The logger: what it gets from the system, and how it shows floating point numbers. *)
Context (strerror_tl : Z -> bytes) (tz : TimeZone).
Context {float double : Type} (to_double : float -> double) (format_g12 : double -> bytes).
Hypothesis strerror_text : forall e, nul_free (strerror_tl e) /\ zlen (strerror_tl e) < 512.
Hypothesis format_short : forall v, zlen (format_g12 v) < 32.

(** A line that some thread's logger prints for a statement. *)
Definition logged (t : bytes) : Prop := exists gettid st, 0 < gettid < 2 ^ 31 /\ good tz st /\
  t = line_text (float := float) (double := double) gettid strerror_tl tz to_double format_g12 st.

(** Such a line is shorter than the array of the stream. *)
Lemma logged_short t : logged t -> zlen t < kSmallBuffer.
Proof using strerror_text format_short.
  intros (gettid & st & Hid & Hg & ->).
  set (garbage := repeat Byte.x00 4000). set (fmt_garbage := repeat Byte.x00 32).
  assert (Hz : zlen garbage = kSmallBuffer) by (unfold garbage, zlen; by rewrite repeat_length).
  assert (Hz' : zlen fmt_garbage = 32) by (unfold fmt_garbage, zlen; by rewrite repeat_length). clearbody garbage fmt_garbage.
  destruct (g_path _ _ Hg) as [Np Lp]. destruct (SourceFile_base _ Np Lp) as (f & _ & _ & Hsz & Hp).
  destruct (Logger_ctor_ok gettid strerror_tl garbage fmt_garbage tz Hid Hz Hz' strerror_text new_thread st f (new_thread_ok _ _) Hg)
    as (t' & s & _ & _ & Hs).
  destruct (puts_holds to_double format_g12 format_short s _ (st_user st) Hs (g_user _ _ Hg)) as (s1 & _ & H1).
  pose proof (base_name_len (st_path st)).
  destruct (finish_ok to_double format_g12 format_short (set_stream (mkImpl (st_now st) s INFO (st_line st) f) s1) _ st H1)
    as (s2 & _ & H2); try done; [apply (g_line _ _ Hg) | lia|].
  pose proof (holds_zlen _ _ H2) as E. destruct H2 as [[_ Hc] _]. unfold line_text. lia.
Qed.

Context {O : Os} {ok : OsHealthy O}.
Context (basename : bytes) (rollSize : Z) (garbage garbage256 : bytes) (files0 : gmap bytes bytes).
(** The buffers can hold any line; [kLargeBuffer] is such a size. *)
Hypothesis large : kSmallBuffer <= zlen garbage < 2 ^ 31.
Hypothesis notice_size : zlen garbage256 = 256.
Hypothesis base_plain : Byte.x2f ∉ basename.
Hypothesis names_fresh : fresh_names basename files0.
Hypothesis timeofday_ok : forall k, let '(sec, usec) := os_timeofday k in four_digit_years sec /\ 0 <= usec < 10 ^ 6.

Lemma logged_taken ls : Forall logged ls -> accepted garbage ls = concat ls.
Proof using large strerror_text format_short.
  unfold accepted. induction 1 as [|t ls Ht Hls IH]; [done|]. rewrite fmap_cons. cbn [concat]. rewrite IH. f_equal.
  unfold taken. apply logged_short in Ht. by rewrite (proj2 (Z.ltb_lt _ _)) by lia.
Qed.

(** Batches of at most 25 buffers are written whole. *)
Lemma undropped bs : Forall (fun b : bytes * list bytes => zlen b.2 <= 25) bs -> log_of bs = concat bs.*2.
Proof using.
  unfold log_of. induction 1 as [|b bs Hb Hbs IH]; [done|]. rewrite !fmap_cons. cbn [concat]. rewrite IH. f_equal.
  unfold written. by rewrite (proj2 (Z.ltb_ge _ _)) by lia.
Qed.

(** C15: a logged line reaches the disk. When the lines appended to a running
    [AsyncLogging], by any threads and in any interleaving with the worker, are
    lines that loggers print, then at most five steps of the worker later the
    files of the log hold, flushed and in order, the batches the worker wrote
    from the start to then, and those are exactly the lines appended: none was
    too long to be taken. So the files hold exactly those lines if none of these
    batches has more than 25 buffers; of such a batch they hold the notice about
    the loss and the first two buffers. On a system without errors of
    the disk ([OsHealthy]), and at a time of a year of four digits. *)
Theorem logged_lines_reach_the_disk d es s : files d = files0 -> Forall good_event es -> Forall logged (lines_of es) ->
  zlen (concat (lines_of es)) + 256 * (zlen es + 3) < 2 ^ 63 ->
  run basename rollSize garbage garbage256 es (AsyncLogging_ctor garbage d) = Ok s -> running_ s = true -> AsyncLogging.output s <> None ->
  exists k s' log, (k <= 5)%nat /\ run basename rollSize garbage garbage256 (works k) s = Ok s' /\
    let bs := batches basename rollSize garbage garbage256 (es ++ works k) (AsyncLogging_ctor garbage d) in
    on_disk basename files0 (world s') log /\ all_flushed basename (world s') log /\ log_lines log = log_of bs /\
    concat (concat bs.*2) = concat (lines_of es) /\
    (Forall (fun b => zlen b.2 <= 25) bs -> concat (log_lines log) = concat (lines_of es)).
Proof using ok large strerror_text format_short notice_size base_plain names_fresh timeofday_ok.
  intros Hd Hg Hl Hb E Hr Ho.
  destruct (AsyncLogging_drains basename rollSize garbage garbage256 files0 (ok := ok)) with (d := d) (es := es) (s := s)
    as (k & s' & Hk & E' & _ & _ & Ha & log & El & Hdisk & Hfl); try done.
  { unfold kSmallBuffer in large. lia. }
  exists k, s', log. cbn zeta. rewrite (batches_app basename rollSize garbage garbage256 _ _ _ _ E). rewrite logged_taken in Ha by done.
  split_and!; try done. intros Hn. by rewrite El, undropped, Ha.
Qed.
End compose.

(** ** One line *)
Module Example.
Import LogFileProps.Example LoggingProps.Example.
Definition base : bytes := lit "air".
Definition memory : bytes := repeat Byte.x00 4000.
Definition memory256 : bytes := repeat Byte.x00 256.
Definition the_line : bytes := lit "20140513 16:53:20.000042Z    42 INFO  fd = 7 - session.cpp:17" ++ [Byte.x0a].
Definition events : list event := [EOwner; EWorker; EOwner; EWorker; EAppend (Ptr the_line 0) (zlen the_line)].
Abbreviation state es := (AsyncLogging.run base 1000 memory memory256 es (AsyncLogging_ctor memory empty_disk)).

Lemma first_line : the_line = line_text 42 strerror None to_double format first.
Proof. vm_compute. reflexivity. Qed.

Lemma line_logged : logged strerror None to_double format the_line.
Proof. exists 42, first. exact (conj (conj eq_refl eq_refl) (conj first_good first_line)). Qed.

Lemma events_lines : lines_of events = [the_line].
Proof. by vm_compute. Qed.

Lemma events_good : Forall good_event events.
Proof. repeat (apply Forall_cons; split); try exact I; try (split; [by eexists; vm_compute | by vm_compute]). by apply Forall_nil. Qed.

Lemma events_flags : AsyncLoggingProps.Example.flags (state events) = Some (true, true).
Proof. by vm_compute. Qed.

Lemma disk_fresh : fresh_names base ∅.
Proof. intros t _. apply lookup_empty. Qed.

Lemma memory_large : kSmallBuffer <= zlen memory < 2 ^ 31.
Proof. by vm_compute. Qed.

Lemma events_budget : zlen (concat (lines_of events)) + 256 * (zlen events + 3) < 2 ^ 63.
Proof. by vm_compute. Qed.

Lemma events_logged : Forall (logged strerror None to_double format) (lines_of events).
Proof. rewrite events_lines. apply Forall_singleton, line_logged. Qed.

Lemma logged_lines_reach_the_disk_witness : exists s k s' log, state events = Ok s /\ (k <= 5)%nat /\
  AsyncLogging.run base 1000 memory memory256 (works k) s = Ok s' /\ on_disk base ∅ (world s') log /\ all_flushed base (world s') log /\
  log_lines log = log_of (batches base 1000 memory memory256 (events ++ works k) (AsyncLogging_ctor memory empty_disk)).
Proof.
  destruct (AsyncLoggingProps.Example.flags_inv _ events_flags) as (s & E & Hr & Ho).
  destruct (logged_lines_reach_the_disk strerror None to_double format strerror_short (fun _ => eq_refl) (ok := os_healthy) base 1000 memory memory256 ∅
    memory_large eq_refl base_plain disk_fresh AsyncLoggingProps.Example.timeofday empty_disk events s eq_refl events_good events_logged events_budget E Hr Ho)
    as (k & s' & log & Hk & E' & H1 & H2 & H3 & _).
  exists s, k, s', log. exact (conj E (conj Hk (conj E' (conj H1 (conj H2 H3))))).
Defined.
End Example.
