(* ===== verification/Http.v ===== *)
(** * HTTP ([3rd_party/muduo/muduo/net/http/])

    Requests ([HttpRequest.h]), the incremental parser ([HttpContext.{h,cc}]),
    responses ([HttpResponse.{h,cc}]) and the server that ties them to a
    connection ([HttpServer.cc]).

    Pointers into a line are offsets into its bytes, [begin] being 0. A
    [std::map] is the list of its entries in the order of its keys. *)
From stdpp Require Import strings.
From S2P Require Import Prelude Endian StringPiece Buffer MuduoBuffer Channel TcpConnection LogStream LogStreamProps.

(** ** The standard library *)

(** [std::find(first, last, c)] over [blk]. *)
Fixpoint find_index (c : byte) (l : bytes) : Z :=
  match l with
  | [] => 0
  | x :: l => if Byte.eqb x c then 0 else 1 + find_index c l
  end.
Definition range (blk : bytes) (first last : Z) : bytes := ztake (last - first) (zdrop first blk).
Definition std_find (blk : bytes) (first last : Z) (c : byte) : Z := first + find_index c (range blk first last).

Definition SP : byte := Byte.x20.

(** [isspace] in the C locale. *)
Definition isspace (c : byte) : bool :=
  existsb (Byte.eqb c) [SP; Byte.x09; Byte.x0a; Byte.x0b; Byte.x0c; Byte.x0d].

(** [std::map<string, string>]: [find] and [m[key] = value]. *)
Definition map_t := list (bytes * bytes).
Fixpoint map_find (m : map_t) (key : bytes) : option bytes :=
  match m with
  | [] => None
  | (k, v) :: m => if bool_decide (key = k) then Some v else map_find m key
  end.
Fixpoint map_set (m : map_t) (key value : bytes) : map_t :=
  match m with
  | [] => [(key, value)]
  | (k, v) :: m' =>
      match lex key k with
      | Lt => (key, value) :: m
      | Eq => (k, value) :: m'
      | Gt => (k, v) :: map_set m' key value
      end
  end.

(** ** Requests *)
Inductive Method := kInvalid | kGet | kPost | kHead | kPut | kDelete.
Inductive Version := kUnknown | kHttp10 | kHttp11.
#[global] Instance Method_eq_dec : EqDecision Method.
Proof. solve_decision. Defined.
#[global] Instance Version_eq_dec : EqDecision Version.
Proof. solve_decision. Defined.

(** [receiveTime_]: microseconds since the epoch, 0 when not set. *)
Record HttpRequest := mkRequest {
  method_ : Method;
  version_ : Version;
  path_ : bytes;
  query_ : bytes;
  receiveTime_ : Z;
  headers_ : map_t;
}.

Definition HttpRequest_ctor : HttpRequest := mkRequest kInvalid kUnknown [] [] 0 [].

Definition setVersion (r : HttpRequest) (v : Version) : HttpRequest :=
  mkRequest (method_ r) v (path_ r) (query_ r) (receiveTime_ r) (headers_ r).

Definition method_of (m : bytes) : Method :=
  if bool_decide (m = lit "GET") then kGet
  else if bool_decide (m = lit "POST") then kPost
  else if bool_decide (m = lit "HEAD") then kHead
  else if bool_decide (m = lit "PUT") then kPut
  else if bool_decide (m = lit "DELETE") then kDelete
  else kInvalid.

Definition setMethod (r : HttpRequest) (m : bytes) : res (bool * HttpRequest) :=
  assert_ (bool_decide (method_ r = kInvalid));;
  let method := method_of m in
  Ok (bool_decide (method <> kInvalid),
      mkRequest method (version_ r) (path_ r) (query_ r) (receiveTime_ r) (headers_ r)).

Definition methodString (r : HttpRequest) : bytes :=
  match method_ r with
  | kGet => lit "GET"
  | kPost => lit "POST"
  | kHead => lit "HEAD"
  | kPut => lit "PUT"
  | kDelete => lit "DELETE"
  | kInvalid => lit "UNKNOWN"
  end.

Definition setPath (r : HttpRequest) (p : bytes) : HttpRequest :=
  mkRequest (method_ r) (version_ r) p (query_ r) (receiveTime_ r) (headers_ r).
Definition setQuery (r : HttpRequest) (q : bytes) : HttpRequest :=
  mkRequest (method_ r) (version_ r) (path_ r) q (receiveTime_ r) (headers_ r).
Definition setReceiveTime (r : HttpRequest) (t : Z) : HttpRequest :=
  mkRequest (method_ r) (version_ r) (path_ r) (query_ r) t (headers_ r).

(** [while (colon < end && isspace( *colon)) ++colon;] *)
Fixpoint skip_spaces (l : bytes) : bytes :=
  match l with
  | [] => []
  | c :: l' => if isspace c then skip_spaces l' else l
  end.
(** [while (!value.empty() && isspace(value[value.size()-1])) value.resize(value.size()-1);] *)
Fixpoint drop_spaces_end (l : bytes) : bytes :=
  match l with
  | [] => []
  | c :: l =>
      match drop_spaces_end l with
      | [] => if isspace c then [] else [c]
      | r => c :: r
      end
  end.

(** [addHeader(start, colon, end)] on the line [blk]. *)
Definition addHeader (r : HttpRequest) (blk : bytes) (start colon end_ : Z) : HttpRequest :=
  let field := range blk start colon in
  let value := drop_spaces_end (skip_spaces (range blk (colon + 1) end_)) in
  mkRequest (method_ r) (version_ r) (path_ r) (query_ r) (receiveTime_ r) (map_set (headers_ r) field value).

Definition getHeader (r : HttpRequest) (field : bytes) : bytes :=
  match map_find (headers_ r) field with Some v => v | None => [] end.

(** [swap]: both requests after the call. *)
Definition request_swap (r that : HttpRequest) : HttpRequest * HttpRequest :=
  (mkRequest (method_ that) (version_ that) (path_ that) (query_ that) (receiveTime_ that) (headers_ that),
   mkRequest (method_ r) (version_ r) (path_ r) (query_ r) (receiveTime_ r) (headers_ r)).

(** ** The parser *)
Inductive ParseState := kExpectRequestLine | kExpectHeaders | kExpectBody | kGotAll.
#[global] Instance ParseState_eq_dec : EqDecision ParseState.
Proof. solve_decision. Defined.

Record HttpContext := mkContext { pstate_ : ParseState; request_ : HttpRequest }.

Definition HttpContext_ctor : HttpContext := mkContext kExpectRequestLine HttpRequest_ctor.
Definition gotAll (c : HttpContext) : bool := bool_decide (pstate_ c = kGotAll).
Definition reset_context (c : HttpContext) : HttpContext :=
  let dummy := HttpRequest_ctor in
  mkContext kExpectRequestLine (request_swap (request_ c) dummy).1.

(** [processRequestLine(begin, end)] with [line] the bytes of the range. *)
Definition processRequestLine (r : HttpRequest) (line : bytes) : res (bool * HttpRequest) :=
  let end_ := zlen line in
  let start := 0 in
  let space := std_find line start end_ SP in
  if negb (space =? end_) then
    '(valid, r) ← setMethod r (range line start space);
    if (valid : bool) then
      let start := space + 1 in
      let space := std_find line start end_ SP in
      if negb (space =? end_) then
        let question := std_find line start space Byte.x3f in
        let r := if negb (question =? space) then
                   setQuery (setPath r (range line start question)) (range line question space)
                 else setPath r (range line start space) in
        let start := space + 1 in
        let succeed := (end_ - start =? 8) && bool_decide (range line start (end_ - 1) = lit "HTTP/1.") in
        if succeed then
          last ← vec_read line (end_ - 1) 1;
          if bool_decide (last = lit "1") then Ok (true, setVersion r kHttp11)
          else if bool_decide (last = lit "0") then Ok (true, setVersion r kHttp10)
          else Ok (false, r)
        else Ok (false, r)
      else Ok (false, r)
    else Ok (false, r)
  else Ok (false, r).

(** What the loop carries: [ok], [hasMore], the context and the buffer. *)
Record parsing := mkParsing { p_ok : bool; p_hasMore : bool; p_ctx : HttpContext; p_buf : Buffer }.

(** One pass of the loop of [parseRequest]. *)
Definition request_pass (receiveTime : Z) (p : parsing) : res parsing :=
  let c := p_ctx p in
  let buf := p_buf p in
  match pstate_ c with
  | kExpectRequestLine =>
      crlf ← findCRLF buf;
      match crlf with
      | Some crlf =>
          line ← vec_read (buffer_ buf) (peek buf) (crlf - peek buf);
          '(ok, r) ← processRequestLine (request_ c) line;
          if (ok : bool) then
            buf ← retrieveUntil buf (crlf + 2);
            Ok (mkParsing ok true (mkContext kExpectHeaders (setReceiveTime r receiveTime)) buf)
          else Ok (mkParsing ok false (mkContext kExpectRequestLine r) buf)
      | None => Ok (mkParsing (p_ok p) false c buf)
      end
  | kExpectHeaders =>
      crlf ← findCRLF buf;
      match crlf with
      | Some crlf =>
          line ← vec_read (buffer_ buf) (peek buf) (crlf - peek buf);
          let colon := std_find line 0 (zlen line) Byte.x3a in
          let '(c, hasMore) :=
            if negb (colon =? zlen line)
            then (mkContext kExpectHeaders (addHeader (request_ c) line 0 colon (zlen line)), true)
            else (mkContext kGotAll (request_ c), false) in
          buf ← retrieveUntil buf (crlf + 2);
          Ok (mkParsing (p_ok p) hasMore c buf)
      | None => Ok (mkParsing (p_ok p) false c buf)
      end
  | kExpectBody => Ok p
  | kGotAll => Ok p
  end.

Fixpoint request_loop (fuel : nat) (receiveTime : Z) (p : parsing) : res parsing :=
  if p_hasMore p then
    match fuel with
    | O => Fail FFuel
    | S fuel => p ← request_pass receiveTime p; request_loop fuel receiveTime p
    end
  else Ok p.

(** [parseRequest]: the result, the context and the buffer. Every pass that goes
    on takes a line out of the buffer. *)
Definition parseRequest (c : HttpContext) (buf : Buffer) (receiveTime : Z) : res (bool * HttpContext * Buffer) :=
  p ← request_loop (S (Z.to_nat (readableBytes buf))) receiveTime (mkParsing true true c buf);
  Ok (p_ok p, p_ctx p, p_buf p).

(** ** Responses *)
Definition k200Ok : Z := 200.
Definition k301MovedPermanently : Z := 301.
Definition k400BadRequest : Z := 400.
Definition k404NotFound : Z := 404.

Record HttpResponse := mkResponse {
  rheaders_ : map_t;
  statusCode_ : Z;
  statusMessage_ : bytes;
  closeConnection_ : bool;
  body_ : bytes;
}.

Definition HttpResponse_ctor (close : bool) : HttpResponse := mkResponse [] 0 [] close [].
Definition setStatusCode (r : HttpResponse) (code : Z) : HttpResponse :=
  mkResponse (rheaders_ r) code (statusMessage_ r) (closeConnection_ r) (body_ r).
Definition setStatusMessage (r : HttpResponse) (message : bytes) : HttpResponse :=
  mkResponse (rheaders_ r) (statusCode_ r) message (closeConnection_ r) (body_ r).
Definition setCloseConnection (r : HttpResponse) (on : bool) : HttpResponse :=
  mkResponse (rheaders_ r) (statusCode_ r) (statusMessage_ r) on (body_ r).
Definition response_addHeader (r : HttpResponse) (key value : bytes) : HttpResponse :=
  mkResponse (map_set (rheaders_ r) key value) (statusCode_ r) (statusMessage_ r) (closeConnection_ r) (body_ r).
Definition setContentType (r : HttpResponse) (contentType : bytes) : HttpResponse :=
  response_addHeader r (lit "Content-Type") contentType.
Definition setBody (r : HttpResponse) (body : bytes) : HttpResponse :=
  mkResponse (rheaders_ r) (statusCode_ r) (statusMessage_ r) (closeConnection_ r) body.

(** [output->append] of a string: the argument is converted to a [StringPiece].
    A literal or a [char] array has no zero inside, so its length is found too. *)
Definition append_str (b : Buffer) (s : bytes) : res Buffer := append_piece b (StringPiece_string s).

(** [snprintf(buf, 32, ...)] keeps 31 characters of the text. *)
Definition snprintf32 (text : bytes) : bytes := ztake 31 text.

Definition CRLF : bytes := [Byte.x0d; Byte.x0a].

Fixpoint append_headers (b : Buffer) (m : map_t) : res Buffer :=
  match m with
  | [] => Ok b
  | (k, v) :: m =>
      b ← append_str b k;
      b ← append_str b (lit ": ");
      b ← append_str b v;
      b ← append_str b CRLF;
      append_headers b m
  end.

Definition appendToBuffer (r : HttpResponse) (output : Buffer) : res Buffer :=
  let buf := snprintf32 (lit "HTTP/1.1 " ++ decimal (statusCode_ r) ++ lit " ") in
  b ← append_str output buf;
  b ← append_str b (statusMessage_ r);
  b ← append_str b CRLF;
  b ← (if closeConnection_ r then append_str b (lit "Connection: close" ++ CRLF)
       else
         let buf := snprintf32 (lit "Content-Length: " ++ decimal (zlen (body_ r)) ++ CRLF) in
         b ← append_str b buf;
         append_str b (lit "Connection: Keep-Alive" ++ CRLF));
  b ← append_headers b (rheaders_ r);
  b ← append_str b CRLF;
  append_str b (body_ r).

(** ** The server *)
Definition defaultHttpCallback (r : HttpRequest) (resp : HttpResponse) : HttpResponse :=
  setCloseConnection (setStatusMessage (setStatusCode resp k404NotFound) (lit "Not Found")) true.

Section server.
Context {K : Type}.
Implicit Type w : world K.

(** [httpCallback_] fills the response. *)
Context (httpCallback_ : HttpRequest -> HttpResponse -> HttpResponse).

(** The context object of the connection after [onConnection]. *)
Definition onConnection w (context : option HttpContext) : option HttpContext :=
  if connected w then Some HttpContext_ctor else context.

Definition onRequest (req : HttpRequest) w : res (world K) :=
  let connection := getHeader req (lit "Connection") in
  let close := bool_decide (connection = lit "close") ||
    (bool_decide (version_ req = kHttp10) && negb (bool_decide (connection = lit "Keep-Alive"))) in
  let response := httpCallback_ req (HttpResponse_ctor close) in
  buf ← muduo_Buffer kInitialSize;
  buf ← appendToBuffer response buf;
  '(w, _) ← send_buffer buf w;
  if closeConnection_ response then shutdown w else Ok w.

Definition bad_request : bytes := lit "HTTP/1.1 400 Bad Request" ++ CRLF ++ CRLF.

(** [onMessage]: the context and the world after it. *)
Definition onMessage (receiveTime : Z) (context : HttpContext) w : res (HttpContext * world K) :=
  '(ok, context, buf) ← parseRequest context (inputBuffer_ (conn w)) receiveTime;
  let w := set_input w buf in
  w ← (if negb ok then w ← send bad_request w; shutdown w else Ok w);
  if gotAll context then
    w ← onRequest (request_ context) w;
    Ok (reset_context context, w)
  else Ok (context, w).
End server.
