(* ===== verification/HttpProps.v ===== *)
(** * HTTP: the parser

    [parses] says what a sequence of bytes means to a context, line by line and
    without buffers, loops or time; the code implements it on every input and
    however the bytes are cut. On top of it, requests that are printed are read
    back. *)
From stdpp Require Import strings sorting.
From S2P Require Import Prelude Endian StringPiece Buffer MuduoBuffer Channel TcpConnection LogStream LogStreamProps Http.

(** Decidable facts about literals. *)
Ltac vm_literal := apply (bool_decide_unpack _); vm_compute; exact I.

(** ** Lines *)

(** The first line and what follows its end. *)
Fixpoint split_crlf (l : bytes) : option (bytes * bytes) :=
  match l with
  | x :: (y :: rest) as l' =>
      if Byte.eqb x Byte.x0d && Byte.eqb y Byte.x0a then Some ([], rest)
      else '(line, rest) ← split_crlf l'; Some (x :: line, rest)
  | _ => None
  end.

Lemma split_crlf_cons x y l :
  split_crlf (x :: y :: l) =
  if Byte.eqb x Byte.x0d && Byte.eqb y Byte.x0a then Some ([], l)
  else '(line, rest) ← split_crlf (y :: l); Some (x :: line, rest).
Proof. done. Qed.

Lemma split_crlf_Some l line rest : split_crlf l = Some (line, rest) -> l = line ++ CRLF ++ rest.
Proof.
  revert line. induction l as [|x l IH]; [done|]. destruct l as [|y l]; [done|]. intros line.
  rewrite split_crlf_cons. destruct (byte_eqb_spec x Byte.x0d), (byte_eqb_spec y Byte.x0a); cbn [andb].
  1: by intros; simplify_eq.
  all: destruct (split_crlf (y :: l)) as [[line1 rest1]|]; [|done]; intros; simplify_eq/=; f_equal; by apply IH.
Qed.

Lemma split_crlf_app l x line rest : split_crlf l = Some (line, rest) -> split_crlf (l ++ x) = Some (line, rest ++ x).
Proof.
  revert line. induction l as [|a l IH]; [done|]. destruct l as [|b l]; [done|]. intros line.
  change ((a :: b :: l) ++ x) with (a :: b :: (l ++ x)). rewrite !split_crlf_cons.
  destruct (_ && _)%bool; [by intros; simplify_eq|].
  destruct (split_crlf (b :: l)) as [[line1 rest1]|]; [|done]. intros; simplify_eq/=.
  specialize (IH _ eq_refl). change ((b :: l) ++ x) with (b :: l ++ x) in IH. by rewrite IH.
Qed.

Lemma split_crlf_zlen l line rest : split_crlf l = Some (line, rest) -> zlen l = zlen line + 2 + zlen rest.
Proof. intros ->%split_crlf_Some. rewrite !zlen_app. change (zlen CRLF) with 2. lia. Qed.

Lemma search2_split l pos :
  search2 Byte.x0d Byte.x0a l pos =
  match split_crlf l with Some (line, _) => pos + zlen line | None => pos + zlen l end.
Proof.
  revert pos. induction l as [|x l IH]; intros pos; [cbn; rewrite zlen_nil; lia|].
  destruct l as [|y l]; [cbn; rewrite zlen_cons, zlen_nil; lia|].
  rewrite split_crlf_cons. change (search2 Byte.x0d Byte.x0a (x :: y :: l) pos) with
    (if Byte.eqb x Byte.x0d && Byte.eqb y Byte.x0a then pos else search2 Byte.x0d Byte.x0a (y :: l) (pos + 1)).
  destruct (_ && _)%bool; [rewrite zlen_nil; lia|]. rewrite IH.
  destruct (split_crlf (y :: l)) as [[line rest]|]; cbn [mbind option_bind]; rewrite (zlen_cons x); lia.
Qed.

(** [findCRLF] finds the end of the first line. *)
Lemma findCRLF_split b : wf b ->
  findCRLF b = Ok (match split_crlf (view b) with Some (line, _) => Some (peek b + zlen line) | None => None end).
Proof.
  intros Hwf. unfold findCRLF, peek, beginWrite, kCRLF. cbn [fst snd].
  pose proof (zlen_view b Hwf) as Hv. pose proof (vec_read_view b 0 (zlen (view b)) Hwf) as Hr.
  rewrite Z.add_0_r, zdrop_0, ztake_all in Hr by lia. zlen_pos. rewrite <- Hv, Hr by lia. cbn [mbind res_bind].
  rewrite search2_split. destruct (split_crlf (view b)) as [[line rest]|] eqn:E; f_equal.
  - apply split_crlf_zlen in E. zlen_pos. by rewrite (proj2 (Z.eqb_neq _ _)) by lia.
  - by rewrite (proj2 (Z.eqb_eq _ _)) by lia.
Qed.

(** Taking the first line out of the buffer. *)
Lemma take_line b line rest : wf b -> split_crlf (view b) = Some (line, rest) ->
  vec_read (buffer_ b) (peek b) (peek b + zlen line - peek b) = Ok line /\
  exists b', retrieveUntil b (peek b + zlen line + 2) = Ok b' /\ wf b' /\ view b' = rest /\ writerIndex_ b' <= writerIndex_ b `max` kCheapPrepend.
Proof.
  intros Hwf Hs. pose proof (split_crlf_zlen _ _ _ Hs) as Hz. pose proof (split_crlf_Some _ _ _ Hs) as Hl.
  pose proof (zlen_view b Hwf) as Hv. zlen_pos. unfold peek in *. split.
  - pose proof (vec_read_view b 0 (zlen line) Hwf) as Hr. rewrite Z.add_0_r, zdrop_0 in Hr.
    replace (readerIndex_ b + zlen line - readerIndex_ b) with (zlen line) by lia. rewrite Hr by lia.
    by rewrite Hl, ztake_app_l, ztake_all by lia.
  - unfold retrieveUntil, peek, beginWrite.
    rewrite !assert_bind_true by (apply Z.leb_le; lia). open_wf.
    rewrite size_t_id by lia. replace (_ - _) with (zlen line + 2) by lia. rewrite retrieve_eq.
    destruct (Retrieve_spec b (zlen line + 2) Hwf ltac:(lia)) as (b' & -> & Hwf' & Hv' & _ & Hw').
    exists b'. split_and!; [done..| |exact Hw']. rewrite Hv', Hl, zdrop_app_r by lia.
    replace (_ - _) with (zlen CRLF) by (change (zlen CRLF) with 2; lia). by rewrite zdrop_app_r, Z.sub_diag, zdrop_0 by lia.
Qed.

(** ** Meaning of a byte sequence *)

(** Contexts up to the time of arrival. *)
Definition erase (r : HttpRequest) : HttpRequest := setReceiveTime r 0.
Definition erase_ctx (c : HttpContext) : HttpContext := mkContext (pstate_ c) (erase (request_ c)).

(** What a complete line does: the outcome, whether parsing goes on, the context. *)
Definition line_step (c : HttpContext) (line : bytes) : res (bool * bool * HttpContext) :=
  match pstate_ c with
  | kExpectRequestLine =>
      '(ok, r) ← processRequestLine (request_ c) line;
      Ok (ok : bool, ok : bool, mkContext (if ok then kExpectHeaders else kExpectRequestLine) r)
  | _ =>
      let colon := std_find line 0 (zlen line) Byte.x3a in
      Ok (if negb (colon =? zlen line)
          then (true, true, mkContext kExpectHeaders (addHeader (request_ c) line 0 colon (zlen line)))
          else (true, false, mkContext kGotAll (request_ c)))
  end.

(** After a line the parser goes on with headers, has everything, or failed. *)
Lemma line_step_state c line ok more c' : line_step c line = Ok (ok, more, c') ->
  pstate_ c' = (if more then kExpectHeaders else if ok then kGotAll else kExpectRequestLine) /\ (more = true -> ok = true).
Proof.
  unfold line_step. destruct (pstate_ c).
  1: intros H; apply bind_inv in H as ([b r] & _ & [= -> -> <-]); by destruct more.
  all: destruct (negb _); by intros [= <- <- <-].
Qed.

(** [parses c l ok c' rest]: from the context [c], the bytes [l] lead to [c']
    and leave [rest]. A bad request line is left in place. *)
Inductive parses : HttpContext -> bytes -> bool -> HttpContext -> bytes -> Prop :=
  | parses_more c l : split_crlf l = None -> parses c l true c l
  | parses_stop c l line rest ok c' : split_crlf l = Some (line, rest) ->
      line_step c line = Ok (ok, false, c') -> parses c l ok c' (if ok then rest else l)
  | parses_next c l line rest c1 ok c' l' : split_crlf l = Some (line, rest) ->
      line_step c line = Ok (true, true, c1) -> parses c1 rest ok c' l' -> parses c l ok c' l'.

Lemma parses_functional c l ok c' l' : parses c l ok c' l' ->
  forall ok2 c2 l2, parses c l ok2 c2 l2 -> ok2 = ok /\ c2 = c' /\ l2 = l'.
Proof.
  induction 1 as [c l Hn|c l line rest ok c' Hs Hst|c l line rest c1 ok c' l' Hs Hst _ IH]; intros ok2 c2 l2 H2;
    inversion H2; subst; simplify_eq; try match goal with H : line_step c _ = _ |- _ => rewrite Hst in H end; simplify_eq; try done.
  by apply IH.
Qed.

(** A verdict does not depend on later bytes. *)
Lemma parses_app c l ok c' l' x : parses c l ok c' l' -> ok = false \/ pstate_ c' = kGotAll -> pstate_ c <> kGotAll ->
  parses c (l ++ x) ok c' (l' ++ x).
Proof.
  induction 1 as [c l Hn|c l line rest ok c' Hs Hst|c l line rest c1 ok c' l' Hs Hst _ IH]; intros Hf Hc.
  - by destruct Hf.
  - replace ((if ok then rest else l) ++ x) with (if ok then rest ++ x else l ++ x) by by destruct ok.
    eapply parses_stop; [by apply split_crlf_app | done].
  - eapply parses_next; [by apply split_crlf_app | exact Hst|]. apply IH; [done|].
    by rewrite (proj1 (line_step_state _ _ _ _ _ Hst)).
Qed.

(** Parsing may be interrupted anywhere. *)
Lemma parses_split c l c1 l1 x ok c' l' : parses c l true c1 l1 -> pstate_ c1 <> kGotAll ->
  parses c1 (l1 ++ x) ok c' l' -> parses c (l ++ x) ok c' l'.
Proof.
  intros H. remember true as t eqn:Et. revert Et.
  induction H as [c l Hn|c l line rest ok1 c1 Hs Hst|c l line rest c2 ok1 c1 l1 Hs Hst _ IH]; intros Et Hg Hp; subst.
  - done.
  - by rewrite (proj1 (line_step_state _ _ _ _ _ Hst)) in Hg.
  - eapply parses_next; [by apply split_crlf_app | exact Hst | by apply IH].
Qed.

Lemma parses_rest c l c' l' : parses c l true c' l' -> pstate_ c' <> kGotAll -> split_crlf l' = None.
Proof.
  intros H. remember true as t eqn:Et. revert Et.
  induction H as [c l Hn|c l line rest ok1 c1 Hs Hst|c l line rest c2 ok1 c1 l1 Hs Hst _ IH]; intros Et Hg; subst; auto.
  by rewrite (proj1 (line_step_state _ _ _ _ _ Hst)) in Hg.
Qed.

(** ** Request lines *)

(** What comes before and after the first [c]. *)
Fixpoint split_at (c : byte) (l : bytes) : option (bytes * bytes) :=
  match l with
  | [] => None
  | x :: l => if Byte.eqb x c then Some ([], l) else '(a, b) ← split_at c l; Some (x :: a, b)
  end.

Lemma split_at_Some c l a b : split_at c l = Some (a, b) -> l = a ++ c :: b /\ c ∉ a.
Proof.
  revert a. induction l as [|x l IH]; [done|]. intros a. cbn [split_at]. destruct (byte_eqb_spec x c) as [->|Hx].
  - intros [= <- <-]. split; [done | apply not_elem_of_nil].
  - destruct (split_at c l) as [[a1 b1]|]; [|done]. intros [= <- ->]. destruct (IH _ eq_refl) as [-> ?].
    split; [done|]. by apply not_elem_of_cons.
Qed.

Lemma split_at_app c a b : c ∉ a -> split_at c (a ++ c :: b) = Some (a, b).
Proof.
  induction a as [|x a IH]; intros Hc; cbn [app split_at].
  - by destruct (byte_eqb_spec c c).
  - apply not_elem_of_cons in Hc as [Hx Hc]. destruct (byte_eqb_spec x c); [congruence|]. by rewrite IH.
Qed.

Lemma split_at_None c l : c ∉ l -> split_at c l = None.
Proof.
  induction l as [|x l IH]; intros Hc; [done|]. apply not_elem_of_cons in Hc as [Hx Hc]. cbn.
  destruct (byte_eqb_spec x c); [congruence|]. by rewrite IH.
Qed.

Lemma find_index_split c l : find_index c l = match split_at c l with Some (a, _) => zlen a | None => zlen l end.
Proof.
  induction l as [|x l IH]; [done|]. cbn [find_index split_at]. destruct (Byte.eqb x c); [done|]. rewrite IH.
  destruct (split_at c l) as [[a b]|]; cbn [mbind option_bind]; by rewrite zlen_cons.
Qed.

(** [std::find] in the middle of a line. *)
Lemma std_find_split c pre l post : let first := zlen pre in let last := zlen pre + zlen l in
  std_find (pre ++ l ++ post) first last c =
  match split_at c l with Some (a, _) => first + zlen a | None => last end.
Proof.
  cbn zeta. unfold std_find, range. rewrite zdrop_app_r, Z.sub_diag, zdrop_0 by lia.
  replace (_ - _) with (zlen l) by lia. rewrite ztake_app_l, ztake_all by lia. rewrite find_index_split.
  destruct (split_at c l) as [[a b]|]; lia.
Qed.

Lemma range_mid pre l post : range (pre ++ l ++ post) (zlen pre) (zlen pre + zlen l) = l.
Proof.
  unfold range. rewrite zdrop_app_r, Z.sub_diag, zdrop_0 by lia. replace (_ - _) with (zlen l) by lia.
  by rewrite ztake_app_l, ztake_all by lia.
Qed.

Definition version_of (v : bytes) : option Version :=
  if bool_decide (v = lit "HTTP/1.1") then Some kHttp11
  else if bool_decide (v = lit "HTTP/1.0") then Some kHttp10
  else None.

(** [<method> SP <path>[?<query>] SP <version>] *)
Definition request_line (line : bytes) : option HttpRequest :=
  '(m, rest) ← split_at SP line;
  '(target, v) ← split_at SP rest;
  v ← version_of v;
  if bool_decide (method_of m = kInvalid) then None else
  Some (match split_at Byte.x3f target with
        | Some (p, q) => mkRequest (method_of m) v p (Byte.x3f :: q) 0 []
        | None => mkRequest (method_of m) v target [] 0 []
        end).

(** The method a line names. *)
Definition line_method (line : bytes) : Method :=
  match split_at SP line with Some (m, _) => method_of m | None => kInvalid end.

(** The check of the version at the end of the line. *)
Lemma version_check pre v (r : HttpRequest) :
  (if (zlen (pre ++ v) - zlen pre =? 8) && bool_decide (range (pre ++ v) (zlen pre) (zlen (pre ++ v) - 1) = lit "HTTP/1.")
   then last ← vec_read (pre ++ v) (zlen (pre ++ v) - 1) 1;
        if bool_decide (last = lit "1") then Ok (true, setVersion r kHttp11)
        else if bool_decide (last = lit "0") then Ok (true, setVersion r kHttp10)
        else Ok (false, r)
   else Ok (false, r)) =
  Ok (match version_of v with Some x => (true, setVersion r x) | None => (false, r) end).
Proof.
  rewrite zlen_app. replace (zlen pre + zlen v - zlen pre) with (zlen v) by lia. zlen_pos.
  destruct (Z.eqb_spec (zlen v) 8) as [E|E].
  - destruct v as [|b h _] using rev_ind; [done|]. rewrite zlen_app in *. cbn [andb].
    change (zlen [b]) with 1 in *.
    replace (zlen pre + (zlen h + 1) - 1) with (zlen pre + zlen h) by lia.
    rewrite range_mid, vec_read_ok by (rewrite ?zlen_app; change (zlen [b]) with 1; lia).
    rewrite app_assoc, zdrop_app_r by (rewrite zlen_app; lia). rewrite zlen_app, Z.sub_diag, zdrop_0.
    rewrite (ztake_all 1 [b]) by done. cbn [mbind res_bind]. unfold version_of.
    change (lit "HTTP/1.1") with (lit "HTTP/1." ++ lit "1"). change (lit "HTTP/1.0") with (lit "HTTP/1." ++ lit "0").
    assert (Heq : forall p c, bool_decide (h ++ [b] = p ++ [c]) = bool_decide (h = p) && bool_decide ([b] = [c])).
    { intros p c. rewrite <- bool_decide_and. apply bool_decide_ext. split; [|by intros [-> ->]].
      intros [-> ->]%app_inj_tail. done. }
    change (lit "1") with [Byte.x31]. change (lit "0") with [Byte.x30]. rewrite !Heq.
    by do 3 case_bool_decide.
  - cbn [andb]. unfold version_of.
    rewrite !bool_decide_eq_false_2; [done | intros ->; by apply E..].
Qed.

Lemma split_at_zlen c l a b : split_at c l = Some (a, b) -> zlen l = zlen a + 1 + zlen b.
Proof. intros [-> _]%split_at_Some. rewrite zlen_app, zlen_cons. lia. Qed.

(** The target of a request line. *)
Lemma target_fields (r : HttpRequest) line pre target post : line = pre ++ target ++ post ->
  let start := zlen pre in
  let space := zlen pre + zlen target in
  let question := match split_at Byte.x3f target with Some (a, _) => start + zlen a | None => space end in
  (if negb (question =? space) then setQuery (setPath r (range line start question)) (range line question space)
   else setPath r (range line start space)) =
  match split_at Byte.x3f target with
  | Some (p, q) => setQuery (setPath r p) (Byte.x3f :: q)
  | None => setPath r target
  end.
Proof.
  intros -> start space. subst start space. cbn zeta. destruct (split_at Byte.x3f target) as [[p q]|] eqn:E.
  - pose proof (split_at_zlen _ _ _ _ E) as Hz. pose proof (split_at_Some _ _ _ _ E) as [-> _]. zlen_pos.
    rewrite (proj2 (Z.eqb_neq _ _)) by lia. cbn [negb]. f_equal; [f_equal|].
    + rewrite <- app_assoc. apply range_mid.
    + rewrite <- app_assoc, (app_assoc pre p), zlen_app, Z.add_assoc, <- (zlen_app pre p). apply range_mid.
  - rewrite Z.eqb_refl. cbn [negb]. by rewrite range_mid.
Qed.

(** A fresh request and any line: the grammar decides, and the method is stored
    even when the rest of the line is wrong. *)
Lemma processRequestLine_spec line : exists ok r,
  processRequestLine HttpRequest_ctor line = Ok (ok, r) /\ erase r = r /\
  match request_line line with
  | Some r' => ok = true /\ r = r'
  | None => ok = false /\ method_ r = line_method line
  end.
Proof.
  unfold processRequestLine, request_line, line_method.
  pose proof (std_find_split SP [] line []) as Hf. cbn zeta in Hf. cbn [app] in Hf.
  rewrite app_nil_r, zlen_nil, Z.add_0_l in Hf. rewrite Hf.
  destruct (split_at SP line) as [[m rest]|] eqn:E1; [|rewrite Z.eqb_refl; by eexists _, _].
  pose proof (split_at_zlen _ _ _ _ E1) as Hz1. pose proof (split_at_Some _ _ _ _ E1) as [Hl1 _]. zlen_pos.
  rewrite Z.add_0_l, (proj2 (Z.eqb_neq _ _)) by lia. cbn [negb mbind option_bind].
  replace (range line 0 (zlen m)) with m by (rewrite Hl1; symmetry; apply (range_mid [])).
  unfold setMethod. cbn [method_ HttpRequest_ctor]. rewrite assert_bind_true by done. cbn [mbind res_bind].
  case_bool_decide as Hm; [|destruct (split_at SP rest) as [[? ?]|]; cbn [mbind option_bind];
    try destruct (version_of _); cbn [mbind option_bind]; rewrite ?bool_decide_eq_true_2 by done; by eexists _, _].
  assert (Hp1 : line = (m ++ [SP]) ++ rest ++ []) by (rewrite app_nil_r, <- app_assoc; exact Hl1).
  assert (Hlp1 : zlen (m ++ [SP]) = zlen m + 1) by (rewrite zlen_app; done).
  pose proof (std_find_split SP (m ++ [SP]) rest []) as Hf2. cbn zeta in Hf2. rewrite <- Hp1, Hlp1 in Hf2.
  replace (zlen m + 1 + zlen rest) with (zlen line) in Hf2 by lia. rewrite Hf2.
  destruct (split_at SP rest) as [[target v]|] eqn:E2; [|rewrite Z.eqb_refl; by eexists _, _].
  pose proof (split_at_zlen _ _ _ _ E2) as Hz2. pose proof (split_at_Some _ _ _ _ E2) as [Hl2 _]. zlen_pos.
  rewrite (proj2 (Z.eqb_neq _ _)) by lia. cbn [negb mbind option_bind].
  assert (Hp2 : line = (m ++ [SP]) ++ target ++ [SP] ++ v) by (rewrite Hl1, Hl2, <- !app_assoc; done).
  rewrite <- Hlp1. set (pre := m ++ [SP]) in *.
  pose proof (std_find_split Byte.x3f pre target ([SP] ++ v)) as Hf3. cbn zeta in Hf3. rewrite <- Hp2 in Hf3. rewrite Hf3.
  assert (Hv : line = (pre ++ target ++ [SP]) ++ v) by (rewrite Hp2, <- !app_assoc; done).
  assert (Hlv : zlen pre + zlen target + 1 = zlen (pre ++ target ++ [SP])) by (rewrite !zlen_app; change (zlen [SP]) with 1; lia).
  rewrite Hlv.
  rewrite (target_fields _ line pre target ([SP] ++ v)) by done. cbn zeta.
  set (r := match split_at Byte.x3f target with Some _ => _ | None => _ end).
  pose proof (version_check (pre ++ target ++ [SP]) v r) as Hvc. rewrite <- Hv in Hvc. rewrite Hvc. clear Hvc.
  rewrite bool_decide_eq_false_2 by done.
  destruct (version_of v) as [x|]; cbn [mbind option_bind].
  - do 2 eexists. split; [reflexivity|]. by destruct (split_at Byte.x3f target) as [[? ?]|].
  - do 2 eexists. split; [reflexivity|]. by destruct (split_at Byte.x3f target) as [[? ?]|].
Qed.

(** ** The parser implements [parses] *)

(** A context that waits for input: nothing of the request is known before its
    request line. *)
Definition live (c : HttpContext) : Prop :=
  match pstate_ c with
  | kExpectRequestLine => request_ c = HttpRequest_ctor
  | kExpectHeaders => True
  | _ => False
  end.

Lemma request_pass_none t c b : live c -> wf b -> split_crlf (view b) = None ->
  request_pass t (mkParsing true true c b) = Ok (mkParsing true false c b).
Proof.
  intros Hl Hwf Hs. unfold request_pass, live in *. cbn [p_ctx p_buf p_ok].
  destruct (pstate_ c); [| |done..]; by rewrite findCRLF_split, Hs.
Qed.

Lemma request_pass_line t c b line rest : live c -> wf b -> split_crlf (view b) = Some (line, rest) ->
  exists ok more c' b', request_pass t (mkParsing true true c b) = Ok (mkParsing ok more c' b') /\
    line_step (erase_ctx c) line = Ok (ok, more, erase_ctx c') /\ wf b' /\
    view b' = (if ok then rest else view b) /\ (more = true -> live c') /\ writerIndex_ b' <= writerIndex_ b `max` kCheapPrepend.
Proof.
  intros Hl Hwf Hs. destruct (take_line b line rest Hwf Hs) as [Hread (b' & Hret & Hwf' & Hv' & Hw')].
  unfold request_pass, live, line_step in *. cbn [p_ctx p_buf p_ok erase_ctx pstate_ request_].
  destruct (pstate_ c); [| |done..]; rewrite findCRLF_split, Hs by done; cbn [mbind res_bind]; rewrite Hread; cbn [mbind res_bind].
  - rewrite Hl. change (erase HttpRequest_ctor) with HttpRequest_ctor.
    destruct (processRequestLine_spec line) as (ok & r & -> & He & _). cbn [mbind res_bind].
    destruct ok.
    + rewrite Hret. cbn [mbind res_bind]. eexists _, _, _, b'. split_and!; [reflexivity | | done..].
      unfold erase_ctx. cbn [pstate_ request_]. change (erase (setReceiveTime r t)) with (erase r). by rewrite He.
    + eexists _, _, _, b. split_and!; [reflexivity | | done.. | lia]. unfold erase_ctx. cbn [pstate_ request_]. by rewrite He.
  - destruct (negb _); rewrite Hret; cbn [mbind res_bind]; eexists _, _, _, b'; split_and!; try reflexivity; done.
Qed.

Lemma request_loop_parses fuel t c b : live c -> wf b -> zlen (view b) < Z.of_nat fuel ->
  exists ok more c' b', request_loop fuel t (mkParsing true true c b) = Ok (mkParsing ok more c' b') /\ wf b' /\
    parses (erase_ctx c) (view b) ok (erase_ctx c') (view b') /\ (ok = true -> pstate_ c' <> kGotAll -> live c') /\
    writerIndex_ b' <= writerIndex_ b `max` kCheapPrepend.
Proof.
  revert c b. induction fuel as [|fuel IH]; intros c b Hl Hwf Hf; [zlen_pos; lia|].
  cbn [request_loop p_hasMore]. destruct (split_crlf (view b)) as [[line rest]|] eqn:Hs.
  - destruct (request_pass_line t c b line rest Hl Hwf Hs) as (ok & more & c1 & b1 & -> & Hst & Hwf1 & Hv1 & Hl1 & Hw1).
    cbn [mbind res_bind]. destruct (line_step_state _ _ _ _ _ Hst) as [Hps Hok]. destruct more.
    + rewrite Hok in * by done. apply split_crlf_zlen in Hs as Hz. zlen_pos.
      destruct (IH c1 b1) as (ok2 & more & c' & b' & -> & Hwf' & Hp & Hl' & Hw'); [auto | done | rewrite Hv1; lia|].
      exists ok2, more, c', b'. split_and!; [done | done | | done | lia]. eapply parses_next; [done | done | by rewrite <- Hv1].
    + exists ok, false, c1, b1. split_and!; [by destruct fuel | done | rewrite Hv1; by eapply parses_stop| |lia].
      intros -> Hn. by destruct Hn.
  - rewrite request_pass_none by done. cbn [mbind res_bind]. exists true, false, c, b.
    split_and!; [by destruct fuel | done | by apply parses_more | done | lia].
Qed.

(** On every input the parser returns, without a fault, what [parses] says. *)
Lemma parseRequest_parses c b t : live c -> wf b ->
  exists ok c' b', parseRequest c b t = Ok (ok, c', b') /\ wf b' /\
    parses (erase_ctx c) (view b) ok (erase_ctx c') (view b') /\ (ok = true -> pstate_ c' <> kGotAll -> live c') /\
    writerIndex_ b' <= writerIndex_ b `max` kCheapPrepend.
Proof.
  intros Hl Hwf. unfold parseRequest. change (readableBytes b) with (ReadableBytes b). rewrite readable_view by done.
  zlen_pos. destruct (request_loop_parses (S (Z.to_nat (zlen (view b)))) t c b Hl Hwf ltac:(lia))
    as (ok & more & c' & b' & -> & HH). by exists ok, c', b'.
Qed.

(** ** Segments *)

(** A stream arrives in segments, each with its time; the parser runs after each
    one, until it has a request or fails. The result also has the segments that
    were not looked at. *)
Fixpoint feed (c : HttpContext) (b : Buffer) (segments : list (bytes * Z)) :
    res (bool * HttpContext * Buffer * list (bytes * Z)) :=
  match segments with
  | [] => Ok (true, c, b, [])
  | (d, t) :: segments =>
      b ← append b (Ptr d 0) (zlen d);
      '(ok, c, b) ← parseRequest c b t;
      if negb ok || gotAll c then Ok (ok, c, b, segments) else feed c b segments
  end.

Lemma feed_parses segments c b : live c -> wf b -> writerIndex_ b `max` kCheapPrepend + zlen (concat (fst <$> segments)) <= max_size ->
  exists ok c' b' seen later, feed c b segments = Ok (ok, c', b', later) /\ segments = seen ++ later /\ wf b' /\
    (later <> [] -> ok = false \/ pstate_ c' = kGotAll) /\
    (seen = [] -> c' = c /\ b' = b /\ ok = true) /\
    (seen <> [] -> parses (erase_ctx c) (view b ++ concat (fst <$> seen)) ok (erase_ctx c') (view b')).
Proof.
  revert c b. induction segments as [|[d t] segs IH]; intros c b Hl Hwf Hm.
  { by exists true, c, b, [], []. }
  cbn [feed]. cbn [fmap list_fmap concat fst] in Hm. rewrite zlen_app in Hm. zlen_pos.
  destruct (append_spec b (Ptr d 0) (zlen d) d Hwf (ptr_read_all d)) as (b1 & -> & Hwf1 & Hv1 & _ & Hw1); [lia|].
  cbn [mbind res_bind].
  destruct (parseRequest_parses c b1 t Hl Hwf1) as (ok & c2 & b2 & -> & Hwf2 & Hp & Hl2 & Hw2). cbn [mbind res_bind].
  rewrite Hv1 in Hp. destruct (negb ok || gotAll c2)%bool eqn:E.
  - exists ok, c2, b2, [(d, t)], segs. split_and!; try done.
    + intros _. apply orb_true_iff in E as [E%negb_true_iff|E%bool_decide_eq_true]; auto.
    + intros _. cbn. by rewrite app_nil_r.
  - apply orb_false_iff in E as [->%negb_false_iff E%bool_decide_eq_false].
    destruct (IH c2 b2) as (ok & c' & b' & seen & later & -> & -> & Hwf' & Hlt & Hnil & Hcons); [auto | done | lia|].
    exists ok, c', b', ((d, t) :: seen), later. split_and!; try done. intros _. cbn [fmap list_fmap concat fst].
    rewrite app_assoc. eapply parses_split; [exact Hp | done|]. destruct seen as [|s seen]; [|by apply Hcons].
    destruct (Hnil eq_refl) as (-> & -> & ->). cbn. rewrite app_nil_r.
    apply parses_more. by eapply parses_rest.
Qed.

Lemma parses_whole c l ok c' l' x c2 l2 ok2 : parses c l ok c' l' -> (x <> [] -> ok = false \/ pstate_ c' = kGotAll) ->
  pstate_ c <> kGotAll -> parses c (l ++ x) ok2 c2 l2 -> ok2 = ok /\ c2 = c' /\ l2 = l' ++ x.
Proof.
  intros Hp Hx Hc Hp2. destruct x as [|a x].
  - rewrite !app_nil_r in *. by eapply parses_functional.
  - eapply parses_functional; [|exact Hp2]. apply parses_app; auto.
Qed.

Lemma live_not_got c : live c -> pstate_ c <> kGotAll.
Proof. unfold live. by destruct (pstate_ c). Qed.

(** C20: the segmentation of the stream does not matter. From any context that waits
    for input, feeding any segments, parsing after each, never faults and
    terminates; and it ends like parsing all the bytes at once: the same
    verdict, the same request but for the time of arrival, the same bytes left
    over (those that were not looked at included). *)
Theorem HttpContext_segments c b segments t :
  live c -> wf b -> segments <> [] -> writerIndex_ b `max` kCheapPrepend + zlen (concat (fst <$> segments)) <= max_size ->
  exists ok c1 b1 later ball c2 b2,
    feed c b segments = Ok (ok, c1, b1, later) /\
    append b (Ptr (concat (fst <$> segments)) 0) (zlen (concat (fst <$> segments))) = Ok ball /\
    parseRequest c ball t = Ok (ok, c2, b2) /\
    erase_ctx c1 = erase_ctx c2 /\ view b2 = view b1 ++ concat (fst <$> later).
Proof.
  intros Hl Hwf Hne Hm. destruct (feed_parses segments c b Hl Hwf Hm) as (ok & c1 & b1 & seen & later & Hf & Hs & Hwf1 & Hlt & Hnil & Hcons).
  set (d := concat (fst <$> segments)) in *. zlen_pos.
  destruct (append_spec b (Ptr d 0) (zlen d) d Hwf (ptr_read_all d)) as (ball & Ha & Hwfa & Hva & _); [lia|].
  destruct (parseRequest_parses c ball t Hl Hwfa) as (ok2 & c2 & b2 & Hp2 & _ & Hps & _).
  destruct seen as [|s seen].
  { destruct (Hnil eq_refl) as (-> & -> & ->). cbn in Hs. subst later. destruct (Hlt Hne); [done | by apply live_not_got in Hl]. }
  assert (Hd : d = concat (fst <$> s :: seen) ++ concat (fst <$> later)) by (subst d; by rewrite Hs, fmap_app, concat_app).
  rewrite Hva, Hd, app_assoc in Hps.
  eapply parses_whole in Hps as (Hok & He & Hv); [|exact (Hcons ltac:(done)) | | exact (live_not_got c Hl)].
  2: { intros Hx. apply Hlt. intros ->. by apply Hx. }
  subst ok2. exists ok, c1, b1, later, ball, c2, b2. by split_and!.
Qed.

(** ** Printed requests are read back *)
Definition versionString (v : Version) : bytes :=
  match v with kHttp11 => lit "HTTP/1.1" | kHttp10 => lit "HTTP/1.0" | kUnknown => [] end.
Definition header_line (h : bytes * bytes) : bytes := h.1 ++ lit ": " ++ h.2.
Definition request_text (r : HttpRequest) : bytes :=
  (methodString r ++ [SP] ++ path_ r ++ query_ r ++ [SP] ++ versionString (version_ r)) ++ CRLF ++
  concat ((fun h => header_line h ++ CRLF) <$> headers_ r) ++ CRLF.

Definition LF : byte := Byte.x0a.
(** Headers in the order of a [std::map], with values that have no spaces around. *)
Definition header_ok (h : bytes * bytes) : Prop :=
  (Byte.x3a ∉ h.1) /\ (LF ∉ h.1) /\ (LF ∉ h.2) /\ skip_spaces h.2 = h.2 /\ drop_spaces_end h.2 = h.2.
Definition sorted (m : map_t) : Prop := StronglySorted (fun x y => lex x.1 y.1 = Lt) m.
Record well_formed (r : HttpRequest) : Prop := {
  wf_method : method_ r <> kInvalid;
  wf_version : version_ r <> kUnknown;
  wf_path : (SP ∉ path_ r) /\ (Byte.x3f ∉ path_ r) /\ (LF ∉ path_ r);
  wf_query : query_ r = [] \/ exists q, query_ r = Byte.x3f :: q /\ (SP ∉ q) /\ (LF ∉ q);
  wf_headers : Forall header_ok (headers_ r);
  wf_sorted : sorted (headers_ r);
}.

Lemma split_crlf_line line rest : LF ∉ line -> split_crlf (line ++ CRLF ++ rest) = Some (line, rest).
Proof.
  induction line as [|x line IH]; intros Hn; [done|]. apply not_elem_of_cons in Hn as [_ Hn].
  specialize (IH Hn). destruct line as [|y line].
  - change (([x] ++ CRLF ++ rest)) with (x :: Byte.x0d :: Byte.x0a :: rest). rewrite split_crlf_cons.
    rewrite andb_false_r. change (split_crlf (Byte.x0d :: Byte.x0a :: rest)) with (Some (@nil byte, rest)). done.
  - change ((x :: y :: line) ++ CRLF ++ rest) with (x :: y :: (line ++ CRLF ++ rest)). rewrite split_crlf_cons.
    destruct (byte_eqb_spec y Byte.x0a) as [->|_]; [by destruct Hn; left|]. rewrite andb_false_r.
    change (y :: line ++ CRLF ++ rest) with ((y :: line) ++ CRLF ++ rest). by rewrite IH.
Qed.

Lemma lex_refl a : lex a a = Eq.
Proof. by apply lex_eq_iff. Qed.

Lemma map_set_last m k v : Forall (fun x => lex k x.1 = Gt) m -> map_set m k v = m ++ [(k, v)].
Proof. induction 1 as [|[k' v'] m Hk _ IH]; [done|]. cbn in *. rewrite Hk. by rewrite IH. Qed.

Lemma lex_gt a b : lex a b = Lt -> lex b a = Gt.
Proof.
  revert b. induction a as [|x a IH]; intros [|y b]; try done. cbn.
  rewrite (Z.compare_antisym (byte.unsigned x)). destruct (byte.unsigned x ?= byte.unsigned y); cbn; auto; done.
Qed.

(** Reading the lines of a sorted list of headers. *)
Lemma addHeader_line r h : header_ok h ->
  let line := header_line h in
  std_find line 0 (zlen line) Byte.x3a = zlen h.1 /\ zlen h.1 < zlen line /\
  addHeader r line 0 (zlen h.1) (zlen line) =
    mkRequest (method_ r) (version_ r) (path_ r) (query_ r) (receiveTime_ r) (map_set (headers_ r) h.1 h.2).
Proof.
  destruct h as [k v]. intros (Hc & _ & _ & Hs1 & Hs2). cbn [fst snd] in *. unfold header_line. cbn [fst snd].
  change (lit ": ") with ([Byte.x3a] ++ [SP]). set (line := k ++ ([Byte.x3a] ++ [SP]) ++ v). cbn zeta.
  assert (Hz : zlen line = zlen k + 2 + zlen v) by (subst line; rewrite !zlen_app; change (zlen [_]) with 1; lia).
  zlen_pos. split_and!; [|lia|].
  - pose proof (std_find_split Byte.x3a [] line []) as Hf. cbn zeta in Hf. cbn [app] in Hf.
    rewrite app_nil_r, zlen_nil, Z.add_0_l in Hf. rewrite Hf. subst line.
    change (k ++ ([Byte.x3a] ++ [SP]) ++ v) with (k ++ Byte.x3a :: SP :: v). by rewrite split_at_app.
  - unfold addHeader. f_equal. f_equal.
    + subst line. pose proof (range_mid [] k (([Byte.x3a] ++ [SP]) ++ v)) as Hr. by rewrite zlen_nil in Hr.
    + replace (range line (zlen k + 1) (zlen line)) with (SP :: v); [change (skip_spaces (SP :: v)) with (skip_spaces v); by rewrite Hs1, Hs2|].
      pose proof (range_mid (k ++ [Byte.x3a]) (SP :: v) []) as Hr. rewrite app_nil_r, <- app_assoc in Hr.
      change (k ++ [Byte.x3a] ++ SP :: v) with line in Hr. rewrite zlen_app in Hr. change (zlen [_]) with 1 in Hr.
      replace (zlen k + 1 + zlen (SP :: v)) with (zlen line) in Hr by (rewrite zlen_cons; lia). done.
Qed.

Lemma parses_headers hs r next : Forall header_ok hs -> sorted (headers_ r ++ hs) ->
  parses (mkContext kExpectHeaders r) (concat ((fun h => header_line h ++ CRLF) <$> hs) ++ CRLF ++ next) true
    (mkContext kGotAll (mkRequest (method_ r) (version_ r) (path_ r) (query_ r) (receiveTime_ r) (headers_ r ++ hs))) next.
Proof.
  intros Hok. revert r. induction Hok as [|h hs Hh Hok IH]; intros r Hs.
  - cbn [fmap list_fmap concat app]. rewrite app_nil_r.
    apply (parses_stop _ _ [] next true); [done|]. cbn. by destruct r.
  - cbn [fmap list_fmap concat]. rewrite <- !app_assoc.
    destruct (addHeader_line r h Hh) as (Hf & Hlt & Ha). cbn zeta in *.
    eapply parses_next.
    + apply split_crlf_line. destruct Hh as (_ & H1 & H2 & _). unfold header_line.
      rewrite !not_elem_of_app. split_and!; [done | by apply not_elem_of_cons; split; [done|]; apply not_elem_of_cons; split; [done|]; apply not_elem_of_nil | done].
    + unfold line_step. cbn [pstate_ request_]. rewrite Hf, (proj2 (Z.eqb_neq _ _)) by lia. cbn [negb]. rewrite Ha. reflexivity.
    + rewrite map_set_last.
      * specialize (IH (mkRequest (method_ r) (version_ r) (path_ r) (query_ r) (receiveTime_ r) (headers_ r ++ [(h.1, h.2)]))).
        cbn [headers_ method_ version_ path_ query_ receiveTime_] in IH. rewrite <- !app_assoc in IH. cbn [app] in IH.
        destruct h as [k v]. cbn [fst snd] in *. exact (IH Hs).
      * apply Forall_forall. intros x Hx. apply lex_gt.
        apply (StronglySorted_app_1_elem_of (fun x y => lex x.1 y.1 = Lt) _ _ x h Hs); [done | by left].
Qed.

(** The request line that is printed. *)
Lemma request_line_printed r : well_formed r ->
  request_line (methodString r ++ [SP] ++ path_ r ++ query_ r ++ [SP] ++ versionString (version_ r)) =
  Some (mkRequest (method_ r) (version_ r) (path_ r) (query_ r) 0 []).
Proof.
  intros [Hm Hv (Hp1 & Hp2 & _) Hq _ _]. unfold request_line.
  assert (Hms : SP ∉ methodString r) by (unfold methodString; destruct (method_ r); vm_literal).
  assert (Hmo : method_of (methodString r) = method_ r) by (unfold methodString; destruct (method_ r); done).
  change (methodString r ++ [SP] ++ ?x) with (methodString r ++ SP :: x). rewrite split_at_app by done. cbn [mbind option_bind].
  assert (Hsq : SP ∉ query_ r).
  { destruct Hq as [->|(q & -> & Hq & _)]; [apply not_elem_of_nil | by apply not_elem_of_cons]. }
  rewrite app_assoc. change ((path_ r ++ query_ r) ++ [SP] ++ ?x) with ((path_ r ++ query_ r) ++ SP :: x).
  rewrite split_at_app by by apply not_elem_of_app. cbn [mbind option_bind].
  assert (version_of (versionString (version_ r)) = Some (version_ r)) as -> by by destruct (version_ r).
  cbn [mbind option_bind]. rewrite Hmo, bool_decide_eq_false_2 by done. f_equal.
  destruct Hq as [->|(q & -> & _)].
  - by rewrite app_nil_r, split_at_None.
  - by rewrite split_at_app.
Qed.

Lemma parses_printed r next : well_formed r ->
  parses HttpContext_ctor (request_text r ++ next) true (mkContext kGotAll (erase r)) next.
Proof.
  intros Hr. pose proof Hr as [Hm Hv (_ & _ & Hp) Hq Hh Hs]. unfold request_text.
  set (line := methodString r ++ _). rewrite <- (app_assoc line), <- (app_assoc CRLF).
  eapply (parses_next _ _ line _ (mkContext kExpectHeaders (mkRequest (method_ r) (version_ r) (path_ r) (query_ r) 0 []))).
  - apply split_crlf_line. subst line. rewrite !not_elem_of_app. split_and!.
    + unfold methodString. destruct (method_ r); vm_literal.
    + vm_literal.
    + done.
    + destruct Hq as [->|(q & -> & _ & Hq)]; [apply not_elem_of_nil | by apply not_elem_of_cons].
    + vm_literal.
    + destruct (version_ r); vm_literal.
  - unfold line_step. cbn [pstate_ request_ HttpContext_ctor].
    destruct (processRequestLine_spec line) as (ok & r' & -> & _ & Hl). subst line.
    rewrite request_line_printed in Hl by done. destruct Hl as [-> ->]. done.
  - rewrite <- app_assoc. by apply (parses_headers (headers_ r) (mkRequest (method_ r) (version_ r) (path_ r) (query_ r) 0 []) next).
Qed.

(** Requests survive the wire. The text of any well-formed request, followed
    by anything, arriving in any segments, is parsed without a fault into that
    request (but for the time of arrival); nothing after its end is consumed. *)
Theorem HttpRequest_roundtrip r next segments b0 :
  well_formed r -> new_Buffer = Ok b0 -> concat (fst <$> segments) = request_text r ++ next ->
  8 + zlen (request_text r ++ next) <= max_size ->
  exists c b later, feed HttpContext_ctor b0 segments = Ok (true, c, b, later) /\ gotAll c = true /\
    erase (request_ c) = erase r /\ view b ++ concat (fst <$> later) = next.
Proof.
  intros Hr Hb Hs Hm. destruct new_Buffer_spec as (b & Hb1 & Hwf & Hv & _ & Hw).
  rewrite Hb in Hb1. injection Hb1 as ->.
  destruct (feed_parses segments HttpContext_ctor b) as (ok & c & b' & seen & later & Hf & Hsl & Hwf' & Hlt & Hnil & Hcons); [done..| |].
  { rewrite Hw, Hs. unfold kCheapPrepend. lia. }
  pose proof (parses_printed r next Hr) as Hp.
  assert (Hne : seen <> []).
  { intros ->. destruct (Hnil eq_refl) as (-> & -> & ->). destruct later as [|s later].
    - cbn in Hsl. subst segments. cbn in Hs. unfold request_text in Hs. symmetry in Hs. apply app_eq_nil in Hs as [Hs _].
      by apply app_eq_nil in Hs as [_ Hs].
    - destruct (Hlt ltac:(done)); done. }
  specialize (Hcons Hne). rewrite Hv in Hcons. cbn [app] in Hcons.
  rewrite <- Hs, Hsl, fmap_app, concat_app in Hp. eapply parses_whole in Hp as (Hok & Hc & Hn); [|exact Hcons | | done].
  2: { intros Hx. apply Hlt. intros ->. by apply Hx. }
  subst ok. exists c, b', later. split_and!; [done | | | done].
  - apply bool_decide_eq_true. by apply (f_equal pstate_) in Hc.
  - by apply (f_equal request_) in Hc.
Qed.
