(* ===== verification/HttpServerProps.v ===== *)
(** * HTTP: responses and the server

    The text of a response and its reader, what one message callback of the
    server does, and conversations over one connection. *)
From stdpp Require Import strings sorting.
From S2P Require Import Prelude Endian StringPiece Buffer MuduoBuffer Channel TcpConnection TcpSafety TcpProps TcpTheorems LogStream LogStreamProps Http HttpProps.

(** ** The text of a response *)
Definition header_text (m : map_t) : bytes := concat ((fun h => header_line h ++ CRLF) <$> m).
Definition framing_headers (r : HttpResponse) : map_t :=
  if closeConnection_ r then [(lit "Connection", lit "close")]
  else [(lit "Content-Length", decimal (zlen (body_ r))); (lit "Connection", lit "Keep-Alive")].
Definition response_text (r : HttpResponse) : bytes :=
  (lit "HTTP/1.1 " ++ decimal (statusCode_ r) ++ [SP] ++ statusMessage_ r) ++ CRLF ++
  header_text (framing_headers r ++ rheaders_ r) ++ CRLF ++ body_ r.

(** Strings whose length a [StringPiece] can hold. *)
Definition small (s : bytes) : Prop := zlen s < 2 ^ 31.
Record response_ok (r : HttpResponse) : Prop := {
  ro_code : - 2 ^ 31 <= statusCode_ r < 2 ^ 31;
  ro_message : small (statusMessage_ r);
  ro_headers : Forall (fun h => small h.1 /\ small h.2) (rheaders_ r);
  ro_body : small (body_ r);
}.

(** Appending strings one after the other. *)
Fixpoint append_all (b : Buffer) (l : list bytes) : res Buffer :=
  match l with [] => Ok b | s :: l => b ← append_str b s; append_all b l end.

Lemma append_all_app b l k : append_all b (l ++ k) = (b ← append_all b l; append_all b k).
Proof.
  revert b. induction l as [|s l IH]; intros b; [done|]. cbn [app append_all].
  destruct (append_str b s); [apply IH | done].
Qed.

Lemma append_all_spec l b : wf b -> Forall small l -> writerIndex_ b + zlen (concat l) <= max_size ->
  exists b', append_all b l = Ok b' /\ wf b' /\ view b' = view b ++ concat l.
Proof.
  intros Hwf Hl. revert b Hwf. induction Hl as [|s l Hs _ IH]; intros b Hwf Hm; cbn [append_all concat].
  { exists b. by rewrite app_nil_r. }
  cbn [concat] in Hm. rewrite zlen_app in Hm. unfold small in Hs. zlen_pos.
  unfold append_str, append_piece, StringPiece_string. cbn [data size ptr_ length_]. rewrite int32_id, size_t_id by lia.
  destruct (append_spec b (Ptr s 0) (zlen s) s Hwf (ptr_read_all s)) as (b1 & -> & Hwf1 & Hv1 & _ & Hw1); [lia|].
  cbn [mbind res_bind]. destruct (IH b1 Hwf1) as (b2 & -> & Hwf2 & Hv2); [lia|].
  exists b2. split_and!; [done..|]. by rewrite Hv2, Hv1, app_assoc.
Qed.

Definition header_pieces (m : map_t) : list bytes := concat ((fun h => [h.1; lit ": "; h.2; CRLF]) <$> m).

Lemma append_headers_all m b : append_headers b m = append_all b (header_pieces m).
Proof.
  revert b. induction m as [|[k v] m IH]; intros b; [done|]. unfold header_pieces. cbn [fmap list_fmap concat app append_headers append_all fst snd].
  destruct (append_str b k); [|done]. cbn [mbind res_bind]. destruct (append_str _ (lit ": ")); [|done]. cbn [mbind res_bind].
  destruct (append_str _ v); [|done]. cbn [mbind res_bind]. destruct (append_str _ CRLF); [|done]. cbn [mbind res_bind]. apply IH.
Qed.

(** The pieces the code appends. *)
Definition response_pieces (r : HttpResponse) : list bytes :=
  [snprintf32 (lit "HTTP/1.1 " ++ decimal (statusCode_ r) ++ lit " "); statusMessage_ r; CRLF] ++
  (if closeConnection_ r then [lit "Connection: close" ++ CRLF]
   else [snprintf32 (lit "Content-Length: " ++ decimal (zlen (body_ r)) ++ CRLF); lit "Connection: Keep-Alive" ++ CRLF]) ++
  header_pieces (rheaders_ r) ++ [CRLF; body_ r].

Lemma appendToBuffer_all r b : appendToBuffer r b = append_all b (response_pieces r).
Proof.
  unfold appendToBuffer, response_pieces. cbn [app append_all].
  destruct (append_str b _) as [b1|]; [|done]. cbn [mbind res_bind].
  destruct (append_str b1 _) as [b2|]; [|done]. cbn [mbind res_bind].
  destruct (append_str b2 _) as [b3|]; [|done]. cbn [mbind res_bind].
  destruct (closeConnection_ r); cbn [app append_all].
  - destruct (append_str b3 _) as [b4|]; [|done]. cbn [mbind res_bind].
    rewrite append_headers_all, append_all_app. destruct (append_all b4 _) as [b5|]; [|done]. cbn [mbind res_bind append_all].
    destruct (append_str b5 _) as [b6|]; [|done]. cbn [mbind res_bind]. by destruct (append_str b6 _).
  - destruct (append_str b3 _) as [b4|]; [|done]. cbn [mbind res_bind].
    destruct (append_str b4 _) as [b5|]; [|done]. cbn [mbind res_bind].
    rewrite append_headers_all, append_all_app. destruct (append_all b5 _) as [b6|]; [|done]. cbn [mbind res_bind append_all].
    destruct (append_str b6 _) as [b7|]; [|done]. cbn [mbind res_bind]. by destruct (append_str b7 _).
Qed.

(** The 32 bytes of the formatting buffer are enough. *)
Lemma decimal_small v : 0 <= v < 2 ^ 31 -> 1 <= zlen (decimal v) <= 10.
Proof.
  intros Hv. pose proof (decimal_zlen v) as Hd. split; [apply Hd; unfold machine_int; lia|].
  unfold decimal. rewrite (proj2 (Z.ltb_ge v 0)) by lia. cbn [app]. rewrite Z.abs_eq by lia.
  pose proof (radix_zlen 10 dec_chr ltac:(lia) digit_fuel 10 v). lia.
Qed.

Lemma snprintf32_fits s : zlen s <= 31 -> snprintf32 s = s.
Proof. apply ztake_all. Qed.

Lemma header_pieces_concat m : concat (header_pieces m) = header_text m.
Proof.
  induction m as [|[k v] m IH]; [done|]. unfold header_pieces, header_text in *. cbn [fmap list_fmap concat app fst snd].
  rewrite IH. unfold header_line. cbn [fst snd]. by rewrite <- !app_assoc.
Qed.

Lemma response_pieces_text r : response_ok r -> concat (response_pieces r) = response_text r.
Proof.
  intros [Hc _ _ Hb]. unfold response_pieces, response_text, framing_headers, small in *.
  pose proof (decimal_zlen (statusCode_ r) ltac:(unfold machine_int; lia)) as Hd.
  rewrite snprintf32_fits by (rewrite !zlen_app; change (zlen (lit "HTTP/1.1 ")) with 9; change (zlen (lit " ")) with 1; lia).
  zlen_pos. pose proof (decimal_small (zlen (body_ r)) ltac:(lia)) as Hd2. cbn [app concat]. rewrite !concat_app. cbn [concat].
  rewrite header_pieces_concat, app_nil_r. destruct (closeConnection_ r).
  - unfold header_text. cbn [fmap list_fmap concat app header_line fst snd]. rewrite ?app_nil_r, <- !app_assoc. done.
  - rewrite snprintf32_fits by (rewrite !zlen_app; change (zlen (lit "Content-Length: ")) with 16; change (zlen CRLF) with 2; lia).
    unfold header_text. cbn [fmap list_fmap concat app header_line fst snd]. rewrite ?app_nil_r, <- !app_assoc. done.
Qed.

Lemma response_pieces_small r : response_ok r -> Forall small (response_pieces r).
Proof.
  intros [_ Hm Hh Hb]. unfold response_pieces.
  assert (Hsn : forall s, small (snprintf32 s)).
  { intros s. unfold small, snprintf32, ztake, zlen. rewrite length_take. lia. }
  apply Forall_app; split; [|apply Forall_app; split; [|apply Forall_app; split]].
  - by repeat constructor.
  - destruct (closeConnection_ r); by repeat constructor.
  - unfold header_pieces. induction Hh as [|h m [H1 H2] _ IH]; cbn [fmap list_fmap concat]; [constructor|].
    apply Forall_app. split; [by repeat constructor | exact IH].
  - by repeat constructor.
Qed.

(** A response is appended as its text. *)
Lemma appendToBuffer_spec r b : response_ok r -> wf b -> writerIndex_ b + zlen (response_text r) <= max_size ->
  exists b', appendToBuffer r b = Ok b' /\ wf b' /\ view b' = view b ++ response_text r.
Proof.
  intros Hr Hwf Hm. rewrite appendToBuffer_all, <- response_pieces_text by done.
  apply append_all_spec; [done | by apply response_pieces_small | by rewrite response_pieces_text].
Qed.

(** ** Reading a response back *)
Fixpoint read_headers (fuel : nat) (l : bytes) : option (map_t * bytes) :=
  match fuel with
  | O => None
  | S fuel =>
      '(line, rest) ← split_crlf l;
      if bool_decide (line = []) then Some ([], rest) else
      '(k, v) ← split_at Byte.x3a line;
      '(hs, rest) ← read_headers fuel rest;
      Some ((k, skip_spaces v) :: hs, rest)
  end.

(** What a client reads: status, message, headers, body and the bytes after
    it. Without a content length the body ends with the stream. *)
Definition read_response (l : bytes) : option (Z * bytes * map_t * bytes * bytes) :=
  '(line, rest) ← split_crlf l;
  '(protocol, line) ← split_at SP line;
  '(code, message) ← split_at SP line;
  code ← read_decimal code;
  '(hs, rest) ← read_headers (S (length rest)) rest;
  match map_find hs (lit "Content-Length") with
  | Some n =>
      n ← read_decimal n;
      if zlen rest <? n then None else Some (code, message, hs, ztake n rest, zdrop n rest)
  | None => Some (code, message, hs, rest, [])
  end.

Lemma read_headers_text m rest fuel : Forall header_ok m -> (length (header_text m) < fuel)%nat ->
  read_headers fuel (header_text m ++ CRLF ++ rest) = Some (m, rest).
Proof.
  intros Hm. revert fuel. induction Hm as [|[k v] m (H1 & H2 & H3 & H4 & _) _ IH]; intros fuel Hf.
  - destruct fuel as [|fuel]; [lia|]. done.
  - destruct fuel as [|fuel]; [lia|]. unfold header_text in *. cbn [fmap list_fmap concat] in *. rewrite length_app in Hf.
    cbn [read_headers]. rewrite <- !app_assoc. cbn [fst snd] in *.
    rewrite split_crlf_line.
    2: { unfold header_line. cbn [fst snd]. rewrite !not_elem_of_app. split_and!; [done | | done]. vm_literal. }
    cbn [mbind option_bind]. unfold header_line. cbn [fst snd].
    rewrite bool_decide_eq_false_2 by by intros [_ ?]%app_eq_nil.
    change (k ++ lit ": " ++ v) with (k ++ Byte.x3a :: SP :: v). rewrite split_at_app by done. cbn [mbind option_bind].
    rewrite IH; [|rewrite (length_app _ CRLF) in Hf; change (length CRLF) with 2%nat in Hf; lia]. cbn [mbind option_bind].
    change (skip_spaces (SP :: v)) with (skip_spaces v). by rewrite H4.
Qed.

Lemma decimal_elem c v : machine_int v -> c ∈ decimal v -> c = Byte.x2d \/ exists d, 0 <= d < 10 /\ c = dec_chr d.
Proof.
  intros _. unfold decimal. rewrite elem_of_app. intros [Hc|Hc].
  { left. by case_match; [apply list_elem_of_singleton in Hc | apply elem_of_nil in Hc]. }
  right. remember (Z.abs v) as n eqn:En. assert (Hn : 0 <= n) by lia. clear En v. revert n Hn Hc.
  generalize digit_fuel as fuel. induction fuel as [|fuel IH]; intros n Hn; cbn [radix]; [by intros ?%elem_of_nil|].
  case_cmp; [intros ->%list_elem_of_singleton; by exists n|].
  rewrite elem_of_app. intros [Hc| ->%list_elem_of_singleton].
  - apply (IH (n / 10)); [apply Z.div_pos; lia | done].
  - exists (n mod 10). split; [apply Z.mod_pos_bound; lia | done].
Qed.

Lemma no_spaces l : Forall (fun c => isspace c = false) l -> skip_spaces l = l /\ drop_spaces_end l = l.
Proof.
  intros H. split; [by destruct H as [|c l E _]; cbn [skip_spaces]; rewrite ?E|].
  induction H as [|c l E _ IH]; [done|]. cbn [drop_spaces_end]. rewrite IH. destruct l; [by rewrite E | done].
Qed.

Lemma dec_chr_cases d : 0 <= d < 10 -> isspace (dec_chr d) = false.
Proof.
  intros H. assert (Hc : d = 0 \/ d = 1 \/ d = 2 \/ d = 3 \/ d = 4 \/ d = 5 \/ d = 6 \/ d = 7 \/ d = 8 \/ d = 9) by lia.
  by destruct Hc as [->|[->|[->|[->|[->|[->|[->|[->|[->| ->]]]]]]]]].
Qed.

Lemma decimal_no_space v : machine_int v -> Forall (fun c => isspace c = false) (decimal v).
Proof.
  intros Hv. apply Forall_forall. intros c [->|(d & Hd & ->)]%decimal_elem; [done | by apply dec_chr_cases | done].
Qed.

Lemma space_not_in c l : isspace c = true -> Forall (fun c => isspace c = false) l -> c ∉ l.
Proof. intros Hc Hl Hin. rewrite Forall_forall in Hl. specialize (Hl c Hin). congruence. Qed.

Lemma framing_headers_ok r : small (body_ r) -> Forall header_ok (framing_headers r).
Proof.
  intros Hb. unfold small in Hb. zlen_pos. pose proof (decimal_no_space (zlen (body_ r)) ltac:(unfold machine_int; lia)) as Hd.
  unfold framing_headers.
  assert (Hc : forall v, v = lit "close" \/ v = lit "Keep-Alive" -> header_ok (lit "Connection", v)).
  { intros v [->| ->]; split_and!; cbn [fst snd]; vm_literal. }
  destruct (closeConnection_ r).
  - apply Forall_singleton. auto.
  - apply Forall_cons; split; [|apply Forall_singleton; auto].
    destruct (no_spaces _ Hd). split_and!; cbn [fst snd]; [vm_literal | vm_literal | by apply space_not_in | done | done].
Qed.

Lemma map_find_app m1 m2 k : map_find (m1 ++ m2) k = match map_find m1 k with Some v => Some v | None => map_find m2 k end.
Proof. induction m1 as [|[k1 v1] m1 IH]; [done|]. cbn. by case_bool_decide. Qed.

(** A client can tell where a response ends. The text the server appends for
    any response (with a message and headers that stay on their lines) is read
    back, whatever follows it, as the same status, message and headers, behind
    the ones that say how the connection goes on; on a connection that is kept,
    the announced length cuts out exactly the body; on one that is closed, the
    body is all that follows. *)
Theorem HttpResponse_roundtrip r b next :
  response_ok r -> LF ∉ statusMessage_ r -> Forall header_ok (rheaders_ r) ->
  map_find (rheaders_ r) (lit "Content-Length") = None -> wf b -> writerIndex_ b + zlen (response_text r) <= max_size ->
  exists b', appendToBuffer r b = Ok b' /\ wf b' /\ view b' = view b ++ response_text r /\
    read_response (response_text r ++ next) =
    Some (statusCode_ r, statusMessage_ r, framing_headers r ++ rheaders_ r,
      if closeConnection_ r then body_ r ++ next else body_ r, if closeConnection_ r then [] else next).
Proof.
  intros Hr Hlf Hh Hcl Hwf Hm. destruct (appendToBuffer_spec r b Hr Hwf Hm) as (b' & -> & Hwf' & Hv').
  exists b'. split_and!; [done..|]. pose proof Hr as [Hc _ _ Hb].
  assert (Hmi : machine_int (statusCode_ r)) by (unfold machine_int; lia). pose proof (decimal_no_space _ Hmi) as Hd.
  unfold read_response, response_text. rewrite <- !app_assoc.
  set (line := lit "HTTP/1.1 " ++ decimal (statusCode_ r) ++ [SP] ++ statusMessage_ r).
  match goal with |- context [split_crlf (lit "HTTP/1.1 " ++ ?x ++ [SP] ++ ?m ++ CRLF ++ ?t)] =>
    replace (lit "HTTP/1.1 " ++ x ++ [SP] ++ m ++ CRLF ++ t) with (line ++ CRLF ++ t) by (subst line; by rewrite <- !app_assoc) end.
  rewrite split_crlf_line.
  2: { subst line. rewrite !not_elem_of_app. split_and!; [vm_literal | by apply space_not_in |
       vm_literal | done]. }
  cbn [mbind option_bind]. subst line.
  change (lit "HTTP/1.1 " ++ ?x) with (lit "HTTP/1.1" ++ SP :: x). rewrite split_at_app by (vm_literal).
  cbn [mbind option_bind]. change (?x ++ [SP] ++ ?y) with (x ++ SP :: y). rewrite split_at_app by by apply space_not_in.
  cbn [mbind option_bind]. rewrite read_decimal_decimal by done. cbn [mbind option_bind].
  rewrite read_headers_text; [|apply Forall_app; split; [by apply framing_headers_ok | done] | rewrite length_app; lia].
  cbn [mbind option_bind]. rewrite map_find_app, Hcl. unfold framing_headers, small in *.
  destruct (closeConnection_ r).
  - by change (map_find [_] (lit "Content-Length")) with (@None bytes).
  - change (map_find _ (lit "Content-Length")) with (Some (decimal (zlen (body_ r)))). cbn [mbind option_bind]. zlen_pos.
    rewrite read_decimal_decimal by (unfold machine_int; lia). cbn [mbind option_bind].
    rewrite (proj2 (Z.ltb_ge _ _)) by (pose proof (zlen_nonneg next); rewrite zlen_app; lia).
    by rewrite ztake_app_l, ztake_all, zdrop_app_r, Z.sub_diag, zdrop_0 by lia.
Qed.

(** ** What a message callback does *)
Section server.
Context {K : Type} (httpCallback_ : HttpRequest -> HttpResponse -> HttpResponse).
Implicit Type w : world K.

(** The kernel may take any number of bytes but reports no broken connection. *)
Definition healthy w : Prop :=
  shutw w = None /\ Forall (fun a => match a with WSpace _ => True | WError e => e <> EPIPE /\ e <> ECONNRESET end) (answers w).

(** What is kept while the server answers. *)
Record serving w : Prop := {
  s_core : core w;
  s_loop : inLoop w = true;
  s_state : state w = kConnected;
  s_healthy : healthy w;
}.

Lemma sock_write_healthy w d n e w' : healthy w -> sock_write w d = (n, e, w') ->
  healthy w' /\ conn w' = conn w /\ accepted w' = accepted w /\ (n < 0 -> e <> EPIPE /\ e <> ECONNRESET).
Proof.
  intros Hh. pose proof Hh as [Hs Ha]. unfold sock_write. rewrite Hs. destruct (answers w) as [|[k|er] a]; intros [= <- <- <-].
  - by split_and!.
  - apply Forall_cons in Ha as [_ Ha]. split_and!; try done.
  - apply Forall_cons in Ha as [He Ha]. by split_and!.
Qed.

(** On a healthy connection [sendInLoop] takes over all of the data. *)
Lemma sendInLoop_accepts w d w' : healthy w -> state w <> kDisconnected -> sendInLoop d w = Ok w' ->
  accepted w' = accepted w ++ d /\ healthy w' /\ state w' = state w /\ inputBuffer_ (conn w') = inputBuffer_ (conn w).
Proof.
  intros Hh Hs. unfold sendInLoop. destruct (assertInLoopThread w); [cbn [mbind res_bind]|done].
  rewrite bool_decide_eq_false_2 by done. destruct (try_write w d) as [[[n r] fe] w1] eqn:E.
  assert (H1 : fe = false /\ healthy w1 /\ conn w1 = conn w /\ accepted w1 = accepted w).
  { unfold try_write in E. destruct (_ && _)%bool; [|by simplify_eq].
    destruct (sock_write w d) as [[m e] w2] eqn:Es. destruct (sock_write_healthy _ _ _ _ _ Hh Es) as (H2 & Hc & Ha & He).
    destruct (Z.leb_spec 0 m).
    - simplify_eq. unfold queue_write_complete. repeat case_match; by split_and!.
    - destruct He as [He1 He2]; [lia|]. simplify_eq. split_and!; try done.
      rewrite (proj2 (Z.eqb_neq e EPIPE)), (proj2 (Z.eqb_neq e ECONNRESET)) by done. by rewrite andb_false_r. }
  destruct H1 as (-> & Hh1 & Hc1 & Ha1). destruct (assert_ _); [cbn [mbind res_bind]|done].
  set (w2 := set_accepted w1 _). assert (H2 : accepted w2 = accepted w ++ d /\ healthy w2 /\ conn w2 = conn w).
  { subst w2. cbn. by rewrite Ha1. }
  clearbody w2. destruct H2 as (Ha2 & Hh2 & Hc2). destruct (_ && _)%bool; [|intros [= <-]; unfold state; by rewrite Hc2].
  set (w3 := queue_high_water _ _ _).
  assert (H3 : accepted w3 = accepted w2 /\ healthy w3 /\ conn w3 = conn w2) by (subst w3; unfold queue_high_water; repeat case_match; done).
  destruct H3 as (Ha3 & Hh3 & Hc3). rewrite <- Ha2, <- Ha3. intros Hr. apply bind_inv in Hr as (b & _ & Hr).
  assert (Hin : inputBuffer_ (conn w3) = inputBuffer_ (conn w)) by by rewrite Hc3, Hc2.
  assert (Hst : state w3 = state w) by (unfold state; by rewrite Hc3, Hc2).
  destruct (negb _); [|by injection Hr as <-]. unfold on_channel in Hr. apply bind_inv in Hr as (ch & _ & Hr). by injection Hr as <-.
Qed.

Lemma shutdown_effect w w' : shutdown w = Ok w' -> accepted w' = accepted w /\ inputBuffer_ (conn w') = inputBuffer_ (conn w) /\
  (state w = kConnected -> state w' = kDisconnecting).
Proof.
  unfold shutdown. case_bool_decide; [|intros [= <-]; by split_and!]. unfold runInLoop.
  destruct (isInLoopThread _); [|intros [= <-]; by split_and!]. unfold shutdownInLoop. intros Hr.
  apply bind_inv in Hr as (_ & _ & [= <-]). by destruct (negb _).
Qed.
(** What the server answers to a request. *)
Definition wants_close (req : HttpRequest) : bool :=
  bool_decide (getHeader req (lit "Connection") = lit "close") ||
  (bool_decide (version_ req = kHttp10) && negb (bool_decide (getHeader req (lit "Connection") = lit "Keep-Alive"))).
Definition response_to (req : HttpRequest) : HttpResponse := httpCallback_ req (HttpResponse_ctor (wants_close req)).
Definition answerable (req : HttpRequest) : Prop :=
  response_ok (response_to req) /\ zlen (response_text (response_to req)) <= max_size - 8.

(** The world after [d] was taken over for sending, and the connection shut
    down if [close]. *)
Definition answered w (d : bytes) (close : bool) w' : Prop :=
  core w' /\ inLoop w' = true /\ accepted w' = accepted w ++ d /\ inputBuffer_ (conn w') = inputBuffer_ (conn w) /\
  if close then state w' = kDisconnecting else serving w'.

Lemma serving_input w b : serving w -> wf b -> serving (set_input w b).
Proof using. intros [[] Hl Hs Hh] Hb. split; [|done..]. by split; unfold state, chan, out in *; cbn in *. Qed.

Lemma sendInLoop_answered w d : serving w -> zlen d <= max_size -> sat (answered w d false) (sendInLoop d w).
Proof using.
  intros Hw Hd. pose proof Hw as [Hc Hl Hs Hh]. pose proof (sendInLoop_sat w d Hc Hl Hd ltac:(by rewrite Hs)) as Hsat.
  destruct (sendInLoop d w) as [w'|[]] eqn:E; try done. destruct Hsat as [Hc' Hr].
  destruct (sendInLoop_accepts w d w' Hh ltac:(by rewrite Hs) E) as (Ha & Hh' & Hs' & Hi).
  assert (inLoop w' = true) by (by rewrite (r_loop _ _ Hr)). split_and!; try done. split; try done. by rewrite Hs'.
Qed.

Lemma shutdown_answered w d w' : answered w d false w' -> sat (answered w d true) (shutdown w').
Proof using.
  intros (Hc & Hl & Ha & Hi & Hw). pose proof (shutdown_sat w' Hc) as Hsat.
  destruct (shutdown w') as [w2|[]] eqn:E; try done. destruct Hsat as [Hc2 Hr].
  destruct (shutdown_effect w' w2 E) as (Ha2 & Hi2 & Hs2). split_and!; [done | by rewrite (r_loop _ _ Hr) | congruence | congruence | apply Hs2, Hw].
Qed.

Lemma onRequest_answered w req : serving w -> answerable req ->
  sat (answered w (response_text (response_to req)) (closeConnection_ (response_to req))) (onRequest httpCallback_ req w).
Proof using.
  intros Hw [Hr Hz]. unfold onRequest. fold (wants_close req). fold (response_to req).
  destruct new_Buffer_spec as (b & Hb & Hwf & Hv & _ & Hwi). change (muduo_Buffer kInitialSize) with new_Buffer. rewrite Hb. cbn [mbind res_bind].
  destruct (appendToBuffer_spec (response_to req) b Hr Hwf) as (b' & -> & Hwf' & Hv'); [rewrite Hwi; unfold kCheapPrepend; lia|].
  cbn [mbind res_bind]. rewrite Hv in Hv'. cbn [app] in Hv'. unfold send_buffer, isInLoopThread.
  rewrite (s_loop _ Hw), bool_decide_eq_true_2 by apply Hw.
  change (readableBytes b') with (ReadableBytes b'). rewrite readable_view by done.
  pose proof (vec_read_view b' 0 (zlen (view b')) Hwf') as Hrd. rewrite Z.add_0_r, zdrop_0, ztake_all in Hrd by lia.
  zlen_pos. unfold peek. rewrite Hrd by lia. cbn [mbind res_bind]. rewrite Hv'.
  pose proof (sendInLoop_answered w (response_text (response_to req)) Hw ltac:(lia)) as Hs.
  destruct (sendInLoop _ w) as [w'|[]]; cbn [mbind res_bind sat] in *; try done.
  destruct (closeConnection_ (response_to req)); [by apply shutdown_answered | exact Hs].
Qed.

(** A failed parse is not a complete one. *)
Lemma parses_failed c l c' l' : parses c l false c' l' -> pstate_ c' <> kGotAll.
Proof using.
  intros H. remember false as f eqn:Ef. revert Ef. induction H as [|c l line rest ok c' _ Hst|]; intros Ef; [done| |auto].
  subst. destruct (line_step_state _ _ _ _ _ Hst) as [-> _]. done.
Qed.

Lemma onMessage_spec w c t : serving w -> live c -> (forall req, answerable req) ->
  exists ok c1 b1, parseRequest c (inputBuffer_ (conn w)) t = Ok (ok, c1, b1) /\ wf b1 /\
    parses (erase_ctx c) (view (inputBuffer_ (conn w))) ok (erase_ctx c1) (view b1) /\
    (ok = true -> gotAll c1 = false -> live c1) /\
  sat (fun '(c', w') =>
    if negb ok then c' = c1 /\ answered (set_input w b1) bad_request true w'
    else if gotAll c1 then c' = HttpContext_ctor /\
      answered (set_input w b1) (response_text (response_to (request_ c1))) (closeConnection_ (response_to (request_ c1))) w'
    else c' = c1 /\ w' = set_input w b1) (onMessage httpCallback_ t c w).
Proof using.
  intros Hw Hl Hcb. destruct (parseRequest_parses c (inputBuffer_ (conn w)) t Hl (c_in _ (s_core _ Hw)))
    as (ok & c1 & b1 & E & Hwf1 & Hp & Hl1 & _). exists ok, c1, b1. split_and!; [done..| |].
  { intros Hok Hg. apply Hl1; [done|]. by apply bool_decide_eq_false in Hg. }
  unfold onMessage. rewrite E. cbn [mbind res_bind]. pose proof (serving_input w b1 Hw Hwf1) as Hw1. destruct ok; cbn [negb].
  - cbn [mbind res_bind]. destruct (gotAll c1) eqn:Eg; [|done].
    pose proof (onRequest_answered (set_input w b1) (request_ c1) Hw1 (Hcb _)) as Hs.
    by destruct (onRequest _ _ _) as [w'|[]].
  - apply parses_failed in Hp. assert (Hg : gotAll c1 = false) by by apply bool_decide_eq_false.
    rewrite Hg. apply sat_bind. unfold send, isInLoopThread. rewrite (s_loop _ Hw1), bool_decide_eq_true_2 by apply Hw1.
    apply sat_bind. eapply sat_mono; [|apply (sendInLoop_answered (set_input w b1) bad_request); [done | vm_compute; discriminate]].
    intros w2 Hw2. eapply sat_mono; [|exact (shutdown_answered _ _ _ Hw2)]. done.
Qed.

(** What one message callback does. On a connection that is up and not
    broken, whatever has arrived: with an incomplete request nothing is sent
    and parsing will go on where it stopped; with a complete one, exactly the
    response of the user's callback is taken over for sending, the context is
    new, what follows the request stays in the buffer, and the connection is
    shut down exactly if the response says so; with a malformed request line
    the error response is sent and the connection shut down. Nothing faults,
    except for exhausted memory. *)
Theorem HttpServer_onMessage w c t :
  serving w -> live c -> (forall req, answerable req) ->
  exists ok c1 b1, parseRequest c (inputBuffer_ (conn w)) t = Ok (ok, c1, b1) /\
  sat (fun '(c', w') => view (inputBuffer_ (conn w')) = view b1 /\
    if negb ok then c' = c1 /\ accepted w' = accepted w ++ bad_request /\ state w' = kDisconnecting
    else if gotAll c1 then
      let resp := response_to (request_ c1) in
      c' = HttpContext_ctor /\ accepted w' = accepted w ++ response_text resp /\
      state w' = (if closeConnection_ resp then kDisconnecting else kConnected) /\ core w'
    else c' = c1 /\ live c' /\ accepted w' = accepted w /\ serving w')
  (onMessage httpCallback_ t c w).
Proof using.
  intros Hw Hl Hcb. destruct (onMessage_spec w c t Hw Hl Hcb) as (ok & c1 & b1 & E & Hwf & _ & Hl1 & Hs).
  exists ok, c1, b1. split; [done|]. eapply sat_mono; [|exact Hs]. intros [c' w'].
  pose proof (serving_input w b1 Hw Hwf) as Hw1. destruct ok; cbn [negb].
  - destruct (gotAll c1); [|intros [-> ->]; split_and!; auto].
    intros (-> & Hc & _ & Ha & -> & Hst). split_and!; try done. by destruct (closeConnection_ _); [|destruct Hst].
  - intros (-> & Hc & _ & Ha & -> & Hst). by split_and!.
Qed.

(** ** Conversations *)

(** Segments arrive, and the message callback runs after each one. *)
Fixpoint serve (c : HttpContext) w (segments : list (bytes * Z)) : res (HttpContext * world K) :=
  match segments with
  | [] => Ok (c, w)
  | (d, t) :: segments =>
      b ← append (inputBuffer_ (conn w)) (Ptr d 0) (zlen d);
      '(c, w) ← onMessage httpCallback_ t c (set_input w b);
      serve c w segments
  end.

Hypothesis all_answerable : forall req, answerable req.

(** A part of a request is not taken for all of it, and is no error. *)
Lemma parses_prefix r p q ok c l : well_formed r -> request_text r = p ++ q -> parses HttpContext_ctor p ok c l ->
  ok = true /\ (q <> [] -> pstate_ c <> kGotAll) /\ (q = [] -> c = mkContext kGotAll (erase r) /\ l = []).
Proof using.
  intros Hr Ht Hp. pose proof (parses_printed r [] Hr) as Hall. rewrite app_nil_r in Hall.
  assert (Hv : ok = false \/ pstate_ c = kGotAll -> ok = true /\ c = mkContext kGotAll (erase r) /\ l ++ q = []).
  { intros Hv. apply (parses_app _ _ _ _ _ q) in Hp; [|done..]. rewrite <- Ht in Hp.
    by destruct (parses_functional _ _ _ _ _ Hp _ _ _ Hall) as (<- & <- & <-). }
  destruct ok; [|by destruct Hv; auto]. split_and!; [done | |].
  - intros Hq Hg. destruct Hv as (_ & _ & Hlq); [by right|]. by apply app_eq_nil in Hlq as [_ ?].
  - intros ->. rewrite app_nil_r in Ht. subst p. by destruct (parses_functional _ _ _ _ _ Hp _ _ _ Hall) as (_ & -> & ->).
Qed.

(** Between requests: a new context and an empty buffer. *)
Definition idle (c : HttpContext) w : Prop := c = HttpContext_ctor /\ view (inputBuffer_ (conn w)) = [].

(** Within a request: [p] has been seen. *)
Definition partly (p : bytes) (c : HttpContext) w : Prop :=
  live c /\ parses HttpContext_ctor p true (erase_ctx c) (view (inputBuffer_ (conn w))).

Lemma idle_partly c w : idle c w -> partly [] c w.
Proof using. intros [-> Hv]. split; [done|]. rewrite Hv. by apply parses_more. Qed.

(** Segments of one request. *)
Lemma serve_request r segs p c w : well_formed r -> serving w -> partly p c w ->
  request_text r = p ++ concat (fst <$> segs) -> Forall (fun s => zlen s.1 <= max_size) segs ->
  Forall (fun s => s.1 <> []) segs -> segs <> [] ->
  sat (fun '(c', w') => exists req, erase req = erase r /\ c' = HttpContext_ctor /\ view (inputBuffer_ (conn w')) = [] /\
    accepted w' = accepted w ++ response_text (response_to req) /\
    if closeConnection_ (response_to req) then state w' = kDisconnecting else serving w') (serve c w segs).
Proof using all_answerable.
  intros Hr. revert p c w. induction segs as [|[d t] segs IH]; intros p c w Hw [Hl Hp] Ht Hz Hne Hs; [done|].
  apply Forall_cons in Hz as [Hd Hz]. apply Forall_cons in Hne as [_ Hne]. cbn [fst] in *. cbn [serve]. apply sat_bind.
  eapply sat_mono; [|apply (append_sat _ _ _ d); [apply Hw | apply ptr_read_all | done]].
  intros b [Hwf Hv]. apply sat_bind. pose proof (serving_input w b Hw Hwf) as Hw1.
  destruct (onMessage_spec (set_input w b) c t Hw1 Hl all_answerable) as (ok & c1 & b1 & _ & Hwf1 & Hp1 & Hl1 & Hs1).
  cbn in Hp1. rewrite Hv in Hp1.
  assert (Hp2 : parses HttpContext_ctor (p ++ d) ok (erase_ctx c1) (view b1))
    by (eapply parses_split; [exact Hp | apply (live_not_got c Hl) | exact Hp1]).
  cbn [fmap list_fmap concat fst] in Ht. rewrite app_assoc in Ht.
  destruct (parses_prefix r _ _ _ _ _ Hr Ht Hp2) as (-> & Hmore & Hdone). cbn [negb] in Hs1.
  eapply sat_mono; [|exact Hs1]. intros [c' w']. destruct segs as [|s segs].
  - destruct (Hdone eq_refl) as [Hc1 Hb1]. apply (f_equal pstate_) in Hc1 as Hps. apply (f_equal request_) in Hc1.
    assert (gotAll c1 = true) as -> by by apply bool_decide_eq_true. intros (-> & _ & _ & Ha & Hi & Hst).
    exists (request_ c1). rewrite Hi. by split_and!.
  - assert (Hq : concat (fst <$> s :: segs) <> []).
    { apply Forall_cons in Hne as [Hne _]. cbn. intros [? _]%app_eq_nil. done. }
    specialize (Hmore Hq). assert (Hg : gotAll c1 = false) by by apply bool_decide_eq_false. rewrite Hg. intros [-> ->].
    apply (IH (p ++ d) c1 (set_input (set_input w b) b1)); try done; [by apply serving_input | by split; [apply Hl1|]].
Qed.
Lemma serve_app c w s1 s2 : serve c w (s1 ++ s2) = ('(c, w) ← serve c w s1; serve c w s2).
Proof using.
  revert c w. induction s1 as [|[d t] s1 IH]; intros c w; [done|]. cbn [app serve].
  destruct (append _ _ _) as [b|]; [|done]. cbn [mbind res_bind]. destruct (onMessage _ _ _ _) as [[c1 w1]|]; [|done].
  cbn [mbind res_bind]. apply IH.
Qed.

(** One request of a conversation and the segments it arrives in. *)
Record round_ok (x : HttpRequest * list (bytes * Z)) : Prop := {
  rd_request : well_formed x.1;
  rd_text : concat (fst <$> x.2) = request_text x.1;
  rd_segments : Forall (fun s => s.1 <> [] /\ zlen s.1 <= max_size) x.2;
}.

(** The answer does not close the connection, whenever the request arrives. *)
Definition keeps (x : HttpRequest * list (bytes * Z)) : Prop :=
  forall req, erase req = erase x.1 -> closeConnection_ (response_to req) = false.

(** C19: a conversation. Requests without a body arrive one after the other on
    one connection whose peer keeps reading, each in any segments, of which
    none holds bytes of two requests. If no answer before the last one closes
    the connection, they are answered one after the other: what the connection
    has taken over for sending is exactly the responses of the user's callback
    to these requests, in order. Then the server waits for the next request; or,
    if the last answer closes the connection (the client said so, or speaks
    HTTP/1.0 without asking to keep it, or the callback decides so), the
    connection is being shut down. Only a buffer beyond its maximal size can
    stop the server before. *)
Theorem HttpServer_conversation w rounds :
  serving w -> view (inputBuffer_ (conn w)) = [] -> Forall round_ok rounds ->
  (forall front x, rounds = front ++ [x] -> Forall keeps front) ->
  sat (fun '(c', w') => idle c' w' /\ exists reqs, Forall2 (fun req x => erase req = erase x.1) reqs rounds /\
      accepted w' = accepted w ++ concat ((fun req => response_text (response_to req)) <$> reqs) /\
      if forallb (fun req => negb (closeConnection_ (response_to req))) reqs then serving w' else state w' = kDisconnecting)
  (serve HttpContext_ctor w (concat (snd <$> rounds))).
Proof using all_answerable.
  intros Hw Hv Hrs. revert w Hw Hv. induction Hrs as [|[r segs] rounds [Hr Ht Hs] _ IH]; intros w Hw Hv Hk.
  { split; [done|]. exists []. by rewrite app_nil_r. }
  cbn [fmap list_fmap concat fst snd] in *. rewrite serve_app. apply sat_bind.
  eapply sat_mono; [|apply (serve_request r segs [] HttpContext_ctor w); try done].
  - intros [c1 w1] (req & He & -> & Hv1 & Ha1 & Hk1). destruct rounds as [|y rounds].
    + cbn. split; [done|]. exists [req]. split; [by repeat constructor|]. cbn. rewrite app_nil_r. split; [done|].
      by destruct (closeConnection_ _).
    + assert (Hkr : closeConnection_ (response_to req) = false).
      { destruct (exists_last (l := y :: rounds) ltac:(done)) as (front & x & E).
        specialize (Hk ((r, segs) :: front) x). rewrite E in Hk. apply Forall_cons in Hk as [Hk _]; [|done]. by apply Hk. }
      rewrite Hkr in Hk1. eapply sat_mono; [|apply (IH w1 Hk1 Hv1)].
      * intros [c2 w2] (Hi & reqs & Hf & Ha2 & Hst). split; [done|]. exists (req :: reqs).
        split; [by constructor|]. cbn [fmap list_fmap concat forallb]. rewrite Hkr. split; [by rewrite Ha2, Ha1, app_assoc | done].
      * intros front x E. specialize (Hk ((r, segs) :: front) x). rewrite E in Hk. by apply Forall_cons in Hk as [_ ?].
  - apply idle_partly. by split.
  - eapply Forall_impl; [exact Hs|]. by intros ? [].
  - eapply Forall_impl; [exact Hs|]. by intros ? [].
  - intros ->. cbn in Ht. unfold request_text in Ht. symmetry in Ht. by apply app_eq_nil in Ht as [_ ?].
Qed.

(** Pipelined requests wait. If two requests have arrived together, the
    message callback answers the first one only; the second stays in the
    buffer, although it is complete, until the peer sends something more. *)
Theorem HttpServer_pipelined_waits w r1 r2 t :
  serving w -> well_formed r1 -> well_formed r2 -> view (inputBuffer_ (conn w)) = request_text r1 ++ request_text r2 ->
  sat (fun '(c', w') => c' = HttpContext_ctor /\ view (inputBuffer_ (conn w')) = request_text r2 /\
    exists req, erase req = erase r1 /\ accepted w' = accepted w ++ response_text (response_to req))
  (onMessage httpCallback_ t HttpContext_ctor w).
Proof using all_answerable.
  intros Hw Hr1 Hr2 Hv. destruct (onMessage_spec w HttpContext_ctor t Hw eq_refl all_answerable) as (ok & c1 & b1 & _ & _ & Hp & _ & Hs).
  rewrite Hv in Hp. destruct (parses_functional _ _ _ _ _ Hp _ _ _ (parses_printed r1 (request_text r2) Hr1)) as (<- & Hc & Hb).
  apply (f_equal pstate_) in Hc as Hps. apply (f_equal request_) in Hc. cbn [negb] in Hs.
  assert (Hg : gotAll c1 = true) by by apply bool_decide_eq_true. rewrite Hg in Hs.
  eapply sat_mono; [|exact Hs]. intros [c' w'] (-> & _ & _ & Ha & Hi & _). rewrite Hi. split_and!; try done. by exists (request_ c1).
Qed.
End server.

(** ** Defects *)

(** A context that has everything must be reset. [parseRequest] on a context
    in state [kGotAll] (or [kExpectBody]) never returns: no branch of its loop
    changes anything. *)
Theorem parseRequest_spins c b t fuel ok :
  pstate_ c = kGotAll \/ pstate_ c = kExpectBody -> request_loop fuel t (mkParsing ok true c b) = Fail FFuel.
Proof.
  intros Hc. induction fuel as [|fuel IH]; [done|]. cbn [request_loop p_hasMore].
  assert (request_pass t (mkParsing ok true c b) = Ok (mkParsing ok true c b)) as -> by (unfold request_pass; cbn [p_ctx]; by destruct Hc as [-> | ->]).
  exact IH.
Qed.

Lemma processRequestLine_again r line m rest : method_ r <> kInvalid -> split_at SP line = Some (m, rest) ->
  processRequestLine r line = Fail FAssert.
Proof.
  intros Hr Hs. unfold processRequestLine. pose proof (std_find_split SP [] line []) as Hf. cbn zeta in Hf. cbn [app] in Hf.
  rewrite app_nil_r, zlen_nil, Z.add_0_l in Hf. rewrite Hf, Hs. pose proof (split_at_zlen _ _ _ _ Hs). zlen_pos.
  rewrite (proj2 (Z.eqb_neq _ _)) by lia. cbn [negb]. unfold setMethod. by rewrite assert_bind_false by by apply bool_decide_eq_false.
Qed.

(** C40: a malformed request line can bring the server down. Let the first line
    name a known method but be malformed otherwise (another version, say).
    The callback answers with an error and shuts the connection down, but only
    for writing: the line stays in the buffer and the method in the context.
    Whatever the peer sends next, the callback parses the line again and the
    assertion in [setMethod] fails. *)
Theorem HttpServer_malformed_line_aborts {K} cb (w : world K) line rest t :
  serving w -> (forall req, answerable cb req) -> view (inputBuffer_ (conn w)) = line ++ CRLF ++ rest ->
  LF ∉ line -> request_line line = None -> line_method line <> kInvalid ->
  sat (fun '(c', w') => accepted w' = accepted w ++ bad_request /\ state w' = kDisconnecting /\
    forall more b' t', wf b' -> view b' = view (inputBuffer_ (conn w')) ++ more ->
      onMessage cb t' c' (set_input w' b') = Fail FAssert)
  (onMessage cb t HttpContext_ctor w).
Proof.
  intros Hw Hcb Hv Hlf Hrl Hm. destruct (onMessage_spec cb w HttpContext_ctor t Hw eq_refl Hcb) as (ok & c1 & b1 & _ & _ & Hp & _ & Hs).
  rewrite Hv in Hp. pose proof (split_crlf_line line rest Hlf) as Hsp.
  destruct (processRequestLine_spec line) as (ok' & r & Hpr & He & Hr). rewrite Hrl in Hr. destruct Hr as [-> Hmr].
  assert (Hst : line_step HttpContext_ctor line = Ok (false, false, mkContext kExpectRequestLine r))
    by (unfold line_step; cbn [pstate_ request_ HttpContext_ctor]; by rewrite Hpr).
  destruct (parses_functional _ _ _ _ _ (parses_stop _ _ _ _ _ _ Hsp Hst) _ _ _ Hp) as (-> & Hc & Hb).
  cbn [negb] in Hs. eapply sat_mono; [|exact Hs]. intros [c' w'] (-> & _ & _ & Ha & Hi & Hstate). split_and!; [done..|].
  intros more b' t' Hwf Hv'. rewrite Hi in Hv'. cbn in Hv'. rewrite Hb in Hv'.
  apply (split_crlf_app _ more) in Hsp. rewrite <- Hv' in Hsp.
  apply (f_equal pstate_) in Hc as Hps. apply (f_equal (fun c => method_ (request_ c))) in Hc. cbn in Hps, Hc.
  unfold onMessage, parseRequest. cbn [conn set_input set_conn inputBuffer_ request_loop p_hasMore]. unfold request_pass. cbn [p_ctx p_buf].
  rewrite Hps, findCRLF_split, Hsp by done. cbn [mbind res_bind].
  destruct (take_line b' line _ Hwf Hsp) as [-> _]. cbn [mbind res_bind].
  unfold line_method in *. destruct (split_at SP line) as [[m x]|] eqn:Es; [|done].
  by rewrite (processRequestLine_again (request_ c1) line m x) by congruence.
Qed.

(** ** Examples *)
Module Example.
Import TcpTheorems.Example.

(** Every request is answered with a short text. *)
Definition hi (req : HttpRequest) (resp : HttpResponse) : HttpResponse :=
  setBody (setStatusMessage (setStatusCode resp k200Ok) (lit "OK")) (lit "hi").

Lemma hi_answerable req : answerable hi req.
Proof.
  unfold answerable, response_to, hi. destruct (wants_close req); (split; [|vm_compute; discriminate]);
    (split; cbn; [unfold k200Ok; lia | reflexivity | constructor | reflexivity]).
Qed.

Lemma up_serving : serving up.
Proof.
  split; [apply (g_core _ (reachable_good user up user_is_ok up_reachable)) | vm_compute; reflexivity.. |].
  split; [vm_compute; reflexivity|]. vm_compute. by repeat constructor.
Qed.

Definition get : HttpRequest :=
  mkRequest kGet kHttp11 (lit "/index") (lit "?q=1") 0 [(lit "Accept", lit "*/*"); (lit "Host", lit "a:80")].

Lemma get_well_formed : well_formed get.
Proof.
  split; cbn [method_ version_ path_ query_ headers_ get]; try done; try (split_and!; vm_literal).
  - right. exists (lit "q=1"). split_and!; [reflexivity | vm_literal..].
  - repeat (apply Forall_cons; split); [split_and!; cbn [fst snd]; vm_literal.. | apply Forall_nil_2].
  - repeat constructor.
Qed.

(** The text in three segments, one of them in the middle of a line end. *)
Definition pieces : list (bytes * Z) :=
  [(ztake 27 (request_text get), 10); (ztake 5 (zdrop 27 (request_text get)), 20); (zdrop 32 (request_text get), 30)].

Lemma HttpContext_segments_witness : exists b0 ok c1 b1 later ball c2 b2, new_Buffer = Ok b0 /\
  feed HttpContext_ctor b0 pieces = Ok (ok, c1, b1, later) /\ parseRequest HttpContext_ctor ball 0 = Ok (ok, c2, b2) /\
  erase_ctx c1 = erase_ctx c2 /\ view b2 = view b1 ++ concat (fst <$> later).
Proof.
  destruct new_Buffer_spec as (b0 & Hb & Hwf & _ & _ & Hw). exists b0.
  destruct (HttpContext_segments HttpContext_ctor b0 pieces 0) as (ok & c1 & b1 & later & ball & c2 & b2 & H1 & _ & H2 & H3 & H4);
    [reflexivity | exact Hwf | discriminate | rewrite Hw; vm_compute; discriminate|].
  exists ok, c1, b1, later, ball, c2, b2. auto.
Defined.

Lemma HttpRequest_roundtrip_witness : exists b0 c b later, new_Buffer = Ok b0 /\
  feed HttpContext_ctor b0 pieces = Ok (true, c, b, later) /\ gotAll c = true /\ erase (request_ c) = get.
Proof.
  destruct new_Buffer_spec as (b0 & Hb & _). exists b0.
  destruct (HttpRequest_roundtrip get [] pieces b0 get_well_formed Hb) as (c & b & later & H1 & H2 & H3 & _);
    [vm_compute; reflexivity | vm_compute; discriminate|]. exists c, b, later. auto.
Defined.

Lemma HttpResponse_roundtrip_witness : exists b0 b, new_Buffer = Ok b0 /\
  appendToBuffer (hi get (HttpResponse_ctor false)) b0 = Ok b /\
  read_response (response_text (hi get (HttpResponse_ctor false)) ++ lit "next") =
    Some (200, lit "OK", framing_headers (hi get (HttpResponse_ctor false)), lit "hi", lit "next").
Proof.
  destruct new_Buffer_spec as (b0 & Hb & Hwf & _ & _ & Hw). exists b0.
  destruct (HttpResponse_roundtrip (hi get (HttpResponse_ctor false)) b0 (lit "next")) as (b & H1 & _ & _ & H2).
  - split; cbn; [unfold k200Ok; lia | reflexivity | constructor | reflexivity].
  - vm_literal.
  - constructor.
  - reflexivity.
  - exact Hwf.
  - rewrite Hw. vm_compute. discriminate.
  - exists b. split; [exact Hb|]. split; [exact H1|]. rewrite H2. vm_compute. reflexivity.
Defined.

(** A request in three segments, then one of HTTP/1.0 that ends the conversation. *)
Definition bye : HttpRequest := mkRequest kGet kHttp10 (lit "/bye") [] 0 [].
Lemma bye_well_formed : well_formed bye.
Proof.
  split; cbn [method_ version_ path_ query_ headers_ bye]; try done; [split_and!; vm_literal | by left | constructor].
Qed.
Definition talk : list (HttpRequest * list (bytes * Z)) := [(get, pieces); (bye, [(request_text bye, 40)])].

Lemma HttpServer_conversation_witness :
  sat (fun '(c', w') => state w' = kDisconnecting /\ exists reqs, length reqs = 2%nat /\
    accepted w' = accepted up ++ concat ((fun req => response_text (response_to hi req)) <$> reqs))
  (serve hi HttpContext_ctor up (concat (snd <$> talk))).
Proof.
  eapply sat_mono; [|apply (HttpServer_conversation hi hi_answerable up talk)].
  - intros [c' w'] (_ & reqs & Hf & Ha & Hst). split; [|exists reqs; split; [exact (Forall2_length _ _ _ Hf) | exact Ha]].
    unfold talk in Hf. inversion Hf as [|r1 ? reqs1 ? H1 Hf1]; subst. inversion Hf1 as [|r2 ? reqs2 ? H2 Hf2]; subst. inversion Hf2; subst.
    assert (closeConnection_ (response_to hi r2) = true) as Hc; [|cbn [forallb] in Hst; rewrite Hc, andb_false_r in Hst; exact Hst].
    unfold response_to, hi, wants_close, getHeader. cbn.
    assert (headers_ r2 = []) as -> by exact (f_equal headers_ H2). assert (version_ r2 = kHttp10) as -> by exact (f_equal version_ H2). reflexivity.
  - exact up_serving.
  - vm_compute. reflexivity.
  - apply Forall_cons; split; [|apply Forall_cons; split; [|apply Forall_nil_2]].
    + split; [exact get_well_formed | vm_compute; reflexivity|]. apply (bool_decide_unpack _). vm_compute. exact I.
    + split; [exact bye_well_formed | vm_compute; reflexivity|]. apply (bool_decide_unpack _). vm_compute. exact I.
  - intros front x E. destruct front as [|y [|z front]]; [constructor | | by destruct front as [|? [|??]]].
    injection E as <- _. apply Forall_cons; split; [|apply Forall_nil_2]. intros req He.
    unfold response_to, hi. cbn. unfold wants_close. assert (headers_ req = headers_ get) as Hh by exact (f_equal headers_ He).
    assert (version_ req = kHttp11) as -> by exact (f_equal version_ He). unfold getHeader. rewrite Hh. reflexivity.
Defined.

(** A request with a version the server does not know, then one more byte. *)
Definition http2 : bytes := lit "GET / HTTP/2.0".
Definition asked : world unit :=
  match append (inputBuffer_ (conn up)) (Ptr (http2 ++ CRLF) 0) (zlen (http2 ++ CRLF)) with
  | Ok b => set_input up b | Fail _ => up end.

Lemma HttpServer_malformed_line_aborts_witness :
  sat (fun '(c', w') => state w' = kDisconnecting /\
    forall b', wf b' -> view b' = view (inputBuffer_ (conn w')) ++ lit "x" -> onMessage hi 1 c' (set_input w' b') = Fail FAssert)
  (onMessage hi 0 HttpContext_ctor asked).
Proof.
  eapply sat_mono; [|apply (HttpServer_malformed_line_aborts hi asked http2 [] 0)].
  - intros [c' w'] (_ & Hs & Ha). split; [exact Hs|]. intros b' Hwf Hv. by apply (Ha (lit "x")).
  - unfold asked. destruct (append _ _ _) as [b|f] eqn:E; [|exact up_serving].
    apply serving_input; [exact up_serving|]. pose proof (c_in _ (s_core _ up_serving)) as Hwf.
    destruct (append_spec _ _ _ (http2 ++ CRLF) Hwf (ptr_read_all _)) as (b' & E' & Hwf' & _); [vm_compute; discriminate|]. congruence.
  - exact hi_answerable.
  - vm_compute. reflexivity.
  - vm_literal.
  - vm_compute. reflexivity.
  - vm_compute. discriminate.
Defined.
End Example.
