(* ===== verification/TcpServer.v ===== *)
(** * [muduo::net::TcpServer] ([3rd_party/muduo/muduo/net/TcpServer.{h,cc}],
      [Acceptor.{h,cc}], [EventLoopThreadPool.{h,cc}])

    The listening socket, the threads that serve connections and the map of
    live connections. Every event loop is a thread with a queue of functors;
    loop 0 is the server's own loop, the others are those of the pool. The
    threads interleave at the granularity of one handler or functor. Of a
    connection the model keeps what the server depends on, its life: the state
    and whether its channel has an interest; [TcpServerLife.life_abstracts]
    relates it to the full model of [TcpConnection]. *)
From S2P Require Import Prelude StringPiece LogStream LogStreamProps TcpConnection.

(** ** EventLoopThreadPool *)
Definition loop_id := nat.
Definition base_loop : loop_id := 0%nat.

Record Pool := mkPool {
  pool_started_ : bool;
  numThreads_ : Z;
  next_ : Z;
  loops_ : list loop_id;        (** one per element of [threads_] *)
  inits : list loop_id;         (** ghost: the loops the init callback was called with *)
}.

Definition Pool_ctor : Pool := mkPool false 0 0 [] [].
Definition Pool_setThreadNum (p : Pool) (n : Z) : Pool :=
  mkPool (pool_started_ p) n (next_ p) (loops_ p) (inits p).

(** [baseLoop_->assertInLoopThread()]: [cur] is the calling thread's loop,
    [None] a thread without one. *)
Definition assertInLoopThread (cur : option loop_id) (l : loop_id) : res unit :=
  check (bool_decide (cur = Some l)) FFatal.

(** Thread [i] has loop [i+1]: [startLoop] returns the address of a new loop,
    after the thread has run the callback on it. *)
Definition Pool_start (p : Pool) (cur : option loop_id) (cb : bool) : res Pool :=
  assert_ (negb (pool_started_ p));;
  assertInLoopThread cur base_loop;;
  let loops := seq 1 (Z.to_nat (numThreads_ p)) in
  Ok (mkPool true (numThreads_ p) (next_ p) (loops_ p ++ loops)
        (if cb then inits p ++ (if numThreads_ p =? 0 then [base_loop] else loops) else inits p)).

(** [loops_[i]] *)
Definition loop_at (ls : list loop_id) (i : Z) : res loop_id :=
  check (0 <=? i) FBounds;;
  match ls !! Z.to_nat i with Some l => Ok l | None => Fail FBounds end.

Definition getNextLoop (p : Pool) (cur : option loop_id) : res (loop_id * Pool) :=
  assertInLoopThread cur base_loop;;
  assert_ (pool_started_ p);;
  match loops_ p with
  | [] => Ok (base_loop, p)
  | _ =>
      l ← loop_at (loops_ p) (next_ p);
      let next := next_ p + 1 in
      let next := if zlen (loops_ p) <=? size_t next then 0 else next in
      Ok (l, mkPool (pool_started_ p) (numThreads_ p) next (loops_ p) (inits p))
  end.

Definition getLoopForHash (p : Pool) (cur : option loop_id) (hashCode : Z) : res loop_id :=
  assertInLoopThread cur base_loop;;
  match loops_ p with
  | [] => Ok base_loop
  | _ => loop_at (loops_ p) (hashCode mod zlen (loops_ p))
  end.

Definition getAllLoops (p : Pool) (cur : option loop_id) : res (list loop_id) :=
  assertInLoopThread cur base_loop;;
  assert_ (pool_started_ p);;
  Ok (match loops_ p with [] => [base_loop] | ls => ls end).

(** ** The life of a connection *)
Record life := mkLife { l_state : StateE; l_interest : bool }.

(** What user code can do to a connection: shut it down, if it is up, and
    change its interest. *)
Record user_move := mkMove { m_shut : bool; m_interest : bool }.
Definition moved (u : user_move) : life :=
  mkLife (if m_shut u then kDisconnecting else kConnected) (m_interest u).

Definition life_ctor : life := mkLife kConnecting false.
Definition life_established (u : user_move) (l : life) : res life :=
  assert_ (bool_decide (l_state l = kConnecting));; Ok (moved u).
Definition life_closed (l : life) : res life :=
  assert_ (bool_decide (l_state l = kConnected) || bool_decide (l_state l = kDisconnecting));;
  Ok (mkLife kDisconnected false).
Definition life_destroyed (l : life) : res life :=
  let l := if bool_decide (l_state l = kConnected) then mkLife kDisconnected false else l in
  assert_ (negb (l_interest l));;
  Ok l.
(** [startReadInLoop] does not look at the state: it gives a connection that is
    not yet up, or already down, an interest, too. *)
Definition life_user (u : user_move) (l : life) : life :=
  match l_state l with
  | kConnected => moved u
  | st => mkLife st (m_interest u)
  end.
(** [shutdown] alone. *)
Definition life_shutdown (l : life) : life :=
  match l_state l with
  | kConnected => mkLife kDisconnecting (l_interest l)
  | _ => l
  end.

(** ** Server state *)
Record connection := mkConnection {
  c_name : bytes;
  c_fd : Z;
  c_loop : loop_id;
  c_life : life;
  c_destroyed : bool;           (** ghost: [connectDestroyed] has run *)
}.

Abbreviation conn_id := nat (only parsing).

Inductive functor :=
  | FListen
  | FEstablished (k : conn_id)
  | FRemoveConnection (k : conn_id)
  | FDestroyed (k : conn_id).
#[global] Instance functor_eq_dec : EqDecision functor.
Proof. solve_decision. Defined.

Record Acceptor := mkAcceptor {
  listenning_ : bool;
  reading : bool;               (** [acceptChannel_] has its read interest *)
  idleFd_ : Z;
  closed_fds : list Z;          (** ghost: arguments of [close], in order *)
}.

Record TcpServer := mkServer {
  alive : bool;                 (** not destroyed *)
  ipPort_ : bytes;
  name_ : bytes;
  acceptor_ : Acceptor;
  threadPool_ : Pool;
  threadInitCallback_ : bool;
  started_ : Z;
  nextConnId_ : Z;
  connections_ : gmap bytes conn_id;
  heap : gmap conn_id connection;       (** every [TcpConnection] made so far *)
  queues : gmap loop_id (list functor); (** [pendingFunctors_] of each loop *)
}.

Definition set_acceptor (s : TcpServer) (a : Acceptor) : TcpServer :=
  mkServer (alive s) (ipPort_ s) (name_ s) a (threadPool_ s) (threadInitCallback_ s) (started_ s)
    (nextConnId_ s) (connections_ s) (heap s) (queues s).
Definition set_pool (s : TcpServer) (p : Pool) : TcpServer :=
  mkServer (alive s) (ipPort_ s) (name_ s) (acceptor_ s) p (threadInitCallback_ s) (started_ s)
    (nextConnId_ s) (connections_ s) (heap s) (queues s).
Definition set_started (s : TcpServer) (v : Z) : TcpServer :=
  mkServer (alive s) (ipPort_ s) (name_ s) (acceptor_ s) (threadPool_ s) (threadInitCallback_ s) v
    (nextConnId_ s) (connections_ s) (heap s) (queues s).
Definition set_connections (s : TcpServer) (m : gmap bytes conn_id) : TcpServer :=
  mkServer (alive s) (ipPort_ s) (name_ s) (acceptor_ s) (threadPool_ s) (threadInitCallback_ s)
    (started_ s) (nextConnId_ s) m (heap s) (queues s).
Definition set_heap (s : TcpServer) (h : gmap conn_id connection) : TcpServer :=
  mkServer (alive s) (ipPort_ s) (name_ s) (acceptor_ s) (threadPool_ s) (threadInitCallback_ s)
    (started_ s) (nextConnId_ s) (connections_ s) h (queues s).
Definition set_queues (s : TcpServer) (q : gmap loop_id (list functor)) : TcpServer :=
  mkServer (alive s) (ipPort_ s) (name_ s) (acceptor_ s) (threadPool_ s) (threadInitCallback_ s)
    (started_ s) (nextConnId_ s) (connections_ s) (heap s) q.
Definition set_nextConnId (s : TcpServer) (n : Z) : TcpServer :=
  mkServer (alive s) (ipPort_ s) (name_ s) (acceptor_ s) (threadPool_ s) (threadInitCallback_ s)
    (started_ s) n (connections_ s) (heap s) (queues s).

Definition queue (s : TcpServer) (l : loop_id) : list functor := default [] (queues s !! l).

(** ** Acceptor *)
Definition Acceptor_ctor (idle : Z) : res Acceptor :=
  assert_ (0 <=? idle);;
  Ok (mkAcceptor false false idle []).
(** [disableAll], [remove] and the close of the spare descriptor. *)
Definition Acceptor_dtor (a : Acceptor) : Acceptor :=
  mkAcceptor (listenning_ a) false (idleFd_ a) (closed_fds a ++ [idleFd_ a]).
Definition listen (cur : option loop_id) (a : Acceptor) : res Acceptor :=
  assertInLoopThread cur base_loop;;
  Ok (mkAcceptor true true (idleFd_ a) (closed_fds a)).

(** ** Construction and start *)
Definition TcpServer_ctor (ipPort nameArg : bytes) (cb : bool) (idle : Z) : res TcpServer :=
  a ← Acceptor_ctor idle;
  Ok (mkServer true ipPort nameArg a Pool_ctor cb 0 1 ∅ ∅ ∅).

Definition setThreadNum (s : TcpServer) (numThreads : Z) : res TcpServer :=
  assert_ (0 <=? numThreads);;
  Ok (set_pool s (Pool_setThreadNum (threadPool_ s) numThreads)).

(** ** The loops *)
Definition queueInLoop (l : loop_id) (f : functor) (s : TcpServer) : TcpServer :=
  set_queues s (<[l := queue s l ++ [f]]> (queues s)).

(** [conn] is an owning pointer: the object exists. *)
Definition get_conn (s : TcpServer) (k : conn_id) : res connection :=
  match heap s !! k with Some c => Ok c | None => Fail FBounds end.
Definition put_life (s : TcpServer) (k : conn_id) (c : connection) (l : life) (d : bool) : TcpServer :=
  set_heap s (<[k := mkConnection (c_name c) (c_fd c) (c_loop c) l d]> (heap s)).

(** [TcpConnection::connectEstablished] in thread [cur]; [u] is what the
    connection callback does. *)
Definition connectEstablished (cur : option loop_id) (u : user_move) (k : conn_id) (s : TcpServer)
    : res TcpServer :=
  c ← get_conn s k;
  assertInLoopThread cur (c_loop c);;
  l ← life_established u (c_life c);
  Ok (put_life s k c l (c_destroyed c)).

(** The second [connectDestroyed] of a connection fails: the poller asserts
    that it knows the channel it removes. *)
Definition connectDestroyed (cur : option loop_id) (k : conn_id) (s : TcpServer) : res TcpServer :=
  c ← get_conn s k;
  assertInLoopThread cur (c_loop c);;
  assert_ (negb (c_destroyed c));;
  l ← life_destroyed (c_life c);
  Ok (put_life s k c l true).

(** The functor is bound to [this]: running it on a destroyed server is a use
    of freed memory. *)
Definition removeConnectionInLoop (cur : option loop_id) (k : conn_id) (s : TcpServer)
    : res TcpServer :=
  check (alive s) FBounds;;
  assertInLoopThread cur base_loop;;
  c ← get_conn s k;
  let n := match connections_ s !! c_name c with Some _ => 1 | None => 0 end in
  let s := set_connections s (delete (c_name c) (connections_ s)) in
  assert_ (n =? 1);;
  Ok (queueInLoop (c_loop c) (FDestroyed k) s).

Definition listenInLoop (cur : option loop_id) (s : TcpServer) : res TcpServer :=
  check (alive s) FBounds;;
  a ← listen cur (acceptor_ s);
  Ok (set_acceptor s a).

Definition run_functor (cur : option loop_id) (u : user_move) (f : functor) (s : TcpServer)
    : res TcpServer :=
  match f with
  | FListen => listenInLoop cur s
  | FEstablished k => connectEstablished cur u k s
  | FRemoveConnection k => removeConnectionInLoop cur k s
  | FDestroyed k => connectDestroyed cur k s
  end.

(** [l->runInLoop(f)] called by thread [cur]. *)
Definition runInLoop (cur : option loop_id) (u : user_move) (l : loop_id) (f : functor)
    (s : TcpServer) : res TcpServer :=
  if bool_decide (cur = Some l) then run_functor cur u f s else Ok (queueInLoop l f s).

Definition start (cur : option loop_id) (s : TcpServer) : res TcpServer :=
  let old := started_ s in
  let s := set_started s 1 in
  if old =? 0 then
    p ← Pool_start (threadPool_ s) cur (threadInitCallback_ s);
    let s := set_pool s p in
    assert_ (negb (listenning_ (acceptor_ s)));;
    runInLoop cur (mkMove false true) base_loop FListen s
  else Ok s.

(** ** Connections *)

(** [snprintf(buf, sizeof buf, "-%s#%d", ipPort_.c_str(), nextConnId_)] and
    [name_ + buf]; the 64 bytes of [buf] are not initialised. *)
Definition conn_name (garbage name ipPort : bytes) (id : Z) : res bytes :=
  '(buf, _) ← snprintf garbage 0 (zlen garbage) (Byte.x2d :: ipPort ++ Byte.x23 :: decimal id);
  n ← strlen (Ptr buf 0);
  d ← ptr_read (Ptr buf 0) n;
  Ok (name ++ d).

(** [garbage] are the 64 bytes of [buf]. The new object gets a fresh identity. *)
Definition newConnection (cur : option loop_id) (u : user_move) (garbage : bytes) (sockfd : Z)
    (s : TcpServer) : res TcpServer :=
  assertInLoopThread cur base_loop;;
  '(ioLoop, p) ← getNextLoop (threadPool_ s) cur;
  let s := set_pool s p in
  connName ← conn_name garbage (name_ s) (ipPort_ s) (nextConnId_ s);
  check (nextConnId_ s + 1 <? 2 ^ 31) FOverflow;;
  let s := set_nextConnId s (nextConnId_ s + 1) in
  let k := base.size (heap s) in
  let s := set_heap s (<[k := mkConnection connName sockfd ioLoop life_ctor false]> (heap s)) in
  let s := set_connections s (<[connName := k]> (connections_ s)) in
  runInLoop cur u ioLoop (FEstablished k) s.

(** [removeConnection], the close callback of every connection. *)
Definition removeConnection (cur : option loop_id) (k : conn_id) (s : TcpServer) : res TcpServer :=
  check (alive s) FBounds;;
  runInLoop cur (mkMove false true) base_loop (FRemoveConnection k) s.

(** [TcpConnection::handleClose]: the connection is closed and its close
    callback called. *)
Definition handleClose (cur : option loop_id) (k : conn_id) (s : TcpServer) : res TcpServer :=
  c ← get_conn s k;
  assertInLoopThread cur (c_loop c);;
  l ← life_closed (c_life c);
  removeConnection cur k (put_life s k c l (c_destroyed c)).

(** What the kernel answers to [accept], and, when it has no descriptor left,
    to the second [accept] and the [open] of the spare descriptor. *)
Definition EMFILE : Z := 24.
Inductive accept_answer := Accepted (connfd : Z) | AcceptError (errno connfd idle : Z).

Definition close_fd (a : Acceptor) (fd : Z) : Acceptor :=
  mkAcceptor (listenning_ a) (reading a) (idleFd_ a) (closed_fds a ++ [fd]).
Definition set_idle (a : Acceptor) (fd : Z) : Acceptor :=
  mkAcceptor (listenning_ a) (reading a) fd (closed_fds a).

(** [Acceptor::handleRead]; [newConnectionCallback_] is [newConnection]. *)
Definition handleRead (cur : option loop_id) (u : user_move) (garbage : bytes) (ans : accept_answer)
    (s : TcpServer) : res TcpServer :=
  assertInLoopThread cur base_loop;;
  match ans with
  | Accepted connfd => newConnection cur u garbage connfd s
  | AcceptError errno connfd idle =>
      if errno =? EMFILE then
        let a := acceptor_ s in
        let a := close_fd a (idleFd_ a) in
        let a := set_idle a connfd in
        let a := close_fd a (idleFd_ a) in
        Ok (set_acceptor s (set_idle a idle))
      else Ok s
  end.

(** [~TcpServer]; then the members are destroyed. *)
Definition TcpServer_dtor (cur : option loop_id) (s : TcpServer) : res TcpServer :=
  assertInLoopThread cur base_loop;;
  s ← foldl (fun m '(_, k) =>
        s ← m; c ← get_conn s k;
        runInLoop cur (mkMove false true) (c_loop c) (FDestroyed k) s)
      (Ok s) (map_to_list (connections_ s));
  Ok (mkServer false (ipPort_ s) (name_ s) (Acceptor_dtor (acceptor_ s)) (threadPool_ s)
        (threadInitCallback_ s) (started_ s) (nextConnId_ s) ∅ (heap s) (queues s)).

(** ** Steps *)
Inductive label :=
  | LSetThreadNum (n : Z)
  | LStart
  | LAccept (ans : accept_answer) (garbage : bytes) (u : user_move) (** the base loop sees a connection *)
  | LRun (l : loop_id) (u : user_move)                        (** loop [l] runs its next functor *)
  | LClose (k : conn_id)                                      (** the loop of [k] closes it *)
  | LUser (k : conn_id) (u : user_move)                       (** user code acts on [k] *)
  | LDestroy.

Definition closable (l : life) : bool :=
  bool_decide (l_state l = kConnected) || bool_decide (l_state l = kDisconnecting).

(** [None]: the step is not enabled. *)
Definition exec (s : TcpServer) (lb : label) : option (res TcpServer) :=
  match lb with
  | LSetThreadNum n => Some (setThreadNum s n)
  | LStart => Some (start (Some base_loop) s)
  | LAccept ans g u =>
      if reading (acceptor_ s) then Some (handleRead (Some base_loop) u g ans s) else None
  | LRun l u =>
      match queue s l with
      | [] => None
      | f :: q => Some (run_functor (Some l) u f (set_queues s (<[l := q]> (queues s))))
      end
  | LClose k =>
      match heap s !! k with
      | Some c => if closable (c_life c) then Some (handleClose (Some (c_loop c)) k s) else None
      | None => None
      end
  | LUser k u =>
      match heap s !! k with
      | Some c => Some (Ok (put_life s k c (life_user u (c_life c)) (c_destroyed c)))
      | None => None
      end
  | LDestroy => if alive s then Some (TcpServer_dtor (Some base_loop) s) else None
  end.

(** A run; steps that are not enabled are skipped. *)
Definition run (s : TcpServer) (ls : list label) : res TcpServer :=
  foldl (fun m lb => s ← m; match exec s lb with Some r => r | None => Ok s end) (Ok s) ls.
