(* ===== verification/TcpClient.v ===== *)
(** * [muduo::net::TcpClient] ([3rd_party/muduo/muduo/net/TcpClient.{h,cc}])

    A client and its [Connector] on one event loop. The loop polls, dispatches
    the sources that were active, then runs the functors that were queued before
    it swapped them; functors of the connector and of the connections share the
    queue. A connection is its life, as in [TcpServer]. Calls from other threads
    and from callbacks happen between two handlers. Addresses, names and
    messages to the log are left out. *)
From S2P Require Import Prelude Channel TcpConnection TcpServer Connector.

(** ** State *)
Inductive close_callback := ToClient | ToDetail.   (** [TcpClient::removeConnection], [detail::removeConnection] *)
#[global] Instance close_callback_eq_dec : EqDecision close_callback.
Proof. solve_decision. Defined.
Record conn := mkConn {
  k_fd : Z;
  k_life : life;
  k_close : close_callback;
  k_destroyed : bool;               (** ghost: [connectDestroyed] has run *)
}.

(** Pending functors; [QConnector] is the next of the connector's own. *)
Inductive qfunctor := QConnector | QForceClose (k : nat) | QDestroyed (k : nat).
#[global] Instance qfunctor_eq_dec : EqDecision qfunctor.
Proof. solve_decision. Defined.

(** What [poll] found ready, and where the loop is. *)
Inductive source := SConnector | SConn (k : nat).
#[global] Instance source_eq_dec : EqDecision source.
Proof. solve_decision. Defined.
Inductive phase := Polling | Active (l : list source) | Running (l : list qfunctor).

Record TcpClient := mkClient {
  alive : bool;                     (** not destroyed *)
  connector_alive : bool;
  connector_ : Connector;
  retry_ : bool;
  connect_ : bool;
  nextConnId_ : Z;
  connection_ : option nat;
  conns : list conn;                (** every [TcpConnection] made so far *)
  at_phase : phase;
  pending : list qfunctor;
  lost : bool;                      (** ghost: a connection ended and was not made again *)
}.

Definition TcpClient_ctor : TcpClient :=
  mkClient true true Connector_ctor false true 1 None [] Polling [] false.

Definition set_connector (s : TcpClient) (c : Connector) : TcpClient :=
  mkClient (alive s) (connector_alive s) c (retry_ s) (connect_ s) (nextConnId_ s) (connection_ s) (conns s) (at_phase s) (pending s) (lost s).
Definition set_connect (s : TcpClient) (b : bool) : TcpClient :=
  mkClient (alive s) (connector_alive s) (connector_ s) (retry_ s) b (nextConnId_ s) (connection_ s) (conns s) (at_phase s) (pending s) (lost s).
Definition set_conns (s : TcpClient) (l : list conn) : TcpClient :=
  mkClient (alive s) (connector_alive s) (connector_ s) (retry_ s) (connect_ s) (nextConnId_ s) (connection_ s) l (at_phase s) (pending s) (lost s).
Definition set_connection (s : TcpClient) (o : option nat) : TcpClient :=
  mkClient (alive s) (connector_alive s) (connector_ s) (retry_ s) (connect_ s) (nextConnId_ s) o (conns s) (at_phase s) (pending s) (lost s).
Definition set_nextConnId (s : TcpClient) (n : Z) : TcpClient :=
  mkClient (alive s) (connector_alive s) (connector_ s) (retry_ s) (connect_ s) n (connection_ s) (conns s) (at_phase s) (pending s) (lost s).
Definition set_phase (s : TcpClient) (p : phase) : TcpClient :=
  mkClient (alive s) (connector_alive s) (connector_ s) (retry_ s) (connect_ s) (nextConnId_ s) (connection_ s) (conns s) p (pending s) (lost s).
Definition set_pending (s : TcpClient) (q : list qfunctor) : TcpClient :=
  mkClient (alive s) (connector_alive s) (connector_ s) (retry_ s) (connect_ s) (nextConnId_ s) (connection_ s) (conns s) (at_phase s) q (lost s).
Definition set_retry (s : TcpClient) (b : bool) : TcpClient :=
  mkClient (alive s) (connector_alive s) (connector_ s) b (connect_ s) (nextConnId_ s) (connection_ s) (conns s) (at_phase s) (pending s) (lost s).
Definition set_lost (s : TcpClient) (b : bool) : TcpClient :=
  mkClient (alive s) (connector_alive s) (connector_ s) (retry_ s) (connect_ s) (nextConnId_ s) (connection_ s) (conns s) (at_phase s) (pending s) b.

Definition queueInLoop (s : TcpClient) (f : qfunctor) : TcpClient := set_pending s (pending s ++ [f]).

(** The connector moved from [c0] to [c]: what it queued joins the loop's queue. *)
Definition put_connector (s : TcpClient) (c0 c : Connector) : TcpClient :=
  set_pending (set_connector s c)
    (pending s ++ replicate (length (functors c) - length (functors c0)) QConnector).

Definition get_conn (s : TcpClient) (k : nat) : res conn :=
  match conns s !! k with Some c => Ok c | None => Fail FBounds end.
Definition put_conn (s : TcpClient) (k : nat) (c : conn) : TcpClient := set_conns s (<[k := c]> (conns s)).
Definition with_life (c : conn) (l : life) : conn := mkConn (k_fd c) l (k_close c) (k_destroyed c).

(** ** TcpClient *)

(** [newConnection]; [u] is what the connection callback does. *)
Definition newConnection (s : TcpClient) (sockfd : Z) (u : user_move) : res TcpClient :=
  check (alive s) FBounds;;
  check (nextConnId_ s + 1 <? 2 ^ 31) FOverflow;;
  let s := set_nextConnId s (nextConnId_ s + 1) in
  let k := length (conns s) in
  let s := set_conns s (conns s ++ [mkConn sockfd life_ctor ToClient false]) in
  let s := set_connection s (Some k) in
  l ← life_established u life_ctor;
  Ok (put_conn s k (mkConn sockfd l ToClient false)).

(** [removeConnection]; [errno] is the outcome of the next attempt. *)
Definition removeConnection (s : TcpClient) (k : nat) (errno : Z) : res TcpClient :=
  check (alive s) FBounds;;
  assert_ (bool_decide (connection_ s = Some k));;
  let s := set_connection s None in
  let s := queueInLoop s (QDestroyed k) in
  if retry_ s && connect_ s then
    c ← restart (connector_ s) errno;
    Ok (put_connector s (connector_ s) c)
  else Ok (set_lost s true).

(** [detail::removeConnection]. *)
Definition detail_removeConnection (s : TcpClient) (k : nat) : TcpClient := queueInLoop s (QDestroyed k).

Definition connect (s : TcpClient) (inLoop : bool) (errno : Z) : res TcpClient :=
  let s := set_connect s true in
  c ← start (connector_ s) inLoop errno;
  Ok (put_connector s (connector_ s) c).

Definition stop (s : TcpClient) : TcpClient :=
  let s := set_connect s false in
  put_connector s (connector_ s) (Connector.stop (connector_ s)).

(** [disconnect] with [connection_->shutdown()]. *)
Definition disconnect (s : TcpClient) : TcpClient :=
  let s := set_connect s false in
  match connection_ s with
  | None => s
  | Some k =>
      match conns s !! k with
      | Some c => put_conn s k (with_life c (life_shutdown (k_life c)))
      | None => s
      end
  end.

Definition enableRetry (s : TcpClient) : TcpClient := set_retry s true.

(** ** Connections *)
Definition closable (l : life) : bool :=
  bool_decide (l_state l = TcpConnection.kConnected) || bool_decide (l_state l = kDisconnecting).

(** [TcpConnection::forceClose]. *)
Definition forceClose (s : TcpClient) (k : nat) : res TcpClient :=
  c ← get_conn s k;
  if closable (k_life c)
  then Ok (queueInLoop (put_conn s k (with_life c (mkLife kDisconnecting (l_interest (k_life c))))) (QForceClose k))
  else Ok s.

(** [TcpConnection::handleClose] with the close callback the connection has. *)
Definition handleClose (s : TcpClient) (k : nat) (errno : Z) : res TcpClient :=
  c ← get_conn s k;
  l ← life_closed (k_life c);
  let s := put_conn s k (with_life c l) in
  match k_close c with
  | ToClient => removeConnection s k errno
  | ToDetail => Ok (detail_removeConnection s k)
  end.

Definition forceCloseInLoop (s : TcpClient) (k : nat) (errno : Z) : res TcpClient :=
  c ← get_conn s k;
  if closable (k_life c) then handleClose s k errno else Ok s.

Definition connectDestroyed (s : TcpClient) (k : nat) : res TcpClient :=
  c ← get_conn s k;
  assert_ (negb (k_destroyed c));;
  l ← life_destroyed (k_life c);
  Ok (put_conn s k (mkConn (k_fd c) l (k_close c) true)).

(** [~TcpClient] in the loop's thread; [held]: someone else owns the connection.
    Without a connection the connector is stopped and outlives the client;
    with one it is destroyed with it. *)
Definition destroyed (s : TcpClient) (b : bool) : TcpClient :=
  mkClient false b (connector_ s) (retry_ s) (connect_ s) (nextConnId_ s) None (conns s) (at_phase s) (pending s) (lost s).
Definition TcpClient_dtor (s : TcpClient) (held : bool) : res TcpClient :=
  match connection_ s with
  | Some k =>
      c ← get_conn s k;
      let s := put_conn s k (mkConn (k_fd c) (k_life c) ToDetail (k_destroyed c)) in
      s ← (if held then Ok s else forceClose s k);
      Connector_dtor (connector_ s);;
      Ok (destroyed s false)
  | None => Ok (destroyed (put_connector s (connector_ s) (Connector.stop (connector_ s))) true)
  end.

(** ** The loop *)

(** An event of the connector's channel; a socket it hands over goes to
    [newConnection]. A channel object that is gone is a use of freed memory. *)
Definition connector_event (s : TcpClient) (revents err : Z) (self : bool) (u : user_move) : res TcpClient :=
  check (connector_alive s) FBounds;;
  match channel_ (connector_ s) with
  | None => Fail FBounds
  | Some ch =>
      c ← handleEvent getc setc None (Some (handleWrite err self)) None (Some handleError) true
            (setc (connector_ s) (set_revents ch revents));
      let s' := put_connector s (connector_ s) c in
      match drop (length (handed (connector_ s))) (handed c) with
      | [] => Ok s'
      | fd :: _ => newConnection s' fd u
      end
  end.

(** The connector's next functor, bound to its address. *)
Definition connector_functor (s : TcpClient) (errno : Z) : res TcpClient :=
  check (connector_alive s) FBounds;;
  match functors (connector_ s) with
  | [] => Ok s
  | f :: q =>
      let c0 := set_functors (connector_ s) q in
      c ← match f with
          | FStartInLoop => startInLoop c0 errno
          | FStopInLoop => stopInLoop c0
          | FResetChannel => resetChannel c0
          end;
      Ok (put_connector s c0 c)
  end.

Definition run_functor (s : TcpClient) (f : qfunctor) (errno : Z) : res TcpClient :=
  match f with
  | QConnector => connector_functor s errno
  | QForceClose k => forceCloseInLoop s k errno
  | QDestroyed k => connectDestroyed s k
  end.

(** A retry timer calls [startInLoop]; it holds the connector. *)
Definition connector_timer (s : TcpClient) (n : nat) (errno : Z) : res TcpClient :=
  let c0 := set_timers (connector_ s) n in
  c ← startInLoop c0 errno;
  Ok (put_connector s c0 c).

(** ** Steps *)
Inductive label :=
  | LConnect (inLoop : bool) (errno : Z)
  | LDisconnect
  | LStop
  | LEnableRetry
  | LForceClose (k : nat)
  | LMove (k : nat) (u : user_move)        (** user code shuts down or changes the interest *)
  | LDestroy (held : bool)
  | LPoll (l : list source)
  | LTimer (errno : Z)
  | LDispatch (revents err : Z) (self : bool) (errno : Z) (u : user_move)
  | LRun (errno : Z).                      (** the next functor, or the next phase *)

(** A source [poll] can report: a channel with an interest in events. *)
Definition pollable (s : TcpClient) (x : source) : bool :=
  match x with
  | SConnector => connector_alive s && match channel_ (connector_ s) with Some ch => isWriting ch | None => false end
  | SConn k => match conns s !! k with Some c => closable (k_life c) | None => false end
  end.

(** [None]: the step is not enabled. A timer fires at least 500 ms after the
    iteration that asked for it, so after that iteration's functors. *)
Definition exec (s : TcpClient) (lb : label) : option (res TcpClient) :=
  match lb with
  | LConnect inLoop errno => Some (connect s inLoop errno)
  | LDisconnect => Some (Ok (disconnect s))
  | LStop => Some (Ok (stop s))
  | LEnableRetry => Some (Ok (enableRetry s))
  | LForceClose k => match conns s !! k with Some _ => Some (forceClose s k) | None => None end
  | LMove k u =>
      match conns s !! k with
      | Some c => Some (Ok (put_conn s k (with_life c (life_user u (k_life c)))))
      | None => None
      end
  | LDestroy held => Some (TcpClient_dtor s held)
  | LPoll l =>
      match at_phase s with
      | Polling => if bool_decide (NoDup l) && forallb (pollable s) l then Some (Ok (set_phase s (Active l))) else None
      | _ => None
      end
  | LTimer errno =>
      match at_phase s, timers (connector_ s) with
      | Active _, S n => if bool_decide (FResetChannel ∈ functors (connector_ s)) then None else Some (connector_timer s n errno)
      | _, _ => None
      end
  | LDispatch revents err self errno u =>
      match at_phase s with
      | Active (x :: l) =>
          let s := set_phase s (Active l) in
          Some (match x with SConnector => connector_event s revents err self u | SConn k => handleClose s k errno end)
      | Active [] => Some (Ok (set_phase (set_pending s []) (Running (pending s))))
      | _ => None
      end
  | LRun errno =>
      match at_phase s with
      | Running (f :: q) => Some (run_functor (set_phase s (Running q)) f errno)
      | Running [] => Some (Ok (set_phase s Polling))
      | _ => None
      end
  end.

(** How a program uses a client: it calls [connect] once, and nothing after
    the destructor; it destroys the client when none of the connector's functors
    is pending; and it leaves the reading of closed connections off. *)
Definition permitted (s : TcpClient) (lb : label) : bool :=
  match lb with
  | LConnect _ _ => alive s && negb (started (connector_ s))
  | LDisconnect | LStop | LEnableRetry => alive s
  | LDestroy _ => alive s && match functors (connector_ s) with [] => true | _ => false end
  | LMove k u => match conns s !! k with Some c => closable (k_life c) || negb (m_interest u) | None => true end
  | _ => true
  end.

Fixpoint runs (s : TcpClient) (ls : list label) : option (res TcpClient) :=
  match ls with
  | [] => Some (Ok s)
  | lb :: ls =>
      if permitted s lb then
        match exec s lb with
        | Some (Ok s) => runs s ls
        | r => r
        end
      else None
  end.

(** Steps without the discipline. *)
Fixpoint free_runs (s : TcpClient) (ls : list label) : option (res TcpClient) :=
  match ls with
  | [] => Some (Ok s)
  | lb :: ls => match exec s lb with Some (Ok s) => free_runs s ls | r => r end
  end.

(** ** Examples *)
Definition quiet_user : user_move := mkMove false true.
Definition connected : list label :=
  [LConnect true EINPROGRESS; LPoll [SConnector]; LDispatch POLLOUT 0 false 0 quiet_user; LDispatch 0 0 false 0 quiet_user; LRun 0; LRun 0].
