(* ===== verification/TcpClientProps.v ===== *)
(** * The client and its connector

    The client keeps the discipline its connector relies on
    ([Connector.permitted]), so no assertion of either fails; it has at most one
    open connection, and as long as one is wanted it is there, being made, or
    was given up for an error that is not retried. *)
From S2P Require Import Prelude Channel TcpConnection TcpServer Connector TcpClient.

(** ** What an operation of the connector leaves alone *)
Record grows (c0 c : Connector) : Prop := {
  g_functors : exists new, functors c = functors c0 ++ new;
  g_started : started c = started c0;
  g_connect : Connector.connect_ c = Connector.connect_ c0;
}.

Lemma grows_refl c : grows c c.
Proof. split; [exists []; by rewrite app_nil_r | done..]. Qed.
Lemma grows_trans c0 c1 c2 : grows c0 c1 -> grows c1 c2 -> grows c0 c2.
Proof. intros [[n1 H1] ? ?] [[n2 H2] ? ?]. split; [|congruence..]. exists (n1 ++ n2). by rewrite H2, H1, app_assoc. Qed.
#[export] Hint Resolve grows_refl : core.

(** Changes that queue nothing. *)
Lemma grows_same c0 c : functors c = functors c0 -> started c = started c0 -> Connector.connect_ c = Connector.connect_ c0 -> grows c0 c.
Proof. intros Hf ? ?. split; [exists []; by rewrite Hf, app_nil_r | done..]. Qed.

Lemma grows_retry c fd : grows c (retry c fd) /\ handed (retry c fd) = handed c /\ state_ (retry c fd) = kDisconnected.
Proof. unfold retry. cbn. destruct (Connector.connect_ c) eqn:E; (split; [by apply grows_same; cbn|]); done. Qed.

Lemma grows_startInLoop c errno c' : startInLoop c errno = Ok c' -> state_ c = kDisconnected ->
  grows c c' /\ functors c' = functors c /\ handed c' = handed c /\ state_ c' <> kConnected.
Proof.
  unfold startInLoop. intros H Hst. rewrite bool_decide_eq_true_2 in H by done. cbn [assert_ check mbind res_bind] in H.
  destruct (Connector.connect_ c) eqn:Ec; [|injection H as <-; split_and!; try done; congruence].
  unfold Connector.connect in H. destruct (one_of errno [0; _; _; _]).
  { unfold connecting in H. cbn in H. destruct (channel_ c); cbn in H; simplify_eq. split_and!; try done. by apply grows_same; cbn. }
  destruct (one_of errno [EAGAIN; _; _; _; _]).
  { injection H as <-. unfold retry. cbn. rewrite Ec. split_and!; try done. by apply grows_same; cbn. }
  destruct (one_of _ _); injection H as <-; (split_and!; [by apply grows_same; cbn | done | done | cbn; congruence]).
Qed.

Lemma grows_remove c c' fd : removeAndResetChannel c = Ok (c', fd) ->
  grows c c' /\ handed c' = handed c /\ state_ c' = state_ c.
Proof.
  unfold removeAndResetChannel. destruct (channel_ c) as [ch|]; [|done]. cbn.
  intros [= <- <-]. split_and!; try done. split; [by eexists | done..].
Qed.

Lemma grows_stopInLoop c c' : stopInLoop c = Ok c' ->
  grows c c' /\ handed c' = handed c /\ (state_ c <> kConnecting -> c' = c) /\ (state_ c = kConnecting -> state_ c' = kDisconnected).
Proof.
  unfold stopInLoop. case_bool_decide as E; [|intros [= <-]; split_and!; done].
  destruct (removeAndResetChannel (setState c kDisconnected)) as [[c1 fd]|] eqn:Er; [|done]. cbn [mbind res_bind]. intros [= <-].
  destruct (grows_remove _ _ _ Er) as (H1 & H2 & H3). destruct (grows_retry c1 fd) as (H4 & H5 & H6).
  split_and!; [|by rewrite H5, H2 | by intros []|done]. eapply grows_trans, H4. eapply grows_trans, H1. by apply grows_same; cbn.
Qed.

Lemma grows_resetChannel c c' : resetChannel c = Ok c' -> grows c c' /\ functors c' = functors c /\ handed c' = handed c /\ state_ c' = state_ c.
Proof.
  unfold resetChannel. destruct (channel_ c) as [ch|]; [|intros [= <-]; done]. destruct (Channel_dtor _ _); [|done]. cbn.
  intros [= <-]. split_and!; try done. by apply grows_same; cbn.
Qed.

(** An event of the channel hands over at most one socket, and only when a
    connection is still wanted. *)
Definition hands (c c' : Connector) : Prop :=
  handed c' = handed c /\ (state_ c' = kConnected -> Connector.connect_ c = false) \/
  exists fd, handed c' = handed c ++ [fd] /\ Connector.connect_ c = true /\ state_ c' = kConnected.

Lemma handleError_grows c c1 : handleError c = Ok c1 -> state_ c = kConnecting ->
  grows c c1 /\ handed c1 = handed c /\ state_ c1 = kDisconnected.
Proof.
  unfold handleError. intros H Hst. rewrite bool_decide_eq_true_2 in H by done.
  destruct (removeAndResetChannel c) as [[c2 fd]|] eqn:Er; [|done]. cbn [mbind res_bind] in H. injection H as <-.
  destruct (grows_remove _ _ _ Er) as (H1 & H2 & _). destruct (grows_retry c2 fd) as (H4 & H5 & H6).
  split_and!; [by eapply grows_trans | congruence | done].
Qed.

Lemma handleWrite_grows c err self c1 : handleWrite err self c = Ok c1 -> grows c c1 /\
  (state_ c = kConnecting -> hands c c1) /\ (state_ c <> kConnecting -> c1 = c).
Proof.
  unfold handleWrite. case_bool_decide as Hst; cycle 1.
  { case_bool_decide; [|done]. cbn. intros [= <-]. done. }
  destruct (removeAndResetChannel c) as [[c2 fd]|] eqn:Er; [|done]. cbn [mbind res_bind].
  destruct (grows_remove _ _ _ Er) as (H1 & H2 & _). destruct (grows_retry c2 fd) as (H4 & H5 & H6).
  pose proof (g_connect _ _ H1) as Hc. intros H. destruct (negb _); [|destruct self]; simplify_eq.
  1, 2: split_and!; [by eapply grows_trans | intros _; left; split; [congruence|]; by rewrite H6 | done].
  cbn in H. destruct (Connector.connect_ c2) eqn:E; simplify_eq; (split_and!; [|intros _|done]).
  1, 3: eapply grows_trans; [exact H1|]; apply grows_same; cbn; congruence.
  - right. exists fd. cbn. rewrite H2. split_and!; [done | congruence | done].
  - left. cbn. split; [done|]. congruence.
Qed.

Lemma handleEvent_grows c ch revents err self c' :
  channel_ c = Some ch -> state_ c = kConnecting ->
  handleEvent getc setc None (Some (handleWrite err self)) None (Some handleError) true (setc c (set_revents ch revents)) = Ok c' ->
  grows c c' /\ hands c c'.
Proof.
  intros Hch Hst H. unfold handleEvent in H. assert (H' : handleEventWithGuard getc setc None (Some (handleWrite err self)) None (Some handleError) (setc c (set_revents ch revents)) = Ok c') by (by destruct (tied_ _)).
  clear H. unfold handleEventWithGuard, when, invoke in H'. set (c0 := setc (setc c _) _) in H'.
  assert (Hg0 : grows c c0 /\ handed c0 = handed c /\ state_ c0 = kConnecting) by (split_and!; [by apply grows_same; cbn | done | done]). clearbody c0.
  assert (Hskip : forall (b : bool) (c : Connector), (if b then Ok c else Ok c) = Ok c) by (by intros []). rewrite Hskip in H'. cbn [mbind res_bind] in H'.
  destruct (if has (revents_ (getc c0)) (Z.lor POLLERR POLLNVAL) then handleError c0 else Ok c0) as [c1|] eqn:E1; [|done]. cbn [mbind res_bind] in H'.
  rewrite Hskip in H'. cbn [mbind res_bind] in H'. destruct Hg0 as (Hg0 & Hh0 & Hs0).
  assert (H1 : grows c c1 /\ handed c1 = handed c /\ (state_ c1 = kConnecting \/ state_ c1 = kDisconnected)).
  { destruct (has _ _); [|by simplify_eq; auto]. apply handleError_grows in E1 as (? & ? & ?); [|done]. split_and!; [by eapply grows_trans | congruence | by right]. }
  destruct H1 as (Hg1 & Hh1 & Hs1). pose proof (g_connect _ _ Hg1) as Hc1.
  destruct (if has (revents_ (getc c1)) POLLOUT then handleWrite err self c1 else Ok c1) as [c2|] eqn:E2; [|done]. cbn [mbind res_bind] in H'.
  injection H' as <-. assert (H2 : grows c c2 /\ hands c c2).
  { unfold hands in *. clear E1. destruct (has (revents_ (getc c1)) POLLOUT); cycle 1.
    { injection E2 as <-. split; [done|]. left. split; [done|]. intros E. destruct Hs1; congruence. }
    apply handleWrite_grows in E2 as (Hg2 & Hw & Hn). split; [by eapply grows_trans|]. rewrite <- Hh1, <- Hc1.
    destruct Hs1 as [Hs1|Hs1]; [by apply Hw|]. rewrite Hn by congruence. left. split; [done|]. congruence. }
  destruct H2 as [Hg2 Hh2]. split; [|exact Hh2]. eapply grows_trans; [exact Hg2|]. by apply grows_same; cbn.
Qed.

(** ** The order of the functors

    A functor that closes the current connection comes after the connector has
    reset the channel of the attempt that made it; and so does an event of the
    connection. *)
Abbreviation tokens := (cnt QConnector).

Lemma cnt_replicate f n : cnt f (replicate n QConnector) = if decide (QConnector = f) then n else 0%nat.
Proof. induction n as [|n IH]; [by case_decide|]. cbn [replicate]. rewrite cnt_cons, IH. case_decide; lia. Qed.
Definition todo (p : phase) (q : list qfunctor) : list qfunctor := match p with Running l => l ++ q | _ => q end.

Record order_ok (p : phase) (q : list qfunctor) (fs : list cfunctor) (cur : option nat) : Prop := {
  or_tokens : tokens (todo p q) = length fs;
  or_force : forall k g1 g2, cur = Some k -> todo p q = g1 ++ QForceClose k :: g2 -> FResetChannel ∉ drop (tokens g1) fs;
  or_reset : forall k, cur = Some k ->
    match p with
    | Polling => FResetChannel ∉ fs
    | Active l => SConn k ∈ l -> FResetChannel ∉ fs
    | Running l => FResetChannel ∉ drop (tokens l) fs
    end;
}.

Lemma todo_app p q h : todo p (q ++ h) = todo p q ++ h.
Proof. destruct p; cbn; by rewrite ?app_assoc. Qed.

Lemma order_none p q fs cur : order_ok p q fs cur -> order_ok p q fs None.
Proof. by intros [? _ _]. Qed.

(** The place of a functor in a queue to which something was added. *)
Lemma app_split {A} (g h g1 g2 : list A) x : g ++ h = g1 ++ x :: g2 -> (exists g3, g = g1 ++ x :: g3) \/ (exists h1, g1 = g ++ h1 /\ h = h1 ++ x :: g2).
Proof.
  revert g1. induction g as [|y g IH]; intros [|z g1] H; cbn in H.
  - right. by exists [].
  - right. by exists (z :: g1).
  - injection H as -> _. left. by exists g.
  - injection H as -> H. destruct (IH g1 H) as [[g3 ->]|(h1 & -> & ->)]; [left; by exists g3 | right; by exists h1].
Qed.

Lemma not_elem_drop {A} (x : A) n l : x ∉ l -> x ∉ drop n l.
Proof. intros Hx Hin. apply Hx. apply list_elem_of_lookup in Hin as [i Hi]. rewrite lookup_drop in Hi. apply list_elem_of_lookup. eauto. Qed.

Lemma order_push_tokens p q fs cur new :
  order_ok p q fs cur -> cur = None \/ FResetChannel ∉ new ->
  order_ok p (q ++ replicate (length new) QConnector) (fs ++ new) cur.
Proof.
  intros [Ht Hf Hr] Hnew. split.
  - rewrite todo_app, cnt_app, cnt_replicate, decide_True, Ht, length_app by done. lia.
  - intros k g1 g2 -> E. destruct Hnew as [?|Hnew]; [done|]. rewrite todo_app in E. apply app_split in E as [[g3 E]|(h1 & -> & E)].
    + rewrite drop_app. apply not_elem_of_app. split; [by eapply Hf | by apply not_elem_drop].
    + exfalso. assert (Hin : QForceClose k ∈ replicate (length new) QConnector) by (rewrite E; set_solver). by apply elem_of_replicate in Hin as [? _].
  - intros k ->. destruct Hnew as [?|Hnew]; [done|]. specialize (Hr k eq_refl). destruct p.
    + set_solver.
    + set_solver.
    + rewrite drop_app. apply not_elem_of_app. split; [done | by apply not_elem_drop].
Qed.

Lemma order_push p q fs cur f : f <> QConnector -> order_ok p q fs cur -> order_ok p (q ++ [f]) fs cur.
Proof.
  intros Hf [Ht Hc Hr]. split; [|intros k g1 g2 Ek E|done].
  - rewrite todo_app, cnt_app, cnt_cons, cnt_nil, decide_False, Ht by done. lia.
  - rewrite todo_app in E. apply app_split in E as [[g3 E]|(h1 & -> & E)]; [by eapply Hc|].
    rewrite cnt_app, Ht. rewrite drop_ge by lia. apply not_elem_of_nil.
Qed.

Lemma order_pop l q fs cur f : f <> QConnector -> order_ok (Running (f :: l)) q fs cur -> order_ok (Running l) q fs cur.
Proof.
  intros Hf [Ht Hc Hr]. cbn in *. rewrite cnt_cons, decide_False in Ht by done. split; cbn; [done| |].
  - intros k g1 g2 Ek E. specialize (Hc k (f :: g1) g2 Ek). rewrite E in Hc. specialize (Hc eq_refl). by rewrite cnt_cons, decide_False in Hc.
  - intros k Ek. specialize (Hr k Ek). by rewrite cnt_cons, decide_False in Hr.
Qed.

Lemma order_pop_token l q fs cur : order_ok (Running (QConnector :: l)) q fs cur ->
  exists f fs', fs = f :: fs' /\ order_ok (Running l) q fs' cur.
Proof.
  intros [Ht Hc Hr]. cbn in *. rewrite cnt_cons, decide_True in Ht by done. destruct fs as [|f fs]; [done|]. exists f, fs. split; [done|].
  split; cbn; [cbn in Ht; lia| |].
  - intros k g1 g2 Ek E. specialize (Hc k (QConnector :: g1) g2 Ek). rewrite E in Hc. specialize (Hc eq_refl). by rewrite cnt_cons, decide_True in Hc.
  - intros k Ek. specialize (Hr k Ek). by rewrite cnt_cons, decide_True in Hr.
Qed.

Lemma order_new l q fs k : SConn k ∉ l -> cnt (QForceClose k) q = 0%nat -> order_ok (Active l) q fs None -> order_ok (Active l) q fs (Some k).
Proof.
  intros Hl Hq [Ht _ _]. split; cbn; [done | |by intros ? [= <-]]. intros k' g1 g2 [= <-] E. cbn in E. subst q.
  rewrite cnt_app, cnt_cons, decide_True in Hq by done. lia.
Qed.

Lemma order_swap q fs cur : order_ok (Active []) q fs cur -> order_ok (Running q) [] fs cur.
Proof.
  intros [Ht Hc Hr]. cbn in *. split; cbn; rewrite ?app_nil_r; [done | done|]. intros k Ek. rewrite drop_ge by lia. apply not_elem_of_nil.
Qed.
Lemma order_polling q fs cur : order_ok (Running []) q fs cur -> order_ok Polling q fs cur.
Proof. intros [Ht Hc Hr]. split; [done | done|]. intros k Ek. by specialize (Hr k Ek). Qed.
Lemma order_active l q fs cur : order_ok Polling q fs cur -> order_ok (Active l) q fs cur.
Proof. intros [Ht Hc Hr]. split; [done | done|]. intros k Ek _. by apply (Hr k). Qed.
Lemma order_dispatched x l q fs cur : order_ok (Active (x :: l)) q fs cur -> order_ok (Active l) q fs cur.
Proof. intros [Ht Hc Hr]. split; [done | done|]. intros k Ek Hin. apply (Hr k Ek). by right. Qed.

(** ** The connections *)
Definition open (c : conn) : bool := closable (k_life c).
Definition shut_life : life := mkLife TcpConnection.kDisconnected false.

(** [closing]: how many times [connectDestroyed] has yet to run on [c]. *)
Definition closing (c : conn) : nat := if open c then 0%nat else if k_destroyed c then 0%nat else 1%nat.

Record heap_ok (cs : list conn) (cur : option nat) (g : list qfunctor) (al : bool) : Prop := {
  h_cur : forall k, cur = Some k -> exists c, cs !! k = Some c /\ open c = true /\ k_close c = ToClient;
  h_open : forall k c, cs !! k = Some c -> open c = true -> k_close c = ToClient -> cur = Some k;
  h_life : forall k c, cs !! k = Some c -> open c = true \/ k_life c = shut_life;
  h_dest : forall k c, cs !! k = Some c -> cnt (QDestroyed k) g = closing c /\ (k_destroyed c = true -> open c = false);
  h_known : forall k, cnt (QDestroyed k) g <> 0%nat \/ cnt (QForceClose k) g <> 0%nat -> (k < length cs)%nat;
  h_client : al = true -> forall k c, cs !! k = Some c -> k_close c = ToClient;
}.

(** Only the connector's functors moved. *)
Lemma heap_frame cs cur g g' al :
  (forall f, f <> QConnector -> cnt f g' = cnt f g) -> heap_ok cs cur g al -> heap_ok cs cur g' al.
Proof.
  intros Hg [Hc Ho Hl Hd Hk Ha]. split; try done.
  - intros k c Hck. rewrite Hg by done. by apply Hd.
  - intros k. rewrite !Hg by done. apply Hk.
Qed.

Lemma heap_force cs cur g al k : (k < length cs)%nat -> heap_ok cs cur g al -> heap_ok cs cur (g ++ [QForceClose k]) al.
Proof.
  intros Hlt [Hc Ho Hl Hd Hk Ha]. split; try done.
  - intros k' c Hck. rewrite cnt_app, cnt_cons, cnt_nil, decide_False, Nat.add_0_r by done. by apply Hd.
  - intros k'. rewrite !cnt_app, !cnt_cons, !cnt_nil. rewrite (decide_False (P := QForceClose k = QDestroyed k')) by done.
    destruct (decide (QForceClose k = QForceClose k')) as [[= <-]|_]; [done|]. rewrite !Nat.add_0_r. apply Hk.
Qed.

Lemma heap_pop_force cs cur g al k : heap_ok cs cur (QForceClose k :: g) al -> (k < length cs)%nat /\ heap_ok cs cur g al.
Proof.
  intros [Hc Ho Hl Hd Hk Ha]. split; [apply Hk; right; by rewrite cnt_cons, decide_True|]. split; try done.
  intros k' H. apply Hk. rewrite !cnt_cons. destruct H; [left | right]; lia.
Qed.

Lemma insert_cases (cs : list conn) k x : (k < length cs)%nat -> forall k' c', <[k := x]> cs !! k' = Some c' ->
  k' = k /\ c' = x \/ k' <> k /\ cs !! k' = Some c'.
Proof.
  intros Hlt k' c'. destruct (decide (k' = k)) as [->|Hne]; [rewrite list_lookup_insert_eq by done; intros [= <-]; auto|].
  rewrite list_lookup_insert_ne by done. auto.
Qed.

(** A connection changes while it stays open. *)
Lemma heap_live cs cur g al k c l : cs !! k = Some c -> open c = true -> closable l = true ->
  heap_ok cs cur g al -> heap_ok (<[k := with_life c l]> cs) cur g al.
Proof.
  intros Hck Hop Hcl [Hc Ho Hl Hd Hk Ha]. assert (Hlt : (k < length cs)%nat) by (by eapply lookup_lt_Some).
  pose proof (insert_cases cs k (with_life c l) Hlt) as Hnew.
  split.
  - intros k' E. destruct (Hc k' E) as (c' & H1 & H2 & H3). destruct (decide (k' = k)) as [->|Hne].
    + exists (with_life c l). rewrite list_lookup_insert_eq by done. split_and!; [done | done|]. cbn. congruence.
    + exists c'. by rewrite list_lookup_insert_ne.
  - intros k' c' [[-> ->]|[_ H]]%Hnew; [|by apply Ho]. intros _ Ht. by apply (Ho k c).
  - intros k' c' [[-> ->]|[_ H]]%Hnew; [by left | by eapply Hl].
  - intros k' c' [[-> ->]|[_ H]]%Hnew; [|by apply Hd]. destruct (Hd k c Hck) as [H1 H2]. unfold closing in *. unfold open in *. cbn. rewrite Hop in *.
    rewrite Hcl. split; [done|]. intros H. by apply H2 in H.
  - intros k'. rewrite length_insert. apply Hk.
  - intros Hal k' c' [[-> ->]|[_ H]]%Hnew; [by apply (Ha Hal k c) | by eapply Ha].
Qed.

(** A connection is closed: it is no longer current, and its end is queued. *)
Lemma heap_close cs cur g al k c : cs !! k = Some c -> open c = true -> heap_ok cs cur g al ->
  heap_ok (<[k := with_life c shut_life]> cs) (if decide (k_close c = ToClient) then None else cur) (g ++ [QDestroyed k]) al.
Proof.
  intros Hck Hop [Hc Ho Hl Hd Hk Ha]. assert (Hlt : (k < length cs)%nat) by (by eapply lookup_lt_Some).
  pose proof (insert_cases cs k (with_life c shut_life) Hlt) as Hnew. split.
  - intros k' E. destruct (decide (k_close c = ToClient)) as [|Hcb]; [done|]. destruct (Hc k' E) as (c' & H1 & H2 & H3).
    assert (k' <> k) by (intros ->; congruence). exists c'. by rewrite list_lookup_insert_ne.
  - intros k' c' [[-> ->]|[Hne H]]%Hnew Ho' Hcb'; [done|]. pose proof (Ho k' c' H Ho' Hcb') as E. case_decide as Hcb; [|done].
    pose proof (Ho k c Hck Hop Hcb). congruence.
  - intros k' c' [[-> ->]|[_ H]]%Hnew; [by right | by eapply Hl].
  - intros k' c' Hk'. rewrite cnt_app, cnt_cons, cnt_nil. apply Hnew in Hk' as [[-> ->]|[Hne H]].
    + rewrite decide_True by done. destruct (Hd k c Hck) as [H1 H2]. rewrite H1. unfold closing. rewrite Hop. cbn. split; [|done].
      destruct (k_destroyed c); [by rewrite H2 in Hop | done].
    + rewrite decide_False, Nat.add_0_r by congruence. by apply Hd.
  - intros k'. rewrite length_insert, !cnt_app, !cnt_cons, !cnt_nil. rewrite (decide_False (P := QDestroyed k = QForceClose k')) by done.
    destruct (decide (QDestroyed k = QDestroyed k')) as [[= <-]|_]; [done|]. rewrite !Nat.add_0_r. apply Hk.
  - intros Hal k' c' [[-> ->]|[_ H]]%Hnew; [by apply (Ha Hal k c) | by eapply Ha].
Qed.

(** [connectDestroyed] runs on a connection that is closed. *)
Lemma heap_destroyed cs cur g al k : heap_ok cs cur (QDestroyed k :: g) al ->
  exists c, cs !! k = Some c /\ k_life c = shut_life /\ k_destroyed c = false /\
    heap_ok (<[k := mkConn (k_fd c) shut_life (k_close c) true]> cs) cur g al.
Proof.
  intros [Hc Ho Hl Hd Hk Ha]. assert (Hlt : (k < length cs)%nat) by (apply Hk; left; by rewrite cnt_cons, decide_True).
  destruct (lookup_lt_is_Some_2 cs k Hlt) as [c Hck]. destruct (Hd k c Hck) as [H1 H2]. rewrite cnt_cons, decide_True in H1 by done.
  unfold closing in H1. destruct (open c) eqn:Eo; [done|]. destruct (k_destroyed c) eqn:Ed; [done|].
  destruct (Hl k c Hck) as [?|Hs]; [congruence|]. exists c. split_and!; [done..|].
  pose proof (insert_cases cs k (mkConn (k_fd c) shut_life (k_close c) true) Hlt) as Hnew. split.
  - intros k' E. destruct (Hc k' E) as (c' & H3 & H4 & H5). assert (k' <> k) by (intros ->; congruence). exists c'. by rewrite list_lookup_insert_ne.
  - intros k' c' [[-> ->]|[Hne H]]%Hnew; [done | by apply Ho].
  - intros k' c' [[-> ->]|[_ H]]%Hnew; [by right | by eapply Hl].
  - intros k' c' Hk'. apply Hnew in Hk' as [[-> ->]|[Hne H]]; [split; [|done]; change (cnt (QDestroyed k) g = 0%nat); lia|].
    destruct (Hd k' c' H) as [H3 H4]. by rewrite cnt_cons, decide_False in H3 by congruence.
  - intros k' H. rewrite length_insert. apply Hk. rewrite !cnt_cons. destruct H; [left | right]; lia.
  - intros Hal k' c' [[-> ->]|[_ H]]%Hnew; [by apply (Ha Hal k c) | by eapply Ha].
Qed.

Lemma heap_new cs g al c : open c = true -> k_close c = ToClient -> k_destroyed c = false -> heap_ok cs None g al ->
  heap_ok (cs ++ [c]) (Some (length cs)) g al.
Proof.
  intros Hop Hcb Hde [Hc Ho Hl Hd Hk Ha].
  assert (Hnew : forall k' c', (cs ++ [c]) !! k' = Some c' -> k' = length cs /\ c' = c \/ cs !! k' = Some c').
  { intros k' c' [?|[? H]]%lookup_app_Some; [by right|]. left. destruct (k' - length cs)%nat as [|m] eqn:E; [|done]. cbn in H. split; [lia | congruence]. }
  split.
  - intros k [= <-]. exists c. split_and!; [|done..]. by rewrite list_lookup_middle.
  - intros k' c' [[-> ->]|H]%Hnew; [done|]. intros H1 H2. by pose proof (Ho k' c' H H1 H2).
  - intros k' c' [[-> ->]|H]%Hnew; [by left | by eapply Hl].
  - intros k' c' [[-> ->]|H]%Hnew; [|by apply Hd]. unfold closing. rewrite Hop, Hde. split; [|done].
    destruct (cnt (QDestroyed (length cs)) g) eqn:E; [done|]. assert (length cs < length cs)%nat by (apply Hk; left; lia). lia.
  - intros k' H. rewrite length_app. apply Hk in H. cbn. lia.
  - intros Hal k' c' [[-> ->]|H]%Hnew; [done | by eapply Ha].
Qed.

(** The destructor of the client gives the connection another close callback. *)
Lemma heap_detail cs cur g al k c : cs !! k = Some c -> heap_ok cs cur g al -> cur = Some k ->
  heap_ok (<[k := mkConn (k_fd c) (k_life c) ToDetail (k_destroyed c)]> cs) None g false.
Proof.
  intros Hck [Hc Ho Hl Hd Hk Ha] Hcur. assert (Hlt : (k < length cs)%nat) by (by eapply lookup_lt_Some).
  pose proof (insert_cases cs k (mkConn (k_fd c) (k_life c) ToDetail (k_destroyed c)) Hlt) as Hnew. split; try done.
  - intros k' c' [[-> ->]|[Hne H]]%Hnew; [done|]. intros H1 H2. pose proof (Ho k' c' H H1 H2). congruence.
  - intros k' c' [[-> ->]|[_ H]]%Hnew; [by apply (Hl k c) | by eapply Hl].
  - intros k' c' [[-> ->]|[Hne H]]%Hnew; [by apply (Hd k c) | by apply Hd].
  - intros k'. rewrite length_insert. apply Hk.
Qed.

Lemma heap_gone cs g al : heap_ok cs None g al -> heap_ok cs None g false.
Proof. by intros [? ? ? ? ? _]. Qed.
