(* ===== verification/TcpClientSafe.v ===== *)
(** * The steps of the client

    The invariant of the client with its connector, loop and connections, its
    preservation by every step, and the safety theorem. *)
From S2P Require Import Prelude Channel TcpConnection TcpServer Connector TcpClient TcpClientProps.

Definition active_ok (p : phase) (al : bool) (c : Connector) (cs : list conn) : Prop :=
  match p with
  | Active l => NoDup l /\ (SConnector ∈ l -> al = true /\ state_ c = kConnecting) /\
      (forall k, SConn k ∈ l -> exists x, cs !! k = Some x /\ open x = true)
  | _ => True
  end.

Record tinv (s : TcpClient) : Prop := {
  t_connector : cinv false (connector_ s);
  t_order : order_ok (at_phase s) (pending s) (functors (connector_ s)) (connection_ s);
  t_heap : heap_ok (conns s) (connection_ s) (todo (at_phase s) (pending s)) (alive s);
  t_fds : handed (connector_ s) = k_fd <$> conns s;
  t_next : nextConnId_ s = 1 + zlen (conns s);
  t_state : connection_ s <> None -> state_ (connector_ s) = kConnected;
  t_active : active_ok (at_phase s) (connector_alive s) (connector_ s) (conns s);
  t_alive : alive s = true -> connector_alive s = true;
  t_gone : alive s = false -> connection_ s = None /\
    if connector_alive s then Connector.connect_ (connector_ s) = false
    else functors (connector_ s) = [] /\ state_ (connector_ s) = kConnected;
  t_want : alive s = true -> started (connector_ s) = true -> connect_ s = true -> Connector.connect_ (connector_ s) = true;
  t_lost : alive s = true -> state_ (connector_ s) = kConnected -> Connector.connect_ (connector_ s) = true -> lost s = false ->
    connection_ s <> None;
}.

(** The connector moved from [c0] to [c] and queued [new]. *)
Lemma tinv_put s c0 c new :
  functors c = functors c0 ++ new -> connection_ s = None \/ FResetChannel ∉ new ->
  order_ok (at_phase s) (pending s) (functors c0) (connection_ s) ->
  heap_ok (conns s) (connection_ s) (todo (at_phase s) (pending s)) (alive s) ->
  cinv false c -> handed c = k_fd <$> conns s -> nextConnId_ s = 1 + zlen (conns s) ->
  (connection_ s <> None -> state_ c = kConnected) -> active_ok (at_phase s) (connector_alive s) c (conns s) ->
  (alive s = true -> connector_alive s = true) ->
  (alive s = false -> connection_ s = None /\
    if connector_alive s then Connector.connect_ c = false else functors c = [] /\ state_ c = kConnected) ->
  (alive s = true -> started c = true -> connect_ s = true -> Connector.connect_ c = true) ->
  (alive s = true -> state_ c = kConnected -> Connector.connect_ c = true -> lost s = false -> connection_ s <> None) ->
  tinv (put_connector s c0 c).
Proof.
  intros Hf Hnew Hor Hh Hc Hfd Hn Hs Ha Hal Hg Hw Hl. unfold put_connector. rewrite Hf, length_app.
  replace (length (functors c0) + length new - length (functors c0))%nat with (length new) by lia.
  split; cbn; try done.
  - rewrite Hf. by apply order_push_tokens.
  - eapply heap_frame, Hh. intros f Hne. rewrite todo_app, cnt_app, cnt_replicate, decide_False by congruence. lia.
Qed.

Lemma connected_no_trigger c : cinv false c -> state_ c = kConnected -> triggers c = 0%nat.
Proof.
  intros Hc Hs. pose proof (k_trig _ _ Hc). destruct (decide (triggers c = 1%nat)) as [E|E]; [|lia].
  apply (k_idle _ _ Hc) in E. congruence.
Qed.

Lemma not_started_none s : tinv s -> started (connector_ s) = false ->
  state_ (connector_ s) = kDisconnected /\ connection_ s = None.
Proof.
  intros Ht Hs. destruct (k_new _ _ (t_connector _ Ht) Hs) as (_ & Hst & _). split; [done|].
  destruct (connection_ s) eqn:E; [|done]. pose proof (t_state _ Ht ltac:(by rewrite E)). congruence.
Qed.

(** ** Calls of the user *)
Lemma connect_tinv s inLoop errno : tinv s -> alive s = true -> started (connector_ s) = false ->
  exists s', TcpClient.connect s inLoop errno = Ok s' /\ tinv s' /\ conns s' = conns s.
Proof.
  intros Ht Hal Hst. destruct (not_started_none s Ht Hst) as [Hd Hnone]. unfold TcpClient.connect. cbn [connector_ set_connect].
  destruct (cexec_spec (connector_ s) (LStart inLoop errno) (start (connector_ s) inLoop errno)) as (c & Hc & Hcinv);
    [apply Ht | by cbn; rewrite Hst | done|]. rewrite Hc. cbn [mbind res_bind]. eexists. split; [done|]. split; [|done].
  assert (Hmove : exists new, functors c = functors (connector_ s) ++ new /\ handed c = handed (connector_ s) /\
    Connector.connect_ c = true /\ state_ c <> kConnected).
  { unfold start in Hc. destruct inLoop.
    - destruct (grows_startInLoop _ _ _ Hc) as ([_ _ Hco] & Hf & Hh & Hsc); [done|]. exists []. rewrite app_nil_r. split_and!; done.
    - injection Hc as <-. eexists. split_and!; try done. cbn. congruence. }
  destruct Hmove as (new & Hf & Hh & Hco & Hsc). apply (tinv_put _ _ _ new); cbn; try done; try apply Ht; try by left.
  - by rewrite Hh; apply Ht.
  - pose proof (t_active _ Ht) as Ha. unfold active_ok in *. destruct (at_phase s); try done. destruct Ha as (H1 & H2 & H3).
    split_and!; [done | |done]. intros H. destruct (H2 H). congruence.
  - congruence.
Qed.

Lemma stop_tinv s : tinv s -> alive s = true -> tinv (TcpClient.stop s).
Proof.
  intros Ht Hal. unfold TcpClient.stop. apply (tinv_put _ _ _ [FStopInLoop]); cbn; try done; try apply Ht.
  - right. set_solver.
  - destruct (cexec_spec (connector_ s) Connector.LStop (Ok (Connector.stop (connector_ s)))) as (c & [= <-] & Hc); [apply Ht | done | done | done].
  - congruence.
Qed.

(** Changes of the client that concern neither loop nor connector. *)
Lemma active_conns p al c cs k x x' : cs !! k = Some x -> open x = true -> open x' = true ->
  active_ok p al c cs -> active_ok p al c (<[k := x']> cs).
Proof.
  intros Hk Ho Ho'. unfold active_ok. destruct p; try done. intros (H1 & H2 & H3). split_and!; [done | done|].
  intros k' Hin. destruct (H3 k' Hin) as (y & Hy & Hoy). destruct (decide (k' = k)) as [->|Hne].
  - exists x'. split; [|done]. apply list_lookup_insert_eq. by eapply lookup_lt_Some.
  - exists y. by rewrite list_lookup_insert_ne.
Qed.

Lemma tinv_live s k c l : tinv s -> conns s !! k = Some c -> open c = true -> closable l = true -> tinv (put_conn s k (with_life c l)).
Proof.
  intros [H1 H2 H3 H4 H5 H6 H7 H8 H9 H10 H11] Hk Ho Hl. split; cbn; try done.
  - by apply heap_live.
  - rewrite list_fmap_insert. cbn. rewrite list_insert_id; [done|]. by rewrite list_lookup_fmap, Hk.
  - unfold zlen. by rewrite length_insert.
  - by eapply active_conns.
Qed.

Lemma user_live u l : closable l = true -> closable (life_user u l) = true.
Proof. unfold closable, life_user. destruct (l_state l) eqn:E; cbn; rewrite ?E; try done. by destruct u as [[] ?]. Qed.
Lemma user_shut u l : l = shut_life -> m_interest u = false -> life_user u l = l.
Proof. intros -> E. unfold life_user. cbn. by rewrite E. Qed.

Lemma move_tinv s k c u : tinv s -> conns s !! k = Some c -> closable (k_life c) || negb (m_interest u) = true ->
  tinv (put_conn s k (with_life c (life_user u (k_life c)))).
Proof.
  intros Ht Hk Hu. destruct (h_life _ _ _ _ (t_heap _ Ht) k c Hk) as [Ho|Hs].
  - apply tinv_live; [done..|]. by apply user_live.
  - rewrite user_shut; [|done | rewrite Hs in Hu; by apply negb_true_iff in Hu].
    replace (with_life c (k_life c)) with c by (by destruct c). unfold put_conn. rewrite list_insert_id by done. by destruct s.
Qed.

Lemma set_connect_tinv s : tinv s -> tinv (set_connect s false).
Proof. by intros [H1 H2 H3 H4 H5 H6 H7 H8 H9 H10 H11]. Qed.

(** [shutdown] is one of the moves of a user. *)
Lemma shutdown_move l : life_shutdown l = life_user (mkMove true (l_interest l)) l.
Proof. unfold life_shutdown, life_user. destruct (l_state l) eqn:E; try done; destruct l; cbn in *; congruence. Qed.

Lemma disconnect_tinv s : tinv s -> tinv (disconnect s).
Proof.
  intros Ht%set_connect_tinv. unfold disconnect. destruct (connection_ (set_connect s false)) as [k|]; [|done].
  destruct (conns (set_connect s false) !! k) as [c|] eqn:E; [|done]. rewrite shutdown_move. apply move_tinv; [done | done|].
  destruct (h_life _ _ _ _ (t_heap _ Ht) k c E) as [Ho|Hs]; [by unfold open in Ho; rewrite Ho | by rewrite Hs].
Qed.

Lemma enableRetry_tinv s : tinv s -> tinv (enableRetry s).
Proof. by intros [H1 H2 H3 H4 H5 H6 H7 H8 H9 H10 H11]. Qed.

Lemma queue_tinv s f : tinv s -> f <> QConnector ->
  heap_ok (conns s) (connection_ s) (todo (at_phase s) (pending s) ++ [f]) (alive s) -> tinv (queueInLoop s f).
Proof.
  intros [H1 H2 H3 H4 H5 H6 H7 H8 H9 H10 H11] Hf Hh. split; cbn; try done; [by apply order_push | by rewrite todo_app].
Qed.

Lemma forceClose_tinv s k c : tinv s -> conns s !! k = Some c -> exists s', forceClose s k = Ok s' /\ tinv s' /\ length (conns s') = length (conns s).
Proof.
  intros Ht Hk. unfold forceClose, get_conn. rewrite Hk. cbn [mbind res_bind]. destruct (closable (k_life c)) eqn:Ho; [|by exists s].
  eexists. split; [done|]. split; [|cbn; by rewrite length_insert]. assert (Hl : tinv (put_conn s k (with_life c (mkLife kDisconnecting (l_interest (k_life c)))))) by (by apply tinv_live).
  apply queue_tinv; [done | done|]. apply heap_force, Hl. cbn. rewrite length_insert. by eapply lookup_lt_Some.
Qed.

(** ** The destructor *)
Lemma connected_channel c : cinv false c -> state_ c = kConnected -> resets c = 0%nat -> channel_ c = None.
Proof.
  intros Hc Hs Hr. pose proof (k_chan _ _ Hc) as H. rewrite decide_False in H by congruence.
  destruct H as [[? _]|(ch & _ & _ & ?)]; [done | congruence].
Qed.

Lemma detail_tinv s k c : tinv s -> connection_ s = Some k -> conns s !! k = Some c -> functors (connector_ s) = [] ->
  tinv (destroyed (put_conn s k (mkConn (k_fd c) (k_life c) ToDetail (k_destroyed c))) false).
Proof.
  intros [H1 H2 H3 H4 H5 H6 H7 H8 H9 H10 H11] Hcur Hk Hf. specialize (H6 ltac:(by rewrite Hcur)). split; cbn; try done.
  - by eapply order_none.
  - by eapply heap_detail.
  - rewrite list_fmap_insert. cbn. rewrite list_insert_id; [done|]. by rewrite list_lookup_fmap, Hk.
  - unfold zlen. by rewrite length_insert.
  - assert (Ho : open c = true) by (destruct (h_cur _ _ _ _ H3 k Hcur) as (c' & ? & ? & _); congruence).
    apply (active_conns _ _ _ _ _ c); [done.. |]. unfold active_ok in *. destruct (at_phase s); try done. destruct H7 as (N1 & N2 & N3).
    split_and!; [done | |done]. intros H. destruct (N2 H). congruence.
Qed.

Lemma dtor_tinv s held : tinv s -> alive s = true -> functors (connector_ s) = [] ->
  exists s', TcpClient_dtor s held = Ok s' /\ tinv s' /\ length (conns s') = length (conns s).
Proof.
  intros Ht Hal Hf. unfold TcpClient_dtor. destruct (connection_ s) as [k|] eqn:Hcur.
  - destruct (h_cur _ _ _ _ (t_heap _ Ht) k Hcur) as (c & Hk & Ho & _). unfold get_conn. rewrite Hk. cbn [mbind res_bind].
    pose proof (detail_tinv s k c Ht Hcur Hk Hf) as Hd. set (s1 := put_conn s k _) in *.
    assert (Hch : channel_ (connector_ s) = None).
    { apply connected_channel; [apply Ht | apply (t_state _ Ht); by rewrite Hcur|]. unfold resets. by rewrite Hf. }
    destruct held; cbn [mbind res_bind].
    + unfold Connector_dtor. change (connector_ s1) with (connector_ s). rewrite Hch. cbn. eexists. split_and!; [done | done|]. cbn. by rewrite length_insert.
    + set (c1 := mkConn (k_fd c) (k_life c) ToDetail (k_destroyed c)) in *.
      assert (Hk1 : conns s1 !! k = Some c1) by (apply list_lookup_insert_eq; by eapply lookup_lt_Some).
      destruct (forceClose_tinv (destroyed s1 false) k c1 Hd Hk1) as (s2 & H2 & Ht2 & Hl2). unfold forceClose, get_conn in *.
      change (conns (destroyed s1 false)) with (conns s1) in H2. rewrite Hk1 in *. cbn [mbind res_bind] in *.
      destruct (closable (k_life c1)); cbn [mbind res_bind]; unfold Connector_dtor; cbn [connector_ queueInLoop set_pending put_conn set_conns];
        change (connector_ s1) with (connector_ s); rewrite Hch; cbn; injection H2 as <-; (eexists; split_and!; [reflexivity | exact Ht2|]);
        (etransitivity; [exact Hl2|]; cbn; by rewrite length_insert).
  - eexists. split; [done|]. split; [|done].
    change (tinv (put_connector (destroyed s true) (connector_ s) (Connector.stop (connector_ s)))).
    destruct (cexec_spec (connector_ s) Connector.LStop (Ok (Connector.stop (connector_ s)))) as (c & [= <-] & Hc); [apply Ht | done | done|].
    apply (tinv_put _ _ _ [FStopInLoop]); cbn; try done; try apply Ht; try by left.
    + eapply order_none, Ht.
    + pose proof (t_heap _ Ht) as Hh. rewrite Hcur in Hh. by eapply heap_gone.
    + rewrite <- (t_alive _ Ht Hal). apply Ht.
Qed.

(** ** The end of a connection *)
Definition not_polled (p : phase) (k : nat) : Prop := match p with Active l => SConn k ∉ l | _ => True end.

Lemma active_closed p al c cs k x : not_polled p k -> active_ok p al c cs -> active_ok p al c (<[k := x]> cs).
Proof.
  unfold active_ok, not_polled. destruct p as [|l|]; try done. intros Hn (H1 & H2 & H3). split_and!; [done | done|].
  intros k' Hin. destruct (H3 k' Hin) as (y & Hy & Hoy). exists y. rewrite list_lookup_insert_ne; [done|]. congruence.
Qed.

Lemma closed_tinv s k c : tinv s -> conns s !! k = Some c -> open c = true -> not_polled (at_phase s) k ->
  let cur := if decide (k_close c = ToClient) then None else connection_ s in
  tinv (set_lost (queueInLoop (set_connection (put_conn s k (with_life c shut_life)) cur) (QDestroyed k)) true).
Proof.
  intros [H1 H2 H3 H4 H5 H6 H7 H8 H9 H10 H11] Hk Ho Hp cur. split; cbn; try done.
  - apply order_push; [done|]. subst cur. case_decide; [by eapply order_none | done].
  - rewrite todo_app. by apply heap_close.
  - rewrite list_fmap_insert. cbn. rewrite list_insert_id; [done|]. by rewrite list_lookup_fmap, Hk.
  - unfold zlen. by rewrite length_insert.
  - subst cur. by case_decide.
  - by apply active_closed.
  - intros Hal. destruct (H9 Hal) as [E ?]. split; [|done]. subst cur. rewrite E. by case_decide.
Qed.

Lemma handleClose_tinv s k c errno : tinv s -> conns s !! k = Some c -> open c = true -> not_polled (at_phase s) k ->
  (connection_ s = Some k -> FResetChannel ∉ functors (connector_ s)) ->
  exists s', handleClose s k errno = Ok s' /\ tinv s' /\ length (conns s') = length (conns s).
Proof.
  intros Ht Hk Ho Hp Hr. pose proof (closed_tinv s k c Ht Hk Ho Hp) as Hcl. unfold handleClose, get_conn. rewrite Hk. cbn [mbind res_bind].
  replace (life_closed (k_life c)) with (Ok (A := life) shut_life) by (unfold life_closed; unfold open, closable in Ho; by rewrite Ho).
  cbn [mbind res_bind]. destruct (k_close c) eqn:Ecb; cycle 1.
  { rewrite decide_False in Hcl by done. eexists. split; [done|]. split; [|cbn; by rewrite length_insert].
    destruct (alive s) eqn:Hal; [|by destruct Hcl as [H1 H2 H3 H4 H5 H6 H7 H8 H9 H10 H11]; cbn in *; rewrite ?Hal in *; split; cbn; rewrite ?Hal in *].
    pose proof (h_client _ _ _ _ (t_heap _ Ht) Hal k c Hk). congruence. }
  rewrite decide_True in Hcl by done.
  assert (Hcur : connection_ s = Some k) by (by apply (h_open _ _ _ _ (t_heap _ Ht) k c)).
  assert (Hal : alive s = true) by (destruct (alive s) eqn:E; [done|]; destruct (t_gone _ Ht E); congruence).
  unfold removeConnection. cbn [alive connection_ put_conn set_conns]. rewrite Hal, Hcur, bool_decide_eq_true_2 by done.
  cbn [check assert_ mbind res_bind]. set (s1 := queueInLoop _ _) in *. change (retry_ s1) with (retry_ s). change (connect_ s1) with (connect_ s).
  change (connector_ s1) with (connector_ s).
  destruct (retry_ s && connect_ s) eqn:Ewant; [|eexists; split; [done|]; split; [exact Hcl | cbn; by rewrite length_insert]].
  destruct (cexec_spec (connector_ s) (LRestart errno) (restart (connector_ s) errno)) as (c' & Hc' & Hinv); [apply Ht | |done|].
  { cbn. rewrite bool_decide_eq_true_2 by (apply (t_state _ Ht); by rewrite Hcur). by rewrite bool_decide_eq_false_2 by auto. }
  rewrite Hc'. cbn [mbind res_bind]. eexists. split; [done|]. split; [|cbn; by rewrite length_insert].
  unfold restart in Hc'. destruct (grows_startInLoop _ _ _ Hc') as ([_ _ Hco] & Hf & Hh & Hsc); [done|]. cbn in Hf, Hh, Hco. pose proof (t_active _ Ht) as Hact.
  destruct Hcl as [H1 H2 H3 H4 H5 H6 H7 H8 H9 H10 H11].
  apply (tinv_put _ _ _ []); cbn in *; try done; [by rewrite app_nil_r | by left | by rewrite Hh| | congruence].
  unfold active_ok in *. destruct (at_phase s) as [|l|]; try done. destruct H7 as (N1 & N2 & N3). split_and!; [done| |done].
  intros Hin. destruct (N2 Hin) as [_ ?]. pose proof (t_state _ Ht ltac:(by rewrite Hcur)). congruence.
Qed.

(** ** Events of the connector *)
Lemma connecting_none s : tinv s -> state_ (connector_ s) <> kConnected -> connection_ s = None.
Proof. intros Ht Hs. destruct (connection_ s) eqn:E; [|done]. exfalso. apply Hs, (t_state _ Ht). by rewrite E. Qed.

Lemma moved_live u : closable (moved u) = true.
Proof. by destruct u as [[] ?]. Qed.

Lemma newConnection_tinv s l c fd u new : tinv s -> at_phase s = Active l -> SConnector ∉ l -> alive s = true ->
  connection_ s = None -> zlen (conns s) + 2 < 2 ^ 31 ->
  cinv false c -> functors c = functors (connector_ s) ++ new -> handed c = handed (connector_ s) ++ [fd] ->
  state_ c = kConnected -> Connector.connect_ c = true ->
  exists s', newConnection (put_connector s (connector_ s) c) fd u = Ok s' /\ tinv s' /\ length (conns s') = S (length (conns s)).
Proof.
  intros [H1 H2 H3 H4 H5 H6 H7 H8 H9 H10 H11] Hp Hnl Hal Hnone Hlen Hc Hf Hh Hst Hco. unfold newConnection, put_connector.
  rewrite Hf, length_app. replace (length (functors (connector_ s)) + length new - length (functors (connector_ s)))%nat with (length new) by lia.
  cbn [alive nextConnId_ set_pending set_connector]. rewrite Hal, H5. rewrite (proj2 (Z.ltb_lt _ _)) by lia. cbn [check mbind res_bind life_established life_ctor assert_].
  cbn. eexists. split; [reflexivity|]. cbn. rewrite Hp, Hnone in *. cbn in *.
  assert (Ei : <[length (conns s) := mkConn fd (moved u) ToClient false]> (conns s ++ [mkConn fd life_ctor ToClient false]) = conns s ++ [mkConn fd (moved u) ToClient false]).
  { rewrite <- (Nat.add_0_r (length (conns s))). by rewrite insert_app_r. }
  destruct H7 as (N1 & N2 & N3).
  assert (Hk : SConn (length (conns s)) ∉ l) by (intros (x & Hx%lookup_lt_Some & _)%N3; lia).
  unfold put_conn; cbn. rewrite Ei. split; [|rewrite length_app; cbn; lia]. split; cbn; try done.
  - rewrite Hp, Hf. apply order_new; [done| |by apply order_push_tokens; [|left]].
    rewrite cnt_app, cnt_replicate, decide_False, Nat.add_0_r by done. destruct (cnt (QForceClose (length (conns s))) (pending s)) eqn:E; [done|].
    assert (length (conns s) < length (conns s))%nat by (apply (h_known _ _ _ _ H3); right; lia). lia.
  - rewrite Hp. apply heap_new; [apply moved_live | done | done|]. eapply heap_frame, H3. intros f Hne. cbn. rewrite cnt_app, cnt_replicate, decide_False by congruence. lia.
  - by rewrite Hh, H4, fmap_app.
  - unfold zlen in *. rewrite length_app. cbn. lia.
  - rewrite Hp. split_and!; [done | done|]. intros k Hin. destruct (N3 k Hin) as (x & Hx & Hox). exists x. split; [|done]. by apply lookup_app_l_Some.
  - congruence.
Qed.

Lemma connector_event_tinv s l revents err self u : tinv s -> at_phase s = Active l -> SConnector ∉ l ->
  connector_alive s = true -> state_ (connector_ s) = kConnecting -> zlen (conns s) + 2 < 2 ^ 31 ->
  exists s', connector_event s revents err self u = Ok s' /\ tinv s' /\ (length (conns s') <= S (length (conns s)))%nat.
Proof.
  intros Ht Hp Hnl Hca Hst Hlen. pose proof (k_chan _ _ (t_connector _ Ht)) as Hch. rewrite decide_True in Hch by done. destruct Hch as (ch & Hch & _).
  unfold connector_event. rewrite Hca, Hch. cbn [check mbind res_bind].
  destruct (event_spec (connector_ s) ch revents err self (t_connector _ Ht) Hch Hst) as (c & Hev & Hc). rewrite Hev. cbn [mbind res_bind].
  destruct (handleEvent_grows _ _ _ _ _ _ Hch Hst Hev) as [[[new Hf] Hsd Hco] Hh]. pose proof (connecting_none s Ht ltac:(congruence)) as Hnone.
  destruct Hh as [[Hh Hsc]|(fd & Hh & Hcw & Hsc)]; rewrite Hh.
  - rewrite drop_ge by lia. eexists. split; [done|]. split; [|cbn; lia].
    apply (tinv_put _ _ _ new); try done; try apply Ht; try by left.
    + rewrite Hh. apply Ht.
    + pose proof (t_active _ Ht) as Ha. rewrite Hp in *. destruct Ha as (N1 & N2 & N3). by split_and!.
    + intros Hal. rewrite Hca, Hco. destruct (t_gone _ Ht Hal) as [? Hg]. by rewrite Hca in Hg.
    + rewrite Hsd, Hco. apply Ht.
    + intros _ Hs. rewrite Hco, Hsc by done. done.
  - rewrite drop_app_length. cbn [mbind]. destruct (newConnection_tinv s l c fd u new) as (s' & E & Ht' & Hl); try done.
    + destruct (alive s) eqn:Hal; [done|]. destruct (t_gone _ Ht Hal) as [_ Hg]. rewrite Hca in Hg. congruence.
    + congruence.
    + exists s'. split_and!; [done | done | lia].
Qed.

(** ** Functors and timers *)

(** What one functor of the connector does to it. *)
Lemma connector_functor_moves c f fs errno c' : cinv false c -> functors c = f :: fs ->
  match f with
  | FStartInLoop => startInLoop (set_functors c fs) errno
  | FStopInLoop => stopInLoop (set_functors c fs)
  | FResetChannel => resetChannel (set_functors c fs)
  end = Ok c' ->
  grows (set_functors c fs) c' /\ handed c' = handed c /\
  (state_ c = kConnected -> functors c' = fs) /\ (state_ c' = kConnected <-> state_ c = kConnected).
Proof.
  intros Hc Hf H. destruct f.
  - assert (Hst : state_ c = kDisconnected).
    { apply (k_idle _ _ Hc). pose proof (k_trig _ _ Hc) as Ht. unfold triggers in *. rewrite Hf in *. counts. }
    destruct (grows_startInLoop _ _ _ H) as (Hg & Hfs & Hh & Hs); [done|]. split_and!; try done. split; congruence.
  - destruct (grows_stopInLoop _ _ H) as (Hg & Hh & Hn & Hd). split_and!; try done.
    + intros Hs. by rewrite Hn by (cbn; congruence).
    + destruct (decide (state_ c = kConnecting)) as [E|E]; [rewrite Hd by done; split; congruence|]. by rewrite Hn.
  - destruct (grows_resetChannel _ _ H) as (Hg & Hfs & Hh & Hs). split_and!; try done. by rewrite Hs.
Qed.

Lemma connector_functor_tinv s l errno : tinv s -> at_phase s = Running (QConnector :: l) ->
  exists s', connector_functor (set_phase s (Running l)) errno = Ok s' /\ tinv s' /\ conns s' = conns s.
Proof.
  intros Ht Hp. pose proof Ht as [H1 H2 H3 H4 H5 H6 H7 H8 H9 H10 H11]. rewrite Hp in H2, H3. destruct (order_pop_token _ _ _ _ H2) as (f & fs & Hf & Hor).
  assert (Hca : connector_alive s = true) by (destruct (alive s) eqn:E; [by apply H8|]; destruct (H9 eq_refl) as [_ Hg]; destruct (connector_alive s); [done|]; destruct Hg; congruence).
  unfold connector_functor. cbn [connector_alive connector_ set_phase]. rewrite Hca, Hf. cbn [check mbind res_bind].
  destruct (cexec_functor (connector_ s) f fs errno H1 Hf) as (c & Hc & Hinv). rewrite Hc. cbn [mbind res_bind]. eexists. split; [done|]. split; [|done].
  destruct (connector_functor_moves _ _ _ _ _ H1 Hf Hc) as ([[new Hnew] Hsd Hco] & Hh & Hfs & Hst). cbn in Hnew, Hsd, Hco.
  apply (tinv_put _ _ _ new); cbn; try done.
  - destruct (connection_ s) eqn:E; [right | by left]. rewrite Hfs in Hnew by (by apply H6).
    assert (new = []) as -> by (apply (app_inv_head fs); by rewrite <- Hnew, app_nil_r). apply not_elem_of_nil.
  - eapply heap_frame, H3. intros f' Hne. cbn. by rewrite cnt_cons, decide_False by congruence.
  - by rewrite Hh.
  - intros E. by apply Hst, H6.
  - intros E. destruct (H9 E) as [? Hg]. rewrite Hca in *. split; [done|]. congruence.
  - rewrite Hsd, Hco. done.
  - rewrite Hst, Hco. done.
Qed.

Lemma connector_timer_tinv s l n errno : tinv s -> at_phase s = Active l -> timers (connector_ s) = S n ->
  FResetChannel ∉ functors (connector_ s) -> exists s', connector_timer s n errno = Ok s' /\ tinv s' /\ conns s' = conns s.
Proof.
  intros Ht Hp Htm Hr. pose proof Ht as [H1 H2 H3 H4 H5 H6 H7 H8 H9 H10 H11].
  assert (Hst : state_ (connector_ s) = kDisconnected).
  { apply (k_idle _ _ H1). pose proof (k_trig _ _ H1) as Htr. unfold triggers in *. lia. }
  destruct (cexec_spec (connector_ s) (Connector.LTimer errno) (startInLoop (set_timers (connector_ s) n) errno)) as (c & Hc & Hinv);
    [done | by cbn; rewrite bool_decide_eq_false_2 | by cbn; rewrite Htm|].
  unfold connector_timer. rewrite Hc. cbn [mbind res_bind]. eexists. split; [done|]. split; [|done].
  destruct (grows_startInLoop _ _ _ Hc) as ([_ Hsd Hco] & Hf & Hh & Hsc); [done|]. cbn in Hf, Hh, Hsd, Hco.
  pose proof (connecting_none s Ht ltac:(congruence)) as Hnone.
  apply (tinv_put _ _ _ []); cbn; try done; [by rewrite app_nil_r | by left | by rewrite Hh | | |by rewrite Hsd, Hco].
  - rewrite Hp in *. destruct H7 as (N1 & N2 & N3). split_and!; [done | |done]. intros Hin. destruct (N2 Hin). congruence.
  - intros E. destruct (H9 E) as [? Hg]. split; [done|]. destruct (connector_alive s); [congruence|]. destruct Hg; congruence.
Qed.

(** ** Every step *)
Lemma poll_tinv s l : tinv s -> at_phase s = Polling -> NoDup l -> forallb (pollable s) l = true -> tinv (set_phase s (Active l)).
Proof.
  intros [H1 H2 H3 H4 H5 H6 H7 H8 H9 H10 H11] Hp Hnd Hpo. rewrite Hp in *. rewrite forallb_forall in Hpo. split; cbn; try done.
  - by apply order_active.
  - split_and!; [done | |].
    + intros Hin%list_elem_of_In%Hpo. cbn in Hin. apply andb_true_iff in Hin as [? Hw]. split; [done|]. destruct (channel_ (connector_ s)) as [ch|] eqn:Ech; [|done].
      destruct (decide (state_ (connector_ s) = kConnecting)) as [|E]; [done|]. pose proof (k_chan _ _ H1) as Hch. rewrite decide_False in Hch by done.
      destruct Hch as [[? _]|(x & Hx & (He & _) & _)]; [congruence|]. rewrite Ech in Hx. injection Hx as <-. unfold isWriting in Hw. by rewrite He in Hw.
    + intros k Hin%list_elem_of_In%Hpo. cbn in Hin. destruct (conns s !! k) as [x|]; [|done]. by exists x.
Qed.

Lemma dispatched_tinv s x l : tinv s -> at_phase s = Active (x :: l) -> tinv (set_phase s (Active l)).
Proof.
  intros [H1 H2 H3 H4 H5 H6 H7 H8 H9 H10 H11] Hp. rewrite Hp in *. split; cbn; try done; [by eapply order_dispatched|].
  destruct H7 as (N1%NoDup_cons_1_2 & N2 & N3). split_and!; [done | intros; apply N2; by right | intros; apply N3; by right].
Qed.

Lemma popped_tinv s f l : tinv s -> at_phase s = Running (f :: l) -> f <> QConnector ->
  heap_ok (conns s) (connection_ s) (todo (Running l) (pending s)) (alive s) -> tinv (set_phase s (Running l)).
Proof.
  intros [H1 H2 H3 H4 H5 H6 H7 H8 H9 H10 H11] Hp Hf Hh. rewrite Hp in *. split; cbn; try done. by eapply order_pop.
Qed.

Lemma run_functor_tinv s f l errno : tinv s -> at_phase s = Running (f :: l) ->
  exists s', run_functor (set_phase s (Running l)) f errno = Ok s' /\ tinv s' /\ length (conns s') = length (conns s).
Proof.
  intros Ht Hp. pose proof (t_heap _ Ht) as Hh. rewrite Hp in Hh. destruct f as [|k|k]; cbn [run_functor].
  - destruct (connector_functor_tinv s l errno Ht Hp) as (s' & ? & ? & E). exists s'. by rewrite E.
  - destruct (heap_pop_force _ _ _ _ _ Hh) as [Hlt Hh']. pose proof (popped_tinv s _ l Ht Hp ltac:(done) Hh') as Ht'.
    destruct (lookup_lt_is_Some_2 (conns s) k Hlt) as [c Hk]. unfold forceCloseInLoop, get_conn. cbn [conns set_phase]. rewrite Hk. cbn [mbind res_bind].
    destruct (closable (k_life c)) eqn:Ho; [|by eexists]. apply (handleClose_tinv (set_phase s (Running l)) k c); [done | done | done | done|].
    intros Hcur. pose proof (or_force _ _ _ _ (t_order _ Ht) k [] (l ++ pending s) Hcur) as Hr. rewrite Hp in Hr. by specialize (Hr eq_refl).
  - destruct (heap_destroyed _ _ _ _ _ Hh) as (c & Hk & Hl & Hd & Hh'). unfold connectDestroyed, get_conn. cbn [conns set_phase]. rewrite Hk. cbn [mbind res_bind].
    rewrite Hd, Hl. cbn. eexists. split; [reflexivity|]. split; [|cbn; by rewrite length_insert].
    destruct Ht as [H1 H2 H3 H4 H5 H6 H7 H8 H9 H10 H11]. rewrite Hp in *. split; cbn; try done; [by apply (order_pop _ _ _ _ (QDestroyed k)) | |unfold zlen; by rewrite length_insert].
    rewrite list_fmap_insert. cbn. rewrite list_insert_id; [done|]. by rewrite list_lookup_fmap, Hk.
Qed.

Lemma exec_tinv s lb r : tinv s -> permitted s lb = true -> exec s lb = Some r -> zlen (conns s) + 2 < 2 ^ 31 ->
  exists s', r = Ok s' /\ tinv s' /\ (length (conns s') <= S (length (conns s)))%nat.
Proof.
  intros Ht Hp He Hlen.
  assert (Hsame : forall s', tinv s' -> conns s' = conns s -> exists s'', Ok s' = Ok s'' /\ tinv s'' /\ (length (conns s'') <= S (length (conns s)))%nat)
    by (intros s' ? E; exists s'; rewrite E; split_and!; [done | done | lia]).
  destruct lb as [inLoop errno| | | |k|k u|held|l|errno|revents err self errno u|errno]; cbn in Hp, He.
  - apply andb_true_iff in Hp as [Hal Hs]. destruct (connect_tinv s inLoop errno Ht Hal) as (s' & E & ? & ?); [by destruct (started _)|].
    injection He as <-. rewrite E. by apply Hsame.
  - injection He as <-. eexists. split; [done|]. split; [by apply disconnect_tinv|]. unfold disconnect. cbn.
    destruct (connection_ s); [destruct (conns s !! _); cbn; rewrite ?length_insert|]; cbn; lia.
  - injection He as <-. apply Hsame; [by apply stop_tinv | done].
  - injection He as <-. apply Hsame; [by apply enableRetry_tinv | done].
  - destruct (conns s !! k) as [c|] eqn:Hk; [|done]. injection He as <-. destruct (forceClose_tinv s k c Ht Hk) as (s' & -> & ? & ?).
    exists s'. split_and!; [done | done | lia].
  - destruct (conns s !! k) as [c|] eqn:Hk; [|done]. rewrite ?Hk in Hp. injection He as <-. eexists. split_and!; [done | by apply move_tinv|]. cbn. rewrite length_insert. lia.
  - apply andb_true_iff in Hp as [Hal Hf]. injection He as <-. destruct (dtor_tinv s held Ht Hal) as (s' & -> & ? & ?); [by destruct (functors _)|].
    exists s'. split_and!; [done | done | lia].
  - destruct (at_phase s) eqn:Ep; try done. case_match eqn:Eb; [|done]. injection He as <-. apply andb_true_iff in Eb as [Hnd Hpo].
    apply Hsame; [|done]. apply poll_tinv; [done | done | by apply bool_decide_eq_true in Hnd | done].
  - destruct (at_phase s) as [|l|] eqn:Ep; try done. destruct (timers (connector_ s)) as [|n] eqn:En; [done|].
    case_bool_decide as Hr; [done|]. injection He as <-. destruct (connector_timer_tinv s l n errno Ht Ep En Hr) as (s' & -> & ? & ?). by apply Hsame.
  - destruct (at_phase s) as [|[|x l]|] eqn:Ep; try done; injection He as <-.
    + apply Hsame; [|done]. destruct Ht as [H1 H2 H3 H4 H5 H6 H7 H8 H9 H10 H11]. rewrite Ep in *. split; cbn; try done; [by apply order_swap | by rewrite app_nil_r].
    + pose proof (dispatched_tinv s x l Ht Ep) as Ht'. pose proof (t_active _ Ht) as Hact. rewrite Ep in Hact. destruct Hact as ([Nx N1]%NoDup_cons & N2 & N3).
      destruct x as [|k].
      * destruct (N2 ltac:(by left)) as [Hca Hst]. by apply (connector_event_tinv (set_phase s (Active l)) l).
      * destruct (N3 k ltac:(by left)) as (c & Hk & Ho). destruct (handleClose_tinv (set_phase s (Active l)) k c errno) as (s' & -> & ? & Hl); try done.
        { intros Hcur. pose proof (or_reset _ _ _ _ (t_order _ Ht) k Hcur) as Hr. rewrite Ep in Hr. apply Hr. by left. }
        exists s'. cbn in Hl. split_and!; [done | done | lia].
  - destruct (at_phase s) as [| |[|f q]] eqn:Ep; try done; injection He as <-.
    + apply Hsame; [|done]. destruct Ht as [H1 H2 H3 H4 H5 H6 H7 H8 H9 H10 H11]. rewrite Ep in *. split; cbn; try done. by apply order_polling.
    + destruct (run_functor_tinv s f q errno Ht Ep) as (s' & -> & ? & ?). exists s'. split_and!; [done | done | lia].
Qed.

Lemma ctor_tinv : tinv TcpClient_ctor.
Proof. split; cbn; try done; [apply cinv_ctor|]. split; try done. intros k [H|H]; by destruct H. Qed.

Lemma runs_tinv s ls r : tinv s -> runs s ls = Some r -> zlen (conns s) + zlen ls + 2 < 2 ^ 31 -> exists s', r = Ok s' /\ tinv s'.
Proof.
  revert s. induction ls as [|lb ls IH]; intros s Ht H Hlen; cbn in H; [injection H as <-; eauto|].
  destruct (permitted s lb) eqn:Ep; [|done]. destruct (exec s lb) as [r'|] eqn:Ee; [|done]. unfold zlen in *. cbn [length] in Hlen.
  destruct (exec_tinv s lb r' Ht Ep Ee) as (s' & -> & Ht' & Hl); [unfold zlen; lia|]. apply (IH s'); [done | done | lia].
Qed.


(** ** Examples *)
Module Example.
(** A connection is made, lost and made again; then the client is destroyed. *)
Definition again : list label :=
  LEnableRetry :: connected ++
  [LPoll [SConn 0]; LDispatch 0 0 false EINPROGRESS quiet_user; LDispatch 0 0 false 0 quiet_user; LRun 0; LRun 0;
   LPoll [SConnector]; LDispatch POLLOUT 0 false 0 quiet_user; LDispatch 0 0 false 0 quiet_user; LRun 0; LRun 0;
   LDestroy false; LPoll []; LDispatch 0 0 false 0 quiet_user; LRun 0].
Definition cforce (r : option (res TcpClient)) : TcpClient := match r with Some (Ok s) => s | _ => TcpClient_ctor end.
Definition again_end : TcpClient := Eval vm_compute in cforce (runs TcpClient_ctor again).


(** A client that was disconnected cannot connect again: the connector is
    still in state [kConnected] and its assertion fails. *)
Example connect_again_asserts :
  free_runs TcpClient_ctor (connected ++ [LDisconnect; LPoll [SConn 0]; LDispatch 0 0 false 0 quiet_user; LDispatch 0 0 false 0 quiet_user;
    LRun 0; LRun 0; LConnect true EINPROGRESS]) = Some (Fail FAssert).
Proof. vm_compute. reflexivity. Qed.

(** [disconnect] during the attempt does not reach the connector: the
    connection is made all the same. *)
Example disconnect_ignored :
  connection_ (cforce (runs TcpClient_ctor [LConnect true EINPROGRESS; LDisconnect; LPoll [SConnector]; LDispatch POLLOUT 0 false 0 quiet_user])) = Some 0%nat.
Proof. vm_compute. reflexivity. Qed.

(** A user that starts to read from a connection that was just closed: its
    channel is not to be removed. *)
Example client_startRead_after_close :
  free_runs TcpClient_ctor (connected ++ [LPoll [SConn 0]; LDispatch 0 0 false 0 quiet_user; LMove 0 (mkMove false true);
    LDispatch 0 0 false 0 quiet_user; LRun 0]) = Some (Fail FAssert).
Proof. vm_compute. reflexivity. Qed.

(** A client destroyed by its connection callback, in the iteration that made
    the connection: the connector still has its channel. *)
Example destroyed_in_callback :
  free_runs TcpClient_ctor [LConnect true EINPROGRESS; LPoll [SConnector]; LDispatch POLLOUT 0 false 0 quiet_user; LDestroy false] = Some (Fail FAssert).
Proof. vm_compute. reflexivity. Qed.
End Example.
