(* ===== verification/TcpServerProps.v ===== *)
(** * Correctness of [muduo::net::TcpServer]

    The invariant that ties together the map of connections, the objects it
    points to and the functors in flight between the loops, for every
    interleaving of the threads. *)
From S2P Require Import Prelude StringPiece LogStream LogStreamProps Channel TcpConnection TcpServer.

(** ** Connection names *)
Definition suffix (ipPort : bytes) (id : Z) : bytes := Byte.x2d :: ipPort ++ Byte.x23 :: decimal id.

(** An address of at most 51 characters leaves room for every [int]: the name
    is never cut off. *)
Lemma suffix_fits ipPort id : zlen ipPort <= 51 -> 0 < id < 2 ^ 31 -> zlen (suffix ipPort id) <= 63.
Proof.
  intros Hip Hid. unfold suffix. rewrite zlen_cons, zlen_app, zlen_cons.
  cut (zlen (decimal id) <= 10); [lia|]. unfold decimal.
  rewrite (proj2 (Z.ltb_ge id 0)) by lia. apply (radix_zlen 10 dec_chr); lia.
Qed.

Lemma suffix_nul_free ipPort id : nul_free ipPort -> 0 < id -> nul_free (suffix ipPort id).
Proof.
  intros Hip Hid. unfold suffix, decimal. rewrite (proj2 (Z.ltb_ge id 0)) by lia. cbn [app].
  pose proof (radix_nul_free digit_fuel (Z.abs id) ltac:(lia)) as Hr. unfold nul_free in *.
  rewrite not_elem_of_cons, not_elem_of_app, not_elem_of_cons. done.
Qed.

Lemma conn_name_eq garbage name ipPort id :
  zlen garbage = 64 -> zlen ipPort <= 51 -> nul_free ipPort -> 0 < id < 2 ^ 31 ->
  conn_name garbage name ipPort id = Ok (name ++ suffix ipPort id).
Proof.
  intros Hg Hip Hn Hid. pose proof (suffix_fits ipPort id Hip Hid) as Hf.
  pose proof (suffix_nul_free ipPort id Hn ltac:(lia)) as Hs.
  unfold conn_name. fold (suffix ipPort id). unfold snprintf. rewrite Hg.
  rewrite ztake_all, stored_write by lia. cbn [mbind res_bind]. unfold strlen.
  rewrite zdrop_0. cbn [Z.leb check mbind res_bind]. unfold stored. rewrite ztake_0. cbn [app].
  rewrite <- app_assoc. cbn [app]. rewrite strlen_terminated by done.
  change (check (0 <=? 0) FBounds) with (@Ok unit tt). cbn [mbind res_bind]. zlen_pos.
  rewrite ptr_read_ok by (rewrite ?zlen_app; zlen_pos; lia).
  by rewrite zdrop_0, ztake_app_l, ztake_all by lia.
Qed.

Lemma suffix_inj ipPort i j : 0 < i < 2 ^ 31 -> 0 < j < 2 ^ 31 ->
  suffix ipPort i = suffix ipPort j -> i = j.
Proof.
  intros Hi Hj [= E%app_inv_head]. injection E as E.
  pose proof (read_decimal_decimal i ltac:(unfold machine_int; lia)) as Ri.
  rewrite E, read_decimal_decimal in Ri by (unfold machine_int; lia). by injection Ri.
Qed.

(** ** The invariant *)
(** The name of the [k]-th connection. *)
Definition nm (s : TcpServer) (k : nat) : bytes :=
  name_ s ++ suffix (ipPort_ s) (Z.of_nat k + 1).

(** The loop of the [k]-th connection: round robin over the pool. *)
Definition round_robin (ls : list loop_id) (k : nat) : loop_id :=
  match ls with [] => base_loop | _ => nth (k mod length ls) ls base_loop end.

Definition state_of (c : connection) : StateE := l_state (c_life c).

(** [calm]: no user has turned on the reading of a closed connection. *)
Section invariant.
Context (calm : bool).

Record conn_ok (s : TcpServer) (k : nat) (c : connection) : Prop := {
  k_name : c_name c = nm s k;
  k_loop : c_loop c = round_robin (loops_ (threadPool_ s)) k;
  k_live : state_of c <> kDisconnected -> connections_ s !! c_name c = Some k /\ c_destroyed c = false;
  k_quiet : calm = true -> state_of c = kDisconnected -> l_interest (c_life c) = false;
}.

Record pool_ok (s : TcpServer) : Prop := {
  p_threads : 0 <= numThreads_ (threadPool_ s) < 2 ^ 31;
  p_fresh : started_ s = 0 -> pool_started_ (threadPool_ s) = false /\ loops_ (threadPool_ s) = [] /\
    next_ (threadPool_ s) = 0 /\ listenning_ (acceptor_ s) = false /\ reading (acceptor_ s) = false /\
    heap s = ∅;
  p_started : started_ s <> 0 -> pool_started_ (threadPool_ s) = true;
  p_next : loops_ (threadPool_ s) <> [] -> next_ (threadPool_ s) =
    Z.of_nat (base.size (heap s) mod length (loops_ (threadPool_ s)));
  p_loops : zlen (loops_ (threadPool_ s)) < 2 ^ 31;
}.

Record shape (s : TcpServer) : Prop := {
  i_alive : alive s = true;
  i_ip : zlen (ipPort_ s) <= 51 /\ nul_free (ipPort_ s);
  i_next : nextConnId_ s = Z.of_nat (base.size (heap s)) + 1 /\ nextConnId_ s < 2 ^ 31;
  i_dense : forall k, is_Some (heap s !! k) <-> (k < base.size (heap s))%nat;
  i_conn : forall k c, heap s !! k = Some c -> conn_ok s k c;
  i_map : forall n k, connections_ s !! n = Some k ->
    exists c, heap s !! k = Some c /\ c_name c = n /\ c_destroyed c = false;
  i_pool : pool_ok s;
}.

(** The functors that must be in flight, given the connections. *)
Definition expected (s : TcpServer) (l : loop_id) (f : functor) : Prop :=
  match f with
  | FListen => False
  | FEstablished k => exists c, heap s !! k = Some c /\ c_loop c = l /\ state_of c = kConnecting
  | FRemoveConnection k => exists c, heap s !! k = Some c /\ base_loop = l /\
      state_of c = kDisconnected /\ connections_ s !! c_name c = Some k
  | FDestroyed k => exists c, heap s !! k = Some c /\ c_loop c = l /\
      state_of c = kDisconnected /\ connections_ s !! c_name c = None /\ c_destroyed c = false
  end.

(** The queues hold each of them once, except for the functor [h] that a
    thread is about to run or to queue. *)
Record in_flight (s : TcpServer) (h : option (loop_id * functor)) : Prop := {
  f_queue : forall l f, f ∈ queue s l <-> expected s l f /\ h <> Some (l, f);
  f_nodup : forall l, NoDup (queue s l);
  f_hand : forall l f, h = Some (l, f) -> expected s l f;
}.

Definition inv (s : TcpServer) (h : option (loop_id * functor)) : Prop := shape s /\ in_flight s h.

Lemma nm_inj s i j : Z.of_nat i + 1 < 2 ^ 31 -> Z.of_nat j + 1 < 2 ^ 31 -> nm s i = nm s j -> i = j.
Proof. unfold nm. intros ?? E%app_inv_head%suffix_inj; lia. Qed.

Lemma in_flight_change s h s' h' : queues s' = queues s ->
  (forall l f, expected s' l f /\ h' <> Some (l, f) <-> expected s l f /\ h <> Some (l, f)) ->
  (forall l f, h' = Some (l, f) -> expected s' l f) ->
  in_flight s h -> in_flight s' h'.
Proof.
  intros Hq He Hh [Hf Hn _]. assert (forall l, queue s' l = queue s l) as E by (intros; unfold queue; by rewrite Hq).
  split; [|intros l; by rewrite E | done]. intros l f. by rewrite E, Hf, He.
Qed.

Lemma queue_insert s l q l' : queue (set_queues s (<[l := q]> (queues s))) l' =
  if decide (l = l') then q else queue s l'.
Proof. unfold queue. cbn. case_decide; [subst; by rewrite lookup_insert_eq | by rewrite lookup_insert_ne]. Qed.

Lemma in_flight_queue s l f : in_flight s (Some (l, f)) -> in_flight (queueInLoop l f s) None.
Proof.
  intros [Hf Hn Hh]. unfold queueInLoop.
  assert (f ∉ queue s l) as Hnew by (rewrite Hf; naive_solver).
  split; [| |done].
  - intros l' f'. rewrite queue_insert. change (expected (set_queues _ _) l' f') with (expected s l' f').
    case_decide; [subst; rewrite elem_of_app, list_elem_of_singleton|]; rewrite Hf; [|naive_solver].
    specialize (Hh l' f eq_refl). split; [naive_solver|]. intros [? _].
    destruct (decide (f' = f)); naive_solver.
  - intros l'. rewrite queue_insert. case_decide; [subst|done].
    apply NoDup_app. split; [done|]. split; [set_solver | apply NoDup_singleton].
Qed.

Lemma in_flight_pop s l f q : queue s l = f :: q -> in_flight s None ->
  in_flight (set_queues s (<[l := q]> (queues s))) (Some (l, f)).
Proof.
  intros Hq [Hf Hn _]. pose proof (Hn l) as Hnl. rewrite Hq in Hnl. apply NoDup_cons in Hnl as [Hfq Hnq].
  split.
  - intros l' f'. rewrite queue_insert. change (expected (set_queues _ _) l' f') with (expected s l' f').
    pose proof (Hf l' f') as Hf'. case_decide; [subst l'|].
    + rewrite Hq, elem_of_cons in Hf'. split; [|naive_solver]. intros Hin. split; [tauto|].
      intros [= ->]. done.
    + rewrite Hf'. naive_solver.
  - intros l'. rewrite queue_insert. by case_decide.
  - intros l' f' [= <- <-]. apply Hf. rewrite Hq. set_solver.
Qed.

Lemma shape_names s k k' c c' : shape s -> heap s !! k = Some c -> heap s !! k' = Some c' ->
  c_name c = c_name c' -> k = k'.
Proof.
  intros Hs Hk Hk' E. destruct (i_next _ Hs) as [? ?].
  pose proof (proj1 (i_dense _ Hs k) ltac:(eauto)). pose proof (proj1 (i_dense _ Hs k') ltac:(eauto)).
  rewrite (k_name _ _ _ (i_conn _ Hs k c Hk)), (k_name _ _ _ (i_conn _ Hs k' c' Hk')) in E.
  apply nm_inj in E; [done | lia..].
Qed.

Lemma put_life_size s k c l d : heap s !! k = Some c ->
  base.size (heap (put_life s k c l d)) = base.size (heap s).
Proof. intros Hk. cbn. by rewrite map_size_insert_Some by eauto. Qed.

(** Changing the life of one connection. *)
Lemma shape_put_life s k c l d : shape s -> heap s !! k = Some c ->
  (l_state l <> kDisconnected -> connections_ s !! c_name c = Some k) ->
  (calm = true -> l_state l = kDisconnected -> l_interest l = false) ->
  (d = true -> connections_ s !! c_name c = None /\ l_state l = kDisconnected) ->
  shape (put_life s k c l d).
Proof.
  intros Hs Hk Hlive Hquiet Hd. pose proof (put_life_size s k c l d Hk) as Hsz.
  destruct Hs as [Ha Hip Hnx Hde Hco Hma [Ht Hfr Hst Hne Hlo]].
  split; rewrite ?Hsz; try done.
  - intros k'. cbn. rewrite <- Hde. destruct (decide (k = k')) as [<-|];
      [rewrite lookup_insert_eq, Hk; naive_solver | by rewrite lookup_insert_ne].
  - intros k' c'. cbn. rewrite lookup_insert_Some. intros [[<- <-]|[_ Hk']]; [|by destruct (Hco k' c' Hk')].
    destruct (Hco k c Hk) as [E1 E2 _ _]. split; cbn; try done.
    intros H. split; [by apply Hlive|]. destruct d; [|done]. by destruct Hd.
  - intros n k' Hn. cbn in Hn |- *. destruct (Hma n k' Hn) as (c' & Hc' & En & Hdd).
    destruct (decide (k = k')) as [<-|]; [|by rewrite lookup_insert_ne by done; eauto].
    rewrite lookup_insert_eq. eexists; split; [done|]. cbn. simplify_eq. split; [done|].
    destruct d; [|done]. destruct (Hd eq_refl). congruence.
  - split; rewrite ?Hsz; try done. intros H0. destruct (Hfr H0) as (?&?&?&?&?&He).
    by rewrite He in Hk.
Qed.

(** Removing a closed connection from the map. *)
Lemma shape_erase s k c : shape s -> heap s !! k = Some c -> state_of c = kDisconnected ->
  shape (set_connections s (delete (c_name c) (connections_ s))).
Proof.
  intros Hs Hk Hd. split; try apply Hs.
  - intros k' c' Hk'. destruct (i_conn _ Hs k' c' Hk') as [E1 E2 E3 E4]. split; try done. cbn.
    intros Hst. destruct (E3 Hst) as [Hm ?]. split; [|done]. rewrite lookup_delete_ne; [done|].
    intros E. rewrite (shape_names s k k' c c' Hs Hk Hk' E) in Hk. cbn in *. congruence.
  - intros n k' Hn. cbn in Hn. apply lookup_delete_Some in Hn as [_ Hn]. by apply (i_map _ Hs).
  - destruct (i_pool _ Hs). by split.
Qed.

(** [expected] one connection at a time. *)
Definition fconn (f : functor) : option nat :=
  match f with FListen => None | FEstablished k | FRemoveConnection k | FDestroyed k => Some k end.

Definition wants (m : option nat) (k : nat) (loop : loop_id) (st : StateE) (d : bool)
    (l : loop_id) (f : functor) : Prop :=
  match f with
  | FListen => False
  | FEstablished _ => loop = l /\ st = kConnecting
  | FRemoveConnection _ => base_loop = l /\ st = kDisconnected /\ m = Some k
  | FDestroyed _ => loop = l /\ st = kDisconnected /\ m = None /\ d = false
  end.

Lemma expected_at s k c l f : heap s !! k = Some c -> fconn f = Some k ->
  expected s l f <-> wants (connections_ s !! c_name c) k (c_loop c) (state_of c) (c_destroyed c) l f.
Proof. intros Hk Hf. destruct f; cbn in *; simplify_eq; naive_solver. Qed.

Lemma expected_put_life s k c l d l' f : heap s !! k = Some c ->
  expected (put_life s k c l d) l' f <->
  if decide (fconn f = Some k)
  then wants (connections_ s !! c_name c) k (c_loop c) (l_state l) d l' f
  else expected s l' f.
Proof.
  intros Hk. case_decide as Hf.
  - rewrite (expected_at _ k (mkConnection (c_name c) (c_fd c) (c_loop c) l d)); [done| |done].
    cbn. by rewrite lookup_insert_eq.
  - destruct f as [|k'|k'|k']; cbn in *; [done|..];
      assert (k <> k') by congruence; by rewrite lookup_insert_ne by done.
Qed.

(** One functor is consumed by a change to its connection. *)
Lemma consumed s k c l d lp f : in_flight s (Some (lp, f)) -> heap s !! k = Some c ->
  fconn f = Some k ->
  (forall l' f', fconn f' = Some k ->
    wants (connections_ s !! c_name c) k (c_loop c) (l_state l) d l' f' <->
    wants (connections_ s !! c_name c) k (c_loop c) (state_of c) (c_destroyed c) l' f' /\ Some (lp, f) <> Some (l', f')) ->
  in_flight (put_life s k c l d) None.
Proof.
  intros Hi Hk Hf Hw. refine (in_flight_change _ _ _ _ _ _ _ Hi); [done| |done].
  intros l' f'. rewrite expected_put_life by done. case_decide as Hf'.
  - rewrite Hw, (expected_at s k c l' f') by done. naive_solver.
  - split; [intros [? _]; split; [done|congruence] | naive_solver].
Qed.

Lemma hand_conn s l f k : in_flight s (Some (l, f)) -> fconn f = Some k ->
  exists c, heap s !! k = Some c /\
    wants (connections_ s !! c_name c) k (c_loop c) (state_of c) (c_destroyed c) l f.
Proof.
  intros Hi Hf. pose proof (f_hand _ _ Hi l f eq_refl) as He.
  destruct f; cbn in Hf; simplify_eq; cbn in He; naive_solver.
Qed.

(** Decides which functors a connection wants before and after a step. *)
Ltac wants_cases :=
  intros ? [|?|?|?]; cbn [wants fconn]; intros [=]; subst; split; intros; destruct_and?;
  unfold state_of in *; repeat split; congruence.

Lemma moved_open u : l_state (moved u) <> kConnecting /\ l_state (moved u) <> kDisconnected.
Proof. destruct u as [[] ?]; done. Qed.

(** What the rest of the development needs of a step on the connections. *)
Definition same_ids (s s' : TcpServer) : Prop := nextConnId_ s' = nextConnId_ s.

Lemma connectEstablished_inv s l u k : inv s (Some (l, FEstablished k)) ->
  exists s', connectEstablished (Some l) u k s = Ok s' /\ inv s' None /\ same_ids s s'.
Proof.
  intros [Hs Hi]. destruct (hand_conn _ _ _ k Hi eq_refl) as (c & Hk & Hl & Hst).
  unfold connectEstablished, get_conn. rewrite Hk. cbn [mbind res_bind].
  unfold assertInLoopThread. rewrite bool_decide_eq_true_2 by congruence. cbn [check mbind res_bind].
  unfold life_established. rewrite assert_true by by apply bool_decide_eq_true.
  cbn [mbind res_bind]. eexists; split; [reflexivity|]. destruct (moved_open u) as [Hm1 Hm2].
  destruct (i_conn _ Hs k c Hk) as [_ _ Hlive _].
  destruct (Hlive ltac:(unfold state_of in *; congruence)) as [Hc Hd]. split; [split|done].
  - apply shape_put_life; try done. rewrite Hd. done.
  - eapply consumed; [exact Hi | done | done |]. wants_cases.
Qed.

(** Only a channel that still has an interest stops [connectDestroyed]. *)
Definition stray (s : TcpServer) (f : functor) : bool :=
  match f with
  | FDestroyed k => match heap s !! k with Some c => l_interest (c_life c) | None => false end
  | _ => false
  end.

Lemma connectDestroyed_inv s l k : inv s (Some (l, FDestroyed k)) ->
  if stray s (FDestroyed k) then connectDestroyed (Some l) k s = Fail FAssert
  else exists s', connectDestroyed (Some l) k s = Ok s' /\ inv s' None /\ same_ids s s'.
Proof.
  intros [Hs Hi]. destruct (hand_conn _ _ _ k Hi eq_refl) as (c & Hk & Hl & Hst & Hm & Hd).
  unfold stray, connectDestroyed, get_conn. rewrite Hk. cbn [mbind res_bind].
  unfold assertInLoopThread. rewrite bool_decide_eq_true_2 by congruence. cbn [check mbind res_bind].
  rewrite Hd. cbn [negb assert_ check mbind res_bind]. unfold life_destroyed.
  rewrite bool_decide_eq_false_2 by (unfold state_of in Hst; congruence).
  destruct (l_interest (c_life c)) eqn:Hq; [done|].
  cbn [negb assert_ check mbind res_bind]. eexists; split; [reflexivity|]. split; [split|done].
  - by apply shape_put_life.
  - eapply consumed; [exact Hi | done | done |]. wants_cases.
Qed.

(** A calm system has none. *)
Lemma stray_calm s l f : inv s (Some (l, f)) -> calm = true -> stray s f = false.
Proof.
  intros [Hs Hi] Hc. destruct f as [| | |k]; try done. destruct (hand_conn _ _ _ k Hi eq_refl) as (c & Hk & _ & Hst & _).
  cbn. rewrite Hk. by apply (k_quiet _ _ _ (i_conn _ Hs k c Hk)).
Qed.

Lemma shape_queues s q : shape s -> shape (set_queues s q).
Proof.
  intros [Ha Hip Hnx Hde Hco Hma [? ? ? ? ?]]. split; try done.
  intros k c Hk. by destruct (Hco k c Hk).
Qed.

Definition erase (s : TcpServer) (c : connection) : TcpServer :=
  set_connections s (delete (c_name c) (connections_ s)).

Lemma expected_erase_ne s k c l f : shape s -> heap s !! k = Some c -> fconn f <> Some k ->
  expected (erase s c) l f <-> expected s l f.
Proof.
  intros Hs Hk Hf. destruct (fconn f) as [k'|] eqn:E; [|by destruct f].
  destruct (heap s !! k') as [c'|] eqn:Hk'.
  - rewrite !(expected_at _ k' c') by done. cbn. rewrite lookup_delete_ne; [done|].
    intros En. apply Hf. f_equal. symmetry. by apply (shape_names s k k' c c').
  - destruct f; cbn in E; simplify_eq; cbn; rewrite Hk'; naive_solver.
Qed.

Lemma removeConnectionInLoop_inv s l k : inv s (Some (l, FRemoveConnection k)) ->
  exists s', removeConnectionInLoop (Some l) k s = Ok s' /\ inv s' None /\ same_ids s s'.
Proof.
  intros [Hs Hi]. destruct (hand_conn _ _ _ k Hi eq_refl) as (c & Hk & <- & Hst & Hm).
  unfold removeConnectionInLoop, get_conn. rewrite (i_alive _ Hs). cbn [check mbind res_bind].
  unfold assertInLoopThread. rewrite bool_decide_eq_true_2 by done. cbn [check mbind res_bind].
  rewrite Hk. cbn [mbind res_bind]. rewrite Hm. cbn [Z.eqb assert_ check mbind res_bind].
  eexists; split; [reflexivity|]. split; [|done]. fold (erase s c).
  pose proof (shape_erase s k c Hs Hk Hst) as Hs'. fold (erase s c) in Hs'.
  destruct (i_map _ Hs _ _ Hm) as (c0 & Hk0 & _ & Hd). rewrite Hk in Hk0. injection Hk0 as <-.
  assert (HE : connections_ (erase s c) !! c_name c = None) by (cbn; by rewrite lookup_delete_eq).
  assert (Hi' : in_flight (erase s c) (Some (c_loop c, FDestroyed k))).
  { refine (in_flight_change _ _ _ _ _ _ _ Hi); [done| |].
    - intros l' f. destruct (decide (fconn f = Some k)) as [Hf|Hf].
      + rewrite (expected_at (erase s c) k c), (expected_at s k c) by done. rewrite HE, Hm. revert l' f Hf.
        intros l' [|?|?|?]; cbn [wants fconn]; intros [=]; subst; split; intros; destruct_and?;
          simplify_eq; repeat split; congruence.
      + rewrite (expected_erase_ne s k c) by done.
        split; intros [? _]; (split; [done|]); intros [=]; subst; by apply Hf.
    - intros l' f [= <- <-]. apply (expected_at (erase s c) k c); [done..|]. cbn [wants].
      by rewrite HE. }
  split; [by apply shape_queues | by apply in_flight_queue].
Qed.

Lemma run_functor_inv s l u f : inv s (Some (l, f)) ->
  if stray s f then run_functor (Some l) u f s = Fail FAssert
  else exists s', run_functor (Some l) u f s = Ok s' /\ inv s' None /\ same_ids s s'.
Proof.
  intros Hi. destruct f as [|k|k|k]; cbn [run_functor].
  - by destruct (f_hand _ _ (proj2 Hi) l FListen eq_refl).
  - by apply connectEstablished_inv.
  - by apply removeConnectionInLoop_inv.
  - by apply connectDestroyed_inv.
Qed.

Lemma runInLoop_inv s cur u l f : inv s (Some (l, f)) -> stray s f = false ->
  exists s', runInLoop cur u l f s = Ok s' /\ inv s' None /\ same_ids s s'.
Proof.
  intros Hi Hf. unfold runInLoop. case_bool_decide as Hc; [subst; pose proof (run_functor_inv s l u f Hi) as H; by rewrite Hf in H|].
  eexists; split; [reflexivity|]. split; [|done]. destruct Hi as [Hs Hi].
  split; [by apply shape_queues | by apply in_flight_queue].
Qed.

Lemma succ_mod n m : (m <> 0)%nat ->
  Z.of_nat (S n mod m) = if Z.of_nat m <=? Z.of_nat (n mod m) + 1 then 0 else Z.of_nat (n mod m) + 1.
Proof.
  intros Hm. pose proof (Nat.mod_upper_bound n m Hm) as Hb. pose proof (Nat.div_mod n m Hm) as Hd.
  case_cmp.
  - rewrite <- (Nat.mod_unique (S n) m (S (n / m)) 0); [done | lia | nia].
  - rewrite <- (Nat.mod_unique (S n) m (n / m) (S (n mod m))); lia.
Qed.

(** The pool hands out its loops in turn. *)
Lemma getNextLoop_inv s : pool_ok s -> pool_started_ (threadPool_ s) = true ->
  exists p, getNextLoop (threadPool_ s) (Some base_loop) =
      Ok (round_robin (loops_ (threadPool_ s)) (base.size (heap s)), p) /\
    loops_ p = loops_ (threadPool_ s) /\ numThreads_ p = numThreads_ (threadPool_ s) /\
    pool_started_ p = true /\
    (loops_ p <> [] -> next_ p = Z.of_nat (S (base.size (heap s)) mod length (loops_ p))).
Proof.
  intros [_ _ _ Hn Hl] Hp. unfold getNextLoop. rewrite Hp.
  change (assertInLoopThread (Some base_loop) base_loop) with (@Ok unit tt).
  cbn [assert_ check mbind res_bind]. set (p := threadPool_ s) in *.
  destruct (loops_ p) as [|l0 ls] eqn:El; [by eexists|]. rewrite <- El in *.
  specialize (Hn ltac:(by rewrite El)). set (n := base.size (heap s)) in *.
  assert (Hz : length (loops_ p) <> 0%nat) by (by rewrite El).
  pose proof (Nat.mod_upper_bound n (length (loops_ p)) Hz) as Hb.
  assert (Hat : loop_at (loops_ p) (next_ p) = Ok (round_robin (loops_ p) n)).
  { unfold loop_at. rewrite Hn, (proj2 (Z.leb_le 0 _)) by lia. cbn [check mbind res_bind]. rewrite Nat2Z.id.
    destruct (lookup_lt_is_Some_2 _ _ Hb) as [l E]. rewrite E. f_equal.
    unfold round_robin. rewrite El at 1. by rewrite nth_lookup, E. }
  rewrite Hat. cbn [mbind res_bind]. eexists; split; [reflexivity|]. cbn. split_and!; [done..|]. intros _.
  rewrite succ_mod by done. unfold zlen in *. rewrite Hn. by rewrite size_t_id by lia.
Qed.

(** The server with one more connection, not yet established. *)
Definition with_conn (s : TcpServer) (p : Pool) (n : bytes) (fd : Z) (l : loop_id) : TcpServer :=
  mkServer (alive s) (ipPort_ s) (name_ s) (acceptor_ s) p (threadInitCallback_ s) (started_ s)
    (nextConnId_ s + 1) (<[n := base.size (heap s)]> (connections_ s))
    (<[base.size (heap s) := mkConnection n fd l life_ctor false]> (heap s)) (queues s).

Section new_connection.
Context (s : TcpServer) (p : Pool) (fd : Z) (Hs : shape s).
Let n := base.size (heap s).
Let l := round_robin (loops_ (threadPool_ s)) n.
Hypothesis Hlim : nextConnId_ s + 1 < 2 ^ 31.
Hypothesis Hloops : loops_ p = loops_ (threadPool_ s).
Hypothesis Hthreads : numThreads_ p = numThreads_ (threadPool_ s).
Hypothesis Hstarted : pool_started_ p = true.
Hypothesis Hs0 : started_ s <> 0.
Hypothesis Hnext : loops_ p <> [] -> next_ p = Z.of_nat (S n mod length (loops_ p)).

Lemma fresh_conn : heap s !! n = None.
Proof using All. apply eq_None_not_Some. rewrite (i_dense _ Hs n). lia. Qed.

Lemma fresh_name k c : heap s !! k = Some c -> c_name c <> nm s n.
Proof using All.
  intros Hk. rewrite (k_name _ _ _ (i_conn _ Hs k c Hk)). destruct (i_next _ Hs) as [En ?].
  pose proof (proj1 (i_dense _ Hs k) ltac:(eauto)). intros E%nm_inj; unfold n in *; lia.
Qed.

Lemma shape_with_conn : shape (with_conn s p (nm s n) fd l).
Proof using All.
  pose proof fresh_conn as Hf. destruct (i_next _ Hs) as [En Hlt].
  assert (Hsz : base.size (heap (with_conn s p (nm s n) fd l)) = S n) by (cbn; by rewrite map_size_insert_None).
  split; rewrite ?Hsz; cbn [alive ipPort_ nextConnId_ with_conn].
  - apply Hs.
  - apply Hs.
  - unfold n in *. lia.
  - intros k. cbn. destruct (decide (n = k)) as [<-|Hne].
    + rewrite lookup_insert_eq. split; [lia | by eauto].
    + rewrite lookup_insert_ne, (i_dense _ Hs) by done. fold n. lia.
  - intros k c. cbn. rewrite lookup_insert_Some. intros [[<- <-]|[Hne Hk]].
    + split; cbn; [done | by rewrite Hloops | by rewrite lookup_insert_eq | done].
    + destruct (i_conn _ Hs k c Hk) as [E1 E2 E3 E4]. split; cbn; rewrite ?Hloops; try done.
      pose proof (fresh_name k c Hk). by rewrite lookup_insert_ne.
  - intros m k. cbn. rewrite lookup_insert_Some. intros [[<- <-]|[Hne Hm]].
    + rewrite lookup_insert_eq. by eexists.
    + destruct (i_map _ Hs m k Hm) as (c & Hk & ?). exists c. rewrite lookup_insert_ne; [done|].
      intros <-. unfold n in Hf. congruence.
  - destruct (i_pool _ Hs). split; rewrite ?Hsz; cbn; rewrite ?Hloops, ?Hthreads; try done.
    by rewrite <- Hloops.
Qed.

Lemma in_flight_with_conn : in_flight s None ->
  in_flight (with_conn s p (nm s n) fd l) (Some (l, FEstablished n)).
Proof using All.
  pose proof fresh_conn as Hf. intros Hi. refine (in_flight_change _ _ _ _ _ _ _ Hi); [done| |].
  - intros l' f. destruct (decide (fconn f = Some n)) as [Hfn|Hfn].
    + assert (~ expected s l' f) by (destruct f; cbn in *; simplify_eq; rewrite Hf; naive_solver).
      rewrite (expected_at _ n (mkConnection (nm s n) fd l life_ctor false)) by (by cbn; rewrite ?lookup_insert_eq).
      split; [|naive_solver]. cbn. destruct f; cbn in *; simplify_eq; naive_solver.
    + assert (expected (with_conn s p (nm s n) fd l) l' f <-> expected s l' f) as ->;
        [|split; (intros [? _]; split; [done|]); [done | intros [=]; subst; by apply Hfn]].
      destruct (fconn f) as [k|] eqn:E; [|by destruct f]. assert (n <> k) by congruence.
      assert (Hk' : heap (with_conn s p (nm s n) fd l) !! k = heap s !! k)
        by (cbn; by rewrite lookup_insert_ne).
      destruct (heap s !! k) as [c|] eqn:Hk.
      * rewrite !(expected_at _ k c) by done. cbn [with_conn connections_].
        pose proof (fresh_name k c Hk). by rewrite lookup_insert_ne.
      * destruct f; cbn in E; simplify_eq; cbn [expected]; rewrite Hk, Hk'; naive_solver.
  - intros l' f [= <- <-]. eexists. cbn. by rewrite lookup_insert_eq.
Qed.
End new_connection.

Lemma newConnection_inv s u g fd : inv s None -> started_ s <> 0 -> zlen g = 64 ->
  nextConnId_ s + 1 < 2 ^ 31 ->
  exists s', newConnection (Some base_loop) u g fd s = Ok s' /\ inv s' None /\
    nextConnId_ s' = nextConnId_ s + 1.
Proof.
  intros [Hs Hi] Hst Hg Hlim. pose proof (i_pool _ Hs) as Hp. destruct (i_next _ Hs) as [En _].
  destruct (getNextLoop_inv s Hp (p_started _ Hp Hst)) as (p & Ep & El & Et & Eps & Enx).
  unfold newConnection. change (assertInLoopThread (Some base_loop) base_loop) with (@Ok unit tt).
  cbn [mbind res_bind]. rewrite Ep. cbn [mbind res_bind set_pool name_ ipPort_ nextConnId_].
  assert (Hn : conn_name g (name_ s) (ipPort_ s) (nextConnId_ s) = Ok (nm s (base.size (heap s)))).
  { destruct (i_ip _ Hs). rewrite En, conn_name_eq; done || lia. }
  rewrite Hn. cbn [mbind res_bind]. rewrite (proj2 (Z.ltb_lt _ _)) by done. cbn [check mbind res_bind].
  match goal with |- context [runInLoop _ _ ?l ?f ?s1] => 
    destruct (runInLoop_inv s1 (Some base_loop) u l f) as (s' & E & Hinv & Hid) end.
  - split; [by apply (shape_with_conn s p fd) | by apply (in_flight_with_conn s p fd)].
  - done.
  - by exists s'.
Qed.

Lemma closable_states l : closable l = true -> l_state l <> kConnecting /\ l_state l <> kDisconnected.
Proof. unfold closable. destruct (l_state l); naive_solver. Qed.

Lemma handleClose_inv s k c : inv s None -> heap s !! k = Some c -> closable (c_life c) = true ->
  exists s', handleClose (Some (c_loop c)) k s = Ok s' /\ inv s' None /\ same_ids s s'.
Proof.
  intros [Hs Hi] Hk Hc. unfold handleClose, get_conn. rewrite Hk. cbn [mbind res_bind].
  unfold assertInLoopThread. rewrite bool_decide_eq_true_2 by done. cbn [check mbind res_bind].
  unfold life_closed. fold (closable (c_life c)). rewrite Hc. cbn [assert_ check mbind res_bind].
  destruct (closable_states _ Hc) as [Hs1 Hs2].
  destruct (k_live _ _ _ (i_conn _ Hs k c Hk) Hs2) as [Hm Hd].
  unfold removeConnection. cbn [alive put_life set_heap]. rewrite (i_alive _ Hs). cbn [check mbind res_bind].
  apply (runInLoop_inv (put_life s k c (mkLife kDisconnected false) (c_destroyed c))); [|done].
  split; [apply shape_put_life; try done; by rewrite Hd|].
  refine (in_flight_change _ _ _ _ _ _ _ Hi); [done| |].
  - intros l' f. rewrite expected_put_life by done. case_decide as Hf.
    + rewrite (expected_at s k c) by done. rewrite Hm. revert l' f Hf.
      unfold state_of. intros l' [|?|?|?]; cbn [wants fconn]; intros [=]; subst; split; intros; destruct_and?;
        simplify_eq; repeat split; congruence.
    + split; (intros [? _]; split; [done|]); [done | intros [=]; subst; by apply Hf].
  - intros l' f [= <- <-]. rewrite expected_put_life by done. by rewrite decide_True.
Qed.

(** The move leaves the channel of a closed connection without an interest. *)
Definition calm_move (l : life) (u : user_move) : bool := negb (bool_decide (l_state l = kDisconnected) && m_interest u).

Lemma user_inv s k c u : inv s None -> heap s !! k = Some c -> (calm = true -> calm_move (c_life c) u = true) ->
  inv (put_life s k c (life_user u (c_life c)) (c_destroyed c)) None.
Proof.
  intros [Hs Hi] Hk Hcm. destruct (i_conn _ Hs k c Hk) as [_ _ Hlive Hq]. unfold state_of in *.
  assert (Hsame : forall st, st = kConnecting \/ st = kDisconnected ->
    l_state (life_user u (c_life c)) = st <-> l_state (c_life c) = st).
  { intros st Hst. unfold life_user, moved. destruct (l_state (c_life c)) eqn:E; try done.
    cbn. destruct (m_shut u), Hst as [->| ->]; done. }
  split.
  - apply shape_put_life; try done.
    + intros H. apply Hlive. by rewrite <- Hsame by auto.
    + intros Hc H. rewrite Hsame in H by auto. specialize (Hcm Hc). unfold life_user, calm_move in *. rewrite H in *.
      by apply negb_true_iff in Hcm.
    + intros Hd. destruct (decide (l_state (c_life c) = kDisconnected)) as [E|E].
      * split; [|by apply Hsame; auto]. destruct (connections_ s !! c_name c) as [k'|] eqn:E'; [|done].
        destruct (i_map _ Hs _ _ E') as (c' & Hk' & En & Hd').
        rewrite (shape_names s k k' c c' Hs Hk Hk' (eq_sym En)) in Hk. congruence.
      * destruct (Hlive E). congruence.
  - refine (in_flight_change _ _ _ _ _ _ _ Hi); [done| |done].
    intros l' f. rewrite expected_put_life by done. case_decide; [|done].
    rewrite (expected_at s k c) by done. unfold state_of.
    destruct f; cbn [wants]; rewrite ?Hsame by auto; done.
Qed.

Lemma setThreadNum_inv s n : inv s None -> 0 <= n < 2 ^ 31 ->
  exists s', setThreadNum s n = Ok s' /\ inv s' None /\ same_ids s s'.
Proof.
  intros [Hs Hi] Hn. unfold setThreadNum. rewrite assert_true by (apply Z.leb_le; lia).
  cbn [mbind res_bind]. eexists; split; [reflexivity|]. split; [split|done].
  - destruct Hs as [Ha Hip Hnx Hde Hco Hma [? ? ? ? ?]]. split; try done.
    intros k c Hk. by destruct (Hco k c Hk).
  - by destruct Hi.
Qed.

Lemma start_inv s : inv s None -> exists s', start (Some base_loop) s = Ok s' /\ inv s' None /\ same_ids s s'.
Proof.
  intros [Hs Hi]. destruct Hs as [Ha Hip Hnx Hde Hco Hma Hp]. destruct Hp as [Ht Hfr Hst Hne Hlo].
  unfold start. destruct (Z.eqb_spec (started_ s) 0) as [H0|H0].
  - destruct (Hfr H0) as (E1 & E2 & E3 & E4 & E5 & E6).
    unfold Pool_start. cbn [threadPool_ set_started]. rewrite E1.
    change (assertInLoopThread (Some base_loop) base_loop) with (@Ok unit tt).
    cbn [negb assert_ check mbind res_bind set_pool acceptor_ set_started]. rewrite E4.
    cbn [negb assert_ check mbind res_bind]. unfold runInLoop. rewrite bool_decide_eq_true_2 by done.
    unfold run_functor, listenInLoop. cbn [alive set_pool set_started]. rewrite Ha.
    cbn [check mbind res_bind listen acceptor_]. unfold listen.
    change (assertInLoopThread (Some base_loop) base_loop) with (@Ok unit tt).
    cbn [mbind res_bind]. eexists; split; [reflexivity|]. split; [|done].
    split; [|by destruct Hi]. split; try done.
    + cbn. intros k c Hk. by rewrite E6 in Hk.
    + split; cbn; try done. { intros _. rewrite E6, E3, map_size_empty. by rewrite Nat.Div0.mod_0_l. }
      rewrite E2. cbn [app]. unfold zlen. rewrite length_seq. lia.
  - eexists; split; [reflexivity|]. split; [|done]. split; [|by destruct Hi]. split; try done.
    + intros k c Hk. by destruct (Hco k c Hk).
    + split; try done. intros _. by apply Hst.
Qed.

(** What the owner and the kernel may do: thread numbers are not negative, the
    name buffer has its 64 bytes, and the server is not destroyed. *)
Definition label_ok (lb : label) : Prop :=
  match lb with
  | LSetThreadNum n => 0 <= n < 2 ^ 31
  | LAccept _ g _ => zlen g = 64
  | LDestroy => False
  | _ => True
  end.

Definition accepts (lb : label) : Z := match lb with LAccept _ _ _ => 1 | _ => 0 end.

Lemma handleRead_inv s u g ans : inv s None -> reading (acceptor_ s) = true -> zlen g = 64 ->
  nextConnId_ s + 1 < 2 ^ 31 ->
  exists s', handleRead (Some base_loop) u g ans s = Ok s' /\ inv s' None /\
    nextConnId_ s' <= nextConnId_ s + 1.
Proof.
  intros Hi Hr Hg Hn. unfold handleRead. change (assertInLoopThread (Some base_loop) base_loop) with (@Ok unit tt).
  cbn [mbind res_bind]. destruct ans as [fd|e fd idle].
  - destruct (newConnection_inv s u g fd Hi) as (s' & E & H & En); try done.
    { intros H0. destruct (p_fresh _ (i_pool _ (proj1 Hi)) H0) as (?&?&?&?&?&?). congruence. }
    exists s'. rewrite En. done.
  - case_cmp; [|by eexists; split; [reflexivity|]; split; [done|lia]].
    eexists; split; [reflexivity|]. split; [|cbn; lia]. destruct Hi as [[Ha Hip Hnx Hde Hco Hma [? ? ? ? ?]] []].
    split; split; try done. intros k c Hk. by destruct (Hco k c Hk).
Qed.

(** User code leaves the reading of closed connections off. *)
Definition calm_label (s : TcpServer) (lb : label) : bool :=
  match lb with
  | LUser k u => match heap s !! k with Some c => calm_move (c_life c) u | None => true end
  | _ => true
  end.

Lemma exec_inv s lb r : inv s None -> label_ok lb -> nextConnId_ s + accepts lb < 2 ^ 31 -> (calm = true -> calm_label s lb = true) ->
  exec s lb = Some r ->
  (calm = false /\ r = Fail FAssert) \/ exists s', r = Ok s' /\ inv s' None /\ nextConnId_ s' <= nextConnId_ s + accepts lb.
Proof.
  intros Hi Hl Hn Hcm. assert (Hids : forall m : res TcpServer,
    (exists s', m = Ok s' /\ inv s' None /\ same_ids s s') -> accepts lb = 0 ->
    (calm = false /\ m = Fail FAssert) \/ exists s', m = Ok s' /\ inv s' None /\ nextConnId_ s' <= nextConnId_ s + accepts lb).
  { intros m (s' & -> & H & E) ->. right. exists s'. rewrite E. split_and!; [done..|lia]. }
  destruct lb as [n| |ans g u|l u|k|k u|]; cbn [exec label_ok accepts calm_label] in *.
  - intros [= <-]. by apply Hids; [apply setThreadNum_inv|].
  - intros [= <-]. by apply Hids; [apply start_inv|].
  - case_match; [|done]. intros [= <-]. right. by apply handleRead_inv.
  - destruct (queue s l) as [|f q] eqn:Hq; [done|]. intros [= <-].
    assert (Hi' : inv (set_queues s (<[l:=q]> (queues s))) (Some (l, f))).
    { destruct Hi as [Hs Hi]. split; [by apply shape_queues | by apply in_flight_pop]. }
    pose proof (run_functor_inv _ l u f Hi') as H. destruct (stray _ f) eqn:Ef; [|by apply Hids].
    left. split; [|done]. destruct calm eqn:Ec; [|done]. rewrite (stray_calm _ l f Hi' Ec) in Ef. done.
  - destruct (heap s !! k) as [c|] eqn:Hk; [|done]. destruct (closable (c_life c)) eqn:Hc; [|done].
    intros [= <-]. apply Hids; [|done]. by apply handleClose_inv.
  - destruct (heap s !! k) as [c|] eqn:Hk; [|done]. intros [= <-]. apply Hids; [|done].
    eexists; split; [reflexivity|]. split; [by apply user_inv | done].
  - done.
Qed.

Fixpoint calm_run (s : TcpServer) (ls : list label) : bool :=
  match ls with
  | [] => true
  | lb :: ls => calm_label s lb &&
      match exec s lb with Some (Ok s') => calm_run s' ls | Some (Fail _) => true | None => calm_run s ls end
  end.

Lemma run_fail (f : fault) ls : foldl (fun m lb => s ← m; match exec s lb with Some r => r | None => Ok s end) (Fail f) ls = Fail f.
Proof. by induction ls. Qed.

Lemma run_inv s ls : inv s None -> Forall label_ok ls ->
  nextConnId_ s + foldr Z.add 0 (accepts <$> ls) < 2 ^ 31 -> (calm = true -> calm_run s ls = true) ->
  (calm = false /\ run s ls = Fail FAssert) \/ exists s', run s ls = Ok s' /\ inv s' None.
Proof.
  unfold run. revert s. induction ls as [|lb ls IH]; intros s Hi Hl Hn Hc; [right; by eexists|].
  inversion_clear Hl. cbn [foldl calm_run] in *. cbn [fmap list_fmap foldr] in Hn. change (list_fmap _ _ accepts ls) with (accepts <$> ls) in Hn.
  assert (Hpos : 0 <= foldr Z.add 0 (accepts <$> ls)).
  { clear. induction ls as [|[] ls IH]; cbn in *; lia. }
  cbn [mbind res_bind].
  assert (Hc1 : calm = true -> calm_label s lb = true) by (intros E; specialize (Hc E); by apply andb_true_iff in Hc as [? _]).
  destruct (exec s lb) as [r|] eqn:E.
  - destruct (exec_inv s lb r) as [[Hf ->]|(s' & -> & Hi' & Hn')]; try done; [lia | left; split; [done | apply run_fail]|].
    apply IH; [done.. | lia|]. intros Ec. specialize (Hc Ec). by apply andb_true_iff in Hc as [_ ?].
  - apply IH; [done..| |]; [assert (0 <= accepts lb) by (destruct lb; cbn; lia); lia|].
    intros Ec. specialize (Hc Ec). by apply andb_true_iff in Hc as [_ ?].
Qed.
End invariant.

(** ** Theorems *)
Section theorems.
Context (ipPort name : bytes) (cb : bool) (idle : Z) (s0 : TcpServer).
Hypothesis Hctor : TcpServer_ctor ipPort name cb idle = Ok s0.
Hypothesis Hip : zlen ipPort <= 51 /\ nul_free ipPort.

Lemma server_ctor_inv calm : inv calm s0 None /\ nextConnId_ s0 = 1.
Proof using Hctor Hip.
  unfold TcpServer_ctor, Acceptor_ctor in Hctor. inv_res. split; [|done]. split; split; try done.
  - intros k. cbn. rewrite lookup_empty, map_size_empty. split; [by intros [] | lia].
  - intros l f. unfold queue. cbn. rewrite lookup_empty. cbn. split; [by intros ?%not_elem_of_nil|].
    intros [H _]. destruct f; cbn in H; [done|..]; by destruct H as (? & H & _); rewrite lookup_empty in H.
  - intros l. unfold queue. cbn. rewrite lookup_empty. constructor.
Qed.

Context (ls : list label).
Hypothesis Hls : Forall label_ok ls.
Hypothesis Hcount : foldr Z.add 0 (accepts <$> ls) < 2 ^ 31 - 1.

(** C8: for every interleaving of accepts, closes, user calls and functors on
    the server's loop and the loops of its pool, a [TcpServer] that is not
    destroyed never fails an assertion, provided that no user call turns on the
    reading of a connection that is closed ([calm_run]; [startReadInLoop] does
    not look at the state, and [startRead_after_close] shows the assertion that
    fails then) and user calls are made in the thread of their connection:
    [connections_.erase] finds exactly one
    entry, [connectEstablished] and [connectDestroyed] run once, in the thread
    of the connection, in the right state. Connections have distinct names,
    they are dealt to the loops of the pool in turn, and every connection that
    is not down is in the map. Addresses have at most 51 characters and at
    most 2^31-2 connections arrive, so names are never cut off. *)
Theorem TcpServer_safe : calm_run s0 ls = true -> exists s, run s0 ls = Ok s /\
  (forall i j c c', heap s !! i = Some c -> heap s !! j = Some c' -> c_name c = c_name c' -> i = j) /\
  (forall k c, heap s !! k = Some c -> c_loop c = round_robin (loops_ (threadPool_ s)) k) /\
  (forall k c, heap s !! k = Some c -> state_of c <> kDisconnected -> connections_ s !! c_name c = Some k).
Proof using All.
  intros Hcalm. destruct (server_ctor_inv true) as [Hi E1].
  destruct (run_inv true s0 ls Hi Hls ltac:(lia) ltac:(done)) as [[? _]|(s & E & Hs & _)]; [done|].
  exists s. split; [done|]. split_and!.
  - intros. by eapply shape_names.
  - intros k c Hk. apply (i_conn _ _ Hs k c Hk).
  - intros k c Hk Hd. by apply (i_conn _ _ Hs k c Hk).
Qed.

(** C9: no connection leaks. Whenever no functor is in flight, the map holds
    exactly the connections that are up, and every other connection that was
    ever accepted has been through [connectDestroyed]. *)
Theorem TcpServer_no_leak s : run s0 ls = Ok s -> (forall l, queue s l = []) ->
  (forall n k, connections_ s !! n = Some k <->
     exists c, heap s !! k = Some c /\ c_name c = n /\ closable (c_life c) = true) /\
  (forall k c, heap s !! k = Some c -> closable (c_life c) = true \/ c_destroyed c = true).
Proof using All.
  intros E Hq. destruct (server_ctor_inv false) as [Hi E1].
  destruct (run_inv false s0 ls Hi Hls ltac:(lia) ltac:(done)) as [[_ E']|(s' & E' & Hs & Hf)]; [congruence|].
  rewrite E in E'. injection E' as <-.
  assert (Hno : forall l f, ~ expected s l f).
  { intros l f He. assert (f ∈ queue s l) as Hin by (by apply (f_queue _ _ Hf)). rewrite Hq in Hin. by apply not_elem_of_nil in Hin. }
  assert (Hst : forall k c, heap s !! k = Some c -> closable (c_life c) = true \/ state_of c = kDisconnected).
  { intros k c Hk. unfold closable, state_of. destruct (l_state (c_life c)) eqn:El; auto.
    exfalso. apply (Hno (c_loop c) (FEstablished k)). by exists c. }
  split.
  - intros n k. split.
    + intros Hm. destruct (i_map _ _ Hs n k Hm) as (c & Hk & <- & _). exists c. split_and!; [done..|].
      destruct (Hst k c Hk) as [?|Hd]; [done|]. exfalso. apply (Hno base_loop (FRemoveConnection k)). by exists c.
    + intros (c & Hk & <- & Hc). by apply (i_conn _ _ Hs k c Hk), closable_states.
  - intros k c Hk. destruct (Hst k c Hk) as [?|Hd]; [by left | right].
    destruct (c_destroyed c) eqn:Ed; [done|]. exfalso.
    destruct (connections_ s !! c_name c) as [k'|] eqn:Em.
    + destruct (i_map _ _ Hs _ _ Em) as (c' & Hk' & En & _).
      pose proof (shape_names _ s k k' c c' Hs Hk Hk' (eq_sym En)). subst k'.
      apply (Hno base_loop (FRemoveConnection k)). by exists c.
    + apply (Hno (c_loop c) (FDestroyed k)). by exists c.
Qed.
End theorems.

(** [start] called by a thread other than the loop's own aborts, on a server
    that has not been started: the pool asserts that it runs in the base loop. *)
Theorem TcpServer_start_foreign_thread s cur : started_ s = 0 -> cur <> Some base_loop ->
  pool_started_ (threadPool_ s) = false -> start cur s = Fail FFatal.
Proof.
  intros H0 Hc Hp. unfold start. rewrite H0. cbn [Z.eqb]. unfold Pool_start. cbn [set_started threadPool_].
  rewrite Hp. cbn [negb assert_ check mbind res_bind]. unfold assertInLoopThread.
  by rewrite bool_decide_eq_false_2.
Qed.

Module Example.
(** The name buffer before it is written, and a callback that does nothing. *)
Definition g : bytes := repeat Byte.x2a 64.
Definition u : user_move := mkMove false true.

(** The address "::1:80", the name "S". *)
Definition ip : bytes := [Byte.x3a; Byte.x3a; Byte.x31; Byte.x3a; Byte.x38; Byte.x30].
Definition a0 : Acceptor := mkAcceptor false false 3 [].
Definition s0 : TcpServer := mkServer true ip [Byte.x53] a0 Pool_ctor false 0 1 ∅ ∅ ∅.

(** Two threads; three connections, the first of which is closed. *)
Definition day : list label :=
  [LSetThreadNum 2; LStart; LAccept (Accepted 7) g u; LAccept (Accepted 8) g u;
   LAccept (AcceptError EMFILE 9 3) g u; LAccept (Accepted 9) g u;
   LRun 1%nat u; LClose 0%nat; LRun 2%nat u; LRun 0%nat u; LRun 1%nat u; LRun 1%nat u].

Lemma day_ok : Forall label_ok day.
Proof. repeat constructor; cbn; done. Qed.
Lemma ip_ok : zlen ip <= 51 /\ nul_free ip.
Proof. split; [done|]. apply (bool_decide_unpack _). vm_compute. exact I. Qed.

Definition show (r : res TcpServer) : option (list (nat * (loop_id * StateE * bool)) * nat) :=
  match r with
  | Ok s => Some ((fun '(k, c) => (k, (c_loop c, state_of c, c_destroyed c))) <$> map_to_list (heap s),
                  base.size (connections_ s))
  | Fail _ => None
  end.

Lemma TcpServer_safe_witness :
  exists s, run s0 day = Ok s /\
    show (Ok s) = Some ([(2, (1, kConnected, false)); (1, (2, kConnected, false));
                         (0, (1, kDisconnected, true))]%nat, 2%nat).
Proof.
  destruct (TcpServer_safe ip [Byte.x53] false 3 s0) with (ls := day) as (s & E & _).
  - vm_compute. reflexivity.
  - exact ip_ok.
  - exact day_ok.
  - vm_compute. reflexivity.
  - vm_compute. reflexivity.
  - exists s. split; [exact E|]. rewrite <- E. vm_compute. reflexivity.
Defined.

Lemma idle_queues s : bool_decide (map_Forall (fun _ q => q = []) (queues s)) = true ->
  forall l, queue s l = [].
Proof.
  intros H%bool_decide_eq_true l. unfold queue. destruct (queues s !! l) as [q|] eqn:E; [|done].
  exact (H l q E).
Qed.

Lemma TcpServer_no_leak_witness :
  exists s, run s0 [LStart; LAccept (Accepted 7) g u; LClose 0%nat; LRun 0%nat u] = Ok s /\
    forall k c, heap s !! k = Some c -> closable (c_life c) = true \/ c_destroyed c = true.
Proof.
  destruct (run s0 [LStart; LAccept (Accepted 7) g u; LClose 0%nat; LRun 0%nat u]) as [s|f] eqn:E.
  2: { exfalso. revert E. vm_compute. discriminate. }
  exists s. split; [reflexivity|].
  refine (proj2 (TcpServer_no_leak ip [Byte.x53] false 3 s0 _ ip_ok _ _ _ s E _)).
  - vm_compute. reflexivity.
  - repeat constructor; cbn; done.
  - vm_compute. reflexivity.
  - apply idle_queues. revert E. vm_compute. intros [= <-]. reflexivity.
Defined.

(** A connection closes in its own loop, which queues [removeConnectionInLoop]
    to the base loop; the server is destroyed before it runs. The functor holds
    [this], so it uses a destroyed server. *)
Example TcpServer_dtor_use_after_free :
  run s0 [LSetThreadNum 1; LStart; LAccept (Accepted 7) g u; LRun 1%nat u; LClose 0%nat;
          LDestroy; LRun 0%nat u] = Fail FBounds.
Proof. vm_compute. reflexivity. Qed.

(** A user that starts to read from a connection that was just closed gives its
    channel an interest again, and [Channel::remove] asserts. *)
Example startRead_after_close :
  run s0 [LStart; LAccept (Accepted 7) g u; LClose 0%nat; LUser 0%nat (mkMove false true); LRun 0%nat u] = Fail FAssert.
Proof. vm_compute. reflexivity. Qed.

(** A server destroyed while a connection is shutting down: [connectDestroyed]
    finds the channel still registered. *)
Example TcpServer_dtor_while_disconnecting :
  run s0 [LStart; LAccept (Accepted 7) g (mkMove true true); LDestroy] = Fail FAssert.
Proof. vm_compute. reflexivity. Qed.
End Example.
