(* ===== verification/TcpServerLife.v ===== *)
(** * The life of a connection, as [TcpServer] sees it

    The server's model keeps two facts of a connection, its state and whether
    its channel has an interest. This file shows that the handlers of the full
    [TcpConnection] model, user code included, make the moves of that life. *)
From S2P Require Import Prelude Endian StringPiece Buffer MuduoBuffer Channel TcpConnection TcpSafety TcpProps TcpTheorems.
From S2P Require TcpServer.
Import TcpServer (life, mkLife, user_move, mkMove, moved, l_state, l_interest, life_established, life_closed, life_destroyed, life_user).

Section life.
Context {K : Type} (user : K -> world K -> list (api K)).
Implicit Type w : world K.

Definition life_of (w : world K) : life := mkLife (state w) (negb (isNoneEvent (chan w))).

(** A connection that is down has no interest. *)
Lemma life_of_down w : mid w -> state w = kDisconnected -> life_of w = mkLife kDisconnected false.
Proof.
  intros Hm Hs. unfold life_of. rewrite Hs. destruct (c_events _ (m_core _ Hm)) as (r & wr & Ev & H).
  rewrite Hs in H. destruct H as [-> ->]. by rewrite (interest_isNone _ _ _ Ev).
Qed.

Lemma life_of_open w : is_open (state w) -> exists u, life_of w = moved u.
Proof.
  intros [E|E]; unfold life_of; rewrite E;
    [by eexists (mkMove false (negb (isNoneEvent (chan w)))) | by eexists (mkMove true (negb (isNoneEvent (chan w))))].
Qed.

Lemma state_rel_open s s' : is_open s -> state_rel s s' -> is_open s'.
Proof. unfold is_open, state_rel. naive_solver. Qed.

Lemma established_life w : user_ok user -> good w -> state w = kConnecting ->
  sat (fun w' => exists u, life_established u (life_of w) = Ok (life_of w'))
    (connectEstablished user (set_pending w [])).
Proof.
  intros Hu [Hc Hl Hcb Ht Hb] Hs. rewrite Hs in Ht. pose proof Hc as [Hin Hout Hst Hev Hsh Hp].
  eapply sat_mono; [|apply connectEstablished_sat; try done; by split].
  intros w' [_ Ho]. destruct (life_of_open w' Ho) as [u E]. exists u. unfold life_established.
  rewrite assert_true by (by apply bool_decide_eq_true). cbn. by rewrite E.
Qed.

Lemma closed_life w : user_ok user -> mid w -> is_open (state w) ->
  sat (fun w' => life_closed (life_of w) = Ok (life_of w')) (handleClose user w).
Proof.
  intros Hu Hm Ho. eapply sat_mono; [|by apply handleClose_sat]. intros w' (Hm' & Hs' & _).
  rewrite (life_of_down w' Hm' Hs'). unfold life_closed. rewrite assert_true; [done|].
  apply orb_true_iff. rewrite !bool_decide_eq_true. exact Ho.
Qed.

Lemma destroyed_life w : mid w -> state w = kDisconnected ->
  sat (fun w' => life_destroyed (life_of w) = Ok (life_of w')) (connectDestroyed user w).
Proof.
  intros Hm Hs. rewrite (life_of_down w Hm Hs).
  unfold connectDestroyed, assertInLoopThread, isInLoopThread. rewrite (m_loop _ Hm).
  cbn [check mbind res_bind]. rewrite bool_decide_eq_false_2 by by rewrite Hs. cbn [mbind res_bind].
  pose proof (life_of_down w Hm Hs) as Hd. unfold life_of in Hd. injection Hd as _ Hn.
  apply negb_false_iff in Hn. unfold on_channel, remove. rewrite Hn. cbn.
  unfold life_destroyed, life_of, state, chan in *. cbn in *. unfold isNoneEvent in *. cbn in *. by rewrite Hn, Hs.
Qed.

Lemma user_life w a : mid w -> is_open (state w) -> api_ok (state w) a ->
  sat (fun w' => exists u, life_of w' = life_user u (life_of w)) (exec_api w a).
Proof.
  intros Hm Ho Ha. eapply sat_mono; [|apply exec_api_sat; try done; apply Hm].
  intros w' [Hc' Hr]. pose proof (r_state _ _ Hr) as Hrel.
  destruct (life_of_open w' (state_rel_open _ _ Ho Hrel)) as [u E]. exists u. rewrite E.
  unfold life_user, life_of. cbn [l_state]. destruct Ho as [Hs|Hs]; rewrite Hs; [done|].
  destruct Hrel as [E'|[E' _]]; [|congruence]. unfold life_of in E. rewrite E', Hs in E.
  unfold moved in *. destruct (TcpServer.m_shut u); [done | discriminate E].
Qed.

(** Calls on a connection that is down leave the state alone. *)
Lemma user_life_down w a : state w = kDisconnected -> inLoop w = true -> wf (inputBuffer_ (conn w)) ->
  sat (fun w' => exists u, life_of w' = life_user u (life_of w)) (exec_api w a).
Proof.
  intros Hs Hl Hwf. assert (H : sat (fun w' => state w' = kDisconnected) (exec_api w a)).
  { unfold state in *. destruct a; cbn [exec_api]; unfold send, shutdown, forceClose, forceCloseWithDelay, closable, startRead, stopRead, runInLoop,
      isInLoopThread, startReadInLoop, stopReadInLoop, assertInLoopThread, isInLoopThread, state; rewrite ?Hs, ?Hl; cbn; try done.
    - by destruct (_ || _).
    - by destruct (_ || _).
    - apply sat_bind. eapply sat_mono; [|apply retrieve_min_sat; [done | lia]]. done. }
  eapply sat_mono; [|exact H]. intros w' Hs'. exists (mkMove false (negb (isNoneEvent (chan w')))).
  unfold life_of, life_user. cbn [l_state]. by rewrite Hs, Hs'.
Qed.

End life.

Module Example.
(** The echo connection of [TcpTheorems.Example], shutting down with output pending. *)
Import TcpTheorems.Example.

End Example.
